(** * Streaming consumer and receipt verifier: a shallow embedding

    The development follows [ambient_client/streaming.py] (frame decoder,
    stream consumer, receipt generator) and [verify_receipt.py] (receipt
    verifier and its tamper simulation).

    Layout: the Python values the code handles ([Py]), SHA-256 as
    [hashlib.sha256] computes it ([Sha256]), the JSON reader ([Json]), the
    two source files ([Streaming], [VerifyReceipt]); the theorems follow the
    definitions. *)

From Stdlib Require Import String Ascii.
From Stdlib Require Import List NArith ZArith QArith Bool Lia.
Import ListNotations.

(* ================================================================== *)
(** * Python values: text, bytes, exceptions *)
(* ================================================================== *)

Module Py.

Open Scope N_scope.

(** A [str] is a sequence of Unicode code points, a [bytes] object a
    sequence of octets. *)
Definition str := list N.
Definition bytes := list N.

(** An ASCII literal of the source, as a [str]. *)
Definition lit (s : string) : str := map N_of_ascii (list_ascii_of_string s).

(** A literal in which the apostrophe stands for the double quote. *)
Definition qlit (s : string) : str :=
  map (fun c => if c =? 0x27 then 0x22 else c) (lit s).

Arguments lit s : simpl never.
Arguments qlit s : simpl never.

(** The exceptions that occur in the two files. *)
Inductive exn : Type :=
| JSONDecodeError
| AttributeError
| TypeError
| UnicodeEncodeError
| RequestException (msg : str).

(** Error monad for code that may raise. *)
Definition ret {A} (a : A) : exn + A := inr a.
Definition raise {A} (e : exn) : exn + A := inl e.
Definition bind {A B} (m : exn + A) (k : A -> exn + B) : exn + B :=
  match m with inl e => inl e | inr a => k a end.

Notation "x <- m ;; k" := (bind m (fun x => k))
  (at level 61, m at next level, right associativity).
Notation "' p <- m ;; k" := (bind m (fun x => let 'p := x in k))
  (at level 61, p pattern, m at next level, right associativity).

(** A loop body run over the items of a list, threading an accumulator. *)
Fixpoint foldM {A B} (f : B -> A -> exn + B) (l : list A) (acc : B) : exn + B :=
  match l with
  | [] => ret acc
  | x :: l' => acc' <- f acc x ;; foldM f l' acc'
  end.

(** [str(n)] for an [int]. *)
Fixpoint digits (fuel : nat) (n : N) (acc : list N) : list N :=
  match fuel with
  | O => acc
  | S f =>
    let acc' := (0x30 + n mod 10) :: acc in
    if n / 10 =? 0 then acc' else digits f (n / 10) acc'
  end.

Definition str_of_int (z : Z) : list N :=
  match z with
  | Zneg p => 0x2D :: digits (S (N.size_nat (Npos p))) (Npos p) []
  | _ => digits (S (N.size_nat (Z.to_N z))) (Z.to_N z) []
  end.

(** [s.replace(old, new)] for one-character [old] and [new]. *)
Definition replace_char (old new : N) (s : list N) : list N :=
  map (fun c => if c =? old then new else c) s.

Fixpoint str_eqb (a b : str) : bool :=
  match a, b with
  | [], [] => true
  | x :: a', y :: b' => (x =? y) && str_eqb a' b'
  | _, _ => false
  end.

(** [str.isspace] for one code point: the interpreter's whitespace table. *)
Definition isspace (c : N) : bool :=
  ((0x09 <=? c) && (c <=? 0x0D)) || ((0x1C <=? c) && (c <=? 0x20))
  || (c =? 0x85) || (c =? 0xA0) || (c =? 0x1680)
  || ((0x2000 <=? c) && (c <=? 0x200A))
  || (c =? 0x2028) || (c =? 0x2029) || (c =? 0x202F) || (c =? 0x205F)
  || (c =? 0x3000).

Fixpoint lstrip (s : str) : str :=
  match s with
  | c :: s' => if isspace c then lstrip s' else s
  | [] => []
  end.

Definition rstrip (s : str) : str := rev (lstrip (rev s)).

(** [s.strip()] *)
Definition strip (s : str) : str := rstrip (lstrip s).

(** [s.startswith(p)] *)
Fixpoint startswith (s p : str) : bool :=
  match p, s with
  | [], _ => true
  | x :: p', y :: s' => (x =? y) && startswith s' p'
  | _ :: _, [] => false
  end.

(** [sep.join(parts)] *)
Fixpoint join (sep : str) (parts : list str) : str :=
  match parts with
  | [] => []
  | [x] => x
  | x :: rest => x ++ sep ++ join sep rest
  end.

(** The one-character string of a line feed. *)
Definition NEWLINE : str := [0x0A].

(** [c in alphabet] for a one-character [c]. *)
Definition char_in (c : N) (alphabet : str) : bool := existsb (N.eqb c) alphabet.

(** ** UTF-8 *)

Definition is_surrogate (c : N) : bool := (0xD800 <=? c) && (c <=? 0xDFFF).

(** A code point [str.encode()] accepts. *)
Definition encodable (c : N) : bool := negb (is_surrogate c) && (c <? 0x110000).

Definition encode_cp (c : N) : bytes :=
  if c <? 0x80 then [c]
  else if c <? 0x800 then [0xC0 + c / 64; 0x80 + c mod 64]
  else if c <? 0x10000 then
    [0xE0 + c / 4096; 0x80 + (c / 64) mod 64; 0x80 + c mod 64]
  else
    [0xF0 + c / 262144; 0x80 + (c / 4096) mod 64;
     0x80 + (c / 64) mod 64; 0x80 + c mod 64].

(** [s.encode()]: UTF-8, strict; a lone surrogate raises. *)
Definition encode (s : str) : exn + bytes :=
  if forallb encodable s then ret (flat_map encode_cp s)
  else raise UnicodeEncodeError.

Definition is_cont (b : N) : bool := (0x80 <=? b) && (b <? 0xC0).

(** Second byte of a three-byte sequence led by [b0]. *)
Definition second3_ok (b0 b1 : N) : bool :=
  is_cont b1 && negb (if b1 <? 0xA0 then b0 =? 0xE0 else b0 =? 0xED).

(** Second byte of a four-byte sequence led by [b0]. *)
Definition second4_ok (b0 b1 : N) : bool :=
  is_cont b1 && negb (if b1 <? 0x90 then b0 =? 0xF0 else b0 =? 0xF4).

Definition low6 (b : N) : N := b mod 64.

(** The UTF-8 decoder: one item per decoded code point, [None] for each
    malformed range the decoder reports (an invalid start byte, a lead byte
    with the valid continuation bytes that follow it, or a sequence cut by
    the end of the input). *)
Fixpoint decode_items (l : bytes) : list (option N) :=
  match l with
  | [] => []
  | b0 :: t0 =>
    if b0 <? 0x80 then Some b0 :: decode_items t0
    else if b0 <? 0xC2 then None :: decode_items t0
    else if b0 <? 0xE0 then
      match t0 with
      | [] => [None]
      | b1 :: t1 =>
        if is_cont b1
        then Some ((b0 mod 32) * 64 + low6 b1) :: decode_items t1
        else None :: decode_items t0
      end
    else if b0 <? 0xF0 then
      match t0 with
      | [] => [None]
      | b1 :: t1 =>
        if second3_ok b0 b1 then
          match t1 with
          | [] => [None]
          | b2 :: t2 =>
            if is_cont b2
            then Some ((b0 mod 16) * 4096 + low6 b1 * 64 + low6 b2)
                   :: decode_items t2
            else None :: decode_items t1
          end
        else None :: decode_items t0
      end
    else if b0 <? 0xF5 then
      match t0 with
      | [] => [None]
      | b1 :: t1 =>
        if second4_ok b0 b1 then
          match t1 with
          | [] => [None]
          | b2 :: t2 =>
            if is_cont b2 then
              match t2 with
              | [] => [None]
              | b3 :: t3 =>
                if is_cont b3
                then Some ((b0 mod 8) * 262144 + low6 b1 * 4096
                           + low6 b2 * 64 + low6 b3) :: decode_items t3
                else None :: decode_items t2
              end
            else None :: decode_items t1
          end
        else None :: decode_items t0
      end
    else None :: decode_items t0
  end.

(** [b.decode("utf-8")]: raises [UnicodeDecodeError] ([None]) on any
    malformed range. *)
Fixpoint all_some (l : list (option N)) : option str :=
  match l with
  | [] => Some []
  | Some c :: l' =>
    match all_some l' with Some s => Some (c :: s) | None => None end
  | None :: _ => None
  end.

Definition decode_strict (b : bytes) : option str := all_some (decode_items b).

Definition REPLACEMENT : N := 0xFFFD.

(** [b.decode("utf-8", errors="replace")] *)
Definition decode_replace (b : bytes) : str :=
  map (fun o => match o with Some c => c | None => REPLACEMENT end)
      (decode_items b).

End Py.

(* ================================================================== *)
(** * SHA-256 ([hashlib.sha256(...).hexdigest()]) *)
(* ================================================================== *)

Module Sha256.

Import Py.
Open Scope N_scope.

Definition mask32 : N := 0xFFFFFFFF.
Definition add32 (a b : N) : N := N.land (a + b) mask32.
Definition rotr (n x : N) : N :=
  N.lor (N.shiftr x n) (N.land (N.shiftl x (32 - n)) mask32).
Definition shr (n x : N) : N := N.shiftr x n.
Definition not32 (x : N) : N := N.lxor x mask32.

Definition Ch (x y z : N) : N := N.lxor (N.land x y) (N.land (not32 x) z).
Definition Maj (x y z : N) : N :=
  N.lxor (N.land x y) (N.lxor (N.land x z) (N.land y z)).
Definition bsig0 (x : N) : N := N.lxor (rotr 2 x) (N.lxor (rotr 13 x) (rotr 22 x)).
Definition bsig1 (x : N) : N := N.lxor (rotr 6 x) (N.lxor (rotr 11 x) (rotr 25 x)).
Definition ssig0 (x : N) : N := N.lxor (rotr 7 x) (N.lxor (rotr 18 x) (shr 3 x)).
Definition ssig1 (x : N) : N := N.lxor (rotr 17 x) (N.lxor (rotr 19 x) (shr 10 x)).

(** The first sixty-four primes. *)
Definition is_prime (n : N) : bool :=
  forallb (fun d => negb (n mod N.of_nat d =? 0)) (seq 2 (N.to_nat n - 2)).

Definition primes : list N :=
  Eval vm_compute in filter is_prime (map N.of_nat (seq 2 310)).

(** The integer cube root of a number below 2^108, bit by bit. *)
Definition icbrt (n : N) : N :=
  fold_left (fun x k => let y := x + 2 ^ N.of_nat k in
                        if y * y * y <=? n then y else x)
            (rev (seq 0 36)) 0.

(** The round constants: the first 32 bits of the fractional parts of the
    cube roots of the primes. *)
Definition K : list N :=
  Eval vm_compute in map (fun p => icbrt (p * 2 ^ 96) mod 2 ^ 32) primes.

(** The eight working words. *)
Record state : Type := mkState
  { ha : N; hb : N; hc : N; hd : N; he : N; hf : N; hg : N; hh : N }.

(** The initial hash value: the first 32 bits of the fractional parts of
    the square roots of the first eight primes. *)
Definition H0 : state :=
  Eval vm_compute in
    match map (fun p => N.sqrt (p * 2 ^ 64) mod 2 ^ 32) (firstn 8 primes) with
    | [a; b; c; d; e; f; g; h] => mkState a b c d e f g h
    | _ => mkState 0 0 0 0 0 0 0 0
    end.

(** Big-endian octets of [x], [n] of them. *)
Fixpoint be_bytes (n : nat) (x : N) : bytes :=
  match n with
  | O => []
  | S n' => be_bytes n' (x / 256) ++ [x mod 256]
  end.

Definition pad (msg : bytes) : bytes :=
  let len := N.of_nat (length msg) in
  let k := (64 - (len + 9) mod 64) mod 64 in
  msg ++ [0x80] ++ repeat 0 (N.to_nat k) ++ be_bytes 8 (8 * len).

(** Big-endian 32-bit words of a block. *)
Fixpoint words (fuel : nat) (b : bytes) : list N :=
  match fuel, b with
  | S f, b0 :: b1 :: b2 :: b3 :: rest =>
    (((b0 * 256 + b1) * 256 + b2) * 256 + b3) :: words f rest
  | _, _ => []
  end.

(** Message schedule: [w] holds the last sixteen words, oldest first. *)
Fixpoint schedule (n : nat) (w : list N) : list N :=
  match n with
  | O => []
  | S n' =>
    let x := add32 (add32 (ssig1 (nth 14 w 0)) (nth 9 w 0))
                   (add32 (ssig0 (nth 1 w 0)) (nth 0 w 0)) in
    x :: schedule n' (tl w ++ [x])
  end.

Definition round (s : state) (kw : N * N) : state :=
  let t1 := add32 (add32 (add32 (hh s) (bsig1 (he s))) (Ch (he s) (hf s) (hg s)))
                  (add32 (fst kw) (snd kw)) in
  let t2 := add32 (bsig0 (ha s)) (Maj (ha s) (hb s) (hc s)) in
  mkState (add32 t1 t2) (ha s) (hb s) (hc s) (add32 (hd s) t1) (he s) (hf s) (hg s).

Definition compress (s : state) (block : bytes) : state :=
  let w16 := words 16 block in
  let w := w16 ++ schedule 48 w16 in
  let s' := fold_left round (combine K w) s in
  mkState (add32 (ha s) (ha s')) (add32 (hb s) (hb s')) (add32 (hc s) (hc s'))
          (add32 (hd s) (hd s')) (add32 (he s) (he s')) (add32 (hf s) (hf s'))
          (add32 (hg s) (hg s')) (add32 (hh s) (hh s')).

Fixpoint blocks (fuel : nat) (s : state) (b : bytes) : state :=
  match fuel, b with
  | S f, _ :: _ => blocks f (compress s (firstn 64 b)) (skipn 64 b)
  | _, _ => s
  end.

Definition sha256 (msg : bytes) : state :=
  let p := pad msg in blocks (length p) H0 p.

Definition hex_alphabet : str := lit "0123456789abcdef".

Definition hexdigit (d : N) : N := nth (N.to_nat d) hex_alphabet 0.

(** Eight lower-case hexadecimal digits of a word. *)
Definition hex8 (x : N) : str :=
  map (fun k => hexdigit ((x / 16 ^ k) mod 16)) [7; 6; 5; 4; 3; 2; 1; 0].

(** [hashlib.sha256(msg).hexdigest()] *)
Definition hexdigest (msg : bytes) : str :=
  let s := sha256 msg in
  hex8 (ha s) ++ hex8 (hb s) ++ hex8 (hc s) ++ hex8 (hd s)
  ++ hex8 (he s) ++ hex8 (hf s) ++ hex8 (hg s) ++ hex8 (hh s).

End Sha256.


(* ================================================================== *)
(** * JSON values and [json.loads] *)
(* ================================================================== *)

Module Json.

Import Py.
Open Scope N_scope.

(** A Python float as [json.loads] produces it: a constant, or the double
    nearest to [m * 10^e] for a number written with a fraction or an
    exponent.  The code only tests floats for truth and against zero, and
    both are decided on the decimal. *)
Inductive pyfloat : Type :=
| FNaN
| FInf (negative : bool)
| FDec (m e : Z).

(** The values [json.loads] returns. A dict keeps its items in insertion
    order, one per key. *)
#[local] Unset Elimination Schemes.
Inductive pyval : Type :=
| PNone
| PBool (b : bool)
| PInt (z : Z)
| PFloat (f : pyfloat)
| PStr (s : str)
| PList (l : list pyval)
| PDict (d : list (str * pyval)).
#[local] Set Elimination Schemes.

(** [m * 10^e] rounds to a double other than zero: it exceeds half of the
    least subnormal, 2^-1075. *)
Definition dec_nonzero (m e : Z) : bool :=
  (negb (m =? 0) &&
   (if 0 <=? e then true
    else 10 ^ (- e) <? Z.abs m * 2 ^ 1075))%Z.

Definition float_truthy (f : pyfloat) : bool :=
  match f with
  | FNaN => true
  | FInf _ => true
  | FDec m e => dec_nonzero m e
  end.

(** [f > 0] *)
Definition float_pos (f : pyfloat) : bool :=
  match f with
  | FNaN => false
  | FInf negative => negb negative
  | FDec m e => (0 <? m)%Z && dec_nonzero m e
  end.

(** Truth value of an object ([bool(v)]). *)
Definition truthy (v : pyval) : bool :=
  match v with
  | PNone => false
  | PBool b => b
  | PInt z => negb (z =? 0)%Z
  | PFloat f => float_truthy f
  | PStr s => match s with [] => false | _ => true end
  | PList l => match l with [] => false | _ => true end
  | PDict d => match d with [] => false | _ => true end
  end.

(** [a or b] *)
Definition por (a b : pyval) : pyval := if truthy a then a else b.

Fixpoint dict_get (d : list (str * pyval)) (k : str) : option pyval :=
  match d with
  | [] => None
  | (k', v) :: d' => if str_eqb k' k then Some v else dict_get d' k
  end.

(** [d[k] = v] *)
Fixpoint dict_set (d : list (str * pyval)) (k : str) (v : pyval)
  : list (str * pyval) :=
  match d with
  | [] => [(k, v)]
  | (k', v') :: d' =>
    if str_eqb k' k then (k', v) :: d' else (k', v') :: dict_set d' k v
  end.

(** [obj.get(k, default)]: only a dict has the method. *)
Definition get (obj : pyval) (k : str) (default : pyval) : exn + pyval :=
  match obj with
  | PDict d => ret (match dict_get d k with Some v => v | None => default end)
  | _ => raise AttributeError
  end.

(** The items [for x in v] visits. *)
Definition iter (v : pyval) : exn + list pyval :=
  match v with
  | PList l => ret l
  | PDict d => ret (map (fun kv => PStr (fst kv)) d)
  | PStr s => ret (map (fun c => PStr [c]) s)
  | _ => raise TypeError
  end.

(** [s += v] for a [str] [s]. *)
Definition str_iadd (s : str) (v : pyval) : exn + str :=
  match v with
  | PStr t => ret (s ++ t)
  | _ => raise TypeError
  end.

(** [v > 0] *)
Definition gt0 (v : pyval) : exn + bool :=
  match v with
  | PBool b => ret b
  | PInt z => ret (0 <? z)%Z
  | PFloat f => ret (float_pos f)
  | _ => raise TypeError
  end.

(** ** The reader

    [json.loads] with its defaults (strict strings, [NaN] and [Infinity]
    accepted). [None] stands for [JSONDecodeError]. The interpreter's
    resource limits (recursion depth, the digit limit of [int]) are not
    part of the reader: beyond them [json.loads] raises a [RecursionError]
    or a [ValueError] where the reader goes on. A statement that needs
    the frames to stay clear of the limits says so. *)

Definition QUOTE : N := 0x22.
Definition BACKSLASH : N := 0x5C.
Definition ch (a : ascii) : N := N_of_ascii a.

Definition is_json_ws (c : N) : bool :=
  (c =? 0x20) || (c =? 0x09) || (c =? 0x0A) || (c =? 0x0D).

Fixpoint skip_ws (s : str) : str :=
  match s with
  | c :: s' => if is_json_ws c then skip_ws s' else s
  | [] => []
  end.

Definition is_digit (c : N) : bool := (0x30 <=? c) && (c <=? 0x39).

Definition hexval (c : N) : option N :=
  if is_digit c then Some (c - 0x30)
  else if (0x61 <=? c) && (c <=? 0x66) then Some (c - 0x61 + 10)
  else if (0x41 <=? c) && (c <=? 0x46) then Some (c - 0x41 + 10)
  else None.

Definition hex4 (a b c d : N) : option N :=
  match hexval a, hexval b, hexval c, hexval d with
  | Some x, Some y, Some z, Some w => Some (((x * 16 + y) * 16 + z) * 16 + w)
  | _, _, _, _ => None
  end.

Definition is_high (c : N) : bool := (0xD800 <=? c) && (c <=? 0xDBFF).
Definition is_low (c : N) : bool := (0xDC00 <=? c) && (c <=? 0xDFFF).

Definition simple_escape (c : N) : option N :=
  if c =? QUOTE then Some QUOTE
  else if c =? BACKSLASH then Some BACKSLASH
  else if c =? ch "/" then Some (ch "/")
  else if c =? ch "b" then Some 0x08
  else if c =? ch "f" then Some 0x0C
  else if c =? ch "n" then Some 0x0A
  else if c =? ch "r" then Some 0x0D
  else if c =? ch "t" then Some 0x09
  else None.

(** The low half of a surrogate pair written right after a high one. *)
Definition low_escape (s : str) : option (N * str) :=
  match s with
  | b :: u :: g1 :: g2 :: g3 :: g4 :: r =>
    if (b =? BACKSLASH) && (u =? ch "u") then
      match hex4 g1 g2 g3 g4 with
      | Some c2 => if is_low c2 then Some (c2, r) else None
      | None => None
      end
    else None
  | _ => None
  end.

(** The text of a string, read from just after its opening quote. *)
Fixpoint scanstring (fuel : nat) (s : str) : option (str * str) :=
  match fuel with
  | O => None
  | S f =>
    match s with
    | [] => None
    | c :: r =>
      if c =? QUOTE then Some ([], r)
      else if c =? BACKSLASH then
        match r with
        | [] => None
        | e :: r1 =>
          if e =? ch "u" then
            match r1 with
            | h1 :: h2 :: h3 :: h4 :: r5 =>
              match hex4 h1 h2 h3 h4 with
              | None => None
              | Some c1 =>
                let '(cp, rest) :=
                  if is_high c1 then
                    match low_escape r5 with
                    | Some (c2, r11) =>
                      (0x10000 + (c1 - 0xD800) * 1024 + (c2 - 0xDC00), r11)
                    | None => (c1, r5)
                    end
                  else (c1, r5) in
                match scanstring f rest with
                | Some (t, r') => Some (cp :: t, r')
                | None => None
                end
              end
            | _ => None
            end
          else
            match simple_escape e with
            | None => None
            | Some x =>
              match scanstring f r1 with
              | Some (t, r') => Some (x :: t, r')
              | None => None
              end
            end
        end
      else if c <=? 0x1F then None
      else
        match scanstring f r with
        | Some (t, r') => Some (c :: t, r')
        | None => None
        end
    end
  end.

(** Leading decimal digits and what follows them. *)
Fixpoint span_digits (s : str) : str * str :=
  match s with
  | c :: s' =>
    if is_digit c then let '(d, r) := span_digits s' in (c :: d, r)
    else ([], s)
  | [] => ([], [])
  end.

Definition digits_value (d : str) : Z :=
  fold_left (fun acc c => (acc * 10 + Z.of_N (c - 0x30))%Z) d 0%Z.

(** Integer part: [0], or a non-zero digit and the digits after it. *)
Definition int_part (s : str) : option (str * str) :=
  match s with
  | c :: s' =>
    if c =? ch "0" then Some ([c], s')
    else if is_digit c then let '(d, r) := span_digits s' in Some (c :: d, r)
    else None
  | [] => None
  end.

(** Fraction: a dot and at least one digit, or nothing. *)
Definition frac_part (s : str) : option str * str :=
  match s with
  | c :: s' =>
    if c =? ch "." then
      match span_digits s' with
      | ([], _) => (None, s)
      | (d, r) => (Some d, r)
      end
    else (None, s)
  | [] => (None, s)
  end.

(** Exponent: [e] or [E], an optional sign and at least one digit, or
    nothing. *)
Definition exp_part (s : str) : option Z * str :=
  match s with
  | c :: s' =>
    if (c =? ch "e") || (c =? ch "E") then
      let '(neg, s'') :=
        match s' with
        | g :: t =>
          if g =? ch "-" then (true, t)
          else if g =? ch "+" then (false, t)
          else (false, s')
        | [] => (false, s')
        end in
      match span_digits s'' with
      | ([], _) => (None, s)
      | (d, r) =>
        (Some (if neg then (- digits_value d)%Z else digits_value d), r)
      end
    else (None, s)
  | [] => (None, s)
  end.

(** A number: an [int] when it has neither fraction nor exponent, a
    [float] otherwise. *)
Definition scan_number (s : str) : option (pyval * str) :=
  let '(neg, s1) :=
    match s with
    | c :: s' => if c =? ch "-" then (true, s') else (false, s)
    | [] => (false, s)
    end in
  match int_part s1 with
  | None => None
  | Some (i, s2) =>
    let '(fr, s3) := frac_part s2 in
    let '(ex, s4) := exp_part s3 in
    let sign (z : Z) := if neg then (- z)%Z else z in
    match fr, ex with
    | None, None => Some (PInt (sign (digits_value i)), s4)
    | _, _ =>
      let fd := match fr with Some d => d | None => [] end in
      let e := match ex with Some e => e | None => 0%Z end in
      Some (PFloat (FDec (sign (digits_value (i ++ fd)))
                         (e - Z.of_nat (length fd))%Z), s4)
    end
  end.

(** One JSON value at the head of [s]; arrays and objects read their items
    in the two loops below. *)
Fixpoint scan_once (fuel : nat) (s : str) : option (pyval * str) :=
  match fuel with
  | O => None
  | S f =>
    match s with
    | [] => None
    | c :: r =>
      if c =? QUOTE then
        match scanstring (S (length r)) r with
        | Some (t, r') => Some (PStr t, r')
        | None => None
        end
      else if c =? ch "{" then
        match skip_ws r with
        | c' :: r' =>
          if c' =? ch "}" then Some (PDict [], r')
          else scan_members f (skip_ws r) []
        | [] => None
        end
      else if c =? ch "[" then
        match skip_ws r with
        | c' :: r' =>
          if c' =? ch "]" then Some (PList [], r')
          else scan_items f (skip_ws r) []
        | [] => None
        end
      else if startswith s (lit "null") then Some (PNone, skipn 4 s)
      else if startswith s (lit "true") then Some (PBool true, skipn 4 s)
      else if startswith s (lit "false") then Some (PBool false, skipn 5 s)
      else if startswith s (lit "NaN") then Some (PFloat FNaN, skipn 3 s)
      else if startswith s (lit "Infinity")
           then Some (PFloat (FInf false), skipn 8 s)
      else if startswith s (lit "-Infinity")
           then Some (PFloat (FInf true), skipn 9 s)
      else scan_number s
    end
  end

(** The items of a non-empty array, from its first item on. *)
with scan_items (fuel : nat) (s : str) (acc : list pyval)
  : option (pyval * str) :=
  match fuel with
  | O => None
  | S f =>
    match scan_once f s with
    | None => None
    | Some (v, r) =>
      match skip_ws r with
      | c :: r' =>
        if c =? ch "]" then Some (PList (acc ++ [v]), r')
        else if c =? ch "," then scan_items f (skip_ws r') (acc ++ [v])
        else None
      | [] => None
      end
    end
  end

(** The members of a non-empty object, from its first key on. *)
with scan_members (fuel : nat) (s : str) (acc : list (str * pyval))
  : option (pyval * str) :=
  match fuel with
  | O => None
  | S f =>
    match s with
    | q :: r0 =>
      if q =? QUOTE then
        match scanstring (S (length r0)) r0 with
        | None => None
        | Some (k, r1) =>
          match skip_ws r1 with
          | c1 :: r2 =>
            if c1 =? ch ":" then
              match scan_once f (skip_ws r2) with
              | None => None
              | Some (v, r3) =>
                match skip_ws r3 with
                | c :: r' =>
                  if c =? ch "}" then Some (PDict (dict_set acc k v), r')
                  else if c =? ch ","
                       then scan_members f (skip_ws r') (dict_set acc k v)
                  else None
                | [] => None
                end
              end
            else None
          | [] => None
          end
        end
      else None
    | [] => None
    end
  end.

(** [json.loads(s)]: a text that starts with a byte order mark is
    refused; otherwise one value, with white space around it. *)
Definition loads (s : str) : exn + pyval :=
  if startswith s [0xFEFF] then raise JSONDecodeError
  else
    let s' := skip_ws s in
    match scan_once (2 * length s' + 2) s' with
    | Some (v, r) =>
      match skip_ws r with
      | [] => ret v
      | _ :: _ => raise JSONDecodeError
      end
    | None => raise JSONDecodeError
    end.

End Json.


(* ================================================================== *)
(** * [ambient_client/streaming.py] *)
(* ================================================================== *)

Module Streaming.

Import Py Json.
Open Scope N_scope.

(** The file a receipt is written to: [Path(receipt_dir) / filename]. *)
Definition path : Type := (str * str)%type.

Record StreamResult : Type := mkStreamResult
  { text : str;
    reasoning : str;
    ttfb_ms : option Q;
    ttc_ms : option Q;
    prompt_tokens : pyval;
    completion_tokens : pyval;
    stall_count : Z;
    parse_errors : Z;
    error : option str;
    receipt_path : option path }.

(** [StreamResult()] *)
Definition StreamResult_default : StreamResult :=
  mkStreamResult [] [] None None (PInt 0) (PInt 0) 0 0 None None.

(** The receipt dict, a key absent when its field is [None]. *)
Record receipt : Type := mkReceipt
  { r_model : option str;
    r_timestamp : option Z;
    r_events_hash : option str;
    r_payload_hash : option str;
    r_event_count : option Z;
    r_raw_events : option (list str) }.

(** Directories made and files written; the latest write of a path comes
    first. Making a directory and writing a file are taken to succeed. *)
Record filesystem : Type := mkFs
  { dirs : list str;
    files : list (path * receipt) }.

(** What the server does with the request: [requests.post] or
    [raise_for_status] raises a [RequestException], or the body delivers
    lines ([iter_lines] yields [bytes]) and then ends, at the end of the
    stream or with a [RequestException] raised while reading. *)
Inductive response : Type :=
| Refused (exc : str)
| Body (lines : list bytes) (failure : option str).

(** The world a call runs in: the readings of [time.monotonic()] in the
    order they are taken, [int(time.time())] when the receipt is written,
    and the server's response. Clock readings are rationals; the rounding
    of float arithmetic is not modelled. *)
Record world : Type := mkWorld
  { monotonic : nat -> Q;
    wall_time : Z;
    server : response }.

(** A line handed to the decoder. *)
Inductive line : Type :=
| LBytes (b : bytes)
| LStr (s : str).

Definition decode_line (l : line) : str :=
  match l with
  | LBytes b =>
    match decode_strict b with
    | Some s => s
    | None => decode_replace b
    end
  | LStr s => s
  end.

Definition DATA_PREFIX : str := lit "data:".
Definition DONE : str := lit "[DONE]".

Fixpoint _iter_sse_data (lines : list line) : list str :=
  match lines with
  | [] => []
  | l :: rest =>
    let line := strip (decode_line l) in
    if startswith line DATA_PREFIX
    then strip (skipn 5 line) :: _iter_sse_data rest
    else _iter_sse_data rest
  end.

(** The body of the loop over the choices. *)
Definition extract_choice (acc : str * str) (choice : pyval)
  : exn + (str * str) :=
  d <- get choice (lit "delta") PNone ;;
  let delta := por d (PDict []) in
  c <- get delta (lit "content") PNone ;;
  content <- str_iadd (fst acc) (por c (PStr [])) ;;
  r <- get delta (lit "reasoning_content") PNone ;;
  reasoning <- str_iadd (snd acc) (por r (PStr [])) ;;
  ret (content, reasoning).

Definition _extract_content_parts (obj : pyval) : exn + (str * str) :=
  choices <- get obj (lit "choices") (PList []) ;;
  items <- iter choices ;;
  foldM extract_choice items ([], []).

(** [payload] is the request body in its canonical serialisation,
    [json.dumps(payload, sort_keys=True).encode()], the only form in which
    the receipt reads it. The result is the path returned or the exception
    raised, and the file system after the call. *)
Definition _write_receipt (w : world) (receipt_dir model : str)
           (payload : bytes) (raw_events : list str) (fs : filesystem)
  : (exn + path) * filesystem :=
  let fs1 := mkFs (receipt_dir :: dirs fs) (files fs) in
  let raw_text := join NEWLINE raw_events in
  match encode raw_text with
  | inl e => (inl e, fs1)
  | inr raw_bytes =>
    let events_hash := firstn 16 (Sha256.hexdigest raw_bytes) in
    let ts := wall_time w in
    let safe_model := replace_char (ch ":") (ch "_")
                        (replace_char (ch "/") (ch "_") model) in
    let filename := str_of_int ts ++ lit "_" ++ safe_model ++ lit "_"
                    ++ events_hash ++ lit ".json" in
    let p := (receipt_dir, filename) in
    let receipt :=
      mkReceipt (Some model) (Some ts)
                (Some (Sha256.hexdigest raw_bytes))
                (Some (Sha256.hexdigest payload))
                (Some (Z.of_nat (length raw_events)))
                (Some raw_events) in
    (inr p, mkFs (dirs fs1) ((p, receipt) :: files fs1))
  end.

(** The variables the [for] loop of [stream_chat] works on; [reads] counts
    the calls of [time.monotonic()] made so far. *)
Record session : Type := mkSession
  { result : StreamResult;
    raw_events : list str;
    last_chunk_time : Q;
    reads : nat }.

Definition set_stall (r : StreamResult) (n : Z) : StreamResult :=
  mkStreamResult (text r) (reasoning r) (ttfb_ms r) (ttc_ms r)
    (prompt_tokens r) (completion_tokens r) n (parse_errors r)
    (error r) (receipt_path r).

Definition set_ttfb (r : StreamResult) (t : option Q) : StreamResult :=
  mkStreamResult (text r) (reasoning r) t (ttc_ms r)
    (prompt_tokens r) (completion_tokens r) (stall_count r) (parse_errors r)
    (error r) (receipt_path r).

Definition set_ttc (r : StreamResult) (t : option Q) : StreamResult :=
  mkStreamResult (text r) (reasoning r) (ttfb_ms r) t
    (prompt_tokens r) (completion_tokens r) (stall_count r) (parse_errors r)
    (error r) (receipt_path r).

Definition set_parse_errors (r : StreamResult) (n : Z) : StreamResult :=
  mkStreamResult (text r) (reasoning r) (ttfb_ms r) (ttc_ms r)
    (prompt_tokens r) (completion_tokens r) (stall_count r) n
    (error r) (receipt_path r).

Definition set_texts (r : StreamResult) (t rs : str) : StreamResult :=
  mkStreamResult t rs (ttfb_ms r) (ttc_ms r)
    (prompt_tokens r) (completion_tokens r) (stall_count r) (parse_errors r)
    (error r) (receipt_path r).

Definition set_prompt_tokens (r : StreamResult) (v : pyval) : StreamResult :=
  mkStreamResult (text r) (reasoning r) (ttfb_ms r) (ttc_ms r)
    v (completion_tokens r) (stall_count r) (parse_errors r)
    (error r) (receipt_path r).

Definition set_completion_tokens (r : StreamResult) (v : pyval) : StreamResult :=
  mkStreamResult (text r) (reasoning r) (ttfb_ms r) (ttc_ms r)
    (prompt_tokens r) v (stall_count r) (parse_errors r)
    (error r) (receipt_path r).

Definition set_error (r : StreamResult) (e : option str) : StreamResult :=
  mkStreamResult (text r) (reasoning r) (ttfb_ms r) (ttc_ms r)
    (prompt_tokens r) (completion_tokens r) (stall_count r) (parse_errors r)
    e (receipt_path r).

Definition set_receipt_path (r : StreamResult) (p : option path) : StreamResult :=
  mkStreamResult (text r) (reasoning r) (ttfb_ms r) (ttc_ms r)
    (prompt_tokens r) (completion_tokens r) (stall_count r) (parse_errors r)
    (error r) p.

Definition is_some {A} (o : option A) : bool :=
  match o with Some _ => true | None => false end.

(** [a > b] on clock values. *)
Definition Qgtb (a b : Q) : bool := negb (Qle_bool a b).

Definition ms (seconds : Q) : Q := (seconds * (1000 # 1))%Q.

(** The usage block of a parsed frame, lines 83 to 87. *)
Definition update_usage (r : StreamResult) (obj : pyval) : exn + StreamResult :=
  u <- get obj (lit "usage") PNone ;;
  let usage := por u (PDict []) in
  p <- get usage (lit "prompt_tokens") PNone ;;
  let r1 := if truthy p then set_prompt_tokens r p else r in
  c <- get usage (lit "completion_tokens") PNone ;;
  ret (if truthy c then set_completion_tokens r1 c else r1).

(** One turn of the [for] loop on the frame [event_data]; the boolean says
    whether the turn ended in [break]. The turn is that of a call with
    [verbose] left at its default [False], as [benchmark.py] and
    [verify_receipt.py] call [stream_chat]: the echo of lines 80 and 81 is
    then skipped. The clock readings are rationals, where Python has
    floats. *)
Definition consume_frame (w : world) (t_start stall_threshold_ms : Q)
           (s : session) (event_data : str) : exn + (session * bool) :=
  let now := monotonic w (reads s) in
  let gap_ms := ms (now - last_chunk_time s) in
  let r1 :=
    if Qgtb gap_ms stall_threshold_ms && is_some (ttfb_ms (result s))
    then set_stall (result s) (stall_count (result s) + 1)
    else result s in
  let r2 :=
    match ttfb_ms r1 with
    | None => set_ttfb r1 (Some (ms (now - t_start)))
    | Some _ => r1
    end in
  let raw := raw_events s ++ [event_data] in
  if str_eqb (strip event_data) DONE
  then ret (mkSession r2 raw now (S (reads s)), true)
  else
    match loads event_data with
    | inl JSONDecodeError =>
      ret (mkSession (set_parse_errors r2 (parse_errors r2 + 1)) raw now
                     (S (reads s)), false)
    | inl e => raise e
    | inr obj =>
      '(content, reasoning') <- _extract_content_parts obj ;;
      let r3 := set_texts r2 (text r2 ++ content) (reasoning r2 ++ reasoning') in
      r4 <- update_usage r3 obj ;;
      ret (mkSession r4 raw now (S (reads s)), false)
    end.

(** The [for] loop over the frames the decoder yields. *)
Fixpoint consume (w : world) (t_start stall_threshold_ms : Q)
         (s : session) (frames : list str) : exn + (session * bool) :=
  match frames with
  | [] => ret (s, false)
  | event_data :: rest =>
    '(s', stop) <- consume_frame w t_start stall_threshold_ms s event_data ;;
    if stop then ret (s', true)
    else consume w t_start stall_threshold_ms s' rest
  end.

(** The variables as they stand when the request is sent: [t_start] has
    been read. *)
Definition fresh_session (w : world) : session :=
  mkSession StreamResult_default [] (monotonic w 0) 1.

(** The [try] statement: the request, the loop, and the handler of
    [requests.RequestException]. Any other exception leaves the function. *)
Definition request (w : world) (stall_threshold_ms : Q) : exn + session :=
  let t_start := monotonic w 0 in
  let s0 := fresh_session w in
  match server w with
  | Refused exc => ret (mkSession (set_error (result s0) (Some exc)) [] t_start 1)
  | Body lines failure =>
    '(s, stop) <- consume w t_start stall_threshold_ms s0
                          (_iter_sse_data (map LBytes lines)) ;;
    match stop, failure with
    | false, Some exc =>
      ret (mkSession (set_error (result s) (Some exc)) (raw_events s)
                     (last_chunk_time s) (reads s))
    | _, _ => ret s
    end
  end.

(** [stream_chat] called without [verbose]: the result returned or the
    exception raised, and the file system after the call. The URL, key,
    messages and sampling options only shape the request; [server w] is
    what comes back. *)
Definition stream_chat (w : world) (model : str) (payload : bytes)
           (stall_threshold_ms : Q) (save_receipt : bool) (receipt_dir : str)
           (fs : filesystem) : (exn + StreamResult) * filesystem :=
  match request w stall_threshold_ms with
  | inl e => (inl e, fs)
  | inr s =>
    let t_start := monotonic w 0 in
    let r := set_ttc (result s) (Some (ms (monotonic w (reads s) - t_start))) in
    if save_receipt && (match raw_events s with [] => false | _ => true end)
    then
      match _write_receipt w receipt_dir model payload (raw_events s) fs with
      | (inl e, fs') => (inl e, fs')
      | (inr p, fs') => (inr (set_receipt_path r (Some p)), fs')
      end
    else (inr r, fs)
  end.

(** ** Notions the claims are stated with *)

(** The frame is the terminal sentinel. *)
Definition is_sentinel (ev : str) : bool := str_eqb (strip ev) DONE.

(** The frames up to the first sentinel, the sentinel included: those the
    loop reaches. *)
Fixpoint through_sentinel (frames : list str) : list str :=
  match frames with
  | [] => []
  | ev :: rest =>
    if is_sentinel ev then [ev] else ev :: through_sentinel rest
  end.

(** The frames the decoder yields from the response: none when the
    request is refused. *)
Definition received (w : world) : list str :=
  match server w with
  | Refused _ => []
  | Body lines _ => _iter_sse_data (map LBytes lines)
  end.

(** The consumer's extraction rule on one payload, lines 70 to 78 of
    [stream_chat]: a payload that is not JSON is passed over, and what
    [_extract_content_parts] finds in a parsed one is added to the text
    and to the reasoning. *)
Definition extract_frame (acc : str * str) (event_data : str)
  : exn + (str * str) :=
  match loads event_data with
  | inl JSONDecodeError => ret acc
  | inl e => raise e
  | inr obj =>
    '(content, reasoning') <- _extract_content_parts obj ;;
    ret (fst acc ++ content, snd acc ++ reasoning')
  end.

(** The rule over a list of payloads, in their order: the text and the
    reasoning accumulated, or the exception raised. *)
Definition extracted (frames : list str) : exn + (str * str) :=
  foldM extract_frame frames ([], []).

(** The value [usage.get(k)] has for a parsed frame, [None] when the
    frame has no usage block to read it from. *)
Definition usage_value (obj : pyval) (k : str) : pyval :=
  match get obj (lit "usage") PNone with
  | inr u =>
    match get (por u (PDict [])) k PNone with
    | inr v => v
    | inl _ => PNone
    end
  | inl _ => PNone
  end.

(** The count a frame lets the consumer observe under the key [k]:
    [None] for the sentinel and for a frame that is not JSON. *)
Definition usage_obs (k : str) (ev : str) : pyval :=
  if is_sentinel ev then PNone
  else match loads ev with
       | inr obj => usage_value obj k
       | inl _ => PNone
       end.

(** The last non-zero value among the observations, [init] when there is
    none. *)
Definition last_nonzero (init : pyval) (obs : list pyval) : pyval :=
  match find truthy (rev obs) with
  | Some v => v
  | None => init
  end.

End Streaming.

(* ================================================================== *)
(** * [verify_receipt.py] *)
(* ================================================================== *)

Module VerifyReceipt.

Import Py Json.
Import Streaming (receipt, mkReceipt, r_model, r_timestamp, r_events_hash,
                  r_payload_hash, r_event_count, r_raw_events).
Open Scope N_scope.

(** The three status strings [PASS], [FAIL] and [SKIP]. *)
Inductive Status : Type := PASS | FAIL | SKIP.

Definition status_eqb (a b : Status) : bool :=
  match a, b with
  | PASS, PASS | FAIL, FAIL | SKIP, SKIP => true
  | _, _ => false
  end.

(** The detail text of a check, as the message and the values formatted
    into it; the rendering of the f-strings is not modelled. *)
Inductive Detail : Type :=
| FieldMissing
| Sha256Matches (stored_prefix : str)
| Mismatch (expected_prefix got_prefix : str)
| WellFormed (stored_prefix : str)
| Malformed (value : str)
| ValidJson (valid total : Z)
| ParseErrors (errors total : Z)
| Reconstructed (deltas chars : Z)
| NoContent
| UsageFound (prompt completion : pyval)
| NoUsage.

Record Check : Type := mkCheck
  { name : str;
    status : Status;
    detail : Detail }.

Record VerifyResult : Type := mkVerifyResult
  { receipt_path : str;
    checks : list Check;
    model : str;
    event_count : Z;
    prompt_tokens : pyval;
    completion_tokens : pyval;
    content_chars : Z;
    content_deltas : Z }.

(** [VerifyResult(receipt_path=receipt_path)] *)
Definition VerifyResult_new (receipt_path : str) : VerifyResult :=
  mkVerifyResult receipt_path [] [] 0 (PInt 0) (PInt 0) 0 0.

(** The property [verified]. *)
Definition verified (r : VerifyResult) : bool :=
  forallb (fun c => negb (status_eqb (status c) FAIL)) (checks r).

Definition _hash (text : str) : exn + str :=
  b <- encode text ;; ret (Sha256.hexdigest b).

(** ** The statements of [verify_receipt] act on [result] and may raise:
    a state monad over [VerifyResult] with exceptions. *)
Definition M (A : Type) : Type := VerifyResult -> (exn + A) * VerifyResult.

Definition mret {A} (a : A) : M A := fun r => (inr a, r).
Definition mbind {A B} (m : M A) (k : A -> M B) : M B :=
  fun r => match m r with
           | (inl e, r') => (inl e, r')
           | (inr a, r') => k a r'
           end.
Definition lift {A} (m : exn + A) : M A := fun r => (m, r).
Definition modify (f : VerifyResult -> VerifyResult) : M unit :=
  fun r => (inr tt, f r).
Definition current : M VerifyResult := fun r => (inr r, r).

Notation "x <~ m ;; k" := (mbind m (fun x => k))
  (at level 61, m at next level, right associativity).
Notation "m ;;; k" := (mbind m (fun _ => k))
  (at level 61, right associativity).

Fixpoint mfoldM {A B} (f : B -> A -> M B) (l : list A) (acc : B) : M B :=
  match l with
  | [] => mret acc
  | x :: l' => acc' <~ f acc x ;; mfoldM f l' acc'
  end.

Definition set_model (m : str) (r : VerifyResult) : VerifyResult :=
  mkVerifyResult (receipt_path r) (checks r) m (event_count r)
    (prompt_tokens r) (completion_tokens r) (content_chars r) (content_deltas r).

Definition set_event_count (n : Z) (r : VerifyResult) : VerifyResult :=
  mkVerifyResult (receipt_path r) (checks r) (model r) n
    (prompt_tokens r) (completion_tokens r) (content_chars r) (content_deltas r).

Definition set_tokens (p c : pyval) (r : VerifyResult) : VerifyResult :=
  mkVerifyResult (receipt_path r) (checks r) (model r) (event_count r)
    p c (content_chars r) (content_deltas r).

Definition set_content_chars (n : Z) (r : VerifyResult) : VerifyResult :=
  mkVerifyResult (receipt_path r) (checks r) (model r) (event_count r)
    (prompt_tokens r) (completion_tokens r) n (content_deltas r).

Definition add_content_deltas (n : Z) (r : VerifyResult) : VerifyResult :=
  mkVerifyResult (receipt_path r) (checks r) (model r) (event_count r)
    (prompt_tokens r) (completion_tokens r) (content_chars r)
    (content_deltas r + n).

(** [result.checks.append(c)] *)
Definition append_check (c : Check) (r : VerifyResult) : VerifyResult :=
  mkVerifyResult (receipt_path r) (checks r ++ [c]) (model r) (event_count r)
    (prompt_tokens r) (completion_tokens r) (content_chars r) (content_deltas r).

Definition or_default {A} (o : option A) (d : A) : A :=
  match o with Some a => a | None => d end.

Definition is_empty {A} (l : list A) : bool :=
  match l with [] => true | _ => false end.

Definition HEX : str := lit "0123456789abcdef".

(** Check 1, given the digest derived from the raw events. *)
Definition events_hash_check (data : receipt) (derived_events_hash : str) : Check :=
  let stored_events_hash := or_default (r_events_hash data) [] in
  if is_empty stored_events_hash
  then mkCheck (lit "events_hash") SKIP FieldMissing
  else if str_eqb derived_events_hash stored_events_hash
  then mkCheck (lit "events_hash") PASS
               (Sha256Matches (firstn 16 stored_events_hash))
  else mkCheck (lit "events_hash") FAIL
               (Mismatch (firstn 16 stored_events_hash)
                         (firstn 16 derived_events_hash)).

(** Check 2. *)
Definition payload_hash_check (data : receipt) : Check :=
  let stored_payload_hash := or_default (r_payload_hash data) [] in
  if is_empty stored_payload_hash
  then mkCheck (lit "payload_hash") SKIP FieldMissing
  else if (length stored_payload_hash =? 64)%nat
          && forallb (fun c => char_in c HEX) stored_payload_hash
  then mkCheck (lit "payload_hash") PASS
               (WellFormed (firstn 16 stored_payload_hash))
  else mkCheck (lit "payload_hash") FAIL (Malformed stored_payload_hash).

(** The loop of check 3: the number of parse errors and [parsed_events]. *)
Fixpoint parse_events (raw_events : list str) (parse_errors : Z)
         (parsed_events : list pyval) : exn + (Z * list pyval) :=
  match raw_events with
  | [] => ret (parse_errors, parsed_events)
  | ev :: rest =>
    if str_eqb (strip ev) (lit "[DONE]")
    then parse_events rest parse_errors (parsed_events ++ [PNone])
    else
      match loads ev with
      | inr obj => parse_events rest parse_errors (parsed_events ++ [obj])
      | inl JSONDecodeError =>
        parse_events rest (parse_errors + 1) (parsed_events ++ [PNone])
      | inl e => raise e
      end
  end.

(** The body of the inner loop of check 4. *)
Definition reconstruct_choice (content : str) (choice : pyval) : M str :=
  d <~ lift (get choice (lit "delta") PNone) ;;
  let delta := por d (PDict []) in
  c <~ lift (get delta (lit "content") PNone) ;;
  content' <~ lift (str_iadd content (por c (PStr []))) ;;
  c' <~ lift (get delta (lit "content") PNone) ;;
  modify (add_content_deltas (if truthy c' then 1 else 0)) ;;;
  mret content'.

(** The body of the outer loop of check 4. *)
Definition reconstruct_event (content : str) (obj : pyval) : M str :=
  match obj with
  | PNone => mret content
  | _ =>
    choices <~ lift (get obj (lit "choices") (PList [])) ;;
    items <~ lift (iter choices) ;;
    mfoldM reconstruct_choice items content
  end.

(** The loop of check 5 over [reversed(parsed_events)]. *)
Fixpoint find_usage (events : list pyval) : M unit :=
  match events with
  | [] => mret tt
  | obj :: rest =>
    match obj with
    | PNone => find_usage rest
    | _ =>
      u <~ lift (get obj (lit "usage") PNone) ;;
      let usage := por u (PDict []) in
      pt <~ lift (get usage (lit "prompt_tokens") (PInt 0)) ;;
      ct <~ lift (get usage (lit "completion_tokens") (PInt 0)) ;;
      if truthy pt || truthy ct then modify (set_tokens pt ct)
      else find_usage rest
    end
  end.

(** Check 1: events_hash. *)
Definition check_events_hash (data : receipt) (raw_events : list str) : M unit :=
  derived_events_hash <~ lift (_hash (join NEWLINE raw_events)) ;;
  modify (append_check (events_hash_check data derived_events_hash)).

(** Check 2: payload_hash. *)
Definition check_payload_hash (data : receipt) : M unit :=
  modify (append_check (payload_hash_check data)).

(** Check 3: event parsing; it leaves [parsed_events] to the checks after
    it. *)
Definition check_event_parsing (raw_events : list str) : M (list pyval) :=
  parsed <~ lift (parse_events raw_events 0 []) ;;
  let '(parse_errors, parsed_events) := parsed in
  r <~ current ;;
  let valid_count := (event_count r - parse_errors)%Z in
  modify (append_check
            (if (parse_errors =? 0)%Z
             then mkCheck (lit "event parsing") PASS
                          (ValidJson valid_count (event_count r))
             else mkCheck (lit "event parsing") FAIL
                          (ParseErrors parse_errors (event_count r)))) ;;;
  mret parsed_events.

(** Check 4: content reconstruction. *)
Definition check_content (parsed_events : list pyval) : M unit :=
  content <~ mfoldM reconstruct_event parsed_events [] ;;
  modify (set_content_chars (Z.of_nat (length content))) ;;;
  r <~ current ;;
  modify (append_check
            (if (0 <? content_chars r)%Z
             then mkCheck (lit "content") PASS
                          (Reconstructed (content_deltas r) (content_chars r))
             else mkCheck (lit "content") FAIL NoContent)).

(** Check 5: usage tokens. *)
Definition check_usage (parsed_events : list pyval) : M unit :=
  find_usage (rev parsed_events) ;;;
  r <~ current ;;
  p <~ lift (gt0 (prompt_tokens r)) ;;
  found <~ (if p : bool then mret true else lift (gt0 (completion_tokens r))) ;;
  modify (append_check
            (if found : bool
             then mkCheck (lit "usage") PASS
                          (UsageFound (prompt_tokens r) (completion_tokens r))
             else mkCheck (lit "usage") SKIP NoUsage)).

(** The statements of [verify_receipt], acting on [result]. *)
Definition verify_statements (data : receipt) : M unit :=
  modify (set_model (or_default (r_model data) (lit "unknown"))) ;;;
  let raw_events := or_default (r_raw_events data) [] in
  modify (set_event_count (Z.of_nat (length raw_events))) ;;;
  check_events_hash data raw_events ;;;
  check_payload_hash data ;;;
  parsed_events <~ check_event_parsing raw_events ;;
  check_content parsed_events ;;;
  check_usage parsed_events.

(** The run of [verify_receipt(data, receipt_path)]: how it ended, and
    [result] as it stood at that point. *)
Definition verify_receipt_run (data : receipt) (receipt_path : str)
  : (exn + unit) * VerifyResult :=
  verify_statements data (VerifyResult_new receipt_path).

(** [verify_receipt(data, receipt_path)]: the report returned, or the
    exception raised. *)
Definition verify_receipt (data : receipt) (receipt_path : str)
  : exn + VerifyResult :=
  match verify_receipt_run data receipt_path with
  | (inr _, r) => inr r
  | (inl e, _) => inl e
  end.

(** ** The tamper simulation of [main] *)

(** [json.dumps] of the fabricated event. *)
Definition fake_event : str :=
  qlit "{'choices': [{'delta': {'content': ' [INJECTED_TOKEN]'}, 'finish_reason': null}]}".

(** [l.insert(i, x)] for [0 <= i]. *)
Definition insert {A} (i : nat) (x : A) (l : list A) : list A :=
  firstn i l ++ x :: skipn i l.

(** The dict [tampered] that [main] verifies next to [data]. *)
Definition tamper (data : receipt) : receipt :=
  let raw := or_default (r_raw_events data) [] in
  let mid := Nat.div (length raw) 2 in
  mkReceipt (r_model data) (r_timestamp data) (r_events_hash data)
            (r_payload_hash data) (r_event_count data)
            (Some (insert mid fake_event raw)).

(** The status of the check called [n] in a list of checks. *)
Definition status_of (n : str) (cs : list Check) : option Status :=
  option_map status (find (fun c => str_eqb (name c) n) cs).

(** A frame check 3 counts as valid: the sentinel, or a text [json.loads]
    reads. *)
Definition frame_parses (ev : str) : bool :=
  str_eqb (strip ev) (lit "[DONE]")
  || match loads ev with inr _ => true | inl _ => false end.

(** The receipt a call of [_write_receipt] left in the file it names. *)
Definition written_receipt (out : (exn + Streaming.path) * Streaming.filesystem)
  : option receipt :=
  match out with
  | (inr p, fs) =>
    match Streaming.files fs with
    | (p', rc) :: _ =>
      if str_eqb (fst p') (fst p) && str_eqb (snd p') (snd p)
      then Some rc else None
    | [] => None
    end
  | (inl _, _) => None
  end.

(** The octets the events hash of a receipt is taken over. *)
Definition events_octets (data : receipt) : exn + bytes :=
  encode (join NEWLINE (or_default (r_raw_events data) [])).

(** SHA-256 tells the messages [m] and [m'] apart when they differ. *)
Definition no_collision (m m' : bytes) : Prop :=
  m <> m' -> Sha256.hexdigest m <> Sha256.hexdigest m'.

End VerifyReceipt.

(* ================================================================== *)
(** * [verify_receipt.py]: the receipt directory *)
(* ================================================================== *)

Module ReceiptDir.

Import Py.
Open Scope N_scope.

(** A file that [Path(receipt_dir).glob("*.json")] yields, with the
    [st_mtime] that [stat] reports for it. Modification times are
    rationals. *)
Definition entry : Type := (str * Q)%type.

Definition st_mtime (e : entry) : Q := snd e.

(** [sorted(entries, key=lambda p: p.stat().st_mtime)]: ascending, and
    stable, so that files of the same time keep the order they came in. An
    entry is put in front of the sorted entries after it, before the first
    of them that is not older. *)
Fixpoint insert_by_mtime (x : entry) (sorted : list entry) : list entry :=
  match sorted with
  | [] => [x]
  | y :: rest =>
    if Qle_bool (st_mtime x) (st_mtime y) then x :: sorted
    else y :: insert_by_mtime x rest
  end.

Definition sorted_by_mtime (entries : list entry) : list entry :=
  fold_right insert_by_mtime [] entries.

(** [_latest_receipt], on the files the glob yields. *)
Definition _latest_receipt (found : list entry) : option str :=
  let receipts := sorted_by_mtime found in
  match receipts with
  | [] => None
  | first :: _ => Some (fst (last receipts first))
  end.

End ReceiptDir.

(* ================================================================== *)
(** * [benchmark.py] *)
(* ================================================================== *)

Module Benchmark.

Import Py Json.
Open Scope N_scope.

Record ProviderStats : Type := mkProviderStats
  { name : str;
    model : str;
    ttfb_ms : list Q;
    ttc_ms : list Q;
    prompt_tokens : list pyval;
    completion_tokens : list pyval;
    stalls : Z;
    errors : Z;
    runs : Z }.

(** [ProviderStats(name=name, model=model)] *)
Definition ProviderStats_new (name model : str) : ProviderStats :=
  mkProviderStats name model [] [] [] [] 0 0 0.

(** [if result.error]: an error that is not the empty string. *)
Definition has_error (result : Streaming.StreamResult) : bool :=
  match Streaming.error result with
  | Some (_ :: _) => true
  | _ => false
  end.

Definition append_some {A} (l : list A) (o : option A) : list A :=
  match o with
  | Some a => l ++ [a]
  | None => l
  end.

(** [ProviderStats.add] *)
Definition add (self : ProviderStats) (result : Streaming.StreamResult)
  : ProviderStats :=
  if has_error result
  then mkProviderStats (name self) (model self) (ttfb_ms self) (ttc_ms self)
         (prompt_tokens self) (completion_tokens self) (stalls self)
         (errors self + 1) (runs self + 1)
  else mkProviderStats (name self) (model self)
         (append_some (ttfb_ms self) (Streaming.ttfb_ms result))
         (append_some (ttc_ms self) (Streaming.ttc_ms result))
         (prompt_tokens self ++ [Streaming.prompt_tokens result])
         (completion_tokens self ++ [Streaming.completion_tokens result])
         (stalls self + Streaming.stall_count result)
         (errors self) (runs self + 1).

(** The line [main] prints after a run, lines 190 to 194: the times of a
    run without error are formatted with [.0f], which raises for [None].
    The text printed is not modelled. *)
Definition print_run (result : Streaming.StreamResult) : exn + unit :=
  if has_error result then ret tt
  else
    match Streaming.ttfb_ms result, Streaming.ttc_ms result with
    | Some _, Some _ => ret tt
    | _, _ => raise TypeError
    end.

(** The loop of [main] over the runs of one provider, lines 177 to 197,
    from run [i] on: [calls] are the worlds of the calls of [stream_chat]
    still to be made, one for each run. The calls save no receipt. *)
Fixpoint run_loop (warmup : Z) (model : str) (payload : bytes) (i : Z)
         (calls : list Streaming.world) (stats : ProviderStats)
  : exn + ProviderStats :=
  match calls with
  | [] => ret stats
  | w :: rest =>
    result <- fst (Streaming.stream_chat w model payload (2000 # 1) false
                     (lit "data/receipts") (Streaming.mkFs [] [])) ;;
    _ <- print_run result ;;
    run_loop warmup model payload (i + 1) rest
             (if (warmup <=? i)%Z then add stats result else stats)
  end.

(** [range(n)] *)
Definition range (n : Z) : list Z := map Z.of_nat (seq 0 (Z.to_nat n)).

(** The runs of one provider: [range(args.warmup + args.runs)] calls, the
    world of call [k] being [world_of k]. *)
Definition provider_runs (warmup runs : Z) (name model : str) (payload : bytes)
           (world_of : nat -> Streaming.world) : exn + ProviderStats :=
  let total_runs := (warmup + runs)%Z in
  run_loop warmup model payload 0
           (map world_of (seq 0 (Z.to_nat total_runs)))
           (ProviderStats_new name model).

(** ** The table printer *)

(** [max(len(header), max((len(v) for v in values), default=0)) + 2] *)
Definition _col_width (values : list str) (header : str) : nat :=
  Nat.max (length header) (fold_right Nat.max 0%nat (map (@length N) values)) + 2.

(** [f"{s:<{n}}"]: [s], padded with spaces on the right to [n] characters;
    a longer text is left as it is. *)
Definition ljust (s : str) (n : nat) : str :=
  s ++ repeat 0x20 (n - length s).

(** [f" {s:<{w-1}}"], a cell of a column of width [w]. *)
Definition cell (s : str) (w : nat) : str := 0x20 :: ljust s (w - 1).

(** [[f(l[i]) for i in range(len(widths))]]: [None] stands for the
    [IndexError] of a row that has fewer cells than there are columns. *)
Fixpoint cells (row : list str) (widths : list nat) : option (list str) :=
  match widths with
  | [] => Some []
  | w :: widths' =>
    match row with
    | [] => None
    | s :: row' =>
      match cells row' widths' with
      | Some l => Some (cell s w :: l)
      | None => None
      end
    end
  end.

(** [[x[i] for x in rows]]; [None] for a row without a cell [i]. *)
Fixpoint column (i : nat) (rows : list (list str)) : option (list str) :=
  match rows with
  | [] => Some []
  | r :: rows' =>
    match nth_error r i, column i rows' with
    | Some s, Some l => Some (s :: l)
    | _, _ => None
    end
  end.

(** The list [col_widths], built for the columns from [i] on. *)
Fixpoint col_widths_from (i : nat) (rows : list (list str)) (headers : list str)
  : option (list nat) :=
  match headers with
  | [] => Some []
  | h :: headers' =>
    match column i rows, col_widths_from (S i) rows headers' with
    | Some values, Some ws => Some (_col_width values h :: ws)
    | _, _ => None
    end
  end.

Definition HORIZONTAL : N := 0x2500.
Definition VERTICAL : N := 0x2502.

(** A rule of the table between the corner or tee characters [l] and [r],
    with [m] where columns meet. *)
Definition rule (l m r : N) (widths : list nat) : str :=
  l :: join [m] (map (fun w => repeat HORIZONTAL w) widths) ++ [r].

Definition table_line (cs : list str) : str :=
  VERTICAL :: join [VERTICAL] cs ++ [VERTICAL].

Fixpoint row_lines (rows : list (list str)) (widths : list nat)
  : option (list str) :=
  match rows with
  | [] => Some []
  | r :: rows' =>
    match cells r widths, row_lines rows' widths with
    | Some cs, Some ls => Some (table_line cs :: ls)
    | _, _ => None
    end
  end.

(** [_print_table]: the lines printed, in order, or [None] for the
    [IndexError] of a row with too few cells. The cells of the rows are
    texts, as [main] builds them. *)
Definition _print_table (rows : list (list str)) (headers : list str)
  : option (list str) :=
  match col_widths_from 0 rows headers with
  | None => None
  | Some widths =>
    match cells headers widths, row_lines rows widths with
    | Some header_row, Some body =>
      Some ([rule 0x250C 0x252C 0x2510 widths;
             table_line header_row;
             rule 0x251C 0x253C 0x2524 widths]
            ++ body
            ++ [rule 0x2514 0x2534 0x2518 widths])
    | _, _ => None
    end
  end.

End Benchmark.

(* ================================================================== *)
(** * [ambient_client/app/bench.py] *)
(* ================================================================== *)

Module Bench.

Import Py.
Open Scope N_scope.

Record RunSpec : Type := mkRunSpec
  { index : Z;
    total : Z;
    warmup : bool;
    label_suffix : str }.

(** [range(n)] *)
Definition range (n : Z) : list Z := map Z.of_nat (seq 0 (Z.to_nat n)).

Definition iter_run_specs (bench_enabled : bool) (warmup_runs bench_runs : Z)
  : list RunSpec :=
  if negb bench_enabled then [mkRunSpec 0 1 false []]
  else
    map (fun i =>
           mkRunSpec i (warmup_runs + bench_runs) true
                     (lit " [warmup " ++ str_of_int (i + 1) ++ lit "/"
                      ++ str_of_int warmup_runs ++ lit "]"))
        (range warmup_runs)
    ++ map (fun i =>
              mkRunSpec (warmup_runs + i) (warmup_runs + bench_runs) false
                        (lit " [run " ++ str_of_int (i + 1) ++ lit "/"
                         ++ str_of_int bench_runs ++ lit "]"))
           (range bench_runs).

(** The specs for which [run] of [runner.py] writes a record, lines 116
    to 119, when benchmarking is enabled. *)
Definition recorded (specs : list RunSpec) : list RunSpec :=
  filter (fun spec => negb (warmup spec)) specs.

End Bench.

(* ================================================================== *)
(** * [ambient_client/app/provider_utils.py] *)
(* ================================================================== *)

Module ProviderUtils.

Import Py.
Open Scope N_scope.

(** [os.environ], as the variables that are set and their values. *)
Definition environ : Type := list (str * str).

(** [os.getenv(key, default)] *)
Fixpoint getenv (env : environ) (key default : str) : str :=
  match env with
  | [] => default
  | (k, v) :: env' => if str_eqb k key then v else getenv env' key default
  end.

(** [s.lstrip(chars)] *)
Fixpoint lstrip_of (chars s : str) : str :=
  match s with
  | c :: s' => if char_in c chars then lstrip_of chars s' else s
  | [] => []
  end.

(** [s.rstrip(chars)] *)
Definition rstrip_of (chars s : str) : str := rev (lstrip_of chars (rev s)).

(** [s.endswith(suffix)] *)
Definition endswith (s suffix : str) : bool := startswith (rev s) (rev suffix).

Definition CHAT_COMPLETIONS : str := lit "/chat/completions".

Definition build_chat_completions_url
           (env : environ) (api_url_env base_url_env default_url : str) : str :=
  let explicit := strip (getenv env api_url_env []) in
  match explicit with
  | _ :: _ => explicit
  | [] =>
    let base := strip (getenv env base_url_env []) in
    match base with
    | _ :: _ =>
      let base := rstrip_of (lit "/") base in
      if negb (endswith base CHAT_COMPLETIONS)
      then base ++ CHAT_COMPLETIONS
      else base
    | [] => default_url
    end
  end.

(** The line boundaries of [str.splitlines]. *)
Definition is_linebreak (c : N) : bool :=
  ((0x0A <=? c) && (c <=? 0x0D)) || ((0x1C <=? c) && (c <=? 0x1E))
  || (c =? 0x85) || (c =? 0x2028) || (c =? 0x2029).

(** [s.splitlines()]: [line] holds the current line, backwards. A carriage
    return and the line feed after it are one boundary, and a text that
    ends at a boundary has no empty last line. *)
Fixpoint splitlines_from (line : str) (s : str) : list str :=
  match s with
  | [] => match line with [] => [] | _ :: _ => [rev line] end
  | c :: rest =>
    if is_linebreak c then
      rev line ::
      match rest with
      | d :: rest' =>
        if (c =? 0x0D) && (d =? 0x0A) then splitlines_from [] rest'
        else splitlines_from [] rest
      | [] => splitlines_from [] rest
      end
    else splitlines_from (c :: line) rest
  end.

Definition splitlines (s : str) : list str := splitlines_from [] s.

(** [m in seen] *)
Definition mem (m : str) (seen : list str) : bool := existsb (str_eqb m) seen.

(** The loop of [parse_models]; the set [seen] holds the same models as
    the list [result]. *)
Fixpoint collect_models (lines : list str) (seen result : list str) : list str :=
  match lines with
  | [] => result
  | m :: rest =>
    let m := strip m in
    if negb (match m with [] => true | _ => false end) && negb (mem m seen)
    then collect_models rest (m :: seen) (result ++ [m])
    else collect_models rest seen result
  end.

Definition parse_models (raw : str) : list str :=
  collect_models (splitlines (replace_char 0x2C 0x0A raw)) [] [].

Record ProviderSettings : Type := mkProviderSettings
  { name : str;
    enabled : bool;
    api_url : str;
    api_key : str;
    models : list str }.

Definition validation_error (self : ProviderSettings) : option str :=
  if negb (enabled self) then None
  else match api_key self with
       | [] => Some (name self ++ lit ": API key not set")
       | _ :: _ =>
         match models self with
         | [] => Some (name self ++ lit ": no models configured")
         | _ :: _ => None
         end
       end.

End ProviderUtils.

(* ================================================================== *)
(** * [first_inference.py]: the first call and its receipt *)
(* ================================================================== *)

Module FirstInference.

Import Py Json Streaming.
Open Scope N_scope.

Definition MODEL : str := lit "zai-org/GLM-4.6".
Definition RECEIPT_DIR : str := lit "data/receipts".

(** What leaves [call_ambient] and [main]: an exception of the kinds the
    streaming client meets, none of which is caught here, or the
    [UnicodeDecodeError] of a line that is not UTF-8. *)
Inductive raised : Type :=
| Exn (e : exn)
| UnicodeDecodeError.

(** [print(content, end="", flush=True)], line 82. The terminal is taken
    to encode as UTF-8, the default of Python: the text is encoded on its
    way out, and a surrogate in it raises [UnicodeEncodeError]. Only a
    text gets here, after [text += content]. *)
Definition print (content : pyval) : exn + unit :=
  match content with
  | PStr t => _ <- encode t ;; ret tt
  | _ => ret tt
  end.

(** The body of the loop over the choices, lines 79 to 84. The [print()]
    of line 84 writes a line feed and raises nothing. *)
Definition add_choice (text : str) (choice : pyval) : exn + str :=
  d <- get choice (lit "delta") PNone ;;
  c <- get (por d (PDict [])) (lit "content") PNone ;;
  let content := por c (PStr []) in
  text' <- (if truthy content
            then t <- str_iadd text content ;;
                 _ <- print content ;;
                 ret t
            else ret text) ;;
  _ <- get choice (lit "finish_reason") PNone ;;
  ret text'.

(** The [try] statement on the frame [data]: a frame that is not JSON is
    passed over, any other exception leaves the function. *)
Definition read_event (text : str) (data : str) : exn + str :=
  match loads data with
  | inl JSONDecodeError => ret text
  | inl e => raise e
  | inr obj =>
    choices <- get obj (lit "choices") (PList []) ;;
    items <- iter choices ;;
    foldM add_choice items text
  end.

(** The [for] loop over the lines of the response; the boolean says
    whether it ended in [break]. *)
Fixpoint read_lines (lines : list bytes) (text : str) (raw_events : list str)
  : raised + (str * list str * bool) :=
  match lines with
  | [] => inr (text, raw_events, false)
  | l :: rest =>
    match decode_strict l with
    | None => inl UnicodeDecodeError
    | Some s =>
      let line := strip s in
      if negb (startswith line DATA_PREFIX)
      then read_lines rest text raw_events
      else
        let data := strip (skipn 5 line) in
        let raw := raw_events ++ [data] in
        if str_eqb data DONE then inr (text, raw, true)
        else
          match read_event text data with
          | inl e => inl (Exn e)
          | inr text' => read_lines rest text' raw
          end
    end
  end.

(** [call_ambient]: the pair returned or the exception raised. The key,
    the prompt and the token limit only shape the request; [server w] is
    what comes back. *)
Definition call_ambient (w : world) : raised + (str * list str) :=
  match server w with
  | Refused exc => inl (Exn (RequestException exc))
  | Body lines failure =>
    match read_lines lines [] [] with
    | inl e => inl e
    | inr (text, raw_events, stop) =>
      match stop, failure with
      | false, Some exc => inl (Exn (RequestException exc))
      | _, _ => inr (text, raw_events)
      end
    end
  end.

(** [save_receipt]. [prompt_doc] is
    [json.dumps({"model": MODEL, "prompt": prompt}, sort_keys=True).encode()],
    the only form in which the receipt reads the prompt. *)
Definition save_receipt (w : world) (prompt_doc : bytes)
           (raw_events : list str) (fs : filesystem)
  : (exn + path) * filesystem :=
  let raw_text := join NEWLINE raw_events in
  match encode raw_text with
  | inl e => (inl e, fs)
  | inr raw_bytes =>
    let events_hash := Sha256.hexdigest raw_bytes in
    let payload_hash := Sha256.hexdigest prompt_doc in
    let ts := wall_time w in
    let filename := str_of_int ts ++ lit "_"
                    ++ replace_char (ch "/") (ch "_") MODEL ++ lit "_"
                    ++ firstn 16 events_hash ++ lit ".json" in
    let fs1 := mkFs (RECEIPT_DIR :: dirs fs) (files fs) in
    let p := (RECEIPT_DIR, filename) in
    let receipt :=
      mkReceipt (Some MODEL) (Some ts) (Some events_hash) (Some payload_hash)
                (Some (Z.of_nat (length raw_events))) (Some raw_events) in
    (inr p, mkFs (dirs fs1) ((p, receipt) :: files fs1))
  end.

(** [main] from its call of [call_ambient] on, lines 152 to 159: the path
    of the receipt saved, [None] for an empty response, or the exception
    raised, and the file system after the run. What [main] and
    [inspect_receipt] print from there on is text of the program and of
    the receipt just written, none of it with a surrogate, and is not
    modelled. *)
Definition main (w : world) (prompt_doc : bytes) (fs : filesystem)
  : (raised + option path) * filesystem :=
  match call_ambient w with
  | inl e => (inl e, fs)
  | inr (text, raw_events) =>
    match text with
    | [] => (inr None, fs)
    | _ :: _ =>
      match save_receipt w prompt_doc raw_events fs with
      | (inl e, fs') => (inl (Exn e), fs')
      | (inr p, fs') => (inr (Some p), fs')
      end
    end
  end.

End FirstInference.

(* ================================================================== *)
(** * [env_loader.py]: the variables of a [.env] file *)
(* ================================================================== *)

Module EnvLoader.

Import Py.
Import ProviderUtils (environ, getenv, splitlines, lstrip_of, rstrip_of).
Open Scope N_scope.

Definition QUOTE : N := 0x22.
Definition APOSTROPHE : N := 0x27.
Definition HASH : N := 0x23.
Definition EQUALS : N := 0x3D.

(** The loop of [_strip_inline_comment] at index [i]: [seen] is
    [line[:i]] backwards and [rest] is [line[i:]]. *)
Fixpoint scan_comment (in_quote : option N) (seen rest line : str) : str :=
  match rest with
  | [] => line
  | ch :: rest' =>
    if (ch =? QUOTE) || (ch =? APOSTROPHE) then
      match in_quote with
      | None => scan_comment (Some ch) (ch :: seen) rest' line
      | Some q =>
        if q =? ch then scan_comment None (ch :: seen) rest' line
        else scan_comment in_quote (ch :: seen) rest' line
      end
    else if (ch =? HASH) && (match in_quote with None => true | Some _ => false end)
    then
      if match seen with [] => true | p :: _ => isspace p end
      then rstrip (rev seen)
      else scan_comment in_quote (ch :: seen) rest' line
    else scan_comment in_quote (ch :: seen) rest' line
  end.

Definition _strip_inline_comment (line : str) : str :=
  scan_comment None [] line line.

(** Reading in text mode: a carriage return, with the line feed after it
    if there is one, is read as a line feed. *)
Fixpoint universal_newlines (s : str) : str :=
  match s with
  | [] => []
  | c :: rest =>
    if c =? 0x0D then
      0x0A :: match rest with
              | d :: rest' =>
                if d =? 0x0A then universal_newlines rest'
                else universal_newlines rest
              | [] => []
              end
    else c :: universal_newlines rest
  end.

(** [s.partition("=")], [None] when [s] has no equals sign. *)
Fixpoint partition_equals (s : str) : option (str * str) :=
  match s with
  | [] => None
  | c :: rest =>
    if c =? EQUALS then Some ([], rest)
    else match partition_equals rest with
         | Some (key, value) => Some (c :: key, value)
         | None => None
         end
  end.

(** [s.strip(chars)] *)
Definition strip_of (chars s : str) : str := rstrip_of chars (lstrip_of chars s).

(** The body of the loop of [load_env] up to the test of the key: the key
    and the value the line [raw] assigns, [None] for a line that is passed
    over. *)
Definition assignment (raw : str) : option (str * str) :=
  let line := strip raw in
  if match line with [] => true | _ :: _ => false end
     || startswith line [HASH]
  then None
  else
    let line := if startswith line (lit "export ")
                then lstrip (skipn 7 line) else line in
    let line := _strip_inline_comment line in
    match partition_equals line with
    | None => None
    | Some (key, value) =>
      Some (strip key,
            strip_of [APOSTROPHE] (strip_of [QUOTE] (strip value)))
    end.

(** [key in os.environ] *)
Definition is_set (env : environ) (key : str) : bool :=
  existsb (fun kv => str_eqb (fst kv) key) env.

Definition has_nul (s : str) : bool := existsb (N.eqb 0) s.

(** The exceptions that leave [load_env]. *)
Inductive raised : Type :=
| UnicodeDecodeError
| ValueError.

(** The loop of [load_env]: the exception raised, if any, and
    [os.environ] as the loop leaves it. Names are compared as they are
    written and [os.environ[key] = value] raises [ValueError] for a name
    or a value with a NUL character, as on POSIX systems. *)
Fixpoint load_lines (lines : list str) (env : environ)
  : option raised * environ :=
  match lines with
  | [] => (None, env)
  | raw :: rest =>
    match assignment raw with
    | Some (key, value) =>
      if match key with [] => false | _ :: _ => true end
         && negb (is_set env key)
      then
        if has_nul key || has_nul value then (Some ValueError, env)
        else load_lines rest (env ++ [(key, value)])
      else load_lines rest env
    | None => load_lines rest env
    end
  end.

(** [load_env(path)]; [file] holds the bytes of the file, [None] when
    reading it raises [OSError]. *)
Definition load_env (file : option bytes) (env : environ)
  : option raised * environ :=
  match file with
  | None => (None, env)
  | Some data =>
    match decode_strict data with
    | None => (Some UnicodeDecodeError, env)
    | Some text => load_lines (splitlines (universal_newlines text)) env
    end
  end.

End EnvLoader.

(* ================================================================== *)
(** * Facts about text, UTF-8 and SHA-256 *)
(* ================================================================== *)

Module PyFacts.

Import Py.
Open Scope N_scope.

Lemma str_eqb_refl (a : str) : str_eqb a a = true.
Proof.
  induction a as [|x a IH]; simpl; [reflexivity|].
  now rewrite N.eqb_refl, IH.
Qed.

Lemma str_eqb_eq (a b : str) : str_eqb a b = true <-> a = b.
Proof.
  split; [|intros ->; apply str_eqb_refl].
  revert b; induction a as [|x a IH]; intros [|y b]; simpl; try discriminate; auto.
  intros H. apply andb_true_iff in H as [Hx Hab].
  apply N.eqb_eq in Hx. f_equal; auto.
Qed.

Lemma str_eqb_neq (a b : str) : str_eqb a b = false <-> a <> b.
Proof.
  split.
  - intros H E. apply str_eqb_eq in E. congruence.
  - intros H. destruct (str_eqb a b) eqn:E; [|reflexivity].
    apply str_eqb_eq in E. contradiction.
Qed.

(** Octets of a text, whether or not it can be encoded. *)
Definition octets (s : str) : bytes := flat_map encode_cp s.

Lemma encode_ok (s : str) :
  forallb encodable s = true -> encode s = inr (octets s).
Proof. unfold encode. now intros ->. Qed.

Lemma encode_inv (s : str) (b : bytes) :
  encode s = inr b -> forallb encodable s = true /\ b = octets s.
Proof.
  unfold encode. destruct (forallb encodable s); [|discriminate].
  intros H. injection H as <-. auto.
Qed.

Lemma encode_cp_nonempty (c : N) : (1 <= length (encode_cp c))%nat.
Proof.
  unfold encode_cp.
  destruct (c <? 0x80); [simpl; lia|].
  destruct (c <? 0x800); [simpl; lia|].
  destruct (c <? 0x10000); simpl; lia.
Qed.

Lemma octets_app (s t : str) : octets (s ++ t) = octets s ++ octets t.
Proof. apply flat_map_app. Qed.

Lemma octets_nonempty (s : str) : s <> [] -> (1 <= length (octets s))%nat.
Proof.
  destruct s as [|c s]; [congruence|]. intros _.
  unfold octets. simpl. rewrite length_app.
  pose proof (encode_cp_nonempty c). lia.
Qed.

(** The length of a joined text: the parts, and a separator between each
    two. *)
Lemma octets_join_length (sep : str) (parts : list str) :
  length (octets (join sep parts))
  = (list_sum (map (fun s => length (octets s)) parts)
     + pred (length parts) * length (octets sep))%nat.
Proof.
  induction parts as [|x [|y rest] IH].
  - reflexivity.
  - simpl. lia.
  - change (join sep (x :: y :: rest)) with (x ++ sep ++ join sep (y :: rest)).
    rewrite !octets_app, !length_app, IH. simpl. lia.
Qed.

Lemma forallb_join (p : N -> bool) (sep : str) (parts : list str) :
  forallb p sep = true ->
  Forall (fun s => forallb p s = true) parts ->
  forallb p (join sep parts) = true.
Proof.
  intros Hsep H. induction H as [|x rest Hx Hrest IH]; [reflexivity|].
  destruct rest as [|y rest]; [exact Hx|].
  change (join sep (x :: y :: rest)) with (x ++ sep ++ join sep (y :: rest)).
  now rewrite !forallb_app, Hx, Hsep, IH.
Qed.

Lemma forallb_join_inv (p : N -> bool) (sep : str) (parts : list str) :
  forallb p (join sep parts) = true ->
  Forall (fun s => forallb p s = true) parts.
Proof.
  induction parts as [|x [|y rest] IH]; intros H.
  - constructor.
  - constructor; [exact H|constructor].
  - change (join sep (x :: y :: rest)) with (x ++ sep ++ join sep (y :: rest)) in H.
    rewrite !forallb_app in H.
    apply andb_true_iff in H as [Hx H]. apply andb_true_iff in H as [_ H].
    constructor; auto.
Qed.

End PyFacts.

Module ShaFacts.

Import Py Sha256.
Open Scope N_scope.

(** The digests of the standard test messages. *)
Example sha256_empty :
  hexdigest []
  = lit "e3b0c44298fc1c149afbf4c8996fb92427ae41e4649b934ca495991b7852b855".
Proof. vm_compute. reflexivity. Qed.

Example sha256_abc :
  hexdigest (lit "abc")
  = lit "ba7816bf8f01cfea414140de5dae2223b00361a396177a9cb410ff61f20015ad".
Proof. vm_compute. reflexivity. Qed.

Example sha256_two_blocks :
  hexdigest (lit "abcdbcdecdefdefgefghfghighijhijkijkljklmklmnlmnomnopnopq")
  = lit "248d6a61d20638b8e5c026930c3e6039a33ce45964ff2167f6ecedd419db06c1".
Proof. vm_compute. reflexivity. Qed.

Lemma hex8_length (x : N) : length (hex8 x) = 8%nat.
Proof. reflexivity. Qed.

(** A digest is 64 characters long. *)
Lemma hexdigest_length (msg : bytes) : length (hexdigest msg) = 64%nat.
Proof.
  unfold hexdigest. generalize (sha256 msg). intros s.
  rewrite !length_app, !hex8_length. reflexivity.
Qed.

Lemma hexdigit_in (d : N) :
  d < 16 -> char_in (hexdigit d) hex_alphabet = true.
Proof.
  intros H. unfold hexdigit.
  assert (Hn : (N.to_nat d < 16)%nat) by lia.
  generalize dependent (N.to_nat d). intros n Hn.
  do 16 (destruct n as [|n]; [reflexivity|]). lia.
Qed.

Lemma hex8_hex (x : N) :
  forallb (fun c => char_in c hex_alphabet) (hex8 x) = true.
Proof.
  unfold hex8. cbn [map forallb].
  rewrite !hexdigit_in by (apply N.mod_lt; discriminate). reflexivity.
Qed.

(** A digest is written in lower-case hexadecimal digits. *)
Lemma hexdigest_hex (msg : bytes) :
  forallb (fun c => char_in c hex_alphabet) (hexdigest msg) = true.
Proof.
  unfold hexdigest. generalize (sha256 msg). intros s.
  now rewrite !forallb_app, !hex8_hex.
Qed.

Lemma hexdigest_nonempty (msg : bytes) : hexdigest msg <> [].
Proof.
  intros E. pose proof (hexdigest_length msg) as H. rewrite E in H. discriminate.
Qed.

End ShaFacts.

(* ================================================================== *)
(** * The receipt verifier *)
(* ================================================================== *)

Module VerifyFacts.

Import Py Json PyFacts ShaFacts.
Import Streaming (receipt, mkReceipt, r_model, r_timestamp, r_events_hash,
                  r_payload_hash, r_event_count, r_raw_events).
Import VerifyReceipt.
Open Scope N_scope.

(** ** What the statements do to the fields of [result] *)

Section Preserves.

Context {X : Type} (proj : VerifyResult -> X).

(** An action that leaves the field [proj] of [result] as it found it. *)
Definition preserves {A} (m : M A) : Prop :=
  forall r, proj (snd (m r)) = proj r.

Lemma preserves_mret {A} (a : A) : preserves (mret a).
Proof. intros r. reflexivity. Qed.

Lemma preserves_lift {A} (m : exn + A) : preserves (lift m).
Proof. intros r. reflexivity. Qed.

Lemma preserves_current : preserves current.
Proof. intros r. reflexivity. Qed.

Lemma preserves_modify (f : VerifyResult -> VerifyResult) :
  (forall r, proj (f r) = proj r) -> preserves (modify f).
Proof. intros H r. apply H. Qed.

Lemma preserves_bind {A B} (m : M A) (k : A -> M B) :
  preserves m -> (forall a, preserves (k a)) -> preserves (mbind m k).
Proof.
  intros Hm Hk r. unfold mbind. specialize (Hm r).
  destruct (m r) as [[e|a] r1]; simpl in *; [exact Hm|].
  now rewrite Hk.
Qed.

Lemma preserves_mfoldM {A B} (f : B -> A -> M B) (l : list A) :
  (forall b a, preserves (f b a)) -> forall acc, preserves (mfoldM f l acc).
Proof.
  intros Hf. induction l as [|x l IH]; intros acc; simpl.
  - apply preserves_mret.
  - apply preserves_bind; auto.
Qed.

(** The loop of check 5 touches the token counts only. *)
Lemma preserves_find_usage (events : list pyval) :
  (forall p c r, proj (set_tokens p c r) = proj r) ->
  preserves (find_usage events).
Proof.
  intros Hset.
  induction events as [|obj rest IH]; simpl; [apply preserves_mret|].
  assert (Hstep : preserves
    (u <~ lift (get obj (lit "usage") PNone) ;;
     pt <~ lift (get (por u (PDict [])) (lit "prompt_tokens") (PInt 0)) ;;
     ct <~ lift (get (por u (PDict [])) (lit "completion_tokens") (PInt 0)) ;;
     if truthy pt || truthy ct then modify (set_tokens pt ct)
     else find_usage rest)).
  { repeat (apply preserves_bind; [apply preserves_lift|intros ?]).
    destruct (truthy _ || truthy _); [|exact IH].
    apply preserves_modify. apply Hset. }
  destruct obj; auto.
Qed.

End Preserves.

Lemma reconstruct_choice_checks (content : str) (choice : pyval) :
  preserves checks (reconstruct_choice content choice).
Proof.
  unfold reconstruct_choice.
  repeat first [ apply preserves_bind; [|intros ?]
               | apply preserves_mret
               | apply preserves_lift
               | apply preserves_modify; intros ?; reflexivity ].
Qed.

Lemma reconstruct_event_checks (content : str) (obj : pyval) :
  preserves checks (reconstruct_event content obj).
Proof.
  unfold reconstruct_event.
  destruct obj; try apply preserves_mret;
    (apply preserves_bind; [apply preserves_lift|intros ?];
     apply preserves_bind; [apply preserves_lift|intros ?];
     apply preserves_mfoldM; intros; apply reconstruct_choice_checks).
Qed.

(** ** What each check appends *)

(** An action that appends exactly one check, satisfying [P] together with
    the [result] it leaves, when it returns, and none when it raises. *)
Definition appends_one {A} (P : Check -> VerifyResult -> Prop) (m : M A) : Prop :=
  forall r,
    match m r with
    | (inl _, r') => checks r' = checks r
    | (inr _, r') => exists c, checks r' = checks r ++ [c] /\ P c r'
    end.

Definition parsing_check (parse_errors : Z) (c : Check) : Prop :=
  name c = lit "event parsing"
  /\ status c = if (parse_errors =? 0)%Z then PASS else FAIL.

Lemma check_event_parsing_appends (raw_events : list str) (r : VerifyResult) :
  match check_event_parsing raw_events r with
  | (inl _, r') => checks r' = checks r
  | (inr parsed_events, r') =>
    exists parse_errors c,
      parse_events raw_events 0 [] = inr (parse_errors, parsed_events)
      /\ checks r' = checks r ++ [c] /\ parsing_check parse_errors c
  end.
Proof.
  unfold check_event_parsing, mbind, lift, current, modify, mret.
  destruct (parse_events raw_events 0 []) as [e|[pe parsed]]; simpl; [reflexivity|].
  exists pe. eexists. split; [reflexivity|]. split; [reflexivity|].
  unfold parsing_check. now destruct (pe =? 0)%Z.
Qed.

Definition content_check (c : Check) (r : VerifyResult) : Prop :=
  name c = lit "content"
  /\ status c = if (0 <? content_chars r)%Z then PASS else FAIL.

Lemma check_content_appends (parsed_events : list pyval) :
  appends_one content_check (check_content parsed_events).
Proof.
  intros r. unfold check_content, mbind at 1.
  assert (H : preserves checks (mfoldM reconstruct_event parsed_events []))
    by (apply preserves_mfoldM; intros; apply reconstruct_event_checks).
  specialize (H r).
  destruct (mfoldM reconstruct_event parsed_events [] r) as [[e|content] r1];
    simpl in H; [exact H|].
  unfold mbind, current, modify. simpl. rewrite H.
  eexists. split; [reflexivity|]. unfold content_check. simpl.
  now destruct (0 <? Z.of_nat (length content))%Z.
Qed.

Definition usage_check (c : Check) (r : VerifyResult) : Prop :=
  name c = lit "usage" /\ status c <> FAIL.

Lemma check_usage_appends (parsed_events : list pyval) :
  appends_one usage_check (check_usage parsed_events).
Proof.
  intros r. unfold check_usage, mbind at 1.
  assert (H : preserves checks (find_usage (rev parsed_events)))
    by (apply preserves_find_usage; reflexivity).
  specialize (H r).
  destruct (find_usage (rev parsed_events) r) as [[e|[]] r1];
    simpl in H; [exact H|].
  unfold mbind, current, lift, modify, mret, usage_check.
  destruct (gt0 (prompt_tokens r1)) as [e|[|]]; simpl; [exact H| |].
  - rewrite H. eexists. split; [reflexivity|]. split; [reflexivity|discriminate].
  - destruct (gt0 (completion_tokens r1)) as [e|[|]]; simpl; [exact H| |];
      rewrite H; eexists; (split; [reflexivity|]); (split; [reflexivity|discriminate]).
Qed.

Lemma check_usage_content_chars (parsed_events : list pyval) :
  preserves content_chars (check_usage parsed_events).
Proof.
  unfold check_usage.
  apply preserves_bind; [apply preserves_find_usage; reflexivity|intros ?].
  apply preserves_bind; [apply preserves_current|intros r1].
  apply preserves_bind; [apply preserves_lift|intros p].
  apply preserves_bind.
  - destruct p; [apply preserves_mret|apply preserves_lift].
  - intros found. apply preserves_modify. reflexivity.
Qed.

Lemma appends_one_extends {A} (P : Check -> VerifyResult -> Prop)
      (m : M A) (r : VerifyResult) :
  appends_one P m -> exists l, checks (snd (m r)) = checks r ++ l.
Proof.
  intros H. specialize (H r). destruct (m r) as [[e|a] r']; simpl.
  - exists []. now rewrite app_nil_r.
  - destruct H as [c [H _]]. eauto.
Qed.

(** Checks 3 to 5 keep the checks appended before them. *)
Lemma later_checks_extend (raw_events : list str) (r : VerifyResult) :
  exists l,
    checks (snd ((parsed_events <~ check_event_parsing raw_events ;;
                  check_content parsed_events ;;;
                  check_usage parsed_events) r))
    = checks r ++ l.
Proof.
  unfold mbind.
  pose proof (check_event_parsing_appends raw_events r) as H1.
  destruct (check_event_parsing raw_events r) as [[e|parsed] r1]; simpl in *.
  { exists []. now rewrite app_nil_r. }
  destruct H1 as (pe & c & _ & H1 & _).
  destruct (appends_one_extends _ _ r1 (check_content_appends parsed)) as [l2 H2].
  destruct (check_content parsed r1) as [[e|[]] r2]; simpl in *.
  - exists ([c] ++ l2). now rewrite H2, H1, app_assoc.
  - destruct (appends_one_extends _ _ r2 (check_usage_appends parsed)) as [l3 H3].
    exists ([c] ++ l2 ++ l3). now rewrite H3, H2, H1, !app_assoc.
Qed.

(** The statements up to check 2, once the digest of the raw events is
    known. *)
Lemma run_unfold (data : receipt) (path : str) (h : str) :
  _hash (join NEWLINE (or_default (r_raw_events data) [])) = inr h ->
  verify_receipt_run data path
  = (parsed_events <~ check_event_parsing (or_default (r_raw_events data) []) ;;
     check_content parsed_events ;;;
     check_usage parsed_events)
      (append_check (payload_hash_check data)
         (append_check (events_hash_check data h)
            (set_event_count
               (Z.of_nat (length (or_default (r_raw_events data) [])))
               (set_model (or_default (r_model data) (lit "unknown"))
                          (VerifyResult_new path))))).
Proof.
  intros Hh. unfold verify_receipt_run, verify_statements.
  unfold mbind at 1. cbn [modify].
  unfold mbind at 1. cbn [modify].
  unfold mbind at 1. unfold check_events_hash at 1.
  unfold mbind at 1. unfold lift at 1. rewrite Hh. cbn [modify].
  unfold mbind at 1. unfold check_payload_hash at 1. cbn [modify].
  reflexivity.
Qed.

(** The run of [verify_receipt] once the digest of the raw events is
    known: the first two checks are those of checks 1 and 2. *)
Lemma run_first_two_checks (data : receipt) (path : str) (h : str) :
  _hash (join NEWLINE (or_default (r_raw_events data) [])) = inr h ->
  exists l,
    checks (snd (verify_receipt_run data path))
    = events_hash_check data h :: payload_hash_check data :: l.
Proof.
  intros Hh. rewrite (run_unfold data path h Hh).
  match goal with
  | |- context [snd (mbind (check_event_parsing ?raw) ?k ?r)] =>
    destruct (later_checks_extend raw r) as [l Hl]
  end.
  exists l. rewrite Hl. reflexivity.
Qed.

(** A run that returns leaves the five checks, in order. *)
Lemma run_returns (data : receipt) (path : str) (v : VerifyResult) :
  verify_receipt data path = inr v ->
  exists h parse_errors parsed_events c3 c4 c5,
    _hash (join NEWLINE (or_default (r_raw_events data) [])) = inr h
    /\ parse_events (or_default (r_raw_events data) []) 0 []
       = inr (parse_errors, parsed_events)
    /\ checks v = [events_hash_check data h; payload_hash_check data; c3; c4; c5]
    /\ parsing_check parse_errors c3
    /\ content_check c4 v
    /\ usage_check c5 v.
Proof.
  unfold verify_receipt. intros H.
  destruct (_hash (join NEWLINE (or_default (r_raw_events data) [])))
    as [e|h] eqn:Hh.
  { exfalso. revert H. unfold verify_receipt_run, verify_statements.
    unfold mbind at 1. cbn [modify].
    unfold mbind at 1. cbn [modify].
    unfold mbind at 1. unfold check_events_hash at 1.
    unfold mbind at 1. unfold lift at 1. rewrite Hh. discriminate. }
  rewrite (run_unfold data path h Hh) in H.
  match type of H with
  | context [mbind (check_event_parsing ?raw) ?k ?r] =>
    set (r0 := r) in *; pose proof (check_event_parsing_appends raw r0) as H1
  end.
  unfold mbind in H.
  destruct (check_event_parsing _ r0) as [[e|parsed] r1]; [discriminate|].
  destruct H1 as (pe & c3 & Hpe & H1 & Hc3).
  pose proof (check_content_appends parsed r1) as H2.
  destruct (check_content parsed r1) as [[e|[]] r2]; [discriminate|].
  destruct H2 as (c4 & H2 & Hc4).
  pose proof (check_usage_appends parsed r2) as H3.
  pose proof (check_usage_content_chars parsed r2) as Hcc.
  destruct (check_usage parsed r2) as [[e|[]] r3]; [discriminate|].
  destruct H3 as (c5 & H3 & Hc5). simpl in Hcc.
  injection H as <-.
  exists h, pe, parsed, c3, c4, c5.
  split; [reflexivity|]. split; [exact Hpe|].
  split; [rewrite H3, H2, H1; reflexivity|].
  split; [exact Hc3|]. split; [|exact Hc5].
  destruct Hc4 as [Hn Hs]. split; [exact Hn|]. now rewrite Hcc.
Qed.

Lemma status_of_first (c : Check) (l : list Check) :
  status_of (name c) (c :: l) = Some (status c).
Proof. unfold status_of. simpl. now rewrite str_eqb_refl. Qed.

Lemma events_hash_check_name (data : receipt) (h : str) :
  name (events_hash_check data h) = lit "events_hash".
Proof.
  unfold events_hash_check.
  destruct (is_empty _); [reflexivity|]. now destruct (str_eqb _ _).
Qed.

Lemma payload_hash_check_name (data : receipt) :
  name (payload_hash_check data) = lit "payload_hash".
Proof.
  unfold payload_hash_check.
  destruct (is_empty _); [reflexivity|]. now destruct (_ && _).
Qed.

Lemma status_of_events_hash (data : receipt) (h : str) (l : list Check) :
  status_of (lit "events_hash")
            (events_hash_check data h :: payload_hash_check data :: l)
  = Some (status (events_hash_check data h)).
Proof.
  rewrite <- (events_hash_check_name data h) at 1. apply status_of_first.
Qed.

Lemma status_of_payload_hash (data : receipt) (h : str) (l : list Check) :
  status_of (lit "payload_hash")
            (events_hash_check data h :: payload_hash_check data :: l)
  = Some (status (payload_hash_check data)).
Proof.
  unfold status_of. cbn [find].
  rewrite events_hash_check_name, payload_hash_check_name. reflexivity.
Qed.

(** The stored hash is a digest and the derived one is equal to it. *)
Lemma events_hash_check_pass (data : receipt) (m : bytes) :
  r_events_hash data = Some (Sha256.hexdigest m) ->
  status (events_hash_check data (Sha256.hexdigest m)) = PASS.
Proof.
  intros Hstored. unfold events_hash_check. rewrite Hstored. cbn [or_default].
  pose proof (hexdigest_nonempty m) as Hne.
  destruct (Sha256.hexdigest m) eqn:E; [congruence|].
  cbn [is_empty]. now rewrite str_eqb_refl.
Qed.

(** A stored payload hash that is a digest is well-formed. *)
Lemma payload_hash_check_pass (data : receipt) (m : bytes) :
  r_payload_hash data = Some (Sha256.hexdigest m) ->
  status (payload_hash_check data) = PASS.
Proof.
  intros Hstored. unfold payload_hash_check. rewrite Hstored. cbn [or_default].
  pose proof (hexdigest_nonempty m) as Hne.
  pose proof (hexdigest_length m) as Hlen.
  pose proof (hexdigest_hex m) as Hhex.
  change Sha256.hex_alphabet with HEX in Hhex.
  destruct (Sha256.hexdigest m) eqn:E; [congruence|].
  cbn [is_empty]. rewrite Hlen, Hhex. reflexivity.
Qed.

(** Check 3 counts the frames that are neither the sentinel nor JSON. *)
Lemma parse_events_errors (raw_events : list str) :
  forall pe0 acc pe parsed,
    parse_events raw_events pe0 acc = inr (pe, parsed) ->
    (pe0 <= pe)%Z
    /\ (pe = pe0 <-> forallb frame_parses raw_events = true).
Proof.
  induction raw_events as [|ev rest IH]; intros pe0 acc pe parsed H.
  - injection H as <- <-. split; [lia|]. split; reflexivity.
  - cbn [parse_events] in H. cbn [forallb]. unfold frame_parses at 1.
    destruct (str_eqb (strip ev) (lit "[DONE]")).
    + apply IH in H. exact H.
    + destruct (loads ev) as [[]|obj]; try discriminate H.
      * apply IH in H as [Hle Hiff]. cbn [orb andb]. split; [lia|].
        split; [lia|discriminate].
      * apply IH in H. exact H.
Qed.

(** The report a call returns is [result] as the run left it. *)
Lemma verify_receipt_returns (data : receipt) (path : str) (v : VerifyResult) :
  verify_receipt data path = inr v ->
  snd (verify_receipt_run data path) = v.
Proof.
  unfold verify_receipt.
  destruct (verify_receipt_run data path) as [[e|[]] r]; [discriminate|].
  intros H. now injection H.
Qed.

(** ** Inserting a frame *)

Lemma insert_split {A} (i : nat) (x : A) (l : list A) :
  exists l1 l2, l = l1 ++ l2 /\ insert i x l = l1 ++ x :: l2.
Proof.
  exists (firstn i l), (skipn i l). split; [|reflexivity].
  symmetry. apply firstn_skipn.
Qed.

Lemma insert_length {A} (i : nat) (x : A) (l : list A) :
  length (insert i x l) = S (length l).
Proof.
  destruct (insert_split i x l) as (l1 & l2 & -> & ->).
  rewrite !length_app. simpl. lia.
Qed.

Lemma insert_list_sum {A} (f : A -> nat) (i : nat) (x : A) (l : list A) :
  list_sum (map f (insert i x l)) = (list_sum (map f l) + f x)%nat.
Proof.
  destruct (insert_split i x l) as (l1 & l2 & -> & ->).
  rewrite !map_app, !list_sum_app. simpl. lia.
Qed.

Lemma insert_Forall {A} (P : A -> Prop) (i : nat) (x : A) (l : list A) :
  P x -> Forall P l -> Forall P (insert i x l).
Proof.
  destruct (insert_split i x l) as (l1 & l2 & -> & ->).
  intros Hx H. apply Forall_app in H as [H1 H2].
  apply Forall_app. split; [exact H1|]. constructor; assumption.
Qed.

(** A joined text grows with every non-empty frame inserted into it. *)
Lemma insert_grows (sep x : str) (i : nat) (l : list str) :
  x <> [] ->
  (length (octets (join sep l))
   < length (octets (join sep (insert i x l))))%nat.
Proof.
  intros Hx. rewrite !octets_join_length, insert_length, insert_list_sum.
  pose proof (octets_nonempty x Hx).
  destruct l as [|y l]; simpl; lia.
Qed.

Lemma fake_event_encodable : forallb encodable fake_event = true.
Proof. vm_compute. reflexivity. Qed.

(** The tampered copy still encodes, to a longer message. *)
Lemma tamper_octets (data : receipt) (m : bytes) :
  events_octets data = inr m ->
  exists m', events_octets (tamper data) = inr m' /\ m <> m'.
Proof.
  unfold events_octets. intros H. apply encode_inv in H as [Henc ->].
  cbn [tamper r_raw_events or_default].
  set (raw := or_default (r_raw_events data) []) in *.
  set (mid := Nat.div (length raw) 2).
  exists (octets (join NEWLINE (insert mid fake_event raw))). split.
  - apply encode_ok. apply forallb_join; [reflexivity|].
    apply insert_Forall; [apply fake_event_encodable|].
    now apply forallb_join_inv with (sep := NEWLINE).
  - intros E.
    assert (Hne : fake_event <> []) by discriminate.
    pose proof (insert_grows NEWLINE fake_event mid raw Hne) as Hlt.
    rewrite <- E in Hlt. lia.
Qed.

End VerifyFacts.

(* ================================================================== *)
(** * Claims about the verifier *)
(* ================================================================== *)

Module VerifierClaims.

Import Py Json PyFacts ShaFacts.
Import Streaming (receipt, mkReceipt, r_model, r_timestamp, r_events_hash,
                  r_payload_hash, r_event_count, r_raw_events).
Import VerifyReceipt VerifyFacts.
Open Scope N_scope.

(** C6. A report is verified exactly when none of its checks has status
    FAIL; in particular a report whose checks are all PASS or SKIP is
    verified. *)
Theorem verified_iff_no_fail (r : VerifyResult) :
  (verified r = true <-> forall c, In c (checks r) -> status c <> FAIL)
  /\ ((forall c, In c (checks r) -> status c = PASS \/ status c = SKIP)
      -> verified r = true).
Proof.
  assert (Hiff : verified r = true
                 <-> forall c, In c (checks r) -> status c <> FAIL).
  { unfold verified. rewrite forallb_forall. split; intros H c Hc.
    - specialize (H c Hc). now destruct (status c).
    - specialize (H c Hc). now destruct (status c). }
  split; [exact Hiff|].
  intros H. apply Hiff. intros c Hc.
  destruct (H c Hc) as [-> | ->]; discriminate.
Qed.

(** A report with a SKIP and no FAIL. *)
Example verified_with_skip :
  verified (mkVerifyResult [] [mkCheck (lit "events_hash") SKIP FieldMissing;
                               mkCheck (lit "content") PASS NoContent]
                           [] 0 (PInt 0) (PInt 0) 0 0) = true.
Proof. reflexivity. Qed.

(** C1. When the stored events hash of a receipt is the digest of its raw
    events, the tampered copy of [main] (the fabricated event inserted at
    the midpoint) fails the events_hash check, given that SHA-256 tells the
    two joined texts apart, and its payload_hash check has the status it
    has on the receipt itself. The checks are those in [result] when the
    run ends, which are the checks of the report when the call returns
    one. *)
Theorem tamper_fails_events_hash
        (data : receipt) (m : bytes) (path path' : str) :
  events_octets data = inr m ->
  r_events_hash data = Some (Sha256.hexdigest m) ->
  (forall m', events_octets (tamper data) = inr m' -> no_collision m m') ->
  let before := checks (snd (verify_receipt_run data path)) in
  let after := checks (snd (verify_receipt_run (tamper data) path')) in
  status_of (lit "events_hash") before = Some PASS
  /\ status_of (lit "events_hash") after = Some FAIL
  /\ status_of (lit "payload_hash") after
     = status_of (lit "payload_hash") before
  /\ (forall v, verify_receipt data path = inr v -> checks v = before)
  /\ (forall v, verify_receipt (tamper data) path' = inr v ->
                checks v = after).
Proof.
  intros Hm Hstored Hsha before after.
  assert (Hret : (forall v, verify_receipt data path = inr v ->
                            checks v = before)
                 /\ (forall v, verify_receipt (tamper data) path' = inr v ->
                               checks v = after)).
  { split; intros v Hv; apply verify_receipt_returns in Hv; now subst v. }
  cut (status_of (lit "events_hash") before = Some PASS
       /\ status_of (lit "events_hash") after = Some FAIL
       /\ status_of (lit "payload_hash") after
          = status_of (lit "payload_hash") before).
  { intros (H1 & H2 & H3). destruct Hret. auto. }
  clear Hret.
  destruct (tamper_octets data m Hm) as (m' & Hm' & Hdiff).
  pose proof (Hsha m' Hm' Hdiff) as Hdigest.
  assert (Hh : _hash (join NEWLINE (or_default (r_raw_events data) []))
               = inr (Sha256.hexdigest m)).
  { unfold _hash. unfold events_octets in Hm. now rewrite Hm. }
  assert (Hh' : _hash (join NEWLINE (or_default (r_raw_events (tamper data)) []))
                = inr (Sha256.hexdigest m')).
  { unfold _hash. unfold events_octets in Hm'. now rewrite Hm'. }
  destruct (run_first_two_checks data path _ Hh) as [l Hl].
  destruct (run_first_two_checks (tamper data) path' _ Hh') as [l' Hl'].
  subst before after. rewrite Hl, Hl'.
  rewrite !status_of_events_hash, !status_of_payload_hash.
  split; [|split].
  - f_equal. now apply events_hash_check_pass.
  - unfold events_hash_check. cbn [tamper r_events_hash]. rewrite Hstored.
    cbn [or_default].
    pose proof (hexdigest_nonempty m) as Hne.
    destruct (Sha256.hexdigest m) eqn:E; [congruence|].
    cbn [is_empty].
    assert (E' : str_eqb (Sha256.hexdigest m') (n :: s) = false).
    { apply str_eqb_neq. congruence. }
    now rewrite E'.
  - reflexivity.
Qed.

(** A receipt of two frames whose stored hash is the digest of its raw
    events. *)
Definition sample_raw_events : list str :=
  [qlit "{'choices':[{'delta':{'content':'Hi'}}]}"; lit "[DONE]"].

Definition sample_octets : bytes :=
  Eval vm_compute in octets (join NEWLINE sample_raw_events).

Definition sample_receipt : receipt :=
  mkReceipt (Some (lit "m")) (Some 1700000000%Z)
            (Some (Sha256.hexdigest sample_octets))
            (Some (Sha256.hexdigest (lit "{}")))
            (Some 2%Z) (Some sample_raw_events).

Lemma tamper_fails_events_hash_witness :
  status_of (lit "events_hash")
            (checks (snd (verify_receipt_run sample_receipt (lit "r.json"))))
  = Some PASS
  /\ status_of (lit "events_hash")
               (checks (snd (verify_receipt_run (tamper sample_receipt)
                                                (lit "r.json [tampered]"))))
     = Some FAIL
  /\ status_of (lit "payload_hash")
               (checks (snd (verify_receipt_run (tamper sample_receipt)
                                                (lit "r.json [tampered]"))))
     = status_of (lit "payload_hash")
                 (checks (snd (verify_receipt_run sample_receipt (lit "r.json"))))
  /\ (forall v, verify_receipt sample_receipt (lit "r.json") = inr v ->
                checks v
                = checks (snd (verify_receipt_run sample_receipt (lit "r.json"))))
  /\ (forall v, verify_receipt (tamper sample_receipt)
                               (lit "r.json [tampered]") = inr v ->
                checks v
                = checks (snd (verify_receipt_run (tamper sample_receipt)
                                                  (lit "r.json [tampered]")))).
Proof.
  apply (tamper_fails_events_hash sample_receipt sample_octets).
  - vm_compute. reflexivity.
  - reflexivity.
  - intros m' H. vm_compute in H. injection H as <-.
    intros _. vm_compute. discriminate.
Defined.

(** The receipt the generator writes for the sentinel alone. *)
Definition done_only_out : (exn + Streaming.path) * Streaming.filesystem :=
  Streaming._write_receipt
    (Streaming.mkWorld (fun _ => 0%Q) 1700000000 (Streaming.Body [] None))
    (lit "data/receipts") (lit "m") (lit "{}") [lit "[DONE]"]
    (Streaming.mkFs [] []).

Definition done_only_receipt : receipt :=
  Eval vm_compute in
    or_default (written_receipt done_only_out)
               (mkReceipt None None None None None None).

(** C2, as stated, fails: the generator records any frames, and a receipt
    of the sentinel alone is rejected for its missing content. *)
Lemma done_only_receipt_rejected :
  written_receipt done_only_out = Some done_only_receipt
  /\ r_raw_events done_only_receipt = Some [lit "[DONE]"]
  /\ option_map verified
       (match verify_receipt done_only_receipt (lit "r.json") with
        | inr v => Some v
        | inl _ => None
        end) = Some false
  /\ status_of (lit "content")
       (checks (snd (verify_receipt_run done_only_receipt (lit "r.json"))))
     = Some FAIL.
Proof. vm_compute. repeat split; reflexivity. Qed.

(** C2, amended. For frames that encode as UTF-8 and any request body, the
    generator writes a receipt on which the events_hash and payload_hash
    checks PASS; the report has no FAIL exactly when every frame other than
    the sentinel is JSON and some content is reconstructed. *)
Theorem generated_receipt_verification
        (w : Streaming.world) (receipt_dir model : str) (payload : bytes)
        (raw_events : list str) (fs : Streaming.filesystem) (path : str) :
  Forall (fun s => forallb encodable s = true) raw_events ->
  exists rc,
    written_receipt
      (Streaming._write_receipt w receipt_dir model payload raw_events fs)
    = Some rc
    /\ r_raw_events rc = Some raw_events
    /\ (let cs := checks (snd (verify_receipt_run rc path)) in
        status_of (lit "events_hash") cs = Some PASS
        /\ status_of (lit "payload_hash") cs = Some PASS)
    /\ forall v, verify_receipt rc path = inr v ->
         (verified v = true
          <-> forallb frame_parses raw_events = true
              /\ (0 < content_chars v)%Z).
Proof.
  intros Henc.
  assert (Hok : encode (join NEWLINE raw_events)
                = inr (octets (join NEWLINE raw_events))).
  { apply encode_ok. now apply forallb_join. }
  unfold Streaming._write_receipt. rewrite Hok.
  set (m := octets (join NEWLINE raw_events)).
  match goal with
  | |- context [(inr ?p, Streaming.mkFs _ ((_, ?r) :: _))] =>
    set (rc := r); set (pth := p)
  end.
  exists rc. cbn [written_receipt Streaming.files].
  rewrite !str_eqb_refl. cbn [andb].
  assert (Hh : _hash (join NEWLINE (or_default (r_raw_events rc) []))
               = inr (Sha256.hexdigest m)).
  { unfold _hash. cbn [rc r_raw_events or_default]. now rewrite Hok. }
  split; [reflexivity|]. split; [reflexivity|]. split.
  - destruct (run_first_two_checks rc path _ Hh) as [l Hl].
    cbv zeta. rewrite Hl, status_of_events_hash, status_of_payload_hash.
    split; f_equal.
    + now apply events_hash_check_pass.
    + now apply payload_hash_check_pass with (m := payload).
  - intros v Hv.
    destruct (run_returns rc path v Hv)
      as (h & pe & parsed & c3 & c4 & c5 & Hh' & Hpe & Hcs & Hc3 & Hc4 & Hc5).
    rewrite Hh in Hh'. injection Hh' as <-.
    cbn [rc r_raw_events or_default] in Hpe.
    apply parse_events_errors in Hpe as [_ Hiff].
    destruct Hc3 as [_ Hs3]. destruct Hc4 as [_ Hs4]. destruct Hc5 as [_ Hs5].
    unfold verified. rewrite Hcs. cbn [forallb].
    rewrite (events_hash_check_pass rc m eq_refl).
    rewrite (payload_hash_check_pass rc payload eq_refl).
    rewrite Hs3, Hs4. cbn [status_eqb negb andb].
    assert (H5 : negb (status_eqb (status c5) FAIL) = true)
      by (destruct (status c5); [reflexivity|congruence|reflexivity]).
    rewrite H5, !andb_true_r.
    destruct (pe =? 0)%Z eqn:E0; destruct (0 <? content_chars v)%Z eqn:Ec;
      cbn [status_eqb negb andb].
    + split; [intros _|reflexivity]. split; [apply Hiff|]; lia.
    + split; [discriminate|]. intros [_ H]. lia.
    + split; [discriminate|]. intros [H _]. apply Hiff in H. lia.
    + split; [discriminate|]. intros [_ H]. lia.
Qed.

Lemma generated_receipt_verification_witness :
  exists rc,
    written_receipt
      (Streaming._write_receipt
         (Streaming.mkWorld (fun _ => 0%Q) 1700000000 (Streaming.Body [] None))
         (lit "data/receipts") (lit "m") (lit "{}") sample_raw_events
         (Streaming.mkFs [] []))
    = Some rc
    /\ r_raw_events rc = Some sample_raw_events
    /\ (let cs := checks (snd (verify_receipt_run rc (lit "r.json"))) in
        status_of (lit "events_hash") cs = Some PASS
        /\ status_of (lit "payload_hash") cs = Some PASS)
    /\ forall v, verify_receipt rc (lit "r.json") = inr v ->
         (verified v = true
          <-> forallb frame_parses sample_raw_events = true
              /\ (0 < content_chars v)%Z).
Proof.
  apply generated_receipt_verification.
  repeat constructor.
Defined.

End VerifierClaims.

(* ================================================================== *)
(** * The frame decoder *)
(* ================================================================== *)

Module DecoderFacts.

Import Py PyFacts Streaming.
Open Scope N_scope.

Ltac bools :=
  repeat match goal with
  | H : (_ && _)%bool = true |- _ => apply andb_true_iff in H as [? ?]
  | H : (_ && _)%bool = false |- _ => apply andb_false_iff in H as [?|?]
  | H : negb _ = true |- _ => apply negb_true_iff in H
  | H : negb _ = false |- _ => apply negb_false_iff in H
  | H : (_ <? _) = true |- _ => apply N.ltb_lt in H
  | H : (_ <? _) = false |- _ => apply N.ltb_ge in H
  | H : (_ <=? _) = true |- _ => apply N.leb_le in H
  | H : (_ <=? _) = false |- _ => apply N.leb_gt in H
  | H : (_ =? _) = true |- _ => apply N.eqb_eq in H
  | H : (_ =? _) = false |- _ => apply N.eqb_neq in H
  end.

(** Quotient and remainder of [x] by the constant [k], as fresh variables
    tied by the division equation. *)
Ltac euclid x k :=
  let H1 := fresh in
  let H2 := fresh in
  pose proof (N.div_mod x k) as H1;
  pose proof (N.mod_upper_bound x k) as H2;
  specialize (H1 ltac:(discriminate)); specialize (H2 ltac:(discriminate));
  generalize dependent (x / k); generalize dependent (x mod k); intros.

Lemma encodable_iff (c : N) :
  encodable c = true <-> (c < 0xD800 \/ (0xDFFF < c /\ c < 0x110000)).
Proof.
  unfold encodable, is_surrogate. split.
  - intros H. bools; lia.
  - intros H.
    destruct (0xD800 <=? c) eqn:E1; destruct (c <=? 0xDFFF) eqn:E2;
      destruct (c <? 0x110000) eqn:E3; simpl; bools; try reflexivity; lia.
Qed.

Lemma decoded2 (b0 b1 : N) :
  b0 < 0xE0 -> is_cont b1 = true ->
  encodable (b0 mod 32 * 64 + low6 b1) = true.
Proof.
  intros. unfold is_cont, low6 in *. bools. apply encodable_iff.
  pose proof (N.mod_upper_bound b0 32). pose proof (N.mod_upper_bound b1 64).
  lia.
Qed.

Lemma decoded3 (b0 b1 b2 : N) :
  0xE0 <= b0 -> b0 < 0xF0 -> second3_ok b0 b1 = true -> is_cont b2 = true ->
  encodable (b0 mod 16 * 4096 + low6 b1 * 64 + low6 b2) = true.
Proof.
  intros. unfold second3_ok, is_cont, low6 in *.
  destruct (b1 <? 0xA0) eqn:E; bools; apply encodable_iff;
    euclid b0 16; euclid b1 64; euclid b2 64; lia.
Qed.

Lemma decoded4 (b0 b1 b2 b3 : N) :
  0xF0 <= b0 -> b0 < 0xF5 -> second4_ok b0 b1 = true ->
  is_cont b2 = true -> is_cont b3 = true ->
  encodable (b0 mod 8 * 262144 + low6 b1 * 4096 + low6 b2 * 64 + low6 b3)
  = true.
Proof.
  intros. unfold second4_ok, is_cont, low6 in *.
  destruct (b1 <? 0x90) eqn:E; bools; apply encodable_iff;
    euclid b0 8; euclid b1 64; euclid b2 64; euclid b3 64; lia.
Qed.

Definition item_ok (o : option N) : Prop :=
  match o with Some c => encodable c = true | None => True end.

(** The decoder yields no surrogate and nothing beyond U+10FFFF. *)
Lemma decode_items_ok (n : nat) :
  forall l, (length l <= n)%nat -> Forall item_ok (decode_items l).
Proof.
  induction n as [|n IH]; intros l Hl.
  { destruct l; [constructor|simpl in Hl; lia]. }
  destruct l as [|b0 t0]; [constructor|]. simpl in Hl.
  assert (H0 : Forall item_ok (decode_items t0)) by (apply IH; lia).
  cbn [decode_items].
  destruct (b0 <? 0x80) eqn:E80.
  { constructor; [|exact H0]. apply encodable_iff. bools. lia. }
  destruct (b0 <? 0xC2) eqn:EC2; [constructor; [exact I|exact H0]|].
  destruct (b0 <? 0xE0) eqn:EE0.
  { destruct t0 as [|b1 t1]; [repeat constructor|]. simpl in Hl.
    destruct (is_cont b1) eqn:C1; [|constructor; [exact I|exact H0]].
    constructor; [|apply IH; lia]. bools. now apply decoded2. }
  destruct (b0 <? 0xF0) eqn:EF0.
  { destruct t0 as [|b1 t1]; [repeat constructor|]. simpl in Hl.
    destruct (second3_ok b0 b1) eqn:S3; [|constructor; [exact I|exact H0]].
    destruct t1 as [|b2 t2]; [repeat constructor|]. simpl in Hl.
    destruct (is_cont b2) eqn:C2;
      [|constructor; [exact I|apply IH; simpl; lia]].
    constructor; [|apply IH; lia]. bools. now apply decoded3. }
  destruct (b0 <? 0xF5) eqn:EF5; [|constructor; [exact I|exact H0]].
  destruct t0 as [|b1 t1]; [repeat constructor|]. simpl in Hl.
  destruct (second4_ok b0 b1) eqn:S4; [|constructor; [exact I|exact H0]].
  destruct t1 as [|b2 t2]; [repeat constructor|]. simpl in Hl.
  destruct (is_cont b2) eqn:C2;
    [|constructor; [exact I|apply IH; simpl; lia]].
  destruct t2 as [|b3 t3]; [repeat constructor|]. simpl in Hl.
  destruct (is_cont b3) eqn:C3;
    [|constructor; [exact I|apply IH; simpl; lia]].
  constructor; [|apply IH; lia]. bools. now apply decoded4.
Qed.

Definition text_ok (s : str) : Prop := forallb encodable s = true.

Lemma text_ok_Forall (s : str) :
  text_ok s <-> Forall (fun c => encodable c = true) s.
Proof.
  unfold text_ok. rewrite forallb_forall, Forall_forall. reflexivity.
Qed.

Lemma decode_replace_ok (b : bytes) : text_ok (decode_replace b).
Proof.
  apply text_ok_Forall. unfold decode_replace.
  pose proof (decode_items_ok (length b) b (le_n _)) as H.
  induction H as [|o l Ho Hl IH]; [constructor|].
  cbn [map]. constructor; [|exact IH].
  destruct o; [exact Ho|reflexivity].
Qed.

(** Strict decoding, when it succeeds, agrees with the permissive one. *)
Lemma all_some_replace (l : list (option N)) (s : str) :
  all_some l = Some s ->
  s = map (fun o => match o with Some c => c | None => REPLACEMENT end) l.
Proof.
  revert s. induction l as [|[c|] l IH]; intros s H; simpl in *.
  - now injection H as <-.
  - destruct (all_some l); [|discriminate]. injection H as <-.
    f_equal. now apply IH.
  - discriminate.
Qed.

Lemma decode_line_bytes (b : bytes) : decode_line (LBytes b) = decode_replace b.
Proof.
  unfold decode_line, decode_strict.
  destruct (all_some (decode_items b)) as [s|] eqn:E; [|reflexivity].
  now apply all_some_replace.
Qed.

Lemma lstrip_ok (s : str) : text_ok s -> text_ok (lstrip s).
Proof.
  unfold text_ok. induction s as [|c s IH]; [auto|].
  intros H. cbn [lstrip]. destruct (isspace c); [|exact H].
  simpl in H. apply andb_true_iff in H as [_ H]. auto.
Qed.

Lemma rev_ok (s : str) : text_ok s -> text_ok (rev s).
Proof.
  rewrite !text_ok_Forall. apply Forall_rev.
Qed.

Lemma strip_ok (s : str) : text_ok s -> text_ok (strip s).
Proof.
  intros H. unfold strip, rstrip.
  apply rev_ok, lstrip_ok, rev_ok, lstrip_ok, H.
Qed.

Lemma skipn_ok (n : nat) (s : str) : text_ok s -> text_ok (skipn n s).
Proof.
  unfold text_ok. revert s. induction n as [|n IH]; intros s H; [exact H|].
  destruct s as [|c s]; [reflexivity|]. simpl in H.
  apply andb_true_iff in H as [_ H]. cbn [skipn]. auto.
Qed.

(** An euro sign, a sequence cut short, an overlong form, a surrogate and
    a sequence cut by the end of the input. *)
Example decode_replace_sample :
  decode_replace [0x41; 0xE2; 0x82; 0xAC; 0xE2; 0x82; 0x41; 0xC0; 0x80;
                  0xED; 0xA0; 0x80; 0xF0; 0x9F]
  = [0x41; 0x20AC; 0xFFFD; 0x41; 0xFFFD; 0xFFFD;
     0xFFFD; 0xFFFD; 0xFFFD; 0xFFFD].
Proof. reflexivity. Qed.

(** Every frame decoded from lines of bytes can be encoded again. *)
Lemma frames_ok (lines : list bytes) :
  Forall text_ok (_iter_sse_data (map LBytes lines)).
Proof.
  induction lines as [|b lines IH]; [constructor|].
  cbn [map _iter_sse_data]. rewrite decode_line_bytes.
  destruct (startswith _ DATA_PREFIX); [|exact IH].
  constructor; [|exact IH].
  apply strip_ok, skipn_ok, strip_ok, decode_replace_ok.
Qed.

(** The decoder treats each line on its own. *)
Lemma _iter_sse_data_app (l1 l2 : list line) :
  _iter_sse_data (l1 ++ l2) = _iter_sse_data l1 ++ _iter_sse_data l2.
Proof.
  induction l1 as [|l l1 IH]; [reflexivity|].
  cbn [app _iter_sse_data]. rewrite IH.
  now destruct (startswith _ DATA_PREFIX).
Qed.

End DecoderFacts.

(* ================================================================== *)
(** * The stream consumer *)
(* ================================================================== *)

Module ConsumerFacts.

Import Py Json PyFacts Streaming DecoderFacts.
Open Scope N_scope.

(** What the usage block of a frame does to the result. *)
Definition apply_usage (r : StreamResult) (p c : pyval) : StreamResult :=
  let r1 := if truthy p then set_prompt_tokens r p else r in
  if truthy c then set_completion_tokens r1 c else r1.

Lemma update_usage_inv (r r' : StreamResult) (obj : pyval) :
  update_usage r obj = inr r' ->
  r' = apply_usage r (usage_value obj (lit "prompt_tokens"))
                     (usage_value obj (lit "completion_tokens")).
Proof.
  unfold update_usage, usage_value, apply_usage, bind, ret.
  destruct (get obj (lit "usage") PNone) as [e|u]; [discriminate|].
  destruct (get (por u (PDict [])) (lit "prompt_tokens") PNone) as [e|p];
    [discriminate|].
  destruct (get (por u (PDict [])) (lit "completion_tokens") PNone) as [e|c];
    [discriminate|].
  intros H. now injection H as <-.
Qed.

(** The three ways a turn of the loop ends without raising. *)
Inductive turn (s : session) (ev : str) (s' : session) : bool -> Prop :=
| turn_sentinel :
    is_sentinel ev = true ->
    text (result s') = text (result s) ->
    parse_errors (result s') = parse_errors (result s) ->
    prompt_tokens (result s') = prompt_tokens (result s) ->
    completion_tokens (result s') = completion_tokens (result s) ->
    turn s ev s' true
| turn_parse_error :
    is_sentinel ev = false ->
    loads ev = inl JSONDecodeError ->
    text (result s') = text (result s) ->
    parse_errors (result s') = (parse_errors (result s) + 1)%Z ->
    prompt_tokens (result s') = prompt_tokens (result s) ->
    completion_tokens (result s') = completion_tokens (result s) ->
    turn s ev s' false
| turn_parsed (obj : pyval) (content reasoning' : str) :
    is_sentinel ev = false ->
    loads ev = inr obj ->
    _extract_content_parts obj = inr (content, reasoning') ->
    text (result s') = text (result s) ++ content ->
    parse_errors (result s') = parse_errors (result s) ->
    prompt_tokens (result s')
    = (let p := usage_value obj (lit "prompt_tokens") in
       if truthy p then p else prompt_tokens (result s)) ->
    completion_tokens (result s')
    = (let c := usage_value obj (lit "completion_tokens") in
       if truthy c then c else completion_tokens (result s)) ->
    turn s ev s' false.

(** A turn that does not raise logs the frame, reads the clock once, sets
    the time to first byte if it was not set, and leaves the error, the
    completion time and the receipt path alone. *)
Lemma consume_frame_inv (w : world) (t_start thr : Q) (s s' : session)
      (ev : str) (stop : bool) :
  consume_frame w t_start thr s ev = inr (s', stop) ->
  raw_events s' = raw_events s ++ [ev]
  /\ reads s' = S (reads s)
  /\ error (result s') = error (result s)
  /\ ttfb_ms (result s') <> None
  /\ turn s ev s' stop.
Proof.
  unfold consume_frame.
  set (now := monotonic w (reads s)).
  set (r1 := if _ && _ then _ else _).
  set (r2 := match ttfb_ms r1 with None => _ | Some _ => _ end).
  assert (Hr1 : text r1 = text (result s)
                /\ parse_errors r1 = parse_errors (result s)
                /\ prompt_tokens r1 = prompt_tokens (result s)
                /\ completion_tokens r1 = completion_tokens (result s)
                /\ error r1 = error (result s)).
  { subst r1. destruct (_ && _); repeat split. }
  assert (Hr2 : text r2 = text (result s)
                /\ parse_errors r2 = parse_errors (result s)
                /\ prompt_tokens r2 = prompt_tokens (result s)
                /\ completion_tokens r2 = completion_tokens (result s)
                /\ error r2 = error (result s)
                /\ ttfb_ms r2 <> None).
  { subst r2. destruct (ttfb_ms r1) eqn:E; cbn; rewrite ?E; intuition congruence. }
  destruct Hr2 as (Ht & Hp & Hpt & Hct & He & Hf).
  clearbody r2. clear Hr1 r1.
  destruct (str_eqb (strip ev) DONE) eqn:Hs.
  { intros H. injection H as <- <-. cbn. repeat split; auto.
    now apply turn_sentinel. }
  destruct (loads ev) as [[]|obj] eqn:Hl; try discriminate.
  { intros H. injection H as <- <-. cbn. repeat split; auto.
    apply turn_parse_error; cbn; auto. now rewrite Hp. }
  unfold bind.
  destruct (_extract_content_parts obj) as [e|[content reasoning']] eqn:Hx;
    [discriminate|].
  destruct (update_usage _ obj) as [e|r4] eqn:Hu; [discriminate|].
  apply update_usage_inv in Hu.
  intros H. injection H as <- <-. cbn. subst r4.
  unfold apply_usage.
  destruct (truthy (usage_value obj (lit "prompt_tokens"))) eqn:Tp;
    destruct (truthy (usage_value obj (lit "completion_tokens"))) eqn:Tc;
    cbn; (repeat split; auto);
    (eapply turn_parsed; eauto; cbn; rewrite ?Tp, ?Tc; congruence).
Qed.

Lemma turn_stop (s s' : session) (ev : str) (stop : bool) :
  turn s ev s' stop -> stop = is_sentinel ev.
Proof. intros []; congruence. Qed.

(** A property of the session that every turn keeps holds when the loop
    ends. *)
Lemma consume_invariant (w : world) (t_start thr : Q) (P : session -> Prop) :
  (forall s ev s' stop,
      P s -> consume_frame w t_start thr s ev = inr (s', stop) -> P s') ->
  forall frames s s' stop,
    P s -> consume w t_start thr s frames = inr (s', stop) -> P s'.
Proof.
  intros Hstep. induction frames as [|ev rest IH]; intros s s' stop HP H.
  - injection H as <- <-. exact HP.
  - cbn [consume] in H. unfold bind in H.
    destruct (consume_frame w t_start thr s ev) as [e|[s1 stop1]] eqn:E;
      [discriminate|].
    pose proof (Hstep _ _ _ _ HP E) as HP1.
    destruct stop1.
    + injection H as <- <-. exact HP1.
    + eapply IH; eauto.
Qed.

(** The loop logs the frames up to the first sentinel, reads the clock
    once for each, and stops early exactly at a sentinel. *)
Lemma consume_log (w : world) (t_start thr : Q) :
  forall frames s s' stop,
    consume w t_start thr s frames = inr (s', stop) ->
    raw_events s' = raw_events s ++ through_sentinel frames
    /\ reads s' = (reads s + length (through_sentinel frames))%nat
    /\ error (result s') = error (result s)
    /\ stop = existsb is_sentinel frames.
Proof.
  induction frames as [|ev rest IH]; intros s s' stop H.
  - injection H as <- <-. cbn. rewrite app_nil_r. auto.
  - cbn [consume] in H. unfold bind in H.
    destruct (consume_frame w t_start thr s ev) as [e|[s1 stop1]] eqn:E;
      [discriminate|].
    apply consume_frame_inv in E as (Hraw & Hreads & Herr & _ & Hturn).
    apply turn_stop in Hturn. cbn [through_sentinel existsb].
    rewrite <- Hturn. destruct stop1.
    + injection H as <- <-. cbn. repeat split; auto; lia.
    + apply IH in H as (Hraw' & Hreads' & Herr' & Hstop).
      rewrite Hraw', Hraw, Hreads', Hreads, Herr', Herr, <- app_assoc.
      cbn. repeat split; auto; lia.
Qed.

(** Nothing that follows a sentinel frame reaches the loop. *)
Lemma consume_sentinel (w : world) (t_start thr : Q) (ev : str)
      (post : list str) :
  is_sentinel ev = true ->
  forall pre s,
    consume w t_start thr s (pre ++ ev :: post)
    = consume w t_start thr s (pre ++ [ev]).
Proof.
  intros Hev. induction pre as [|x pre IH]; intros s.
  - cbn [app consume]. unfold bind.
    destruct (consume_frame w t_start thr s ev) as [e|[s1 stop1]] eqn:E;
      [reflexivity|].
    apply consume_frame_inv in E as (_ & _ & _ & _ & Hturn).
    apply turn_stop in Hturn. rewrite Hev in Hturn. now subst stop1.
  - cbn [app consume]. unfold bind.
    destruct (consume_frame w t_start thr s x) as [e|[s1 stop1]];
      [reflexivity|].
    destruct stop1; [reflexivity|apply IH].
Qed.

Lemma through_sentinel_last (pre : list str) (ev : str) (post : list str) :
  Forall (fun x => is_sentinel x = false) pre ->
  is_sentinel ev = true ->
  through_sentinel (pre ++ ev :: post) = pre ++ [ev].
Proof.
  intros Hpre Hev. induction Hpre as [|x pre Hx _ IH]; cbn [app through_sentinel].
  - now rewrite Hev.
  - now rewrite Hx, IH.
Qed.

Lemma through_sentinel_none (frames : list str) :
  Forall (fun x => is_sentinel x = false) frames ->
  through_sentinel frames = frames.
Proof.
  intros H. induction H as [|x l Hx _ IH]; cbn [through_sentinel];
    [reflexivity|]. now rewrite Hx, IH.
Qed.

Lemma through_sentinel_Forall (P : str -> Prop) (frames : list str) :
  Forall P frames -> Forall P (through_sentinel frames).
Proof.
  intros H. induction H as [|x l Hx _ IH]; cbn [through_sentinel];
    [constructor|].
  destruct (is_sentinel x); repeat constructor; assumption.
Qed.

Lemma through_sentinel_no_stop (frames : list str) :
  existsb is_sentinel frames = false -> through_sentinel frames = frames.
Proof.
  induction frames as [|x l IH]; cbn [existsb through_sentinel];
    [reflexivity|].
  destruct (is_sentinel x); [discriminate|]. intros H. now rewrite IH.
Qed.

Lemma through_sentinel_nonempty (frames : list str) :
  frames <> [] -> through_sentinel frames <> [].
Proof.
  destruct frames as [|x l]; [congruence|]. intros _.
  cbn [through_sentinel]. destruct (is_sentinel x); discriminate.
Qed.

(** ** Token counters *)

Lemma last_nonzero_snoc (init o : pyval) (obs : list pyval) :
  last_nonzero init (obs ++ [o])
  = if truthy o then o else last_nonzero init obs.
Proof.
  unfold last_nonzero. rewrite rev_app_distr. cbn [rev app find].
  now destruct (truthy o).
Qed.

Lemma last_nonzero_all_zero (init : pyval) (obs : list pyval) :
  Forall (fun o => truthy o = false) obs -> last_nonzero init obs = init.
Proof.
  intros H. unfold last_nonzero. apply Forall_rev in H.
  induction H as [|o l Ho _ IH]; cbn [find]; [reflexivity|].
  now rewrite Ho.
Qed.

(** Each counter holds the last non-zero count observed in the frames
    logged so far. *)
Definition counted (s : session) : Prop :=
  prompt_tokens (result s)
  = last_nonzero (PInt 0)
      (map (usage_obs (lit "prompt_tokens")) (raw_events s))
  /\ completion_tokens (result s)
     = last_nonzero (PInt 0)
         (map (usage_obs (lit "completion_tokens")) (raw_events s)).

Lemma counted_turn (w : world) (t_start thr : Q) (s s' : session)
      (ev : str) (stop : bool) :
  counted s -> consume_frame w t_start thr s ev = inr (s', stop) -> counted s'.
Proof.
  intros [Hp Hc] H.
  apply consume_frame_inv in H as (Hraw & _ & _ & _ & Hturn).
  unfold counted. rewrite Hraw, !map_app. cbn [map].
  rewrite !last_nonzero_snoc, <- Hp, <- Hc. unfold usage_obs.
  destruct Hturn as [Hs _ _ Hpt Hct | Hs Hl _ _ Hpt Hct
                     | obj content reasoning' Hs Hl _ _ _ Hpt Hct];
    rewrite Hs, ?Hl; cbn [truthy]; auto.
Qed.

(** ** The request and the end of [stream_chat] *)

(** How the [try] statement ends when it does not raise. *)
Lemma request_inv (w : world) (thr : Q) (s : session) :
  request w thr = inr s ->
  (exists exc,
      server w = Refused exc
      /\ s = mkSession (set_error StreamResult_default (Some exc)) []
                       (monotonic w 0) 1)
  \/ (exists lines failure s1 stop,
         server w = Body lines failure
         /\ consume w (monotonic w 0) thr (fresh_session w)
                    (_iter_sse_data (map LBytes lines)) = inr (s1, stop)
         /\ raw_events s = raw_events s1
         /\ reads s = reads s1
         /\ result s
            = match stop, failure with
              | false, Some exc => set_error (result s1) (Some exc)
              | _, _ => result s1
              end).
Proof.
  unfold request. destruct (server w) as [exc|lines failure].
  - intros H. injection H as <-. left. exists exc. split; reflexivity.
  - unfold bind.
    destruct (consume _ _ _ _ _) as [e|[s1 stop]] eqn:E; [discriminate|].
    intros H. right. exists lines, failure, s1, stop.
    split; [reflexivity|]. split; [exact E|].
    destruct stop; [|destruct failure]; injection H as <-; repeat split.
Qed.

(** The frames a request logged can be encoded. *)
Lemma request_log_ok (w : world) (thr : Q) (s : session) :
  request w thr = inr s -> Forall text_ok (raw_events s).
Proof.
  intros H. apply request_inv in H
    as [(exc & _ & ->) | (lines & failure & s1 & stop & _ & Hc & Hraw & _)].
  - constructor.
  - rewrite Hraw. apply consume_log in Hc as (-> & _).
    cbn [fresh_session raw_events app].
    apply through_sentinel_Forall, frames_ok.
Qed.

(** The result as [stream_chat] leaves it before the receipt: the time to
    completion is taken from the start of the session. *)
Definition finished (w : world) (s : session) : StreamResult :=
  set_ttc (result s) (Some (ms (monotonic w (reads s) - monotonic w 0))).

(** The generator writes its receipt whenever the frames encode. *)
Lemma write_receipt_ok (w : world) (receipt_dir model : str) (payload : bytes)
      (raw : list str) (fs : filesystem) :
  Forall text_ok raw ->
  exists p rc,
    _write_receipt w receipt_dir model payload raw fs
    = (inr p, mkFs (receipt_dir :: dirs fs) ((p, rc) :: files fs))
    /\ r_raw_events rc = Some raw
    /\ r_event_count rc = Some (Z.of_nat (length raw)).
Proof.
  intros H. unfold _write_receipt.
  rewrite (encode_ok (join NEWLINE raw)) by (now apply forallb_join).
  eexists. eexists. split; [reflexivity|]. split; reflexivity.
Qed.

(** [stream_chat] returns whenever its [try] statement does: with no
    receipt when none is asked for or no frame was logged, and with the
    receipt of the logged frames otherwise. *)
Lemma stream_chat_returns (w : world) (model : str) (payload : bytes)
      (thr : Q) (save_receipt : bool) (receipt_dir : str) (fs : filesystem)
      (s : session) :
  request w thr = inr s ->
  (save_receipt = false \/ raw_events s = [] ->
   stream_chat w model payload thr save_receipt receipt_dir fs
   = (inr (finished w s), fs))
  /\ (save_receipt = true -> raw_events s <> [] ->
      exists p rc,
        stream_chat w model payload thr save_receipt receipt_dir fs
        = (inr (set_receipt_path (finished w s) (Some p)),
           mkFs (receipt_dir :: dirs fs) ((p, rc) :: files fs))
        /\ r_raw_events rc = Some (raw_events s)).
Proof.
  intros H. pose proof (request_log_ok w thr s H) as Hok.
  unfold stream_chat. rewrite H. fold (finished w s). split.
  - intros [-> | ->]; [reflexivity|]. now rewrite andb_false_r.
  - intros -> Hne.
    destruct (write_receipt_ok w receipt_dir model payload (raw_events s) fs Hok)
      as (p & rc & Hw & Hraw & _).
    exists p, rc. rewrite Hw. split; [|exact Hraw].
    destruct (raw_events s); [congruence|reflexivity].
Qed.

(** The fields of the result a returning call of [stream_chat] inherits
    from the session of its [try] statement. *)
Lemma stream_chat_inv (w : world) (model : str) (payload : bytes)
      (thr : Q) (save_receipt : bool) (receipt_dir : str)
      (fs fs' : filesystem) (r : StreamResult) :
  stream_chat w model payload thr save_receipt receipt_dir fs = (inr r, fs') ->
  exists s,
    request w thr = inr s
    /\ text r = text (result s)
    /\ prompt_tokens r = prompt_tokens (result s)
    /\ completion_tokens r = completion_tokens (result s)
    /\ parse_errors r = parse_errors (result s)
    /\ error r = error (result s)
    /\ ttfb_ms r = ttfb_ms (result s)
    /\ ttc_ms r = Some (ms (monotonic w (reads s) - monotonic w 0)).
Proof.
  unfold stream_chat. destruct (request w thr) as [e|s]; [discriminate|].
  intros H. exists s. split; [reflexivity|].
  destruct (save_receipt && _).
  - destruct (_write_receipt _ _ _ _ _ _) as [[e|p] fs1]; [discriminate|].
    injection H as <- _. repeat split.
  - injection H as <- _. repeat split.
Qed.

(** The counters of a request that returned, over the frames its loop
    reached. *)
Lemma request_counted (w : world) (thr : Q) (s : session) :
  request w thr = inr s ->
  raw_events s = through_sentinel (received w) /\ counted s.
Proof.
  intros Hreq. unfold received.
  apply request_inv in Hreq
    as [(exc & Hs & ->)
       | (lines & failure & s1 & stop & Hs & Hcons & Hraw & _ & Hres)];
    rewrite Hs.
  { split; [reflexivity|split; reflexivity]. }
  assert (Hcounted : counted s1).
  { apply (consume_invariant w (monotonic w 0) thr counted)
      with (frames := _iter_sse_data (map LBytes lines))
           (s := fresh_session w) (stop := stop).
    - intros; eapply counted_turn; eauto.
    - split; reflexivity.
    - exact Hcons. }
  apply consume_log in Hcons as (Hraw1 & _).
  cbn [fresh_session raw_events app] in Hraw1.
  split; [now rewrite Hraw|].
  unfold counted in *. rewrite Hraw, Hres.
  destruct stop; [|destruct failure]; exact Hcounted.
Qed.

End ConsumerFacts.

(* ================================================================== *)
(** * Replaying the frames in the verifier *)
(* ================================================================== *)

Module ReplayFacts.

Import Py Json PyFacts Streaming ConsumerFacts VerifyReceipt.
Open Scope N_scope.

(** The content the inner loop of check 4 has after one choice; the count
    of deltas, kept in [result], is left out. *)
Definition choice_content (content : str) (choice : pyval) : exn + str :=
  d <- get choice (lit "delta") PNone ;;
  c <- get (por d (PDict [])) (lit "content") PNone ;;
  str_iadd content (por c (PStr [])).

(** The content the outer loop of check 4 has after one parsed event. *)
Definition event_content (content : str) (obj : pyval) : exn + str :=
  match obj with
  | PNone => ret content
  | _ =>
    choices <- get obj (lit "choices") (PList []) ;;
    items <- iter choices ;;
    foldM choice_content items content
  end.

Lemma reconstruct_choice_fst (content : str) (choice : pyval) (r : VerifyResult) :
  fst (reconstruct_choice content choice r) = choice_content content choice.
Proof.
  unfold reconstruct_choice, choice_content, mbind, lift, modify, mret, bind.
  destruct (get choice (lit "delta") PNone) as [e|d]; [reflexivity|].
  destruct (get (por d (PDict [])) (lit "content") PNone) as [e|c];
    [reflexivity|].
  destruct (str_iadd content (por c (PStr []))) as [e|content'];
    reflexivity.
Qed.

Lemma mfoldM_fst {A B} (f : B -> A -> M B) (g : B -> A -> exn + B) :
  (forall b a r, fst (f b a r) = g b a) ->
  forall l acc r, fst (mfoldM f l acc r) = foldM g l acc.
Proof.
  intros Hfg. induction l as [|x l IH]; intros acc r; [reflexivity|].
  cbn [mfoldM foldM]. unfold mbind, bind.
  specialize (Hfg acc x r).
  destruct (f acc x r) as [[e|b] r1]; cbn [fst] in Hfg; rewrite <- Hfg;
    [reflexivity|apply IH].
Qed.

Lemma reconstruct_event_fst (content : str) (obj : pyval) (r : VerifyResult) :
  fst (reconstruct_event content obj r) = event_content content obj.
Proof.
  assert (H : fst ((choices <~ lift (get obj (lit "choices") (PList [])) ;;
                    items <~ lift (iter choices) ;;
                    mfoldM reconstruct_choice items content) r)
              = (choices <- get obj (lit "choices") (PList []) ;;
                 items <- iter choices ;;
                 foldM choice_content items content)).
  { unfold mbind, lift, bind.
    destruct (get obj (lit "choices") (PList [])) as [e|choices]; [reflexivity|].
    destruct (iter choices) as [e|items]; [reflexivity|].
    apply mfoldM_fst. apply reconstruct_choice_fst. }
  destruct obj; try exact H. reflexivity.
Qed.

(** The content check 4 reconstructs from [parsed_events], whatever
    [result] holds. *)
Lemma reconstruct_fst (parsed_events : list pyval) (r : VerifyResult) :
  fst (mfoldM reconstruct_event parsed_events [] r)
  = foldM event_content parsed_events [].
Proof. apply mfoldM_fst. apply reconstruct_event_fst. Qed.

Lemma foldM_app {A B} (f : B -> A -> exn + B) (l1 l2 : list A) (acc : B) :
  foldM f (l1 ++ l2) acc = (acc' <- foldM f l1 acc ;; foldM f l2 acc').
Proof.
  revert acc. induction l1 as [|x l1 IH]; intros acc; [reflexivity|].
  cbn [app foldM]. unfold bind. destruct (f acc x); [reflexivity|apply IH].
Qed.

Lemma parse_events_app (a b : list str) :
  forall pe acc,
    parse_events (a ++ b) pe acc
    = match parse_events a pe acc with
      | inr (pe1, acc1) => parse_events b pe1 acc1
      | inl e => inl e
      end.
Proof.
  induction a as [|ev a IH]; intros pe acc; [reflexivity|].
  cbn [app parse_events].
  destruct (str_eqb (strip ev) (lit "[DONE]")); [apply IH|].
  destruct (loads ev) as [[]|obj]; try reflexivity; apply IH.
Qed.

(** The consumer's rule and the verifier's agree on a choice. *)
Lemma extract_choice_content (c0 r0 c1 r1 : str) (choice : pyval) :
  extract_choice (c0, r0) choice = inr (c1, r1) ->
  forall acc, choice_content (acc ++ c0) choice = inr (acc ++ c1).
Proof.
  unfold extract_choice, choice_content, bind, ret. cbn [fst snd].
  destruct (get choice (lit "delta") PNone) as [e|d]; [discriminate|].
  destruct (get (por d (PDict [])) (lit "content") PNone) as [e|c];
    [discriminate|].
  destruct (por c (PStr [])) as [| | | |t| |]; try discriminate.
  cbn [str_iadd ret].
  destruct (get (por d (PDict [])) (lit "reasoning_content") PNone) as [e|rc];
    [discriminate|].
  destruct (str_iadd r0 (por rc (PStr []))); [discriminate|].
  intros H acc. injection H as <- <-. now rewrite app_assoc.
Qed.

Lemma extract_choices_content (items : list pyval) :
  forall c0 r0 c1 r1,
    foldM extract_choice items (c0, r0) = inr (c1, r1) ->
    forall acc, foldM choice_content items (acc ++ c0) = inr (acc ++ c1).
Proof.
  induction items as [|x items IH]; intros c0 r0 c1 r1 H acc.
  - injection H as <- <-. reflexivity.
  - cbn [foldM] in *. unfold bind in *.
    destruct (extract_choice (c0, r0) x) as [e|[c0' r0']] eqn:E;
      [discriminate|].
    rewrite (extract_choice_content _ _ _ _ _ E acc). eapply IH; eauto.
Qed.

(** The consumer's rule and the verifier's agree on a parsed frame. *)
Lemma extract_event_content (obj : pyval) (content reasoning' : str) :
  _extract_content_parts obj = inr (content, reasoning') ->
  forall acc, event_content acc obj = inr (acc ++ content).
Proof.
  unfold _extract_content_parts, bind. intros H acc.
  destruct obj as [| | | | | |d]; try discriminate H.
  unfold event_content, bind.
  destruct (get (PDict d) (lit "choices") (PList [])) as [e|choices];
    [discriminate|].
  destruct (iter choices) as [e|items]; [discriminate|].
  rewrite <- (app_nil_r acc) at 1. eapply extract_choices_content; eauto.
Qed.

(** What the verifier reconstructs from the frames logged so far is the
    text accumulated so far. *)
Definition replayed (s : session) : Prop :=
  exists parse_errors parsed_events,
    parse_events (raw_events s) 0 [] = inr (parse_errors, parsed_events)
    /\ foldM event_content parsed_events [] = inr (text (result s)).

Lemma replayed_turn (w : world) (t_start thr : Q) (s s' : session)
      (ev : str) (stop : bool) :
  replayed s -> consume_frame w t_start thr s ev = inr (s', stop) ->
  replayed s'.
Proof.
  intros (pe & parsed & Hparse & Hfold) H.
  apply consume_frame_inv in H as (Hraw & _ & _ & _ & Hturn).
  unfold replayed. rewrite Hraw, parse_events_app, Hparse.
  cbn [parse_events].
  destruct Hturn as [Hs Ht _ _ _ | Hs Hl Ht _ _ _
                     | obj content reasoning' Hs Hl Hx Ht _ _ _];
    unfold is_sentinel, DONE in Hs.
  - rewrite Hs. exists pe, (parsed ++ [PNone]). split; [reflexivity|].
    rewrite foldM_app, Hfold, Ht. reflexivity.
  - rewrite Hs, Hl. exists (pe + 1)%Z, (parsed ++ [PNone]).
    split; [reflexivity|]. rewrite foldM_app, Hfold, Ht. reflexivity.
  - rewrite Hs, Hl. exists pe, (parsed ++ [obj]). split; [reflexivity|].
    rewrite foldM_app, Hfold, Ht. cbn [bind foldM].
    rewrite (extract_event_content _ _ _ Hx). reflexivity.
Qed.

End ReplayFacts.

(* ================================================================== *)
(** * Claims about the decoder and the consumer *)
(* ================================================================== *)

Module ConsumerClaims.

Import Py Json PyFacts Streaming DecoderFacts ConsumerFacts.
Open Scope N_scope.

(** C3, as stated, fails: the decoder by itself yields the frame of every
    data line, also of one that follows the sentinel. *)
Lemma decoder_yields_after_sentinel :
  _iter_sse_data [LBytes (lit "data: [DONE]"); LBytes (lit "data: more")]
  = [lit "[DONE]"; lit "more"].
Proof. vm_compute. reflexivity. Qed.

(** C3, amended. The decoder yields the frame of every data line, before
    and after a sentinel line; it is the consumer's loop that stops at the
    first sentinel frame: whatever lines follow, the loop ends as on the
    input cut after the sentinel, by [break], and the frames it logged end
    with the sentinel. *)
Theorem consumer_stops_at_sentinel
        (w : world) (t_start thr : Q) (s : session)
        (before after : list line) (l : line) :
  _iter_sse_data [l] = [DONE] ->
  Forall (fun ev => is_sentinel ev = false) (_iter_sse_data before) ->
  _iter_sse_data (before ++ l :: after)
  = _iter_sse_data before ++ DONE :: _iter_sse_data after
  /\ consume w t_start thr s (_iter_sse_data (before ++ l :: after))
     = consume w t_start thr s (_iter_sse_data (before ++ [l]))
  /\ forall s' stop,
       consume w t_start thr s (_iter_sse_data (before ++ l :: after))
       = inr (s', stop) ->
       stop = true
       /\ raw_events s' = raw_events s ++ _iter_sse_data before ++ [DONE].
Proof.
  intros Hl Hbefore.
  assert (Hsplit : forall rest, _iter_sse_data (before ++ l :: rest)
                   = _iter_sse_data before ++ DONE :: _iter_sse_data rest).
  { intros rest. change (l :: rest) with ([l] ++ rest).
    now rewrite !_iter_sse_data_app, Hl. }
  assert (Hdone : is_sentinel DONE = true) by reflexivity.
  split; [apply Hsplit|]. split.
  - rewrite !Hsplit. cbn [_iter_sse_data]. now apply consume_sentinel.
  - intros s' stop H. rewrite Hsplit in H.
    apply consume_log in H as (Hraw & _ & _ & Hstop).
    rewrite through_sentinel_last in Hraw by assumption.
    split; [|exact Hraw].
    rewrite Hstop, existsb_app. cbn [existsb]. rewrite Hdone.
    now rewrite orb_true_r.
Qed.

(** One frame of content, the sentinel, and a data line after it. *)
Definition sample_world : world :=
  mkWorld (fun n => inject_Z (Z.of_nat n)) 1700000000
          (Body [qlit "data: {'choices':[{'delta':{'content':'Hi'}}]}";
                 lit "data: [DONE]"; lit "data: more"] None).

Lemma consumer_stops_at_sentinel_witness :
  _iter_sse_data
    ([LBytes (qlit "data: {'choices':[{'delta':{'content':'Hi'}}]}")]
       ++ LBytes (lit "data: [DONE]") :: [LBytes (lit "data: more")])
  = _iter_sse_data
      [LBytes (qlit "data: {'choices':[{'delta':{'content':'Hi'}}]}")]
      ++ DONE :: _iter_sse_data [LBytes (lit "data: more")]
  /\ consume sample_world 0 (2000 # 1) (fresh_session sample_world)
       (_iter_sse_data
          ([LBytes (qlit "data: {'choices':[{'delta':{'content':'Hi'}}]}")]
             ++ LBytes (lit "data: [DONE]") :: [LBytes (lit "data: more")]))
     = consume sample_world 0 (2000 # 1) (fresh_session sample_world)
         (_iter_sse_data
            ([LBytes (qlit "data: {'choices':[{'delta':{'content':'Hi'}}]}")]
               ++ [LBytes (lit "data: [DONE]")]))
  /\ forall s' stop,
       consume sample_world 0 (2000 # 1) (fresh_session sample_world)
         (_iter_sse_data
            ([LBytes (qlit "data: {'choices':[{'delta':{'content':'Hi'}}]}")]
               ++ LBytes (lit "data: [DONE]") :: [LBytes (lit "data: more")]))
       = inr (s', stop) ->
       stop = true
       /\ raw_events s'
          = raw_events (fresh_session sample_world)
              ++ _iter_sse_data
                   [LBytes (qlit "data: {'choices':[{'delta':{'content':'Hi'}}]}")]
              ++ [DONE].
Proof.
  apply consumer_stops_at_sentinel.
  - vm_compute. reflexivity.
  - repeat constructor.
Defined.

(** C5. When [stream_chat] returns, each token counter is the last
    non-zero value observed for it in the usage blocks of the frames its
    loop reached, and zero when there is none; the counts 5,0 then 0,0 then
    12,7 leave 12 and 7. *)
Theorem token_counters_last_nonzero
        (w : world) (model : str) (payload : bytes) (thr : Q)
        (save_receipt : bool) (receipt_dir : str) (fs fs' : filesystem)
        (r : StreamResult) :
  stream_chat w model payload thr save_receipt receipt_dir fs = (inr r, fs') ->
  let seen := through_sentinel (received w) in
  prompt_tokens r
  = last_nonzero (PInt 0) (map (usage_obs (lit "prompt_tokens")) seen)
  /\ completion_tokens r
     = last_nonzero (PInt 0) (map (usage_obs (lit "completion_tokens")) seen).
Proof.
  intros H seen.
  apply stream_chat_inv in H as (s & Hreq & _ & Hp & Hc & _).
  destruct (request_counted w thr s Hreq) as [Hraw [Hp' Hc']].
  subst seen. rewrite Hp, Hc, Hp', Hc', Hraw. split; reflexivity.
Qed.

(** Three frames with the usage counts 5,0 then 0,0 then 12,7. *)
Definition usage_lines : list bytes :=
  [qlit "data: {'usage':{'prompt_tokens':5,'completion_tokens':0}}";
   qlit "data: {'usage':{'prompt_tokens':0,'completion_tokens':0}}";
   qlit "data: {'usage':{'prompt_tokens':12,'completion_tokens':7}}"].

Definition usage_world : world :=
  mkWorld (fun n => inject_Z (Z.of_nat n)) 1700000000 (Body usage_lines None).

Definition usage_result : StreamResult :=
  Eval vm_compute in
    match fst (stream_chat usage_world (lit "m") (lit "{}") (2000 # 1) false
                           (lit "data/receipts") (mkFs [] [])) with
    | inr r => r
    | inl _ => StreamResult_default
    end.

(** The result of the session of [sample_world], which has no usage
    block. *)
Definition greeting_result : StreamResult :=
  Eval vm_compute in
    match fst (stream_chat sample_world (lit "m") (lit "{}") (2000 # 1) false
                           (lit "data/receipts") (mkFs [] [])) with
    | inr r => r
    | inl _ => StreamResult_default
    end.

Lemma token_counters_last_nonzero_witness :
  prompt_tokens usage_result = PInt 12
  /\ completion_tokens usage_result = PInt 7.
Proof.
  pose proof (token_counters_last_nonzero
                usage_world (lit "m") (lit "{}") (2000 # 1) false
                (lit "data/receipts") (mkFs [] []) (mkFs [] [])
                usage_result) as H.
  cbv zeta in H.
  assert (Hrun : stream_chat usage_world (lit "m") (lit "{}") (2000 # 1) false
                             (lit "data/receipts") (mkFs [] [])
                 = (inr usage_result, mkFs [] []))
    by (vm_compute; reflexivity).
  specialize (H Hrun). vm_compute in H. exact H.
Defined.

(** C9, as stated, fails: the counters start at zero, and a session
    without any usage block shows the caller 0, not [None]. *)
Lemma token_counts_default_to_zero :
  exists r,
    stream_chat sample_world (lit "m") (lit "{}") (2000 # 1) false
                (lit "data/receipts") (mkFs [] [])
    = (inr r, mkFs [] [])
    /\ prompt_tokens r = PInt 0
    /\ completion_tokens r = PInt 0
    /\ prompt_tokens r <> PNone
    /\ completion_tokens r <> PNone.
Proof.
  eexists. split; [vm_compute; reflexivity|].
  repeat split; discriminate.
Qed.

(** C9, amended. The token counts shown to the caller are never [None]:
    they start at zero, and a value of a usage block replaces one only when
    it counts as true, which [None] does not. When no frame the loop
    reached carried such a value, the caller reads 0 for both, which an
    observed count of zero would also leave. *)
Theorem token_counts_zero_without_usage
        (w : world) (model : str) (payload : bytes) (thr : Q)
        (save_receipt : bool) (receipt_dir : str) (fs fs' : filesystem)
        (r : StreamResult) :
  stream_chat w model payload thr save_receipt receipt_dir fs = (inr r, fs') ->
  (prompt_tokens r <> PNone /\ completion_tokens r <> PNone)
  /\ (Forall (fun ev => truthy (usage_obs (lit "prompt_tokens") ev) = false
                        /\ truthy (usage_obs (lit "completion_tokens") ev) = false)
             (through_sentinel (received w)) ->
      prompt_tokens r = PInt 0 /\ completion_tokens r = PInt 0).
Proof.
  intros H.
  apply stream_chat_inv in H as (s & Hreq & _ & Hp & Hc & _).
  destruct (request_counted w thr s Hreq) as [Hraw [Hp' Hc']].
  rewrite Hp, Hc, Hp', Hc', Hraw.
  assert (Hsome : forall obs, last_nonzero (PInt 0) obs <> PNone).
  { intros obs. unfold last_nonzero.
    destruct (find truthy (rev obs)) as [v|] eqn:E; [|discriminate].
    apply find_some in E as [_ E]. intros ->. discriminate E. }
  split; [split; apply Hsome|].
  intros Hzero.
  split; apply last_nonzero_all_zero; apply Forall_map;
    (eapply Forall_impl; [|exact Hzero]); cbv beta; intros ev [? ?];
    assumption.
Qed.

Lemma token_counts_zero_without_usage_witness :
  (prompt_tokens greeting_result <> PNone
   /\ completion_tokens greeting_result <> PNone)
  /\ prompt_tokens greeting_result = PInt 0
  /\ completion_tokens greeting_result = PInt 0.
Proof.
  destruct (token_counts_zero_without_usage
              sample_world (lit "m") (lit "{}") (2000 # 1) false
              (lit "data/receipts") (mkFs [] []) (mkFs [] [])
              greeting_result) as [Hsome Hzero].
  - vm_compute. reflexivity.
  - split; [exact Hsome|]. apply Hzero.
    assert (E : through_sentinel (received sample_world)
                = [qlit "{'choices':[{'delta':{'content':'Hi'}}]}";
                   lit "[DONE]"])
      by (vm_compute; reflexivity).
    rewrite E.
    repeat (constructor; [split; vm_compute; reflexivity|]). constructor.
Defined.

(** C7. A frame that is not JSON adds one to the parse-error counter,
    leaves the error of the session as it was and does not end the loop.
    A transport failure, whether the request is refused or the body breaks
    off after some frames, is recorded as the error of the session; the
    call still returns, with the time to completion measured from the start
    of the session, and the frames received before the failure are all in
    the log. *)
Theorem parse_errors_counted_transport_errors_end
        (w : world) (model : str) (payload : bytes) (thr : Q)
        (save_receipt : bool) (receipt_dir : str) (fs : filesystem) :
  (forall t_start s ev,
      is_sentinel ev = false ->
      loads ev = inl JSONDecodeError ->
      exists s',
        consume_frame w t_start thr s ev = inr (s', false)
        /\ parse_errors (result s') = (parse_errors (result s) + 1)%Z
        /\ error (result s') = error (result s)
        /\ raw_events s' = raw_events s ++ [ev])
  /\ (forall exc,
         server w = Refused exc ->
         exists r fs',
           stream_chat w model payload thr save_receipt receipt_dir fs
           = (inr r, fs')
           /\ error r = Some exc
           /\ ttc_ms r = Some (ms (monotonic w 1 - monotonic w 0)))
  /\ (forall lines exc s,
         server w = Body lines (Some exc) ->
         consume w (monotonic w 0) thr (fresh_session w)
                 (_iter_sse_data (map LBytes lines)) = inr (s, false) ->
         raw_events s = _iter_sse_data (map LBytes lines)
         /\ exists r fs',
              stream_chat w model payload thr save_receipt receipt_dir fs
              = (inr r, fs')
              /\ error r = Some exc
              /\ text r = text (result s)
              /\ ttc_ms r
                 = Some (ms (monotonic w (S (length (raw_events s)))
                             - monotonic w 0))).
Proof.
  split; [|split].
  - intros t_start s ev Hs Hl.
    destruct (consume_frame w t_start thr s ev) as [e|[s' stop]] eqn:E.
    + exfalso. revert E. unfold consume_frame.
      unfold is_sentinel in Hs. rewrite Hs, Hl. discriminate.
    + pose proof E as E'.
      apply consume_frame_inv in E' as (Hraw & _ & Herr & _ & Hturn).
      exists s'. destruct Hturn as [Hs' | _ _ _ Hpe _ _ | obj c r' _ Hl'];
        try congruence.
      repeat split; assumption.
  - intros exc Hserver.
    assert (Hreq : request w thr
                   = inr (mkSession (set_error StreamResult_default (Some exc))
                                    [] (monotonic w 0) 1)).
    { unfold request. now rewrite Hserver. }
    destruct (stream_chat_returns w model payload thr save_receipt receipt_dir
                                  fs _ Hreq) as [Hnone _].
    rewrite Hnone by (right; reflexivity).
    eexists. eexists. split; [reflexivity|]. split; reflexivity.
  - intros lines exc s Hserver Hcons.
    pose proof Hcons as Hlog.
    apply consume_log in Hlog as (Hraw & Hreads & _ & Hstop).
    cbn [fresh_session raw_events reads app] in Hraw, Hreads.
    rewrite through_sentinel_no_stop in Hraw, Hreads by (now symmetry).
    split; [exact Hraw|].
    set (s_err := mkSession (set_error (result s) (Some exc)) (raw_events s)
                            (last_chunk_time s) (reads s)).
    assert (Hreq : request w thr = inr s_err).
    { unfold request. rewrite Hserver. unfold bind. now rewrite Hcons. }
    assert (Hfin : forall p,
               ttc_ms (set_receipt_path (finished w s_err) p)
               = Some (ms (monotonic w (S (length (raw_events s)))
                           - monotonic w 0))).
    { intros p. cbn. now rewrite Hreads, Hraw. }
    destruct (stream_chat_returns w model payload thr save_receipt receipt_dir
                                  fs _ Hreq) as [Hnone Hsome].
    destruct save_receipt; [destruct (raw_events s) eqn:Eraw|].
    + rewrite Hnone by (right; first [exact Eraw|reflexivity]).
      eexists. eexists. split; [reflexivity|].
      split; [reflexivity|]. split; [reflexivity|].
      apply (Hfin (receipt_path (finished w s_err))).
    + destruct Hsome as (p & rc & Hrun & _);
        [reflexivity|cbn; rewrite ?Eraw; discriminate|].
      rewrite Hrun. eexists. eexists. split; [reflexivity|].
      split; [reflexivity|]. split; [reflexivity|]. apply Hfin.
    + rewrite Hnone by (left; reflexivity).
      eexists. eexists. split; [reflexivity|].
      split; [reflexivity|]. split; [reflexivity|].
      apply (Hfin (receipt_path (finished w s_err))).
Qed.

(** A body of one good frame and one that is not JSON, cut off by a
    failure of the connection. *)
Definition broken_lines : list bytes :=
  [qlit "data: {'choices':[{'delta':{'content':'Hi'}}]}";
   lit "data: {not json"].

Definition broken_world : world :=
  mkWorld (fun n => inject_Z (Z.of_nat n)) 1700000000
          (Body broken_lines (Some (lit "Connection broken"))).

Definition broken_session : session :=
  Eval vm_compute in
    match consume broken_world (monotonic broken_world 0) (2000 # 1)
                  (fresh_session broken_world)
                  (_iter_sse_data (map LBytes broken_lines)) with
    | inr (s, _) => s
    | inl _ => fresh_session broken_world
    end.

Lemma parse_errors_counted_transport_errors_end_witness :
  parse_errors (result broken_session) = 1%Z
  /\ raw_events broken_session = _iter_sse_data (map LBytes broken_lines)
  /\ exists r fs',
       stream_chat broken_world (lit "m") (lit "{}") (2000 # 1) false
                   (lit "data/receipts") (mkFs [] [])
       = (inr r, fs')
       /\ error r = Some (lit "Connection broken")
       /\ text r = text (result broken_session)
       /\ ttc_ms r
          = Some (ms (monotonic broken_world
                                (S (length (raw_events broken_session)))
                      - monotonic broken_world 0)).
Proof.
  split; [reflexivity|].
  apply (parse_errors_counted_transport_errors_end
           broken_world (lit "m") (lit "{}") (2000 # 1) false
           (lit "data/receipts") (mkFs [] [])).
  - reflexivity.
  - vm_compute. reflexivity.
Defined.

Lemma ms_nonneg (a b : Q) : (a <= b)%Q -> (0 <= ms (b - a))%Q.
Proof.
  intros H. unfold ms. apply Qmult_le_0_compat; [|discriminate].
  unfold Qminus. now apply -> Qle_minus_iff.
Qed.

(** C8. A session in which the body ends without a single frame and
    without a transport error returns with no time to first byte, empty
    text, a time to completion that is not negative, and no error; whether
    or not a receipt was asked for, none is written and the file system is
    as before. *)
Theorem empty_stream_session
        (w : world) (model : str) (payload : bytes) (thr : Q)
        (save_receipt : bool) (receipt_dir : str) (fs : filesystem)
        (lines : list bytes) :
  server w = Body lines None ->
  _iter_sse_data (map LBytes lines) = [] ->
  (monotonic w 0 <= monotonic w 1)%Q ->
  exists r t,
    stream_chat w model payload thr save_receipt receipt_dir fs = (inr r, fs)
    /\ ttfb_ms r = None
    /\ text r = []
    /\ ttc_ms r = Some t /\ (0 <= t)%Q
    /\ error r = None
    /\ receipt_path r = None.
Proof.
  intros Hserver Hframes Hclock.
  assert (Hreq : request w thr = inr (fresh_session w)).
  { unfold request. rewrite Hserver, Hframes. reflexivity. }
  destruct (stream_chat_returns w model payload thr save_receipt receipt_dir
                                fs _ Hreq) as [Hnone _].
  exists (finished w (fresh_session w)),
         (ms (monotonic w 1 - monotonic w 0)).
  split; [apply Hnone; right; reflexivity|].
  repeat split. now apply ms_nonneg.
Qed.

(** A body of a comment line and a blank line: no frame. *)
Definition silent_world : world :=
  mkWorld (fun n => inject_Z (Z.of_nat n)) 1700000000
          (Body [lit ": keep-alive"; lit ""] None).

Lemma empty_stream_session_witness :
  exists r t,
    stream_chat silent_world (lit "m") (lit "{}") (2000 # 1) true
                (lit "data/receipts") (mkFs [] [])
    = (inr r, mkFs [] [])
    /\ ttfb_ms r = None
    /\ text r = []
    /\ ttc_ms r = Some t /\ (0 <= t)%Q
    /\ error r = None
    /\ receipt_path r = None.
Proof.
  apply (empty_stream_session
           silent_world (lit "m") (lit "{}") (2000 # 1) true
           (lit "data/receipts") (mkFs [] [])
           [lit ": keep-alive"; lit ""]).
  - reflexivity.
  - vm_compute. reflexivity.
  - vm_compute. discriminate.
Defined.

(** C10. When a receipt is asked for and the body breaks off with a
    transport failure after at least one frame, the call still returns,
    with the path of a receipt it has written over the frames logged until
    then; unless a sentinel had ended the loop before, the error of the
    session is set as well. *)
Theorem receipt_written_after_transport_failure
        (w : world) (model : str) (payload : bytes) (thr : Q)
        (receipt_dir : str) (fs : filesystem)
        (lines : list bytes) (exc : str) (s : session) (stop : bool) :
  server w = Body lines (Some exc) ->
  consume w (monotonic w 0) thr (fresh_session w)
          (_iter_sse_data (map LBytes lines)) = inr (s, stop) ->
  _iter_sse_data (map LBytes lines) <> [] ->
  exists r p rc,
    stream_chat w model payload thr true receipt_dir fs
    = (inr r, mkFs (receipt_dir :: dirs fs) ((p, rc) :: files fs))
    /\ receipt_path r = Some p
    /\ r_raw_events rc
       = Some (through_sentinel (_iter_sse_data (map LBytes lines)))
    /\ through_sentinel (_iter_sse_data (map LBytes lines)) <> []
    /\ (stop = false -> error r = Some exc).
Proof.
  intros Hserver Hcons Hne.
  pose proof Hcons as Hlog.
  apply consume_log in Hlog as (Hraw & _).
  cbn [fresh_session raw_events app] in Hraw.
  pose proof (through_sentinel_nonempty _ Hne) as Hne'.
  set (s_end := match stop with
                | false => mkSession (set_error (result s) (Some exc))
                                     (raw_events s) (last_chunk_time s) (reads s)
                | true => s
                end).
  assert (Hreq : request w thr = inr s_end).
  { unfold request. rewrite Hserver. unfold bind. rewrite Hcons.
    subst s_end. now destruct stop. }
  assert (Hraw_end : raw_events s_end = raw_events s)
    by (subst s_end; now destruct stop).
  destruct (stream_chat_returns w model payload thr true receipt_dir
                                fs _ Hreq) as [_ Hsome].
  destruct Hsome as (p & rc & Hrun & Hrc);
    [reflexivity|rewrite Hraw_end, Hraw; exact Hne'|].
  exists (set_receipt_path (finished w s_end) (Some p)), p, rc.
  split; [exact Hrun|]. split; [reflexivity|].
  split; [now rewrite Hrc, Hraw_end, Hraw|]. split; [exact Hne'|].
  intros ->. reflexivity.
Qed.

Lemma receipt_written_after_transport_failure_witness :
  exists r p rc,
    stream_chat broken_world (lit "m") (lit "{}") (2000 # 1) true
                (lit "data/receipts") (mkFs [] [])
    = (inr r, mkFs [lit "data/receipts"] [(p, rc)])
    /\ receipt_path r = Some p
    /\ r_raw_events rc
       = Some (through_sentinel (_iter_sse_data (map LBytes broken_lines)))
    /\ through_sentinel (_iter_sse_data (map LBytes broken_lines)) <> []
    /\ (false = false -> error r = Some (lit "Connection broken")).
Proof.
  apply (receipt_written_after_transport_failure
           broken_world (lit "m") (lit "{}") (2000 # 1)
           (lit "data/receipts") (mkFs [] [])
           broken_lines (lit "Connection broken") broken_session false).
  - reflexivity.
  - vm_compute. reflexivity.
  - vm_compute. discriminate.
Defined.

End ConsumerClaims.

(* ================================================================== *)
(** * More about text: [strip] and the UTF-8 round trip *)
(* ================================================================== *)

Module TextFacts.

Import Py PyFacts DecoderFacts.
Open Scope N_scope.

Lemma lstrip_head (s : str) (c : N) (t : str) :
  lstrip s = c :: t -> isspace c = false.
Proof.
  induction s as [|x s IH]; cbn [lstrip]; [discriminate|].
  destruct (isspace x) eqn:E; [exact IH|].
  intros H. injection H as <- _. exact E.
Qed.

Lemma lstrip_split (s : str) :
  exists p, s = p ++ lstrip s /\ forallb isspace p = true.
Proof.
  induction s as [|x s (p & Hp & Hsp)]; [exists []; split; reflexivity|].
  cbn [lstrip]. destruct (isspace x) eqn:E.
  - exists (x :: p). cbn [app forallb]. rewrite E, Hsp. split; [|reflexivity].
    f_equal. exact Hp.
  - exists []. split; reflexivity.
Qed.

Lemma lstrip_fixed (s : str) :
  (forall c t, s = c :: t -> isspace c = false) -> lstrip s = s.
Proof.
  destruct s as [|c t]; [reflexivity|]. intros H. cbn [lstrip].
  now rewrite (H c t eq_refl).
Qed.

Lemma lstrip_idem (s : str) : lstrip (lstrip s) = lstrip s.
Proof.
  apply lstrip_fixed. intros c t H. now apply lstrip_head in H.
Qed.

(** A stripped text neither starts nor ends with white space. *)
Lemma strip_ends (s : str) :
  lstrip (strip s) = strip s /\ lstrip (rev (strip s)) = rev (strip s).
Proof.
  unfold strip, rstrip.
  set (a := lstrip s). set (b := lstrip (rev a)).
  rewrite rev_involutive.
  assert (Hb : lstrip b = b) by apply lstrip_idem.
  split; [|exact Hb].
  apply lstrip_fixed. intros c t Hc.
  destruct (lstrip_split (rev a)) as (p & Hp & _). fold b in Hp.
  assert (Ha : a = rev b ++ rev p).
  { rewrite <- rev_app_distr, <- Hp. now rewrite rev_involutive. }
  rewrite Hc in Ha. cbn [app] in Ha.
  apply (lstrip_head s c (t ++ rev p)). exact Ha.
Qed.

(** [strip] is idempotent. *)
Lemma strip_idem (s : str) : strip (strip s) = strip s.
Proof.
  destruct (strip_ends s) as [H1 H2].
  unfold strip at 1. unfold rstrip. rewrite H1, H2. apply rev_involutive.
Qed.

(** White space in front of a text that does not start with it goes, the
    text stays. *)
Lemma lstrip_app (p s : str) :
  forallb isspace p = true -> lstrip (p ++ s) = lstrip s.
Proof.
  induction p as [|c p IH]; [reflexivity|]. cbn [forallb app lstrip].
  intros H. apply andb_true_iff in H as [-> H]. auto.
Qed.

Lemma lstrip_keep (s t : str) :
  lstrip s <> [] -> lstrip (s ++ t) = lstrip s ++ t.
Proof.
  induction s as [|c s IH]; cbn [lstrip app]; [congruence|].
  destruct (isspace c); [exact IH|reflexivity].
Qed.

(** ** Encoding and decoding *)

Lemma decode_encode_cp (c : N) (rest : bytes) :
  encodable c = true ->
  decode_items (encode_cp c ++ rest) = Some c :: decode_items rest.
Proof.
  intros H. apply encodable_iff in H. unfold encode_cp.
  destruct (c <? 0x80) eqn:E1.
  { cbn [app decode_items]. now rewrite E1. }
  destruct (c <? 0x800) eqn:E2.
  { bools. euclid c 64. subst c.
    cbn [app decode_items].
    assert (Hq : n0 < 32) by lia. assert (Hq' : 2 <= n0) by lia.
    replace (0xC0 + n0 <? 0x80) with false by (symmetry; apply N.ltb_ge; lia).
    replace (0xC0 + n0 <? 0xC2) with false by (symmetry; apply N.ltb_ge; lia).
    replace (0xC0 + n0 <? 0xE0) with true by (symmetry; apply N.ltb_lt; lia).
    unfold is_cont, low6.
    replace (0x80 <=? 0x80 + n) with true by (symmetry; apply N.leb_le; lia).
    replace (0x80 + n <? 0xC0) with true by (symmetry; apply N.ltb_lt; lia).
    cbn [andb]. do 2 f_equal.
    replace ((0xC0 + n0) mod 32) with n0
      by (apply (N.mod_unique _ 32 6); lia).
    replace ((0x80 + n) mod 64) with n
      by (apply (N.mod_unique _ 64 2); lia).
    lia. }
  destruct (c <? 0x10000) eqn:E3.
  { bools.
    pose proof (N.div_mod c 64 ltac:(discriminate)) as D1.
    pose proof (N.mod_upper_bound c 64 ltac:(discriminate)) as B1.
    pose proof (N.div_mod (c / 64) 64 ltac:(discriminate)) as D2.
    pose proof (N.mod_upper_bound (c / 64) 64 ltac:(discriminate)) as B2.
    replace (c / 4096) with (c / 64 / 64) by (rewrite N.Div0.div_div; reflexivity).
    set (r0 := c mod 64) in *. set (q0 := c / 64) in *.
    set (r1 := q0 mod 64) in *. set (q1 := q0 / 64) in *.
    clearbody r0 q0 r1 q1.
    assert (Hq1 : q1 < 16) by lia.
    cbn [app decode_items].
    replace (0xE0 + q1 <? 0x80) with false by (symmetry; apply N.ltb_ge; lia).
    replace (0xE0 + q1 <? 0xC2) with false by (symmetry; apply N.ltb_ge; lia).
    replace (0xE0 + q1 <? 0xE0) with false by (symmetry; apply N.ltb_ge; lia).
    replace (0xE0 + q1 <? 0xF0) with true by (symmetry; apply N.ltb_lt; lia).
    assert (S3 : second3_ok (0xE0 + q1) (0x80 + r1) = true).
    { unfold second3_ok, is_cont.
      replace (0x80 <=? 0x80 + r1) with true by (symmetry; apply N.leb_le; lia).
      replace (0x80 + r1 <? 0xC0) with true by (symmetry; apply N.ltb_lt; lia).
      cbn [andb]. apply negb_true_iff.
      destruct (0x80 + r1 <? 0xA0) eqn:EA; bools.
      - apply N.eqb_neq. lia.
      - apply N.eqb_neq. lia. }
    rewrite S3. unfold is_cont, low6.
    replace (0x80 <=? 0x80 + r0) with true by (symmetry; apply N.leb_le; lia).
    replace (0x80 + r0 <? 0xC0) with true by (symmetry; apply N.ltb_lt; lia).
    cbn [andb]. do 2 f_equal.
    replace ((0xE0 + q1) mod 16) with q1
      by (apply (N.mod_unique _ 16 14); lia).
    replace ((0x80 + r1) mod 64) with r1
      by (apply (N.mod_unique _ 64 2); lia).
    replace ((0x80 + r0) mod 64) with r0
      by (apply (N.mod_unique _ 64 2); lia).
    lia. }
  bools.
  pose proof (N.div_mod c 64 ltac:(discriminate)) as D1.
  pose proof (N.mod_upper_bound c 64 ltac:(discriminate)) as B1.
  pose proof (N.div_mod (c / 64) 64 ltac:(discriminate)) as D2.
  pose proof (N.mod_upper_bound (c / 64) 64 ltac:(discriminate)) as B2.
  pose proof (N.div_mod (c / 64 / 64) 64 ltac:(discriminate)) as D3.
  pose proof (N.mod_upper_bound (c / 64 / 64) 64 ltac:(discriminate)) as B3.
  replace (c / 4096) with (c / 64 / 64)
    by (rewrite N.Div0.div_div; reflexivity).
  replace (c / 262144) with (c / 64 / 64 / 64)
    by (rewrite !N.Div0.div_div; reflexivity).
  set (r0 := c mod 64) in *. set (q0 := c / 64) in *.
  set (r1 := q0 mod 64) in *. set (q1 := q0 / 64) in *.
  set (r2 := q1 mod 64) in *. set (q2 := q1 / 64) in *.
  clearbody r0 q0 r1 q1 r2 q2.
  assert (Hq2 : q2 < 5) by lia.
  cbn [app decode_items].
  replace (0xF0 + q2 <? 0x80) with false by (symmetry; apply N.ltb_ge; lia).
  replace (0xF0 + q2 <? 0xC2) with false by (symmetry; apply N.ltb_ge; lia).
  replace (0xF0 + q2 <? 0xE0) with false by (symmetry; apply N.ltb_ge; lia).
  replace (0xF0 + q2 <? 0xF0) with false by (symmetry; apply N.ltb_ge; lia).
  replace (0xF0 + q2 <? 0xF5) with true by (symmetry; apply N.ltb_lt; lia).
  assert (S4 : second4_ok (0xF0 + q2) (0x80 + r2) = true).
  { unfold second4_ok, is_cont.
    replace (0x80 <=? 0x80 + r2) with true by (symmetry; apply N.leb_le; lia).
    replace (0x80 + r2 <? 0xC0) with true by (symmetry; apply N.ltb_lt; lia).
    cbn [andb]. apply negb_true_iff.
    destruct (0x80 + r2 <? 0x90) eqn:EA; bools.
    - apply N.eqb_neq. lia.
    - apply N.eqb_neq. lia. }
  rewrite S4. unfold is_cont, low6.
  replace (0x80 <=? 0x80 + r1) with true by (symmetry; apply N.leb_le; lia).
  replace (0x80 + r1 <? 0xC0) with true by (symmetry; apply N.ltb_lt; lia).
  replace (0x80 <=? 0x80 + r0) with true by (symmetry; apply N.leb_le; lia).
  replace (0x80 + r0 <? 0xC0) with true by (symmetry; apply N.ltb_lt; lia).
  cbn [andb]. do 2 f_equal.
  replace ((0xF0 + q2) mod 8) with q2
    by (apply (N.mod_unique _ 8 30); lia).
  replace ((0x80 + r2) mod 64) with r2
    by (apply (N.mod_unique _ 64 2); lia).
  replace ((0x80 + r1) mod 64) with r1
    by (apply (N.mod_unique _ 64 2); lia).
  replace ((0x80 + r0) mod 64) with r0
    by (apply (N.mod_unique _ 64 2); lia).
  lia.
Qed.


Lemma decode_octets (s : str) :
  text_ok s -> decode_items (octets s) = map Some s.
Proof.
  unfold text_ok, octets. induction s as [|c s IH]; [reflexivity|].
  cbn [forallb flat_map map]. intros H. apply andb_true_iff in H as [Hc Hs].
  rewrite decode_encode_cp by exact Hc. now rewrite IH.
Qed.

Lemma all_some_map (s : str) : all_some (map Some s) = Some s.
Proof. induction s as [|c s IH]; [reflexivity|]. cbn. now rewrite IH. Qed.

Lemma decode_strict_octets (s : str) :
  text_ok s -> decode_strict (octets s) = Some s.
Proof.
  intros H. unfold decode_strict. rewrite decode_octets by exact H.
  apply all_some_map.
Qed.

(** The three parts of a text: white space, a core that neither starts nor
    ends with white space, and white space. *)
Definition core (m : str) : Prop :=
  m <> [] /\ lstrip m = m /\ lstrip (rev m) = rev m.

Lemma forallb_rev (p : N -> bool) (s : str) :
  forallb p (rev s) = forallb p s.
Proof.
  induction s as [|c s IH]; [reflexivity|]. cbn [rev forallb].
  rewrite forallb_app, IH. cbn. rewrite andb_true_r. apply andb_comm.
Qed.

Lemma lstrip_spaces (s : str) : forallb isspace s = true -> lstrip s = [].
Proof.
  intros H. rewrite <- (app_nil_r s). rewrite lstrip_app by exact H. reflexivity.
Qed.

Lemma lstrip_nil_spaces (s : str) : lstrip s = [] -> forallb isspace s = true.
Proof.
  induction s as [|c s IH]; [reflexivity|]. cbn [lstrip forallb].
  destruct (isspace c); [exact IH|discriminate].
Qed.

Lemma text_parts (t : str) :
  forallb isspace t = true
  \/ exists p m q, t = p ++ m ++ q /\ forallb isspace p = true
                   /\ forallb isspace q = true /\ core m.
Proof.
  destruct (lstrip t) as [|c u] eqn:E.
  - left. now apply lstrip_nil_spaces.
  - right. destruct (lstrip_split t) as (p & Hp & Hsp).
    destruct (lstrip_split (rev (lstrip t))) as (q & Hq & Hsq).
    exists p, (rev (lstrip (rev (lstrip t)))), (rev q).
    assert (Hm : lstrip t = rev (lstrip (rev (lstrip t))) ++ rev q).
    { rewrite <- rev_app_distr, <- Hq. now rewrite rev_involutive. }
    split; [rewrite <- Hm; exact Hp|]. split; [exact Hsp|].
    split; [now rewrite forallb_rev|].
    destruct (strip_ends t) as [H1 H2]. unfold strip, rstrip in H1, H2.
    split; [|split; assumption].
    intros Hnil. rewrite Hnil in Hm. cbn [app] in Hm.
    assert (Hs : forallb isspace (lstrip t) = true)
      by (rewrite Hm; now rewrite forallb_rev).
    rewrite E in Hs. cbn [forallb] in Hs.
    apply andb_true_iff in Hs as [Hc _].
    pose proof (lstrip_head t c u E). congruence.
Qed.

Lemma core_lstrip (m q : str) : core m -> lstrip (m ++ q) = m ++ q.
Proof.
  intros (Hne & Hl & _). rewrite lstrip_keep by (rewrite Hl; exact Hne).
  now rewrite Hl.
Qed.

Lemma core_rev (m : str) : core m -> core (rev m).
Proof.
  intros (Hne & Hl & Hr). split; [|split].
  - intros H. apply Hne. rewrite <- (rev_involutive m), H. reflexivity.
  - exact Hr.
  - now rewrite rev_involutive.
Qed.

Lemma lstrip_parts (p m q : str) :
  forallb isspace p = true -> core m -> lstrip (p ++ m ++ q) = m ++ q.
Proof. intros Hp Hm. rewrite lstrip_app by exact Hp. now apply core_lstrip. Qed.

Lemma rstrip_parts (p m q : str) :
  forallb isspace q = true -> core m -> rstrip (p ++ m ++ q) = p ++ m.
Proof.
  intros Hq Hm. unfold rstrip. rewrite !rev_app_distr, <- app_assoc.
  rewrite lstrip_parts by (rewrite ?forallb_rev; auto using core_rev).
  rewrite rev_app_distr, !rev_involutive. reflexivity.
Qed.

Lemma strip_parts (p m q : str) :
  forallb isspace p = true -> forallb isspace q = true -> core m ->
  strip (p ++ m ++ q) = m.
Proof.
  intros Hp Hq Hm. unfold strip. rewrite lstrip_parts by assumption.
  rewrite <- (app_nil_l (m ++ q)), rstrip_parts by assumption. reflexivity.
Qed.

Lemma strip_spaces (s : str) : forallb isspace s = true -> strip s = [].
Proof. intros H. unfold strip. now rewrite lstrip_spaces. Qed.

Lemma core_app (a m : str) : core a -> core m -> core (a ++ m).
Proof.
  intros Ha Hm. split; [|split].
  - destruct Ha as (Hne & _). destruct a; [congruence|discriminate].
  - rewrite <- (app_nil_r m). rewrite core_lstrip by exact Ha.
    now rewrite app_nil_r.
  - rewrite rev_app_distr. apply core_lstrip. now apply core_rev.
Qed.

End TextFacts.

(* ================================================================== *)
(** * More about the decoder *)
(* ================================================================== *)

Module DecoderProperties.

Import Py PyFacts Streaming DecoderFacts TextFacts.
Open Scope N_scope.

Lemma core_prefix : core DATA_PREFIX.
Proof. split; [discriminate|split; reflexivity]. Qed.

Lemma startswith_app (p s : str) : startswith (p ++ s) p = true.
Proof.
  induction p as [|c p IH]; [destruct s; reflexivity|]. cbn [app startswith].
  now rewrite N.eqb_refl, IH.
Qed.

Lemma strip_data_line (t : str) :
  let line := strip (DATA_PREFIX ++ t) in
  startswith line DATA_PREFIX = true /\ strip (skipn 5 line) = strip t.
Proof.
  cbv zeta. destruct (text_parts t) as [Hs|(p & m & q & -> & Hp & Hq & Hm)].
  - replace (DATA_PREFIX ++ t) with ([] ++ DATA_PREFIX ++ t) by reflexivity.
    rewrite strip_parts by (auto using core_prefix).
    split; [reflexivity|]. cbn [skipn]. 
    change (skipn 5 DATA_PREFIX) with (@nil N).
    rewrite (strip_spaces t Hs). reflexivity.
  - rewrite (strip_parts p m q) by assumption.
    destruct p as [|c p].
    + cbn [app]. rewrite app_assoc.
      replace ((DATA_PREFIX ++ m) ++ q) with ([] ++ (DATA_PREFIX ++ m) ++ q)
        by reflexivity.
      rewrite strip_parts by (auto using core_app, core_prefix).
      split; [apply startswith_app|].
      change (skipn 5 (DATA_PREFIX ++ m)) with m.
      replace m with ([] ++ m ++ []) at 1 by (cbn; now rewrite app_nil_r).
      now rewrite strip_parts.
    + replace (DATA_PREFIX ++ (c :: p) ++ m ++ q)
        with ([] ++ (DATA_PREFIX ++ (c :: p) ++ m) ++ q)
        by (rewrite app_nil_l, <- !app_assoc; reflexivity).
      assert (Hc : core (DATA_PREFIX ++ (c :: p) ++ m)).
      { split; [discriminate|]. split; [reflexivity|].
        rewrite !rev_app_distr, <- app_assoc.
        apply core_lstrip. now apply core_rev. }
      rewrite strip_parts by auto.
      split; [apply startswith_app|].
      change (skipn 5 (DATA_PREFIX ++ (c :: p) ++ m)) with ((c :: p) ++ m).
      replace ((c :: p) ++ m) with ((c :: p) ++ m ++ []) by now rewrite app_nil_r.
      now rewrite strip_parts.
Qed.

Lemma decode_line_octets (s : str) :
  text_ok s -> decode_line (LBytes (octets s)) = s.
Proof. intros H. cbn [decode_line]. now rewrite decode_strict_octets. Qed.

Lemma stripped_sentinel (ev : str) :
  strip ev = ev -> (is_sentinel ev = true <-> ev = DONE).
Proof.
  intros H. unfold is_sentinel. rewrite H. apply str_eqb_eq.
Qed.

(** X1. Every frame the decoder yields is stripped: it has no white space
    at either end, so stripping it again, as the consumer and the verifier
    do before they compare it with the sentinel, changes nothing, and a
    decoded frame is the sentinel exactly when it is the text [[DONE]]. *)
Theorem decoded_frames_are_stripped (lines : list line) :
  Forall (fun ev => strip ev = ev
                    /\ lstrip ev = ev /\ rstrip ev = ev
                    /\ (is_sentinel ev = true <-> ev = DONE))
         (_iter_sse_data lines).
Proof.
  induction lines as [|l rest IH]; [constructor|].
  cbn [_iter_sse_data].
  destruct (startswith (strip (decode_line l)) DATA_PREFIX); [|exact IH].
  constructor; [|exact IH].
  set (t := skipn 5 (strip (decode_line l))).
  destruct (strip_ends t) as [H1 H2].
  assert (Hs : strip (strip t) = strip t) by apply strip_idem.
  split; [exact Hs|]. split; [exact H1|]. split.
  - unfold rstrip. rewrite H2. apply rev_involutive.
  - now apply stripped_sentinel.
Qed.

(** X2. A body whose lines are the UTF-8 encodings of [data:] followed by a
    payload decodes to the payloads, stripped, one frame for each line and
    in the order of the lines. *)
Theorem utf8_data_lines_decode (payloads : list str) (lines : list bytes) :
  Forall2 (fun t b => encode (DATA_PREFIX ++ t) = inr b) payloads lines ->
  _iter_sse_data (map LBytes lines) = map strip payloads.
Proof.
  induction 1 as [|t b payloads lines Hb _ IH]; [reflexivity|].
  cbn [map _iter_sse_data]. apply encode_inv in Hb as [Hok ->].
  rewrite decode_line_octets by exact Hok.
  destruct (strip_data_line t) as [Hp Hs]. cbv zeta in Hp, Hs.
  rewrite Hp, Hs, IH. reflexivity.
Qed.

Lemma utf8_data_lines_decode_witness :
  _iter_sse_data
    (map LBytes [qlit "data:  {'id': 1}  "; [0x64; 0x61; 0x74; 0x61; 0x3A; 0xE2; 0x82; 0xAC];
                 lit "data:[DONE]"])
  = map strip [qlit "  {'id': 1}  "; [0x20AC]; lit "[DONE]"].
Proof.
  apply (utf8_data_lines_decode
           [qlit "  {'id': 1}  "; [0x20AC]; lit "[DONE]"]
           [qlit "data:  {'id': 1}  "; [0x64; 0x61; 0x74; 0x61; 0x3A; 0xE2; 0x82; 0xAC];
            lit "data:[DONE]"]).
  repeat constructor.
Defined.

End DecoderProperties.

(* ================================================================== *)
(** * The clock of a session *)
(* ================================================================== *)

Module TimingFacts.

Import Py Json PyFacts Streaming DecoderFacts ConsumerFacts.
Open Scope N_scope.

(** Frame [k + 1] came more than the threshold after frame [k]; the clock
    is read for the [k]-th time when frame [k] arrives, and reading 0 is
    the start of the session. *)
Definition stalled (w : world) (thr : Q) (k : nat) : bool :=
  Qgtb (ms (monotonic w (S k) - monotonic w k)) thr.

(** The stalls among the first [m] frames: the gaps above the threshold
    between a frame and the frame before it. *)
Definition stalls (w : world) (thr : Q) (m : nat) : nat :=
  length (filter (stalled w thr) (seq 1 (m - 1))).

Lemma stalls_succ (w : world) (thr : Q) (m : nat) :
  stalls w thr (S m)
  = (stalls w thr m
     + if (negb (m =? 0)%nat) && stalled w thr m then 1 else 0)%nat.
Proof.
  unfold stalls. destruct m as [|m]; [reflexivity|].
  replace (S (S m) - 1)%nat with (S m) by lia.
  replace (S m - 1)%nat with m by lia.
  rewrite seq_S, filter_app, length_app. cbn [filter negb Nat.eqb andb plus].
  destruct (stalled w thr (S m)); reflexivity.
Qed.

Lemma stalls_bound (w : world) (thr : Q) (m : nat) :
  (stalls w thr m <= m - 1)%nat.
Proof.
  unfold stalls. etransitivity; [apply filter_length_le|].
  now rewrite length_seq.
Qed.

(** What a turn of the loop does to the clock variables. *)
Lemma consume_frame_timing (w : world) (t_start thr : Q) (s s' : session)
      (ev : str) (stop : bool) :
  consume_frame w t_start thr s ev = inr (s', stop) ->
  last_chunk_time s' = monotonic w (reads s)
  /\ ttfb_ms (result s')
     = match ttfb_ms (result s) with
       | None => Some (ms (monotonic w (reads s) - t_start))
       | Some t => Some t
       end
  /\ stall_count (result s')
     = (if Qgtb (ms (monotonic w (reads s) - last_chunk_time s)) thr
           && is_some (ttfb_ms (result s))
        then stall_count (result s) + 1 else stall_count (result s))%Z
  /\ ttc_ms (result s') = ttc_ms (result s)
  /\ receipt_path (result s') = receipt_path (result s)
  /\ exists extra, reasoning (result s') = reasoning (result s) ++ extra.
Proof.
  unfold consume_frame.
  set (now := monotonic w (reads s)).
  set (r1 := if _ && _ then _ else _).
  set (r2 := match ttfb_ms r1 with None => _ | Some _ => _ end).
  assert (Hr2 : ttfb_ms r2
                = match ttfb_ms (result s) with
                  | None => Some (ms (now - t_start))
                  | Some t => Some t
                  end
                /\ stall_count r2
                   = (if Qgtb (ms (now - last_chunk_time s)) thr
                         && is_some (ttfb_ms (result s))
                      then stall_count (result s) + 1
                      else stall_count (result s))%Z
                /\ ttc_ms r2 = ttc_ms (result s)
                /\ receipt_path r2 = receipt_path (result s)
                /\ reasoning r2 = reasoning (result s)).
  { subst r2 r1. destruct (_ && _); destruct (ttfb_ms (result s)) eqn:E;
      cbn; rewrite ?E; cbn; rewrite ?E; repeat split; reflexivity. }
  destruct Hr2 as (Hf & Hst & Hc & Hp & Hre).
  clearbody r2. clear r1.
  destruct (str_eqb (strip ev) DONE) eqn:Hs.
  { intros H. injection H as <- <-. cbn. repeat split; auto.
    exists []. now rewrite app_nil_r. }
  destruct (loads ev) as [[]|obj] eqn:Hl; try discriminate.
  { intros H. injection H as <- <-. cbn. repeat split; auto.
    exists []. now rewrite app_nil_r. }
  unfold bind.
  destruct (_extract_content_parts obj) as [e|[content reasoning']] eqn:Hx;
    [discriminate|].
  destruct (update_usage _ obj) as [e|r4] eqn:Hu; [discriminate|].
  apply update_usage_inv in Hu.
  intros H. injection H as <- <-. cbn. subst r4.
  unfold apply_usage.
  destruct (truthy (usage_value obj (lit "prompt_tokens")));
    destruct (truthy (usage_value obj (lit "completion_tokens")));
    cbn; (repeat split; auto); exists reasoning'; now rewrite Hre.
Qed.

(** The clock variables after [n] frames of a session that started at
    reading 0. *)
Definition timed (w : world) (thr : Q) (s : session) : Prop :=
  reads s = S (length (raw_events s))
  /\ last_chunk_time s = monotonic w (length (raw_events s))
  /\ ttfb_ms (result s)
     = match raw_events s with
       | [] => None
       | _ :: _ => Some (ms (monotonic w 1 - monotonic w 0))
       end
  /\ stall_count (result s) = Z.of_nat (stalls w thr (length (raw_events s))).

Lemma timed_turn (w : world) (thr : Q) (s s' : session)
      (ev : str) (stop : bool) :
  timed w thr s ->
  consume_frame w (monotonic w 0) thr s ev = inr (s', stop) ->
  timed w thr s'.
Proof.
  intros (Hr & Hl & Hf & Hs) H.
  pose proof (consume_frame_inv _ _ _ _ _ _ _ H) as (Hraw & Hreads & _).
  apply consume_frame_timing in H as (Hl' & Hf' & Hs' & _).
  unfold timed. rewrite Hraw, length_app, Nat.add_1_r, Hreads, Hr.
  split; [reflexivity|]. split; [now rewrite Hl', Hr|].
  rewrite Hf', Hs', Hf, Hs, Hl, Hr, stalls_succ.
  destruct (raw_events s) as [|e0 l0]; cbn [length app is_some].
  - split; [reflexivity|]. rewrite andb_false_r. cbn [Nat.eqb negb andb]. lia.
  - split; [reflexivity|]. rewrite andb_true_r. cbn [Nat.eqb negb andb].
    unfold stalled.
    match goal with |- context [Qgtb ?x thr] => destruct (Qgtb x thr) end; lia.
Qed.

(** A property of the session that holds when the request is sent, that
    every turn of the loop keeps and that recording an error keeps, holds
    when the [try] statement ends. *)
Lemma request_invariant (w : world) (thr : Q) (P : session -> Prop) :
  P (fresh_session w) ->
  (forall s ev s' stop,
      P s -> consume_frame w (monotonic w 0) thr s ev = inr (s', stop) -> P s') ->
  (forall s exc,
      P s -> P (mkSession (set_error (result s) (Some exc)) (raw_events s)
                          (last_chunk_time s) (reads s))) ->
  forall s, request w thr = inr s -> P s.
Proof.
  intros H0 Hturn Herr s. unfold request.
  destruct (server w) as [exc|lines failure].
  - intros H. injection H as <-. apply (Herr (fresh_session w) exc H0).
  - unfold bind.
    destruct (consume _ _ _ _ _) as [e|[s1 stop]] eqn:E; [discriminate|].
    assert (H1 : P s1).
    { apply (consume_invariant w (monotonic w 0) thr P)
        with (frames := _iter_sse_data (map LBytes lines))
             (s := fresh_session w) (stop := stop); assumption. }
    destruct stop; [|destruct failure]; intros H; injection H as <-; auto.
Qed.

Lemma request_timed (w : world) (thr : Q) (s : session) :
  request w thr = inr s -> timed w thr s.
Proof.
  apply request_invariant.
  - repeat split.
  - intros. eapply timed_turn; eauto.
  - intros s0 exc H. exact H.
Qed.

(** What a returning call of [stream_chat] did: the session of its [try]
    statement, and the receipt it wrote or did not write. *)
Lemma stream_chat_cases (w : world) (model : str) (payload : bytes)
      (thr : Q) (save_receipt : bool) (receipt_dir : str)
      (fs fs' : filesystem) (r : StreamResult) :
  stream_chat w model payload thr save_receipt receipt_dir fs = (inr r, fs') ->
  exists s,
    request w thr = inr s
    /\ raw_events s = through_sentinel (received w)
    /\ ((r = finished w s /\ fs' = fs
         /\ (save_receipt = false \/ raw_events s = []))
        \/ (exists p,
               r = set_receipt_path (finished w s) (Some p)
               /\ save_receipt = true /\ raw_events s <> []
               /\ _write_receipt w receipt_dir model payload (raw_events s) fs
                  = (inr p, fs'))).
Proof.
  unfold stream_chat. destruct (request w thr) as [e|s] eqn:Hreq; [discriminate|].
  intros H. exists s. split; [reflexivity|].
  split; [apply (request_counted w thr s Hreq)|].
  fold (finished w s) in H.
  destruct save_receipt; cbn [andb] in H.
  - destruct (raw_events s) as [|e0 l0] eqn:Eraw.
    + left. injection H as <- <-. auto.
    + right.
      destruct (_write_receipt _ _ _ _ _ _) as [[e|p] fs1] eqn:Ew; [discriminate|].
      injection H as <- <-. exists p. repeat split; auto. discriminate.
  - left. injection H as <- <-. auto.
Qed.

(** X3. The clock values of a session that returned. With [m] frames
    reached by the loop, the time to first byte is the time from the start
    to the first frame, and absent when there was no frame; the time to
    completion runs from the start to the reading taken after the loop; and
    the stall count lies between 0 and [m - 1], since the first frame is
    never counted as a stall. *)
Theorem session_timing
        (w : world) (model : str) (payload : bytes) (thr : Q)
        (save_receipt : bool) (receipt_dir : str) (fs fs' : filesystem)
        (r : StreamResult) :
  stream_chat w model payload thr save_receipt receipt_dir fs = (inr r, fs') ->
  let m := length (through_sentinel (received w)) in
  ttfb_ms r = match m with
              | O => None
              | S _ => Some (ms (monotonic w 1 - monotonic w 0))
              end
  /\ ttc_ms r = Some (ms (monotonic w (S m) - monotonic w 0))
  /\ (0 <= stall_count r <= Z.of_nat (m - 1))%Z.
Proof.
  intros H m. apply stream_chat_cases in H as (s & Hreq & Hraw & Hcase).
  destruct (request_timed w thr s Hreq) as (Hr & _ & Hf & Hs).
  rewrite Hraw in Hr, Hf, Hs. fold m in Hr, Hs.
  pose proof (stalls_bound w thr m) as Hb.
  assert (Hfin : ttfb_ms (finished w s)
                 = match m with
                   | O => None
                   | S _ => Some (ms (monotonic w 1 - monotonic w 0))
                   end
                 /\ ttc_ms (finished w s)
                    = Some (ms (monotonic w (S m) - monotonic w 0))
                 /\ stall_count (finished w s) = Z.of_nat (stalls w thr m)).
  { unfold finished. cbn. rewrite Hr, Hf, Hs. subst m.
    destruct (through_sentinel (received w)); repeat split. }
  destruct Hcase as [(-> & _)|(p & -> & _)]; cbn [set_receipt_path ttfb_ms ttc_ms stall_count];
    destruct Hfin as (-> & -> & ->); repeat split; lia.
Qed.


Lemma clock_monotone (w : world) :
  (forall k, (monotonic w k <= monotonic w (S k))%Q) ->
  forall i j, (i <= j)%nat -> (monotonic w i <= monotonic w j)%Q.
Proof.
  intros H i j Hij. induction Hij as [|j _ IH]; [apply Qle_refl|].
  eapply Qle_trans; [exact IH|apply H].
Qed.

Lemma ms_le (a b c : Q) : (a <= b)%Q -> (ms (a - c) <= ms (b - c))%Q.
Proof.
  intros H. unfold ms. apply Qmult_le_compat_r; [|discriminate].
  unfold Qminus. apply Qplus_le_compat; [exact H|apply Qle_refl].
Qed.

Lemma ms_0_le (a b : Q) : (a <= b)%Q -> (0 <= ms (b - a))%Q.
Proof.
  intros H. unfold ms. apply Qmult_le_0_compat; [|discriminate].
  unfold Qminus. now apply -> Qle_minus_iff.
Qed.

(** X4. On a clock that never runs backwards, the time to completion of a
    session that returned is not negative, and the time to first byte, when
    there is one, is not negative and not above the time to completion. *)
Theorem session_times_ordered
        (w : world) (model : str) (payload : bytes) (thr : Q)
        (save_receipt : bool) (receipt_dir : str) (fs fs' : filesystem)
        (r : StreamResult) :
  stream_chat w model payload thr save_receipt receipt_dir fs = (inr r, fs') ->
  (forall k, (monotonic w k <= monotonic w (S k))%Q) ->
  exists ttc,
    ttc_ms r = Some ttc /\ (0 <= ttc)%Q
    /\ forall ttfb, ttfb_ms r = Some ttfb -> (0 <= ttfb)%Q /\ (ttfb <= ttc)%Q.
Proof.
  intros H Hclock.
  apply stream_chat_cases in H as (s & Hreq & Hraw & Hcase).
  destruct (request_timed w thr s Hreq) as (Hr & _ & Hf & _).
  pose proof (clock_monotone w Hclock) as Hmono.
  exists (ms (monotonic w (reads s) - monotonic w 0)).
  assert (Hfields : ttc_ms r = Some (ms (monotonic w (reads s) - monotonic w 0))
                    /\ ttfb_ms r = ttfb_ms (result s)).
  { destruct Hcase as [(-> & _)|(p & -> & _)]; split; reflexivity. }
  destruct Hfields as [Hc Hb]. split; [exact Hc|].
  split; [apply ms_0_le, Hmono; lia|].
  intros ttfb Hsome. rewrite Hb, Hf in Hsome.
  destruct (raw_events s) as [|e0 l0]; [discriminate|].
  injection Hsome as <-. split.
  - apply ms_0_le, Hmono. lia.
  - apply ms_le, Hmono. rewrite Hr. cbn [length]. lia.
Qed.

End TimingFacts.

(* ================================================================== *)
(** * What a session accumulates *)
(* ================================================================== *)

Module SessionFacts.

Import Py Json PyFacts Streaming DecoderFacts ConsumerFacts TimingFacts.
Import VerifyReceipt (frame_parses).
Open Scope N_scope.

(** What a frame adds to the text and to the reasoning of the session:
    nothing for the sentinel and for a frame that is not JSON. *)
Definition frame_parts (ev : str) : str * str :=
  if is_sentinel ev then ([], [])
  else match loads ev with
       | inr obj =>
         match _extract_content_parts obj with
         | inr parts => parts
         | inl _ => ([], [])
         end
       | inl _ => ([], [])
       end.

Lemma consume_frame_parts (w : world) (t_start thr : Q) (s s' : session)
      (ev : str) (stop : bool) :
  consume_frame w t_start thr s ev = inr (s', stop) ->
  text (result s') = text (result s) ++ fst (frame_parts ev)
  /\ reasoning (result s') = reasoning (result s) ++ snd (frame_parts ev)
  /\ parse_errors (result s')
     = (parse_errors (result s) + if frame_parses ev then 0 else 1)%Z
  /\ receipt_path (result s') = receipt_path (result s)
  /\ ttc_ms (result s') = ttc_ms (result s).
Proof.
  unfold consume_frame, frame_parts, frame_parses, is_sentinel.
  set (now := monotonic w (reads s)).
  set (r1 := if _ && _ then _ else _).
  set (r2 := match ttfb_ms r1 with None => _ | Some _ => _ end).
  assert (Hr2 : text r2 = text (result s)
                /\ reasoning r2 = reasoning (result s)
                /\ parse_errors r2 = parse_errors (result s)
                /\ receipt_path r2 = receipt_path (result s)
                /\ ttc_ms r2 = ttc_ms (result s)).
  { subst r2 r1. destruct (_ && _); destruct (ttfb_ms (result s)) eqn:E;
      cbn; rewrite ?E; cbn; rewrite ?E; repeat split; reflexivity. }
  destruct Hr2 as (Ht & Hre & Hp & Hrp & Hc).
  clearbody r2. clear r1.
  change (lit "[DONE]") with DONE.
  destruct (str_eqb (strip ev) DONE) eqn:Hs.
  { intros H. injection H as <- <-. cbn. rewrite !app_nil_r.
    repeat split; auto. lia. }
  destruct (loads ev) as [[]|obj] eqn:Hl; try discriminate.
  { intros H. injection H as <- <-. cbn. rewrite !app_nil_r.
    repeat split; auto. now rewrite Hp. }
  unfold bind.
  destruct (_extract_content_parts obj) as [e|[content reasoning']] eqn:Hx;
    [discriminate|].
  destruct (update_usage _ obj) as [e|r4] eqn:Hu; [discriminate|].
  apply update_usage_inv in Hu.
  intros H. injection H as <- <-. cbn. subst r4.
  unfold apply_usage.
  destruct (truthy (usage_value obj (lit "prompt_tokens")));
    destruct (truthy (usage_value obj (lit "completion_tokens")));
    cbn; rewrite Ht, Hre, Hp; repeat split; auto; lia.
Qed.

(** The text, the reasoning and the parse errors of a session, over the
    frames it logged. *)
Definition accumulated (s : session) : Prop :=
  text (result s) = concat (map (fun ev => fst (frame_parts ev)) (raw_events s))
  /\ reasoning (result s)
     = concat (map (fun ev => snd (frame_parts ev)) (raw_events s))
  /\ parse_errors (result s)
     = Z.of_nat (length (filter (fun ev => negb (frame_parses ev)) (raw_events s)))
  /\ receipt_path (result s) = None
  /\ ttc_ms (result s) = None.

Lemma accumulated_turn (w : world) (t_start thr : Q) (s s' : session)
      (ev : str) (stop : bool) :
  accumulated s -> consume_frame w t_start thr s ev = inr (s', stop) ->
  accumulated s'.
Proof.
  intros (Ht & Hr & Hp & Hrp & Hc) H.
  pose proof (consume_frame_inv _ _ _ _ _ _ _ H) as (Hraw & _).
  apply consume_frame_parts in H as (Ht' & Hr' & Hp' & Hrp' & Hc').
  unfold accumulated.
  rewrite Hraw, !map_app, !concat_app, filter_app, length_app.
  cbn [map concat filter]. rewrite !app_nil_r, Ht', Hr', Hp', Hrp', Hc', Ht, Hr, Hp.
  repeat split; auto.
  destruct (frame_parses ev); cbn [negb length]; lia.
Qed.

Lemma request_accumulated (w : world) (thr : Q) (s : session) :
  request w thr = inr s -> accumulated s.
Proof.
  apply request_invariant.
  - repeat split.
  - intros. eapply accumulated_turn; eauto.
  - intros s0 exc H. exact H.
Qed.

(** X5. The parse-error count of a session that returned is the number of
    frames its loop reached that are neither the sentinel nor JSON, the
    frames the verifier counts as parse errors in the receipt. *)
Theorem parse_errors_count
        (w : world) (model : str) (payload : bytes) (thr : Q)
        (save_receipt : bool) (receipt_dir : str) (fs fs' : filesystem)
        (r : StreamResult) :
  stream_chat w model payload thr save_receipt receipt_dir fs = (inr r, fs') ->
  parse_errors r
  = Z.of_nat (length (filter (fun ev => negb (frame_parses ev))
                             (through_sentinel (received w))))
  /\ (parse_errors r = 0%Z
      <-> forallb frame_parses (through_sentinel (received w)) = true).
Proof.
  intros H. apply stream_chat_cases in H as (s & Hreq & Hraw & Hcase).
  destruct (request_accumulated w thr s Hreq) as (_ & _ & Hp & _).
  rewrite Hraw in Hp.
  assert (Hr : parse_errors r = parse_errors (result s))
    by (destruct Hcase as [(-> & _)|(p & -> & _)]; reflexivity).
  rewrite Hr, Hp. split; [reflexivity|].
  generalize (through_sentinel (received w)). intros l.
  induction l as [|ev l IH]; [split; reflexivity|].
  cbn [filter forallb]. destruct (frame_parses ev); cbn [negb andb length].
  - exact IH.
  - split; [lia|discriminate].
Qed.

(** X6. The text and the reasoning of a session that returned are the
    concatenations, in the order of the frames its loop reached, of the
    content and of the reasoning content that [_extract_content_parts]
    finds in each frame that is JSON. *)
Theorem session_text_is_concatenation
        (w : world) (model : str) (payload : bytes) (thr : Q)
        (save_receipt : bool) (receipt_dir : str) (fs fs' : filesystem)
        (r : StreamResult) :
  stream_chat w model payload thr save_receipt receipt_dir fs = (inr r, fs') ->
  let seen := through_sentinel (received w) in
  text r = concat (map (fun ev => fst (frame_parts ev)) seen)
  /\ reasoning r = concat (map (fun ev => snd (frame_parts ev)) seen).
Proof.
  intros H seen. apply stream_chat_cases in H as (s & Hreq & Hraw & Hcase).
  destruct (request_accumulated w thr s Hreq) as (Ht & Hre & _).
  rewrite Hraw in Ht, Hre. subst seen. rewrite <- Ht, <- Hre.
  destruct Hcase as [(-> & _)|(p & -> & _)]; split; reflexivity.
Qed.


(** A session of four frames, the second of which is not JSON, on a clock
    that reads 0 at the start, 5, 6, 9 and 10 seconds at the frames and 12
    seconds at the end. *)
Definition paced_clock (n : nat) : Q :=
  match n with
  | 0%nat => 0
  | 1%nat => 5
  | 2%nat => 6
  | 3%nat => 9
  | 4%nat => 10
  | _ => 12
  end.

Definition paced_lines : list bytes :=
  [qlit "data: {'choices':[{'delta':{'content':'Hi','reasoning_content':'hm'}}]}";
   lit "data: {not json";
   qlit "data: {'choices':[{'delta':{'content':' there'}}]}";
   lit "data: [DONE]"].

Definition paced_world : world :=
  mkWorld paced_clock 1700000000 (Body paced_lines None).

Definition paced_result : StreamResult :=
  Eval vm_compute in
    match fst (stream_chat paced_world (lit "m") (lit "{}") (2000 # 1) false
                           (lit "data/receipts") (mkFs [] [])) with
    | inr r => r
    | inl _ => StreamResult_default
    end.

Lemma paced_run :
  stream_chat paced_world (lit "m") (lit "{}") (2000 # 1) false
              (lit "data/receipts") (mkFs [] [])
  = (inr paced_result, mkFs [] []).
Proof. vm_compute. reflexivity. Qed.

Lemma session_timing_witness :
  ttfb_ms paced_result = Some (5000 # 1)
  /\ ttc_ms paced_result = Some (12000 # 1)
  /\ (0 <= stall_count paced_result <= 3)%Z.
Proof.
  pose proof (session_timing
                paced_world (lit "m") (lit "{}") (2000 # 1) false
                (lit "data/receipts") (mkFs [] []) (mkFs [] [])
                paced_result paced_run) as H.
  vm_compute in H. exact H.
Defined.

Lemma session_times_ordered_witness :
  exists ttc,
    ttc_ms paced_result = Some ttc /\ (0 <= ttc)%Q
    /\ forall ttfb, ttfb_ms paced_result = Some ttfb ->
                    (0 <= ttfb)%Q /\ (ttfb <= ttc)%Q.
Proof.
  apply (session_times_ordered
           paced_world (lit "m") (lit "{}") (2000 # 1) false
           (lit "data/receipts") (mkFs [] []) (mkFs [] [])
           paced_result paced_run).
  intros k. do 5 (destruct k as [|k]; [vm_compute; discriminate|]).
  vm_compute. discriminate.
Defined.

Lemma parse_errors_count_witness :
  parse_errors paced_result = 1%Z
  /\ (parse_errors paced_result = 0%Z
      <-> forallb frame_parses (through_sentinel (received paced_world)) = true).
Proof.
  pose proof (parse_errors_count
                paced_world (lit "m") (lit "{}") (2000 # 1) false
                (lit "data/receipts") (mkFs [] []) (mkFs [] [])
                paced_result paced_run) as [H1 H2].
  split; [reflexivity|exact H2].
Defined.

Lemma session_text_is_concatenation_witness :
  text paced_result = lit "Hi there" /\ reasoning paced_result = lit "hm".
Proof.
  pose proof (session_text_is_concatenation
                paced_world (lit "m") (lit "{}") (2000 # 1) false
                (lit "data/receipts") (mkFs [] []) (mkFs [] [])
                paced_result paced_run) as H.
  vm_compute in H. exact H.
Defined.

End SessionFacts.

(* ================================================================== *)
(** * Chunks of the stream format, and the exceptions of [stream_chat] *)
(* ================================================================== *)

Module WireFormat.

Import Py Json PyFacts Streaming DecoderFacts ConsumerFacts TimingFacts SessionFacts.
Open Scope N_scope.

Definition is_dict (v : pyval) : bool :=
  match v with PDict _ => true | _ => false end.

Definition is_str (v : pyval) : bool :=
  match v with PStr _ => true | _ => false end.

(** The value under [k] reads as an object: it is one, or it is absent,
    [null] or another false value, which [or {}] replaces. *)
Definition object_field (d : list (str * pyval)) (k : str) : bool :=
  match dict_get d k with
  | Some v => is_dict v || negb (truthy v)
  | None => true
  end.

(** The value under [k] reads as text: a string, or absent, [null] or
    another false value, which [or ""] replaces. *)
Definition text_field (d : list (str * pyval)) (k : str) : bool :=
  match dict_get d k with
  | Some v => is_str v || negb (truthy v)
  | None => true
  end.

(** A choice of the chat-completions stream: an object whose delta reads
    as an object with textual content and reasoning content. *)
Definition wire_choice (choice : pyval) : bool :=
  match choice with
  | PDict c =>
    object_field c (lit "delta")
    && match dict_get c (lit "delta") with
       | Some (PDict dd) =>
         text_field dd (lit "content")
         && text_field dd (lit "reasoning_content")
       | _ => true
       end
  | _ => false
  end.

(** A chunk of the chat-completions stream: an object whose choices, when
    present, are a list of choices, and whose usage reads as an object. *)
Definition wire_chunk (obj : pyval) : bool :=
  match obj with
  | PDict o =>
    match dict_get o (lit "choices") with
    | Some (PList items) => forallb wire_choice items
    | Some _ => false
    | None => true
    end
    && object_field o (lit "usage")
  | _ => false
  end.

(** The limits of the interpreter. [json.loads] of CPython raises a
    [RecursionError] on a text nested deeper than the recursion limit of
    the interpreter allows, and a [ValueError] on an integer literal of
    more digits than [sys.int_max_str_digits] (4300 by default); neither
    is a [JSONDecodeError], and the reader [loads] has neither limit. A
    frame with at most [NESTING] opening brackets, far below the recursion
    limit, and without a run of more than [MAX_STR_DIGITS] digits stays
    clear of both. *)
Definition NESTING : nat := 100.
Definition MAX_STR_DIGITS : nat := 4300.

(** The opening brackets of a text, those inside strings included. *)
Definition opens (s : str) : nat :=
  length (filter (fun c => (c =? ch "[") || (c =? ch "{")) s).

(** The length of the longest run of digits of [s], after a run of [run]
    digits and with [longest] the longest run seen before it. *)
Fixpoint digit_run (s : str) (run longest : nat) : nat :=
  match s with
  | [] => Nat.max run longest
  | c :: rest =>
    if is_digit c then digit_run rest (S run) longest
    else digit_run rest 0 (Nat.max run longest)
  end.

Definition within_limits (s : str) : bool :=
  (opens s <=? NESTING)%nat && (digit_run s 0 0 <=? MAX_STR_DIGITS)%nat.

(** A frame of the stream: the sentinel, or a text within the limits of
    the interpreter that is not JSON or is a chunk. *)
Definition wire_frame (ev : str) : bool :=
  is_sentinel ev
  || (within_limits ev
      && match loads ev with
         | inr obj => wire_chunk obj
         | inl JSONDecodeError => true
         | inl _ => false
         end).

Lemma text_field_iadd (dd : list (str * pyval)) (k : str) (acc : str) :
  text_field dd k = true ->
  exists t,
    (v <- get (PDict dd) k PNone ;; str_iadd acc (por v (PStr []))) = inr (acc ++ t).
Proof.
  unfold text_field, get, bind, ret, por.
  destruct (dict_get dd k) as [v|]; [|intros _; exists []; reflexivity].
  intros H. destruct (truthy v) eqn:E.
  - destruct v; cbn [is_str orb negb] in H; try discriminate H.
    eexists. reflexivity.
  - exists []. reflexivity.
Qed.

Lemma wire_choice_extracts (choice : pyval) (acc : str * str) :
  wire_choice choice = true -> exists acc', extract_choice acc choice = inr acc'.
Proof.
  destruct choice as [| | | | | |c]; try discriminate. cbn [wire_choice].
  intros H. apply andb_true_iff in H as [Hd Hdd].
  unfold extract_choice. cbn [get bind ret]. unfold object_field in Hd.
  destruct (dict_get c (lit "delta")) as [d|].
  - destruct d as [| | | | | |dd]; cbn in Hd; try discriminate.
    + cbn. eauto.
    + unfold por. destruct b; [discriminate|]. cbn. eauto.
    + unfold por. cbn [truthy] in *. destruct (z =? 0)%Z; [|discriminate]. cbn. eauto.
    + unfold por. cbn [truthy] in *. destruct (float_truthy f); [discriminate|]. cbn. eauto.
    + unfold por. cbn [truthy] in *. destruct s; [|discriminate]. cbn. eauto.
    + unfold por. cbn [truthy] in *. destruct l; [|discriminate]. cbn. eauto.
    + apply andb_true_iff in Hdd as [Hc Hr].
      destruct dd as [|kv dd'].
      * cbn. eauto.
      * unfold por. cbn [truthy].
        destruct (text_field_iadd (kv :: dd') (lit "content") (fst acc) Hc) as [t Ht].
        destruct (text_field_iadd (kv :: dd') (lit "reasoning_content") (snd acc) Hr)
          as [t' Ht'].
        unfold bind in Ht, Ht' |- *. cbn [get ret] in Ht, Ht' |- *.
        unfold bind. 
        destruct (str_iadd (fst acc) _) as [e|x]; [discriminate|].
        destruct (str_iadd (snd acc) _) as [e|y]; [discriminate|]. eauto.
  - cbn. eauto.
Qed.

Lemma wire_choices_extract (items : list pyval) :
  forallb wire_choice items = true ->
  forall acc, exists acc', foldM extract_choice items acc = inr acc'.
Proof.
  induction items as [|c items IH]; intros H acc; [eexists; reflexivity|].
  cbn [forallb] in H. apply andb_true_iff in H as [Hc Hs].
  destruct (wire_choice_extracts c acc Hc) as [acc1 H1].
  cbn [foldM]. rewrite H1. cbn [bind]. apply IH, Hs.
Qed.

Lemma object_field_get (o : list (str * pyval)) (k : str) :
  object_field o k = true ->
  exists d, (u <- get (PDict o) k PNone ;; ret (por u (PDict []))) = inr (PDict d).
Proof.
  unfold object_field, get, bind, ret, por.
  destruct (dict_get o k) as [v|]; [|intros _; exists []; reflexivity].
  intros H. destruct (truthy v) eqn:E.
  - destruct v; cbn [is_dict orb negb] in H; try discriminate H.
    eexists. reflexivity.
  - exists []. reflexivity.
Qed.

Lemma wire_chunk_parts (obj : pyval) :
  wire_chunk obj = true -> exists parts, _extract_content_parts obj = inr parts.
Proof.
  destruct obj as [| | | | | |o]; try discriminate. cbn [wire_chunk].
  intros H. apply andb_true_iff in H as [Hc _].
  unfold _extract_content_parts. cbn [get bind ret].
  destruct (dict_get o (lit "choices")) as [v|].
  - destruct v as [| | | | |items|]; try discriminate. cbn [iter bind ret].
    apply wire_choices_extract, Hc.
  - cbn. eexists. reflexivity.
Qed.

Lemma wire_chunk_usage (obj : pyval) (r : StreamResult) :
  wire_chunk obj = true -> exists r', update_usage r obj = inr r'.
Proof.
  destruct obj as [| | | | | |o]; try discriminate. cbn [wire_chunk].
  intros H. apply andb_true_iff in H as [_ Hu].
  destruct (object_field_get o (lit "usage") Hu) as [d Hd].
  unfold update_usage. unfold bind, ret in Hd |- *.
  destruct (get (PDict o) (lit "usage") PNone) as [e|u]; [discriminate|].
  injection Hd as ->. cbn [get ret]. eexists. reflexivity.
Qed.

(** The reader [loads] gives up with [JSONDecodeError] only; the two
    other exceptions of [json.loads] come from the limits of the
    interpreter. *)
Lemma loads_raises (ev : str) (e : exn) : loads ev = inl e -> e = JSONDecodeError.
Proof.
  unfold loads. destruct (startswith ev [0xFEFF]).
  { intros H. now injection H as <-. }
  destruct (scan_once _ _) as [[v r]|].
  - destruct (skip_ws r); [discriminate|]. intros H. now injection H as <-.
  - intros H. now injection H as <-.
Qed.

(** A turn on a frame of the stream does not raise. *)
Lemma wire_frame_turn (w : world) (t_start thr : Q) (s : session) (ev : str) :
  wire_frame ev = true ->
  exists s', consume_frame w t_start thr s ev = inr (s', is_sentinel ev).
Proof.
  unfold wire_frame, consume_frame, is_sentinel.
  destruct (str_eqb (strip ev) DONE); [intros _; eexists; reflexivity|].
  cbn [orb]. intros H. apply andb_true_iff in H as [_ H]. revert H.
  destruct (loads ev) as [e|obj] eqn:El.
  - apply loads_raises in El as ->. intros _. eexists. reflexivity.
  - intros H. destruct (wire_chunk_parts obj H) as [[content reasoning'] Hp].
    rewrite Hp. cbn [bind].
    match goal with
    | |- context [update_usage ?r obj] =>
      destruct (wire_chunk_usage obj r H) as [r' Hu]; rewrite Hu
    end.
    cbn [bind ret]. eexists. reflexivity.
Qed.

Lemma wire_frames_consumed (w : world) (t_start thr : Q) :
  forall frames s,
    forallb wire_frame (through_sentinel frames) = true ->
    exists s' stop, consume w t_start thr s frames = inr (s', stop).
Proof.
  induction frames as [|ev rest IH]; intros s H; [eexists; eexists; reflexivity|].
  cbn [through_sentinel] in H. cbn [consume].
  assert (Hev : wire_frame ev = true).
  { destruct (is_sentinel ev); cbn [forallb] in H;
      apply andb_true_iff in H as [H _]; exact H. }
  destruct (wire_frame_turn w t_start thr s ev Hev) as [s1 H1].
  rewrite H1. cbn [bind]. destruct (is_sentinel ev).
  - eexists. eexists. reflexivity.
  - cbn [forallb] in H. apply andb_true_iff in H as [_ H]. apply IH, H.
Qed.

(** X7. [stream_chat], called without [verbose], returns a result,
    whatever the transport does, when every frame its loop reaches is the
    sentinel, or is within the limits of the interpreter (at most a hundred
    opening brackets, no run of more than 4300 digits) and is a text that
    is not JSON or a chunk of the stream format: an object whose choices
    are a list of objects with an object or null delta and textual or null
    content, and whose usage is an object or null. *)
Theorem stream_chat_returns_on_wire_frames
        (w : world) (model : str) (payload : bytes) (thr : Q)
        (save_receipt : bool) (receipt_dir : str) (fs : filesystem) :
  forallb wire_frame (through_sentinel (received w)) = true ->
  exists r fs',
    stream_chat w model payload thr save_receipt receipt_dir fs = (inr r, fs').
Proof.
  intros H.
  assert (Hreq : exists s, request w thr = inr s).
  { unfold request. unfold received in H.
    destruct (server w) as [exc|lines failure]; [eexists; reflexivity|].
    destruct (wire_frames_consumed w (monotonic w 0) thr _ (fresh_session w) H)
      as (s1 & stop & Hc).
    rewrite Hc. cbn [bind]. destruct stop; [|destruct failure]; eexists; reflexivity. }
  destruct Hreq as [s Hreq].
  destruct (stream_chat_returns w model payload thr save_receipt receipt_dir
                                fs s Hreq) as [Hnone Hsome].
  destruct save_receipt.
  - destruct (raw_events s) as [|e0 l0] eqn:E.
    + rewrite Hnone by (right; first [exact E|reflexivity]). eauto.
    + destruct Hsome as (p & rc & Hrun & _);
        [reflexivity|rewrite ?E; discriminate|]. rewrite Hrun. eauto.
  - rewrite Hnone by (left; reflexivity). eauto.
Qed.

(** A frame that is JSON but not an object: [null], a number, a string or
    a list. *)
Definition scalar_frame (ev : str) : bool :=
  negb (is_sentinel ev)
  && match loads ev with
     | inr obj => negb (is_dict obj)
     | inl _ => false
     end.

Lemma scalar_frame_raises (w : world) (t_start thr : Q) (s : session) (ev : str) :
  scalar_frame ev = true ->
  consume_frame w t_start thr s ev = inl AttributeError.
Proof.
  unfold scalar_frame, consume_frame, is_sentinel.
  destruct (str_eqb (strip ev) DONE); [discriminate|]. cbn [negb andb].
  destruct (loads ev) as [e|obj]; [discriminate|].
  intros H. destruct obj; try discriminate H; reflexivity.
Qed.

Lemma scalar_frame_aborts (w : world) (t_start thr : Q) :
  forall frames s,
    existsb scalar_frame (through_sentinel frames) = true ->
    exists e, consume w t_start thr s frames = inl e.
Proof.
  induction frames as [|ev rest IH]; intros s H; [discriminate|].
  cbn [through_sentinel] in H. cbn [consume]. unfold bind.
  destruct (consume_frame w t_start thr s ev) as [e|[s1 stop]] eqn:E;
    [eauto|].
  pose proof (consume_frame_inv _ _ _ _ _ _ _ E) as (_ & _ & _ & _ & Hturn).
  apply turn_stop in Hturn.
  destruct (scalar_frame ev) eqn:Esc.
  { rewrite (scalar_frame_raises w t_start thr s ev Esc) in E. discriminate. }
  destruct (is_sentinel ev); cbn [existsb] in H; rewrite Esc in H; cbn [orb] in H.
  - discriminate.
  - subst stop. apply IH, H.
Qed.

(** X8. When one of the frames the loop reaches is JSON but not an object
    ([null], a number, a string, a list), [stream_chat] raises: the caller
    gets no result, and no receipt is written even if one was asked for. *)
Theorem scalar_frame_aborts_session
        (w : world) (model : str) (payload : bytes) (thr : Q)
        (save_receipt : bool) (receipt_dir : str) (fs : filesystem) :
  existsb scalar_frame (through_sentinel (received w)) = true ->
  exists e,
    stream_chat w model payload thr save_receipt receipt_dir fs = (inl e, fs).
Proof.
  intros H. unfold stream_chat, request. unfold received in H.
  destruct (server w) as [exc|lines failure]; [discriminate|].
  destruct (scalar_frame_aborts w (monotonic w 0) thr _ (fresh_session w) H)
    as [e He].
  rewrite He. cbn [bind]. eauto.
Qed.


(** ** The exceptions that leave [stream_chat] *)

Definition chunk_error (e : exn) : Prop := e = AttributeError \/ e = TypeError.

Lemma get_raises (obj : pyval) (k : str) (d : pyval) (e : exn) :
  get obj k d = inl e -> e = AttributeError.
Proof.
  destruct obj; unfold get, ret, raise; intros H; try discriminate;
    now injection H as <-.
Qed.

Lemma iter_raises (v : pyval) (e : exn) : iter v = inl e -> e = TypeError.
Proof.
  destruct v; unfold iter, str_iadd, ret, raise; intros H; try discriminate;
    now injection H as <-.
Qed.

Lemma str_iadd_raises (s : str) (v : pyval) (e : exn) :
  str_iadd s v = inl e -> e = TypeError.
Proof.
  destruct v; unfold iter, str_iadd, ret, raise; intros H; try discriminate;
    now injection H as <-.
Qed.

Lemma extract_choice_raises (acc : str * str) (choice : pyval) (e : exn) :
  extract_choice acc choice = inl e -> chunk_error e.
Proof.
  unfold extract_choice, bind, ret, chunk_error.
  destruct (get choice _ _) as [e1|d] eqn:E1;
    [intros H; injection H as <-; apply get_raises in E1; auto|].
  destruct (get (por d _) (lit "content") _) as [e2|c] eqn:E2;
    [intros H; injection H as <-; apply get_raises in E2; auto|].
  destruct (str_iadd (fst acc) _) as [e3|content] eqn:E3;
    [intros H; injection H as <-; apply str_iadd_raises in E3; auto|].
  destruct (get (por d _) (lit "reasoning_content") _) as [e4|c'] eqn:E4;
    [intros H; injection H as <-; apply get_raises in E4; auto|].
  destruct (str_iadd (snd acc) _) as [e5|reasoning] eqn:E5;
    [intros H; injection H as <-; apply str_iadd_raises in E5; auto|].
  discriminate.
Qed.

Lemma extract_parts_raises (obj : pyval) (e : exn) :
  _extract_content_parts obj = inl e -> chunk_error e.
Proof.
  unfold _extract_content_parts, bind.
  destruct (get obj _ _) as [e1|choices] eqn:E1;
    [intros H; injection H as <-; apply get_raises in E1; left; exact E1|].
  destruct (iter choices) as [e2|items] eqn:E2;
    [intros H; injection H as <-; apply iter_raises in E2; right; exact E2|].
  generalize (@nil N, @nil N). clear E2.
  induction items as [|c items IH]; intros acc; [discriminate|].
  cbn [foldM]. unfold bind.
  destruct (extract_choice acc c) as [e3|acc1] eqn:E3.
  - intros H. injection H as <-. eapply extract_choice_raises; eauto.
  - apply IH.
Qed.

Lemma update_usage_raises (r : StreamResult) (obj : pyval) (e : exn) :
  update_usage r obj = inl e -> chunk_error e.
Proof.
  unfold update_usage, bind, ret.
  destruct (get obj _ _) as [e1|u] eqn:E1;
    [intros H; injection H as <-; apply get_raises in E1; left; exact E1|].
  destruct (get (por u _) (lit "prompt_tokens") _) as [e2|p] eqn:E2;
    [intros H; injection H as <-; apply get_raises in E2; left; exact E2|].
  destruct (get (por u _) (lit "completion_tokens") _) as [e3|c] eqn:E3;
    [intros H; injection H as <-; apply get_raises in E3; left; exact E3|].
  discriminate.
Qed.

Lemma consume_frame_raises (w : world) (t_start thr : Q) (s : session)
      (ev : str) (e : exn) :
  consume_frame w t_start thr s ev = inl e ->
  chunk_error e
  /\ is_sentinel ev = false
  /\ exists obj, loads ev = inr obj.
Proof.
  unfold consume_frame, is_sentinel.
  destruct (str_eqb (strip ev) DONE); [discriminate|].
  destruct (loads ev) as [e1|obj] eqn:El.
  { apply loads_raises in El as ->. discriminate. }
  unfold bind.
  destruct (_extract_content_parts obj) as [e2|[content reasoning']] eqn:E2.
  { intros H. injection H as <-. split; [|eauto].
    eapply extract_parts_raises; eauto. }
  destruct (update_usage _ obj) as [e3|r4] eqn:E3; [|discriminate].
  intros H. injection H as <-. split; [|eauto].
  eapply update_usage_raises; eauto.
Qed.

Lemma consume_raises (w : world) (t_start thr : Q) (e : exn) :
  forall frames s,
    consume w t_start thr s frames = inl e ->
    chunk_error e
    /\ exists ev obj,
         In ev (through_sentinel frames)
         /\ is_sentinel ev = false /\ loads ev = inr obj.
Proof.
  induction frames as [|ev rest IH]; intros s; [discriminate|].
  cbn [consume through_sentinel]. unfold bind.
  destruct (consume_frame w t_start thr s ev) as [e1|[s1 stop]] eqn:E1.
  - intros H. injection H as <-.
    apply consume_frame_raises in E1 as (He & Hs & obj & Hl).
    split; [exact He|]. exists ev, obj. rewrite Hs. split; [left; reflexivity|auto].
  - pose proof (consume_frame_inv _ _ _ _ _ _ _ E1) as (_ & _ & _ & _ & Hturn).
    apply turn_stop in Hturn. subst stop.
    destruct (is_sentinel ev); [discriminate|].
    intros H. apply IH in H as (He & ev' & obj & Hin & Hs & Hl).
    split; [exact He|]. exists ev', obj. split; [right; exact Hin|auto].
Qed.

(** X9. When every frame the loop reaches is within the limits of the
    interpreter, the only exceptions that leave [stream_chat], called
    without [verbose], are the [AttributeError] and the [TypeError] of a
    chunk that is JSON but not of the shape the loop expects; a parse
    error, an encoding error or a transport error never leaves it. When it
    raises, the file system is as it was: no receipt is written. *)
Theorem stream_chat_raises_only_on_chunks
        (w : world) (model : str) (payload : bytes) (thr : Q)
        (save_receipt : bool) (receipt_dir : str) (fs fs' : filesystem)
        (e : exn) :
  forallb within_limits (through_sentinel (received w)) = true ->
  stream_chat w model payload thr save_receipt receipt_dir fs = (inl e, fs') ->
  (e = AttributeError \/ e = TypeError)
  /\ fs' = fs
  /\ exists ev obj,
       In ev (through_sentinel (received w))
       /\ is_sentinel ev = false /\ loads ev = inr obj
       /\ wire_chunk obj = false.
Proof.
  intros Hlim. unfold stream_chat.
  destruct (request w thr) as [e1|s] eqn:Hreq.
  - intros H. injection H as <- <-.
    unfold request in Hreq. unfold received in Hlim |- *.
    destruct (server w) as [exc|lines failure]; [discriminate|].
    unfold bind in Hreq.
    destruct (consume _ _ _ _ _) as [e2|[s1 stop]] eqn:Hc.
    + injection Hreq as <-.
      pose proof Hc as Hc'. apply consume_raises in Hc' as (He & _).
      split; [exact He|]. split; [reflexivity|].
      (* the frame that raised is not a chunk of the stream format *)
      destruct (forallb wire_frame
                  (through_sentinel (_iter_sse_data (map LBytes lines)))) eqn:Hw.
      { destruct (wire_frames_consumed w (monotonic w 0) thr _
                                       (fresh_session w) Hw) as (s' & stop & Hok).
        rewrite Hok in Hc. discriminate. }
      assert (Hex : exists ev, In ev (through_sentinel
                                        (_iter_sse_data (map LBytes lines)))
                               /\ wire_frame ev = false).
      { revert Hw. generalize (through_sentinel (_iter_sse_data (map LBytes lines))).
        intros l. induction l as [|x l IHl]; [discriminate|].
        cbn [forallb]. destruct (wire_frame x) eqn:Ex; cbn [andb]; intros Hl.
        - destruct (IHl Hl) as (ev & Hin & Hev). exists ev. split; [now right|exact Hev].
        - exists x. split; [now left|exact Ex]. }
      destruct Hex as (ev & Hin & Hev). unfold wire_frame in Hev.
      apply orb_false_iff in Hev as [Hs Hl].
      rewrite forallb_forall in Hlim. rewrite (Hlim ev Hin) in Hl.
      cbn [andb] in Hl.
      destruct (loads ev) as [e3|obj] eqn:El;
        [apply loads_raises in El as ->; discriminate|].
      exists ev, obj. auto.
    + destruct stop; [|destruct failure]; discriminate.
  - destruct (save_receipt && _); [|discriminate].
    pose proof (request_log_ok w thr s Hreq) as Hok.
    destruct (write_receipt_ok w receipt_dir model payload (raw_events s) fs Hok)
      as (p & rc & Hw & _).
    rewrite Hw. discriminate.
Qed.


Lemma stream_chat_returns_on_wire_frames_witness :
  exists r fs',
    stream_chat paced_world (lit "m") (lit "{}") (2000 # 1) true
                (lit "data/receipts") (mkFs [] [])
    = (inr r, fs').
Proof.
  apply (stream_chat_returns_on_wire_frames
           paced_world (lit "m") (lit "{}") (2000 # 1) true
           (lit "data/receipts") (mkFs [] [])).
  vm_compute. reflexivity.
Defined.

(** A body whose second frame is the JSON text [null]. *)
Definition null_world : world :=
  mkWorld (fun n => inject_Z (Z.of_nat n)) 1700000000
          (Body [qlit "data: {'choices':[{'delta':{'content':'Hi'}}]}";
                 lit "data: null";
                 lit "data: [DONE]"] None).

Lemma scalar_frame_aborts_session_witness :
  exists e,
    stream_chat null_world (lit "m") (lit "{}") (2000 # 1) true
                (lit "data/receipts") (mkFs [] [])
    = (inl e, mkFs [] []).
Proof.
  apply (scalar_frame_aborts_session
           null_world (lit "m") (lit "{}") (2000 # 1) true
           (lit "data/receipts") (mkFs [] [])).
  vm_compute. reflexivity.
Defined.

Lemma stream_chat_raises_only_on_chunks_witness :
  (AttributeError = AttributeError \/ AttributeError = TypeError)
  /\ mkFs [] [] = mkFs [] []
  /\ exists ev obj,
       In ev (through_sentinel (received null_world))
       /\ is_sentinel ev = false /\ loads ev = inr obj
       /\ wire_chunk obj = false.
Proof.
  apply (stream_chat_raises_only_on_chunks
           null_world (lit "m") (lit "{}") (2000 # 1) true
           (lit "data/receipts") (mkFs [] []) (mkFs [] []) AttributeError).
  - vm_compute. reflexivity.
  - vm_compute. reflexivity.
Defined.

End WireFormat.

(* ================================================================== *)
(** * The file of a receipt *)
(* ================================================================== *)

Module ReceiptFile.

Import Py Json PyFacts ShaFacts Streaming DecoderFacts ConsumerFacts.
Open Scope N_scope.

(** A character that is neither the path separator nor the colon. *)
Definition plain (c : N) : bool := negb ((c =? ch "/") || (c =? ch ":")).

Lemma digits_plain (fuel : nat) :
  forall n acc, forallb plain acc = true -> forallb plain (digits fuel n acc) = true.
Proof.
  induction fuel as [|f IH]; intros n acc H; [exact H|].
  cbn [digits].
  assert (Hd : forallb plain ((0x30 + n mod 10) :: acc) = true).
  { cbn [forallb]. rewrite H, andb_true_r.
    pose proof (N.mod_upper_bound n 10 ltac:(discriminate)) as Hlt.
    set (m := n mod 10) in *. clearbody m.
    unfold plain. apply negb_true_iff, orb_false_iff.
    split; apply N.eqb_neq; change (ch "/") with 47; change (ch ":") with 58; lia. }
  destruct (n / 10 =? 0); [exact Hd|]. apply IH, Hd.
Qed.

Lemma str_of_int_plain (z : Z) : forallb plain (str_of_int z) = true.
Proof.
  destruct z; cbn [str_of_int forallb];
    rewrite ?digits_plain by reflexivity; reflexivity.
Qed.

Lemma safe_model_plain (model : str) :
  forallb plain (replace_char (ch ":") (ch "_")
                              (replace_char (ch "/") (ch "_") model)) = true.
Proof.
  unfold replace_char. rewrite map_map.
  induction model as [|c model IH]; [reflexivity|].
  cbn [map forallb]. rewrite IH, andb_true_r.
  destruct (c =? ch "/") eqn:E1; [reflexivity|].
  destruct (c =? ch ":") eqn:E2; [reflexivity|].
  unfold plain. now rewrite E1, E2.
Qed.

Lemma hex_plain (s : str) :
  forallb (fun c => char_in c Sha256.hex_alphabet) s = true ->
  forallb plain s = true.
Proof.
  induction s as [|c s IH]; [reflexivity|]. cbn [forallb].
  intros H. apply andb_true_iff in H as [Hc Hs]. rewrite (IH Hs), andb_true_r.
  unfold char_in in Hc. apply existsb_exists in Hc as (x & Hin & Hx).
  apply N.eqb_eq in Hx. subst x.
  vm_compute in Hin.
  repeat (destruct Hin as [<-|Hin]; [reflexivity|]). destruct Hin.
Qed.

Lemma forallb_firstn {A} (p : A -> bool) (n : nat) (l : list A) :
  forallb p l = true -> forallb p (firstn n l) = true.
Proof.
  revert l. induction n as [|n IH]; intros [|x l]; cbn; auto.
  intros H. apply andb_true_iff in H as [-> H]. cbn. auto.
Qed.

(** X10. The receipt [_write_receipt] writes goes to a file directly under
    the receipt directory: its name holds neither a path separator nor a
    colon, whatever the model is called, it ends in [.json], and the file
    holds the model, the time, the digests, the number of frames and the
    frames. *)
Theorem receipt_file_name_plain
        (w : world) (receipt_dir model : str) (payload : bytes)
        (raw : list str) (fs fs' : filesystem) (p : path) :
  _write_receipt w receipt_dir model payload raw fs = (inr p, fs') ->
  fst p = receipt_dir
  /\ forallb plain (snd p) = true
  /\ (exists stem, snd p = stem ++ lit ".json")
  /\ exists m,
       encode (join NEWLINE raw) = inr m
       /\ fs' = mkFs (receipt_dir :: dirs fs)
                     ((p, mkReceipt (Some model) (Some (wall_time w))
                                    (Some (Sha256.hexdigest m))
                                    (Some (Sha256.hexdigest payload))
                                    (Some (Z.of_nat (length raw)))
                                    (Some raw)) :: files fs).
Proof.
  unfold _write_receipt.
  destruct (encode (join NEWLINE raw)) as [e|m] eqn:E; [discriminate|].
  set (digest := firstn 16 (Sha256.hexdigest m)).
  set (safe_model := replace_char (ch ":") (ch "_") _).
  set (stamp := str_of_int (wall_time w)).
  set (name := stamp ++ _).
  intros H. injection H as <- <-. cbn [fst snd dirs files].
  split; [reflexivity|]. split; [|split].
  - subst name. rewrite !forallb_app. subst stamp safe_model digest.
    rewrite str_of_int_plain, safe_model_plain.
    rewrite (hex_plain (firstn 16 (Sha256.hexdigest m)))
      by (apply forallb_firstn, hexdigest_hex).
    reflexivity.
  - subst name. eexists. rewrite !app_assoc. reflexivity.
  - exists m. split; reflexivity.
Qed.

(** The receipt of one frame for a model whose name holds a slash and a
    colon. *)
Definition slash_out : (exn + path) * filesystem :=
  Eval vm_compute in
    _write_receipt (mkWorld (fun _ => 0%Q) 1700000000 (Body [] None))
                   (lit "data/receipts") (lit "zai-org/GLM-4.6:v1") (lit "{}")
                   [qlit "{'choices':[{'delta':{'content':'Hi'}}]}"]
                   (mkFs [] []).

Definition slash_path : path :=
  Eval vm_compute in
    match fst slash_out with inr p => p | inl _ => ([], []) end.

Lemma receipt_file_name_plain_witness :
  fst slash_path = lit "data/receipts"
  /\ forallb plain (snd slash_path) = true
  /\ (exists stem, snd slash_path = stem ++ lit ".json")
  /\ exists m,
       encode (join NEWLINE [qlit "{'choices':[{'delta':{'content':'Hi'}}]}"])
       = inr m
       /\ snd slash_out
          = mkFs (lit "data/receipts" :: dirs (mkFs [] []))
                 ((slash_path,
                   mkReceipt (Some (lit "zai-org/GLM-4.6:v1"))
                             (Some (wall_time (mkWorld (fun _ => 0%Q) 1700000000
                                                       (Body [] None))))
                             (Some (Sha256.hexdigest m))
                             (Some (Sha256.hexdigest (lit "{}")))
                             (Some (Z.of_nat
                                      (length [qlit "{'choices':[{'delta':{'content':'Hi'}}]}"])))
                             (Some [qlit "{'choices':[{'delta':{'content':'Hi'}}]}"]))
                    :: files (mkFs [] [])).
Proof.
  apply (receipt_file_name_plain
           (mkWorld (fun _ => 0%Q) 1700000000 (Body [] None))
           (lit "data/receipts") (lit "zai-org/GLM-4.6:v1") (lit "{}")
           [qlit "{'choices':[{'delta':{'content':'Hi'}}]}"]
           (mkFs [] []) (snd slash_out) slash_path).
  vm_compute. reflexivity.
Defined.

End ReceiptFile.

(* ================================================================== *)
(** * The report of the verifier as a function of the receipt *)
(* ================================================================== *)

Module ReportFacts.

Import Py Json PyFacts ShaFacts.
Import Streaming (receipt, mkReceipt, r_model, r_timestamp, r_events_hash,
                  r_payload_hash, r_event_count, r_raw_events).
Import VerifyReceipt VerifyFacts ReplayFacts.
Import WireFormat (loads_raises).
Open Scope N_scope.

(** ** The report as a function of the receipt *)

(** What check 3 puts in [parsed_events] for a frame. *)
Definition parsed_frame (ev : str) : pyval :=
  if str_eqb (strip ev) (lit "[DONE]") then PNone
  else match loads ev with
       | inr obj => obj
       | inl _ => PNone
       end.

(** The frames check 3 counts as parse errors. *)
Definition bad_frames (raw_events : list str) : list str :=
  filter (fun ev => negb (frame_parses ev)) raw_events.

Lemma parse_events_eq (raw_events : list str) :
  forall pe acc,
    parse_events raw_events pe acc
    = inr ((pe + Z.of_nat (length (bad_frames raw_events)))%Z,
           acc ++ map parsed_frame raw_events).
Proof.
  induction raw_events as [|ev rest IH]; intros pe acc.
  - cbn. now rewrite Z.add_0_r, app_nil_r.
  - cbn [parse_events bad_frames filter map]. unfold frame_parses, parsed_frame.
    destruct (str_eqb (strip ev) (lit "[DONE]")); cbn [orb negb].
    + rewrite IH, <- app_assoc. reflexivity.
    + destruct (loads ev) as [e|obj] eqn:El.
      * apply loads_raises in El as ->. cbn [negb length].
        rewrite IH, <- app_assoc. do 2 f_equal.
        unfold bad_frames, frame_parses. lia.
      * cbn [negb]. rewrite IH, <- app_assoc. reflexivity.
Qed.

(** The deltas with content that check 4 counts in a choice and in a
    frame. *)
Definition choice_delta (choice : pyval) : Z :=
  match get choice (lit "delta") PNone with
  | inr d =>
    match get (por d (PDict [])) (lit "content") PNone with
    | inr c => if truthy c then 1 else 0
    | inl _ => 0
    end
  | inl _ => 0
  end.

Definition sumZ (l : list Z) : Z := fold_right Z.add 0%Z l.

Definition event_deltas (obj : pyval) : Z :=
  match obj with
  | PNone => 0
  | _ =>
    match get obj (lit "choices") (PList []) with
    | inr choices =>
      match iter choices with
      | inr items => sumZ (map choice_delta items)
      | inl _ => 0
      end
    | inl _ => 0
    end
  end.

Lemma add_content_deltas_0 (r : VerifyResult) : add_content_deltas 0 r = r.
Proof. destruct r. unfold add_content_deltas. cbn. now rewrite Z.add_0_r. Qed.

Lemma add_content_deltas_add (a b : Z) (r : VerifyResult) :
  add_content_deltas b (add_content_deltas a r) = add_content_deltas (a + b) r.
Proof. destruct r. unfold add_content_deltas. cbn. f_equal. lia. Qed.

Lemma reconstruct_choice_eq (content : str) (choice : pyval) (r : VerifyResult) :
  reconstruct_choice content choice r
  = match choice_content content choice with
    | inr content' => (inr content', add_content_deltas (choice_delta choice) r)
    | inl e => (inl e, r)
    end.
Proof.
  unfold reconstruct_choice, choice_content, choice_delta, mbind, lift, modify,
    mret, bind.
  destruct (get choice (lit "delta") PNone) as [e|d]; [reflexivity|].
  destruct (get (por d (PDict [])) (lit "content") PNone) as [e|c]; [reflexivity|].
  destruct (str_iadd content (por c (PStr []))) as [e|content']; reflexivity.
Qed.

Lemma reconstruct_choices_eq (items : list pyval) :
  forall content r content',
    foldM choice_content items content = inr content' ->
    mfoldM reconstruct_choice items content r
    = (inr content', add_content_deltas (sumZ (map choice_delta items)) r).
Proof.
  induction items as [|c items IH]; intros content r content' H.
  - injection H as <-. cbn. now rewrite add_content_deltas_0.
  - cbn [foldM] in H. cbn [mfoldM map sumZ fold_right]. unfold mbind.
    rewrite reconstruct_choice_eq. unfold bind in H.
    destruct (choice_content content c) as [e|c1]; [discriminate|].
    rewrite (IH _ _ _ H), add_content_deltas_add. reflexivity.
Qed.

Lemma reconstruct_event_eq (content : str) (obj : pyval) (r : VerifyResult)
      (content' : str) :
  event_content content obj = inr content' ->
  reconstruct_event content obj r
  = (inr content', add_content_deltas (event_deltas obj) r).
Proof.
  unfold event_content, reconstruct_event, event_deltas.
  assert (Hgen : (choices <- get obj (lit "choices") (PList []) ;;
                  items <- iter choices ;;
                  foldM choice_content items content) = inr content' ->
                 (choices <~ lift (get obj (lit "choices") (PList [])) ;;
                  items <~ lift (iter choices) ;;
                  mfoldM reconstruct_choice items content) r
                 = (inr content',
                    add_content_deltas
                      match get obj (lit "choices") (PList []) with
                      | inr choices =>
                        match iter choices with
                        | inr items => sumZ (map choice_delta items)
                        | inl _ => 0%Z
                        end
                      | inl _ => 0%Z
                      end r)).
  { unfold bind, mbind, lift.
    destruct (get obj (lit "choices") (PList [])) as [e|choices]; [discriminate|].
    destruct (iter choices) as [e|items]; [discriminate|].
    apply reconstruct_choices_eq. }
  destruct obj; try exact Hgen.
  intros H. injection H as <-. cbn. now rewrite add_content_deltas_0.
Qed.

Lemma reconstruct_events_eq (parsed : list pyval) :
  forall content r content',
    foldM event_content parsed content = inr content' ->
    mfoldM reconstruct_event parsed content r
    = (inr content', add_content_deltas (sumZ (map event_deltas parsed)) r).
Proof.
  induction parsed as [|obj parsed IH]; intros content r content' H.
  - injection H as <-. cbn. now rewrite add_content_deltas_0.
  - cbn [foldM] in H. cbn [mfoldM map sumZ fold_right]. unfold mbind.
    unfold bind in H.
    destruct (event_content content obj) as [e|c1] eqn:E; [discriminate|].
    rewrite (reconstruct_event_eq _ _ _ _ E).
    rewrite (IH _ _ _ H), add_content_deltas_add. reflexivity.
Qed.

(** The loop of check 5: the counts of the first frame, in the order
    given, that has a count that is not zero. *)
Fixpoint usage_scan (events : list pyval) : exn + option (pyval * pyval) :=
  match events with
  | [] => ret None
  | obj :: rest =>
    match obj with
    | PNone => usage_scan rest
    | _ =>
      u <- get obj (lit "usage") PNone ;;
      let usage := por u (PDict []) in
      pt <- get usage (lit "prompt_tokens") (PInt 0) ;;
      ct <- get usage (lit "completion_tokens") (PInt 0) ;;
      if truthy pt || truthy ct then ret (Some (pt, ct))
      else usage_scan rest
    end
  end.

Lemma find_usage_eq (events : list pyval) (r : VerifyResult) :
  find_usage events r
  = match usage_scan events with
    | inl e => (inl e, r)
    | inr None => (inr tt, r)
    | inr (Some (pt, ct)) => (inr tt, set_tokens pt ct r)
    end.
Proof.
  induction events as [|obj rest IH]; [reflexivity|].
  cbn [find_usage usage_scan].
  assert (Hstep :
    (u <~ lift (get obj (lit "usage") PNone) ;;
     pt <~ lift (get (por u (PDict [])) (lit "prompt_tokens") (PInt 0)) ;;
     ct <~ lift (get (por u (PDict [])) (lit "completion_tokens") (PInt 0)) ;;
     if truthy pt || truthy ct then modify (set_tokens pt ct)
     else find_usage rest) r
    = match (u <- get obj (lit "usage") PNone ;;
             pt <- get (por u (PDict [])) (lit "prompt_tokens") (PInt 0) ;;
             ct <- get (por u (PDict [])) (lit "completion_tokens") (PInt 0) ;;
             if truthy pt || truthy ct then ret (Some (pt, ct))
             else usage_scan rest) with
      | inl e => (inl e, r)
      | inr None => (inr tt, r)
      | inr (Some (pt, ct)) => (inr tt, set_tokens pt ct r)
      end).
  { unfold mbind, lift, bind.
    destruct (get obj (lit "usage") PNone) as [e|u]; [reflexivity|].
    destruct (get (por u (PDict [])) (lit "prompt_tokens") (PInt 0)) as [e|pt];
      [reflexivity|].
    destruct (get (por u (PDict [])) (lit "completion_tokens") (PInt 0)) as [e|ct];
      [reflexivity|].
    destruct (truthy pt || truthy ct); [reflexivity|exact IH]. }
  destruct obj; try exact Hstep. exact IH.
Qed.

(** Check 3 as a step on [result]. *)
Definition parsing_result (raw_events : list str) (r : VerifyResult) : Check :=
  let parse_errors := Z.of_nat (length (bad_frames raw_events)) in
  if (parse_errors =? 0)%Z
  then mkCheck (lit "event parsing") PASS
               (ValidJson (event_count r - parse_errors) (event_count r))
  else mkCheck (lit "event parsing") FAIL
               (ParseErrors parse_errors (event_count r)).

Lemma check_event_parsing_eq (raw_events : list str) (r : VerifyResult) :
  check_event_parsing raw_events r
  = (inr (map parsed_frame raw_events),
     append_check (parsing_result raw_events r) r).
Proof.
  unfold check_event_parsing, mbind, lift. rewrite parse_events_eq.
  cbn [app current modify mret]. rewrite Z.add_0_l. reflexivity.
Qed.

(** Check 4 as a step on [result]. *)
Definition content_result (chars deltas : Z) : Check :=
  if (0 <? chars)%Z
  then mkCheck (lit "content") PASS (Reconstructed deltas chars)
  else mkCheck (lit "content") FAIL NoContent.

Lemma check_content_eq (parsed : list pyval) (r : VerifyResult) :
  match foldM event_content parsed [] with
  | inr content =>
    check_content parsed r
    = (inr tt,
       let r1 := set_content_chars
                   (Z.of_nat (length content))
                   (add_content_deltas (sumZ (map event_deltas parsed)) r) in
       append_check (content_result (content_chars r1) (content_deltas r1)) r1)
  | inl e => fst (check_content parsed r) = inl e
  end.
Proof.
  destruct (foldM event_content parsed []) as [e|content] eqn:Hc.
  - pose proof (reconstruct_fst parsed r) as Hf. rewrite Hc in Hf.
    unfold check_content, mbind at 1.
    destruct (mfoldM reconstruct_event parsed [] r) as [[e'|c'] r'];
      cbn [fst] in Hf |- *; [|discriminate].
    now injection Hf as ->.
  - unfold check_content, mbind at 1.
    rewrite (reconstruct_events_eq parsed [] r content Hc).
    reflexivity.
Qed.

(** Check 5 as a step on [result]. *)
Definition usage_result (positive : bool) (r : VerifyResult) : Check :=
  if positive
  then mkCheck (lit "usage") PASS
               (UsageFound (prompt_tokens r) (completion_tokens r))
  else mkCheck (lit "usage") SKIP NoUsage.

Definition found_tokens (found : option (pyval * pyval)) (r : VerifyResult)
  : VerifyResult :=
  match found with
  | Some (pt, ct) => set_tokens pt ct r
  | None => r
  end.

Lemma check_usage_eq (parsed : list pyval) (r : VerifyResult) :
  check_usage parsed r
  = match usage_scan (rev parsed) with
    | inl e => (inl e, r)
    | inr found =>
      let r1 := found_tokens found r in
      match (p <- gt0 (prompt_tokens r1) ;;
             if p : bool then ret true else gt0 (completion_tokens r1)) with
      | inl e => (inl e, r1)
      | inr positive => (inr tt, append_check (usage_result positive r1) r1)
      end
    end.
Proof.
  unfold check_usage, mbind at 1. rewrite find_usage_eq.
  destruct (usage_scan (rev parsed)) as [e|found]; [reflexivity|].
  assert (H : forall r1,
             (r0 <~ current ;;
              p <~ lift (gt0 (prompt_tokens r0)) ;;
              found0 <~ (if p : bool then mret true
                         else lift (gt0 (completion_tokens r0))) ;;
              modify (append_check
                        (if found0 : bool
                         then mkCheck (lit "usage") PASS
                                (UsageFound (prompt_tokens r0) (completion_tokens r0))
                         else mkCheck (lit "usage") SKIP NoUsage))) r1
             = match (p <- gt0 (prompt_tokens r1) ;;
                      if p : bool then ret true else gt0 (completion_tokens r1)) with
               | inl e => (inl e, r1)
               | inr positive => (inr tt, append_check (usage_result positive r1) r1)
               end).
  { intros r1. unfold mbind, current, lift, bind, mret, modify, ret, usage_result.
    destruct (gt0 (prompt_tokens r1)) as [e|[|]]; [reflexivity|reflexivity|].
    destruct (gt0 (completion_tokens r1)) as [e|[|]]; reflexivity. }
  destruct found as [[pt ct]|]; cbn [found_tokens]; apply H.
Qed.

(** The report of a receipt, computed without the intermediate states of
    [result]. *)
Definition report (data : receipt) (path : str) : exn + VerifyResult :=
  let raw_events := or_default (r_raw_events data) [] in
  let count := Z.of_nat (length raw_events) in
  h <- _hash (join NEWLINE raw_events) ;;
  let parse_errors := Z.of_nat (length (bad_frames raw_events)) in
  let parsed_events := map parsed_frame raw_events in
  content <- foldM event_content parsed_events [] ;;
  let chars := Z.of_nat (length content) in
  let deltas := sumZ (map event_deltas parsed_events) in
  found <- usage_scan (rev parsed_events) ;;
  let '(pt, ct) := match found with
                   | Some tokens => tokens
                   | None => (PInt 0, PInt 0)
                   end in
  positive <- (p <- gt0 pt ;; if p : bool then ret true else gt0 ct) ;;
  ret (mkVerifyResult
         path
         [events_hash_check data h;
          payload_hash_check data;
          (if (parse_errors =? 0)%Z
           then mkCheck (lit "event parsing") PASS
                        (ValidJson (count - parse_errors) count)
           else mkCheck (lit "event parsing") FAIL
                        (ParseErrors parse_errors count));
          content_result chars deltas;
          (if positive : bool
           then mkCheck (lit "usage") PASS (UsageFound pt ct)
           else mkCheck (lit "usage") SKIP NoUsage)]
         (or_default (r_model data) (lit "unknown"))
         count pt ct chars deltas).

Lemma verify_receipt_report (data : receipt) (path : str) :
  verify_receipt data path = report data path.
Proof.
  unfold verify_receipt, report.
  destruct (_hash (join NEWLINE (or_default (r_raw_events data) [])))
    as [e|h] eqn:Hh.
  { unfold verify_receipt_run, verify_statements.
    unfold mbind at 1. cbn [modify].
    unfold mbind at 1. cbn [modify].
    unfold mbind at 1. unfold check_events_hash at 1.
    unfold mbind at 1. unfold lift at 1. rewrite Hh. reflexivity. }
  rewrite (run_unfold data path h Hh). cbn [bind].
  set (raw := or_default (r_raw_events data) []).
  unfold mbind. rewrite check_event_parsing_eq.
  set (parsed := map parsed_frame raw).
  match goal with
  | |- context [check_content parsed ?r] =>
    pose proof (check_content_eq parsed r) as Hc; set (r1 := r) in *
  end.
  destruct (foldM event_content parsed []) as [e|content].
  { destruct (check_content parsed r1) as [[e'|[]] r']; cbn [fst] in Hc;
      [|discriminate]. now injection Hc as ->. }
  rewrite Hc. cbv zeta. rewrite check_usage_eq.
  match goal with
  | |- context [rev parsed] => destruct (usage_scan (rev parsed)) as [e|found]
  end; [reflexivity|].
  cbv zeta.
  destruct found as [[pt ct]|]; cbn [found_tokens bind].
  - cbn [set_tokens prompt_tokens completion_tokens append_check
         set_content_chars add_content_deltas].
    destruct (gt0 pt) as [e|[|]]; cbn [bind ret]; [reflexivity|reflexivity|].
    destruct (gt0 ct) as [e|[|]]; reflexivity.
  - reflexivity.
Qed.

End ReportFacts.

(* ================================================================== *)
(** * Properties of the report *)
(* ================================================================== *)

Module ReportProperties.

Import Py Json PyFacts ShaFacts.
Import Streaming (receipt, mkReceipt, r_model, r_timestamp, r_events_hash,
                  r_payload_hash, r_event_count, r_raw_events).
Import VerifyReceipt VerifyFacts ReplayFacts ReportFacts.
Import WireFormat (get_raises, iter_raises, str_iadd_raises, within_limits).
Open Scope N_scope.

(** What a report that was returned holds. *)
Lemma report_inv (data : receipt) (path : str) (v : VerifyResult) :
  verify_receipt data path = inr v ->
  let raw_events := or_default (r_raw_events data) [] in
  let parsed_events := map parsed_frame raw_events in
  let parse_errors := Z.of_nat (length (bad_frames raw_events)) in
  exists h content found positive c3 c5,
    _hash (join NEWLINE raw_events) = inr h
    /\ foldM event_content parsed_events [] = inr content
    /\ usage_scan (rev parsed_events) = inr found
    /\ (prompt_tokens v, completion_tokens v)
       = match found with Some tokens => tokens | None => (PInt 0, PInt 0) end
    /\ (p <- gt0 (prompt_tokens v) ;;
        if p : bool then ret true else gt0 (completion_tokens v)) = inr positive
    /\ receipt_path v = path
    /\ model v = or_default (r_model data) (lit "unknown")
    /\ event_count v = Z.of_nat (length raw_events)
    /\ content_chars v = Z.of_nat (length content)
    /\ content_deltas v = sumZ (map event_deltas parsed_events)
    /\ checks v = [events_hash_check data h; payload_hash_check data; c3;
                   content_result (content_chars v) (content_deltas v); c5]
    /\ name c3 = lit "event parsing"
    /\ status c3 = (if (parse_errors =? 0)%Z then PASS else FAIL)
    /\ name c5 = lit "usage"
    /\ status c5 = (if positive : bool then PASS else SKIP).
Proof.
  rewrite verify_receipt_report. unfold report. cbv zeta.
  set (raw := or_default (r_raw_events data) []).
  destruct (_hash (join NEWLINE raw)) as [e|h]; [discriminate|]. cbn [bind].
  destruct (foldM event_content (map parsed_frame raw) []) as [e|content];
    [discriminate|]. cbn [bind].
  destruct (usage_scan (rev (map parsed_frame raw))) as [e|found];
    [discriminate|]. cbn [bind].
  destruct (match found with Some tokens => tokens | None => (PInt 0, PInt 0) end)
    as [pt ct] eqn:Ef.
  destruct (p <- gt0 pt ;; if p : bool then ret true else gt0 ct)
    as [e|positive] eqn:Eg; [discriminate|].
  cbn [bind ret]. intros H. injection H as <-.
  cbn [prompt_tokens completion_tokens receipt_path model event_count
       content_chars content_deltas checks].
  exists h, content, found, positive.
  eexists. eexists.
  do 3 (split; [reflexivity|]).
  split; [symmetry; exact Ef|]. split; [exact Eg|].
  do 6 (split; [reflexivity|]).
  split; [now destruct (_ =? 0)%Z|]. split; [now destruct (_ =? 0)%Z|].
  split; now destruct positive.
Qed.

Lemma content_result_name (chars deltas : Z) :
  name (content_result chars deltas) = lit "content".
Proof. unfold content_result. now destruct (0 <? chars)%Z. Qed.

Lemma content_result_status (chars deltas : Z) :
  status (content_result chars deltas) = if (0 <? chars)%Z then PASS else FAIL.
Proof. unfold content_result. now destruct (0 <? chars)%Z. Qed.

(** The status of each check in a list of the five checks. *)
Lemma status_of_five (c1 c2 c3 c4 c5 : Check) :
  name c1 = lit "events_hash" -> name c2 = lit "payload_hash" ->
  name c3 = lit "event parsing" -> name c4 = lit "content" ->
  name c5 = lit "usage" ->
  let cs := [c1; c2; c3; c4; c5] in
  status_of (lit "events_hash") cs = Some (status c1)
  /\ status_of (lit "payload_hash") cs = Some (status c2)
  /\ status_of (lit "event parsing") cs = Some (status c3)
  /\ status_of (lit "content") cs = Some (status c4)
  /\ status_of (lit "usage") cs = Some (status c5).
Proof.
  intros H1 H2 H3 H4 H5. unfold status_of. cbn [find].
  rewrite H1, H2, H3, H4, H5. repeat split; reflexivity.
Qed.

(** The exceptions that leave [verify_receipt]. *)
Lemma choice_content_raises (content : str) (choice : pyval) (e : exn) :
  choice_content content choice = inl e -> e = AttributeError \/ e = TypeError.
Proof.
  unfold choice_content, bind.
  destruct (get choice _ _) as [e1|d] eqn:E1;
    [intros H; injection H as <-; apply get_raises in E1; auto|].
  destruct (get (por d _) _ _) as [e2|c] eqn:E2;
    [intros H; injection H as <-; apply get_raises in E2; auto|].
  intros H. apply str_iadd_raises in H. auto.
Qed.

Lemma foldM_raises {A B} (P : exn -> Prop) (f : B -> A -> exn + B) (l : list A) :
  (forall b a e, f b a = inl e -> P e) ->
  forall acc e, foldM f l acc = inl e -> P e.
Proof.
  intros Hf. induction l as [|a l IH]; intros acc e; [discriminate|].
  cbn [foldM]. unfold bind. destruct (f acc a) as [e1|b] eqn:E.
  - intros H. injection H as <-. eapply Hf; eauto.
  - apply IH.
Qed.

Lemma event_content_raises (content : str) (obj : pyval) (e : exn) :
  event_content content obj = inl e -> e = AttributeError \/ e = TypeError.
Proof.
  assert (Hgen : (choices <- get obj (lit "choices") (PList []) ;;
                  items <- iter choices ;;
                  foldM choice_content items content) = inl e ->
                 e = AttributeError \/ e = TypeError).
  { unfold bind.
    destruct (get obj _ _) as [e1|choices] eqn:E1;
      [intros H; injection H as <-; apply get_raises in E1; auto|].
    destruct (iter choices) as [e2|items] eqn:E2;
      [intros H; injection H as <-; apply iter_raises in E2; auto|].
    intros H.
    eapply (foldM_raises (fun e0 => e0 = AttributeError \/ e0 = TypeError));
      [|exact H].
    intros b a e0. apply choice_content_raises. }
  unfold event_content. destruct obj; try exact Hgen. discriminate.
Qed.

Lemma usage_scan_raises (events : list pyval) (e : exn) :
  usage_scan events = inl e -> e = AttributeError.
Proof.
  induction events as [|obj rest IH]; [discriminate|]. cbn [usage_scan].
  assert (Hstep :
    (u <- get obj (lit "usage") PNone ;;
     pt <- get (por u (PDict [])) (lit "prompt_tokens") (PInt 0) ;;
     ct <- get (por u (PDict [])) (lit "completion_tokens") (PInt 0) ;;
     if truthy pt || truthy ct then ret (Some (pt, ct))
     else usage_scan rest) = inl e -> e = AttributeError).
  { unfold bind.
    destruct (get obj _ _) as [e1|u] eqn:E1;
      [intros H; injection H as <-; now apply get_raises in E1|].
    destruct (get (por u _) (lit "prompt_tokens") _) as [e2|pt] eqn:E2;
      [intros H; injection H as <-; now apply get_raises in E2|].
    destruct (get (por u _) (lit "completion_tokens") _) as [e3|ct] eqn:E3;
      [intros H; injection H as <-; now apply get_raises in E3|].
    destruct (truthy pt || truthy ct); [discriminate|exact IH]. }
  destruct obj; try exact Hstep. exact IH.
Qed.

Lemma gt0_raises (v : pyval) (e : exn) : gt0 v = inl e -> e = TypeError.
Proof.
  destruct v; unfold gt0, ret, raise; intros H; try discriminate;
    now injection H as <-.
Qed.

Lemma verify_receipt_raises (data : receipt) (path : str) (e : exn) :
  verify_receipt data path = inl e ->
  e = UnicodeEncodeError \/ e = AttributeError \/ e = TypeError.
Proof.
  rewrite verify_receipt_report. unfold report. cbv zeta.
  set (raw := or_default (r_raw_events data) []).
  destruct (_hash (join NEWLINE raw)) as [e1|h] eqn:E1.
  { intros H. injection H as <-. left. unfold _hash, bind in E1.
    destruct (encode (join NEWLINE raw)) as [e2|b] eqn:E2; [|discriminate].
    injection E1 as <-. unfold encode in E2.
    destruct (forallb encodable _); [discriminate|]. now injection E2 as <-. }
  cbn [bind].
  destruct (foldM event_content (map parsed_frame raw) []) as [e2|content] eqn:E2.
  { intros H. injection H as <-. right.
    eapply (foldM_raises (fun e0 => e0 = AttributeError \/ e0 = TypeError));
      [|exact E2].
    intros b a e0. apply event_content_raises. }
  cbn [bind].
  destruct (usage_scan (rev (map parsed_frame raw))) as [e3|found] eqn:E3.
  { intros H. injection H as <-. right. left.
    now apply usage_scan_raises in E3. }
  cbn [bind].
  destruct (match found with Some tokens => tokens | None => (PInt 0, PInt 0) end)
    as [pt ct].
  unfold bind.
  destruct (gt0 pt) as [e4|p] eqn:E4.
  { intros H. injection H as <-. right. right. now apply gt0_raises in E4. }
  destruct p; [discriminate|].
  destruct (gt0 ct) as [e5|q] eqn:E5; [|discriminate].
  intros H. injection H as <-. right. right. now apply gt0_raises in E5.
Qed.

(** X11. A report that [verify_receipt] returns has the five checks
    events_hash, payload_hash, event parsing, content and usage, in this
    order; its event count is the length of the list of raw events, not the
    count stored in the receipt; the content check passes exactly when some
    content was reconstructed, and the usage check never fails. *)
Theorem report_has_five_checks (data : receipt) (path : str) (v : VerifyResult) :
  verify_receipt data path = inr v ->
  map name (checks v)
  = [lit "events_hash"; lit "payload_hash"; lit "event parsing";
     lit "content"; lit "usage"]
  /\ receipt_path v = path
  /\ model v = or_default (r_model data) (lit "unknown")
  /\ event_count v = Z.of_nat (length (or_default (r_raw_events data) []))
  /\ (0 <= content_chars v)%Z
  /\ status_of (lit "content") (checks v)
     = Some (if (0 <? content_chars v)%Z then PASS else FAIL)
  /\ (status_of (lit "usage") (checks v) = Some PASS
      \/ status_of (lit "usage") (checks v) = Some SKIP).
Proof.
  intros H. apply report_inv in H. cbv zeta in H.
  destruct H as (h & content & found & positive & c3 & c5 & _ & _ & _ & _ & _
                 & Hp & Hm & Hn & Hc & _ & Hcs & Hn3 & _ & Hn5 & Hs5).
  rewrite Hcs. cbn [map].
  rewrite events_hash_check_name, payload_hash_check_name, Hn3, Hn5,
    content_result_name.
  split; [reflexivity|]. split; [exact Hp|]. split; [exact Hm|].
  split; [exact Hn|]. split; [rewrite Hc; lia|].
  destruct (status_of_five _ _ c3 _ c5
              (events_hash_check_name data h) (payload_hash_check_name data)
              Hn3 (content_result_name (content_chars v) (content_deltas v)) Hn5)
    as (_ & _ & _ & -> & ->).
  rewrite content_result_status.
  split; [reflexivity|]. rewrite Hs5. destruct positive; auto.
Qed.

Lemma report_has_five_checks_witness :
  exists v,
    verify_receipt VerifierClaims.sample_receipt (lit "r.json") = inr v
    /\ map name (checks v)
       = [lit "events_hash"; lit "payload_hash"; lit "event parsing";
          lit "content"; lit "usage"]
    /\ event_count v = 2%Z.
Proof.
  destruct (verify_receipt VerifierClaims.sample_receipt (lit "r.json"))
    as [e|v] eqn:E; [vm_compute in E; discriminate|].
  exists v. split; [reflexivity|].
  destruct (report_has_five_checks _ _ _ E) as (H1 & _ & _ & H4 & _).
  split; [exact H1|exact H4].
Defined.

(** X12. On a receipt whose frames are within the limits of the
    interpreter, [verify_receipt] raises nothing but a [UnicodeEncodeError]
    for frames that do not encode, an [AttributeError] or a [TypeError] for
    a frame that is JSON of another shape than the checks expect, and a
    [TypeError] for a token count that does not compare with zero; a frame
    that is not JSON never makes it raise. Within the limits [json.loads]
    raises what [loads] raises, a [JSONDecodeError], which check 3
    catches. *)
Theorem verify_receipt_exceptions (data : receipt) (path : str) (e : exn) :
  forallb within_limits (or_default (r_raw_events data) []) = true ->
  verify_receipt data path = inl e ->
  e = UnicodeEncodeError \/ e = AttributeError \/ e = TypeError.
Proof. intros _. apply verify_receipt_raises. Qed.


(** A receipt that is a list of the single frame [5]. *)
Definition number_receipt : receipt :=
  mkReceipt (Some (lit "m")) (Some 1700000000%Z) None None (Some 1%Z)
            (Some [lit "5"]).

Lemma verify_receipt_exceptions_witness :
  verify_receipt number_receipt (lit "r.json") = inl AttributeError
  /\ (AttributeError = UnicodeEncodeError \/ AttributeError = AttributeError
      \/ AttributeError = TypeError).
Proof.
  assert (E : verify_receipt number_receipt (lit "r.json") = inl AttributeError)
    by (vm_compute; reflexivity).
  assert (L : forallb within_limits (or_default (r_raw_events number_receipt) [])
              = true)
    by (vm_compute; reflexivity).
  split; [exact E|].
  exact (verify_receipt_exceptions number_receipt (lit "r.json") AttributeError
                                   L E).
Defined.

(** X13. The report depends on the receipt through its raw events, its
    two stored hashes and its model only: the stored event count and the
    time stamp are never read, so a receipt whose stored count is wrong for
    its frames gets the same report; and the model is only echoed, the
    checks and the counts do not depend on it. *)
Theorem report_ignores_count_and_timestamp
        (data data' : receipt) (path : str) :
  r_raw_events data' = r_raw_events data ->
  r_events_hash data' = r_events_hash data ->
  r_payload_hash data' = r_payload_hash data ->
  (r_model data' = r_model data ->
   verify_receipt data' path = verify_receipt data path)
  /\ (forall v v',
         verify_receipt data path = inr v ->
         verify_receipt data' path = inr v' ->
         checks v' = checks v
         /\ verified v' = verified v
         /\ event_count v' = event_count v
         /\ content_chars v' = content_chars v
         /\ content_deltas v' = content_deltas v
         /\ prompt_tokens v' = prompt_tokens v
         /\ completion_tokens v' = completion_tokens v)
  /\ (forall e, verify_receipt data path = inl e ->
                verify_receipt data' path = inl e).
Proof.
  destruct data as [m ts eh ph ec raw], data' as [m' ts' eh' ph' ec' raw'].
  cbn [r_raw_events r_events_hash r_payload_hash r_model].
  intros -> -> ->. rewrite !verify_receipt_report.
  unfold report, events_hash_check, payload_hash_check.
  cbn [r_raw_events r_events_hash r_payload_hash r_model]. cbv zeta.
  split; [intros ->; reflexivity|].
  destruct (_hash _) as [e|h]; cbn [bind];
    [split; [discriminate|intros ? H; exact H]|].
  destruct (foldM event_content _ _) as [e|content]; cbn [bind];
    [split; [discriminate|intros ? H; exact H]|].
  destruct (usage_scan _) as [e|found]; cbn [bind];
    [split; [discriminate|intros ? H; exact H]|].
  destruct (match found with Some tokens => tokens | None => _ end) as [pt ct].
  destruct (p <- gt0 pt ;; if p : bool then ret true else gt0 ct)
    as [e|positive]; cbn [bind ret];
    [split; [discriminate|intros ? H; exact H]|].
  split; [|discriminate].
  intros v v' H H'. injection H as <-. injection H' as <-.
  repeat split.
Qed.

Lemma report_ignores_count_and_timestamp_witness :
  verify_receipt
    (mkReceipt (r_model VerifierClaims.sample_receipt) None
               (r_events_hash VerifierClaims.sample_receipt)
               (r_payload_hash VerifierClaims.sample_receipt)
               (Some 99%Z)
               (r_raw_events VerifierClaims.sample_receipt))
    (lit "r.json")
  = verify_receipt VerifierClaims.sample_receipt (lit "r.json").
Proof.
  apply (report_ignores_count_and_timestamp
           VerifierClaims.sample_receipt
           (mkReceipt (r_model VerifierClaims.sample_receipt) None
                      (r_events_hash VerifierClaims.sample_receipt)
                      (r_payload_hash VerifierClaims.sample_receipt)
                      (Some 99%Z)
                      (r_raw_events VerifierClaims.sample_receipt))
           (lit "r.json")); reflexivity.
Defined.

(** ** The tamper simulation *)

(** The fabricated event as check 3 parses it. *)
Definition fake_chunk : pyval := Eval vm_compute in parsed_frame fake_event.

Lemma fake_chunk_parsed : parsed_frame fake_event = fake_chunk.
Proof. vm_compute. reflexivity. Qed.

Definition INJECTED : str := lit " [INJECTED_TOKEN]".

Lemma map_insert {A B} (f : A -> B) (i : nat) (x : A) (l : list A) :
  map f (insert i x l) = insert i (f x) (map f l).
Proof. unfold insert. now rewrite map_app, firstn_map, skipn_map. Qed.

(** What a frame adds to the content is the same whatever was
    reconstructed before it. *)
Lemma choice_content_app (content content' : str) (choice : pyval) :
  choice_content content choice = inr content' ->
  exists t, content' = content ++ t
            /\ forall acc, choice_content acc choice = inr (acc ++ t).
Proof.
  unfold choice_content, bind.
  destruct (get choice _ _) as [e|d]; [discriminate|].
  destruct (get (por d _) _ _) as [e|c]; [discriminate|].
  destruct (por c (PStr [])) as [| | | |t| |]; try discriminate.
  intros H. injection H as <-. exists t. split; reflexivity.
Qed.

Lemma choices_content_app (items : list pyval) :
  forall content content',
    foldM choice_content items content = inr content' ->
    exists t, content' = content ++ t
              /\ forall acc, foldM choice_content items acc = inr (acc ++ t).
Proof.
  induction items as [|c items IH]; intros content content' H.
  - injection H as <-. exists []. split; [now rewrite app_nil_r|].
    intros acc. cbn. now rewrite app_nil_r.
  - cbn [foldM] in H. unfold bind in H.
    destruct (choice_content content c) as [e|c1] eqn:E; [discriminate|].
    apply choice_content_app in E as (t1 & -> & H1).
    apply IH in H as (t2 & -> & H2).
    exists (t1 ++ t2). split; [now rewrite app_assoc|].
    intros acc. cbn [foldM]. rewrite H1. cbn [bind].
    rewrite H2. now rewrite app_assoc.
Qed.

Lemma event_content_app (content content' : str) (obj : pyval) :
  event_content content obj = inr content' ->
  exists t, content' = content ++ t
            /\ forall acc, event_content acc obj = inr (acc ++ t).
Proof.
  assert (Hgen : (choices <- get obj (lit "choices") (PList []) ;;
                  items <- iter choices ;;
                  foldM choice_content items content) = inr content' ->
                 exists t, content' = content ++ t
                           /\ forall acc,
                                (choices <- get obj (lit "choices") (PList []) ;;
                                 items <- iter choices ;;
                                 foldM choice_content items acc)
                                = inr (acc ++ t)).
  { unfold bind.
    destruct (get obj _ _) as [e|choices]; [discriminate|].
    destruct (iter choices) as [e|items]; [discriminate|].
    apply choices_content_app. }
  unfold event_content. destruct obj; try exact Hgen.
  intros H. injection H as <-. exists []. split; [now rewrite app_nil_r|].
  intros acc. now rewrite app_nil_r.
Qed.

Lemma events_content_app (parsed : list pyval) :
  forall content content',
    foldM event_content parsed content = inr content' ->
    exists t, content' = content ++ t
              /\ forall acc, foldM event_content parsed acc = inr (acc ++ t).
Proof.
  induction parsed as [|obj parsed IH]; intros content content' H.
  - injection H as <-. exists []. split; [now rewrite app_nil_r|].
    intros acc. cbn. now rewrite app_nil_r.
  - cbn [foldM] in H. unfold bind in H.
    destruct (event_content content obj) as [e|c1] eqn:E; [discriminate|].
    apply event_content_app in E as (t1 & -> & H1).
    apply IH in H as (t2 & -> & H2).
    exists (t1 ++ t2). split; [now rewrite app_assoc|].
    intros acc. cbn [foldM]. rewrite H1. cbn [bind].
    rewrite H2. now rewrite app_assoc.
Qed.

Lemma fake_chunk_content (acc : str) :
  event_content acc fake_chunk = inr (acc ++ INJECTED).
Proof. reflexivity. Qed.

(** The content of the frames with the fabricated one among them. *)
Lemma inserted_content (l1 l2 : list pyval) (content : str) :
  foldM event_content (l1 ++ l2) [] = inr content ->
  exists content',
    foldM event_content (l1 ++ fake_chunk :: l2) [] = inr content'
    /\ length content' = (length content + 17)%nat.
Proof.
  rewrite !foldM_app. unfold bind.
  destruct (foldM event_content l1 []) as [e|c1]; [discriminate|].
  intros H. apply events_content_app in H as (t2 & -> & H2).
  cbn [foldM]. rewrite fake_chunk_content. cbn [bind]. rewrite H2.
  eexists. split; [reflexivity|].
  rewrite !length_app. change (length INJECTED) with 17%nat. lia.
Qed.

Lemma sumZ_app (a b : list Z) : sumZ (a ++ b) = (sumZ a + sumZ b)%Z.
Proof.
  unfold sumZ. induction a as [|x a IH]; [reflexivity|].
  cbn [app fold_right]. rewrite IH. lia.
Qed.

(** The scan of check 5 passes over the fabricated frame, which has no
    usage. *)
Lemma usage_scan_fake (a b : list pyval) :
  usage_scan (a ++ fake_chunk :: b) = usage_scan (a ++ b).
Proof.
  induction a as [|obj a IH]; [reflexivity|].
  cbn [app usage_scan]. rewrite IH. reflexivity.
Qed.

Lemma bad_frames_app (a b : list str) :
  bad_frames (a ++ b) = bad_frames a ++ bad_frames b.
Proof. apply filter_app. Qed.

(** X14. The tamper simulation of [main] on a receipt that verification
    returns a report for. Verification of the tampered copy returns too; it
    counts one event, one content delta and the seventeen characters of the
    injected token more; its event parsing check and its usage check have
    the status they had and its token counts are the same; its payload hash
    check is the same; and its content check passes. *)
Theorem tamper_simulation_report
        (data : receipt) (path path' : str) (v : VerifyResult) :
  verify_receipt data path = inr v ->
  exists v',
    verify_receipt (tamper data) path' = inr v'
    /\ event_count v' = (event_count v + 1)%Z
    /\ content_deltas v' = (content_deltas v + 1)%Z
    /\ content_chars v' = (content_chars v + 17)%Z
    /\ prompt_tokens v' = prompt_tokens v
    /\ completion_tokens v' = completion_tokens v
    /\ model v' = model v
    /\ status_of (lit "payload_hash") (checks v')
       = status_of (lit "payload_hash") (checks v)
    /\ status_of (lit "event parsing") (checks v')
       = status_of (lit "event parsing") (checks v)
    /\ status_of (lit "content") (checks v') = Some PASS
    /\ status_of (lit "usage") (checks v')
       = status_of (lit "usage") (checks v).
Proof.
  intros H. rewrite verify_receipt_report in *.
  unfold report in *. cbv zeta in *.
  cbn [tamper r_raw_events r_model or_default].
  set (raw := or_default (r_raw_events data) []) in *.
  set (mid := Nat.div (length raw) 2).
  destruct (_hash (join NEWLINE raw)) as [e|h] eqn:Hh; [discriminate|].
  cbn [bind] in H.
  assert (Hh' : exists h', _hash (join NEWLINE (insert mid fake_event raw)) = inr h').
  { unfold _hash in Hh |- *. unfold bind in Hh.
    destruct (encode (join NEWLINE raw)) as [e|m] eqn:Em; [discriminate|].
    apply encode_inv in Em as [Henc _].
    rewrite (encode_ok (join NEWLINE (insert mid fake_event raw))).
    - eexists. reflexivity.
    - apply forallb_join; [reflexivity|].
      apply insert_Forall; [apply fake_event_encodable|].
      now apply forallb_join_inv with (sep := NEWLINE). }
  destruct Hh' as [h' ->]. cbn [bind].
  rewrite map_insert, fake_chunk_parsed.
  destruct (insert_split mid fake_event raw) as (a & b & Hraw & Hins).
  assert (Hbad : bad_frames (insert mid fake_event raw) = bad_frames raw).
  { rewrite Hins, Hraw, !bad_frames_app. reflexivity. }
  rewrite Hbad, insert_length.
  set (parsed := map parsed_frame raw) in *.
  destruct (insert_split mid fake_chunk parsed) as (l1 & l2 & Hp & Hpi).
  rewrite Hpi.
  destruct (foldM event_content parsed []) as [e|content] eqn:Hc;
    [discriminate|]. cbn [bind] in H.
  rewrite Hp in Hc. apply inserted_content in Hc as (content' & -> & Hlen).
  cbn [bind].
  rewrite rev_app_distr. cbn [rev]. rewrite <- app_assoc. cbn [app].
  rewrite usage_scan_fake, <- rev_app_distr, <- Hp.
  destruct (usage_scan (rev parsed)) as [e|found]; [discriminate|].
  cbn [bind] in H |- *.
  destruct (match found with Some tokens => tokens | None => _ end) as [pt ct].
  destruct (p <- gt0 pt ;; if p : bool then ret true else gt0 ct)
    as [e|positive]; [discriminate|].
  cbn [bind ret] in H |- *. injection H as <-.
  eexists. split; [reflexivity|].
  cbn [event_count content_deltas content_chars prompt_tokens
       completion_tokens model checks].
  split; [lia|].
  split; [rewrite Hp, !map_app, !sumZ_app; cbn [map];
          change (sumZ (event_deltas fake_chunk :: map event_deltas l2))
            with (1 + sumZ (map event_deltas l2))%Z; lia|].
  split; [lia|].
  do 3 (split; [reflexivity|]).
  unfold status_of. cbn [find].
  rewrite !events_hash_check_name, !payload_hash_check_name, !content_result_name.
  repeat match goal with
         | |- context [name (if ?c then _ else _)] => destruct c
         end; cbn [name].
  all: unfold payload_hash_check, content_result; cbn [r_payload_hash].
  all: replace (0 <? Z.of_nat (length content'))%Z with true
         by (symmetry; apply Z.ltb_lt; lia).
  all: repeat split; reflexivity.
Qed.


(** The report of the two-frame receipt. *)
Definition sample_report : VerifyResult :=
  Eval vm_compute in
    match verify_receipt VerifierClaims.sample_receipt (lit "r.json") with
    | inr v => v
    | inl _ => VerifyResult_new []
    end.

Lemma tamper_simulation_report_witness :
  exists v',
    verify_receipt (tamper VerifierClaims.sample_receipt)
                   (lit "r.json [tampered]") = inr v'
    /\ event_count v' = (event_count sample_report + 1)%Z
    /\ content_deltas v' = (content_deltas sample_report + 1)%Z
    /\ content_chars v' = (content_chars sample_report + 17)%Z
    /\ prompt_tokens v' = prompt_tokens sample_report
    /\ completion_tokens v' = completion_tokens sample_report
    /\ model v' = model sample_report
    /\ status_of (lit "payload_hash") (checks v')
       = status_of (lit "payload_hash") (checks sample_report)
    /\ status_of (lit "event parsing") (checks v')
       = status_of (lit "event parsing") (checks sample_report)
    /\ status_of (lit "content") (checks v') = Some PASS
    /\ status_of (lit "usage") (checks v')
       = status_of (lit "usage") (checks sample_report).
Proof.
  apply (tamper_simulation_report
           VerifierClaims.sample_receipt (lit "r.json")
           (lit "r.json [tampered]") sample_report).
  vm_compute. reflexivity.
Defined.

End ReportProperties.

(* ================================================================== *)
(** * The content the verifier reconstructs *)
(* ================================================================== *)

Module ReconstructionClaims.

Import Py Json PyFacts Streaming DecoderFacts ConsumerFacts TextFacts.
Import VerifyReceipt VerifyFacts ReplayFacts ReportFacts ReportProperties.
Import WireFormat (loads_raises).
Open Scope N_scope.

(** ** The sentinel is not JSON *)

Lemma isspace_range (c : N) : isspace c = true -> c <= 0x20 \/ 0x85 <= c.
Proof.
  unfold isspace. intros H.
  repeat match goal with
         | H : (_ || _)%bool = true |- _ => apply orb_true_iff in H as [H|H]
         end; bools; lia.
Qed.

(** Settles the tests of [c] against the characters a JSON value starts
    with, none of which is white space. *)
Ltac tests c Hne Hne' :=
  repeat match goal with
         | |- context [c =? ?k] => rewrite (Hne k) by (vm_compute; reflexivity)
         | |- context [?k =? c] => rewrite (Hne' k) by (vm_compute; reflexivity)
         end.

(** No JSON value starts with white space that [json] does not skip. *)
Lemma scan_once_space (fuel : nat) (c : N) (r : str) :
  isspace c = true -> scan_once fuel (c :: r) = None.
Proof.
  intros H. apply isspace_range in H.
  destruct fuel as [|f]; [reflexivity|].
  assert (Hne : forall k, 0x20 < k -> k < 0x85 -> (c =? k) = false)
    by (intros k H1 H2; apply N.eqb_neq; lia).
  assert (Hne' : forall k, 0x20 < k -> k < 0x85 -> (k =? c) = false)
    by (intros k H1 H2; apply N.eqb_neq; lia).
  cbn [scan_once]. unfold QUOTE, ch. tests c Hne Hne'.
  unfold lit. cbn [list_ascii_of_string map startswith]. tests c Hne Hne'.
  cbn [andb].
  unfold scan_number, ch. tests c Hne Hne'.
  unfold int_part, ch. tests c Hne Hne'.
  unfold is_digit.
  destruct ((0x30 <=? c) && (c <=? 0x39)) eqn:E; [bools; lia|reflexivity].
Qed.

Lemma scan_once_done (fuel : nat) (q : str) : scan_once fuel (DONE ++ q) = None.
Proof.
  destruct fuel as [|[|[|f]]]; reflexivity.
Qed.

Lemma skip_ws_spaces (p rest : str) :
  forallb isspace p = true ->
  skip_ws (p ++ rest) = skip_ws rest
  \/ exists c r, skip_ws (p ++ rest) = c :: r /\ isspace c = true.
Proof.
  induction p as [|c p IH]; [now left|]. cbn [forallb app skip_ws].
  intros H. apply andb_true_iff in H as [Hc Hp].
  destruct (is_json_ws c); [now apply IH|]. right. eauto.
Qed.

Lemma sentinel_not_json (ev : str) :
  is_sentinel ev = true -> loads ev = inl JSONDecodeError.
Proof.
  unfold is_sentinel. intros H. apply str_eqb_eq in H.
  destruct (text_parts ev) as [Hs|(p & m & q & -> & Hp & Hq & Hm)].
  { rewrite (strip_spaces ev Hs) in H. discriminate. }
  rewrite (strip_parts p m q Hp Hq Hm) in H. subst m.
  unfold loads.
  destruct (startswith _ [0xFEFF]); [reflexivity|].
  destruct (skip_ws_spaces p (DONE ++ q) Hp) as [->|(c & r & -> & Hc)].
  - change (skip_ws (DONE ++ q)) with (DONE ++ q).
    now rewrite scan_once_done.
  - now rewrite (scan_once_space _ c r Hc).
Qed.

(** ** The rule of the consumer and check 4 *)

(** On a payload the extraction rule gets through, check 4 adds to the
    content what the rule adds to the text. *)
Lemma extract_frame_content (acc acc' : str * str) (ev : str) :
  extract_frame acc ev = inr acc' ->
  event_content (fst acc) (parsed_frame ev) = inr (fst acc').
Proof.
  unfold extract_frame, parsed_frame. change (lit "[DONE]") with DONE.
  fold (is_sentinel ev).
  destruct (is_sentinel ev) eqn:Hs.
  { rewrite (sentinel_not_json ev Hs). intros H. now injection H as <-. }
  destruct (loads ev) as [e|obj] eqn:El.
  { apply loads_raises in El as ->. intros H. now injection H as <-. }
  unfold bind.
  destruct (_extract_content_parts obj) as [e|[content reasoning']] eqn:Hx;
    [discriminate|].
  intros H. injection H as <-. cbn [fst].
  now apply extract_event_content with (reasoning' := reasoning').
Qed.

Lemma extracted_content (frames : list str) :
  forall acc acc',
    foldM extract_frame frames acc = inr acc' ->
    foldM event_content (map parsed_frame frames) (fst acc) = inr (fst acc').
Proof.
  induction frames as [|ev rest IH]; intros acc acc' H.
  - now injection H as <-.
  - cbn [foldM map] in H |- *. unfold bind in H |- *.
    destruct (extract_frame acc ev) as [e|acc1] eqn:E; [discriminate|].
    rewrite (extract_frame_content _ _ _ E). now apply IH.
Qed.

(** A turn of the loop of [stream_chat] applies the rule to the frame. *)
Lemma consume_frame_extracts (w : world) (t_start thr : Q) (s s' : session)
      (ev : str) (stop : bool) :
  consume_frame w t_start thr s ev = inr (s', stop) ->
  extract_frame (text (result s), reasoning (result s)) ev
  = inr (text (result s'), reasoning (result s')).
Proof.
  intros H.
  pose proof (SessionFacts.consume_frame_parts _ _ _ _ _ _ _ H)
    as (Ht & Hr & _).
  apply consume_frame_inv in H as (_ & _ & _ & _ & Hturn).
  rewrite Ht, Hr. unfold SessionFacts.frame_parts, extract_frame.
  destruct Hturn as [Hs _ _ _ _|Hs Hl _ _ _ _
                     |obj content reasoning' Hs Hl Hx _ _ _ _].
  - rewrite Hs, (sentinel_not_json ev Hs). cbn [fst snd].
    now rewrite !app_nil_r.
  - rewrite Hs, Hl. cbn [fst snd]. now rewrite !app_nil_r.
  - rewrite Hs, Hl, Hx. reflexivity.
Qed.

(** C4. For every list of raw frame payloads on which the extraction rule
    of the consumer (parse the payload, pass over one that is not JSON, add
    the content that [_extract_content_parts] finds) raises nothing, the
    content that check 4 of the verifier reconstructs from the same
    payloads is the text the rule accumulates: check 3 leaves the parsed
    events, the loop of check 4 over them ends with that text as its
    content, and [check_content] records its length and passes exactly
    when it is not empty, as does the report of any receipt with these
    raw events. The loop of [stream_chat] applies the rule to every frame
    it logs, so its text is the text the rule accumulates over its log. *)
Theorem verifier_reconstructs_consumer_text (frames : list str) :
  (forall text reasoning,
      extracted frames = inr (text, reasoning) ->
      exists parse_errors parsed_events,
        parse_events frames 0 [] = inr (parse_errors, parsed_events)
        /\ (forall r,
               fst (mfoldM reconstruct_event parsed_events [] r) = inr text)
        /\ (forall r,
               exists r' c,
                 check_content parsed_events r = (inr tt, r')
                 /\ content_chars r' = Z.of_nat (length text)
                 /\ checks r' = checks r ++ [c]
                 /\ name c = lit "content"
                 /\ status c = match text with [] => FAIL | _ :: _ => PASS end)
        /\ (forall data path v,
               r_raw_events data = Some frames ->
               verify_receipt data path = inr v ->
               content_chars v = Z.of_nat (length text)
               /\ status_of (lit "content") (checks v)
                  = Some (match text with [] => FAIL | _ :: _ => PASS end)))
  /\ (forall w thr s stop,
         consume w (monotonic w 0) thr (fresh_session w) frames = inr (s, stop) ->
         raw_events s = through_sentinel frames
         /\ extracted (raw_events s)
            = inr (text (result s), reasoning (result s))).
Proof.
  split.
  - intros text reasoning H.
    apply extracted_content in H. cbn [fst] in H.
    exists (0 + Z.of_nat (length (bad_frames frames)))%Z,
           ([] ++ map parsed_frame frames).
    split; [apply parse_events_eq|]. cbn [app].
    assert (Hstatus : status (content_result (Z.of_nat (length text))
                                             (sumZ (map event_deltas
                                                        (map parsed_frame frames))))
                      = match text with [] => FAIL | _ :: _ => PASS end).
    { rewrite content_result_status. now destruct text. }
    split; [|split].
    + intros r. now rewrite reconstruct_fst.
    + intros r. pose proof (check_content_eq (map parsed_frame frames) r) as Hc.
      rewrite H in Hc. cbv zeta in Hc.
      eexists. eexists. split; [exact Hc|].
      cbn [append_check set_content_chars add_content_deltas content_chars
           content_deltas checks].
      split; [reflexivity|]. split; [reflexivity|].
      split; [apply content_result_name|].
      rewrite content_result_status. now destruct text.
    + intros data path v Hraw Hv. apply report_inv in Hv. cbv zeta in Hv.
      destruct Hv as (h & content & found & positive & c3 & c5 & _ & Hc & _ & _
                      & _ & _ & _ & _ & Hchars & _ & Hcs & Hn3 & _ & Hn5 & _).
      rewrite Hraw in Hc. cbn [or_default] in Hc.
      rewrite H in Hc. injection Hc as <-.
      split; [exact Hchars|].
      destruct (status_of_five _ _ c3 _ c5
                  (events_hash_check_name data h) (payload_hash_check_name data)
                  Hn3 (content_result_name (content_chars v) (content_deltas v))
                  Hn5) as (_ & _ & _ & S4 & _).
      cbv zeta in S4. rewrite <- Hcs in S4.
      rewrite S4, content_result_status, Hchars. now destruct text.
  - intros w thr s stop H.
    split; [now apply consume_log in H as (-> & _)|].
    apply (consume_invariant
             w (monotonic w 0) thr
             (fun s => extracted (raw_events s)
                       = inr (text (result s), reasoning (result s))))
      with (frames := frames) (s := fresh_session w) (stop := stop);
      [|reflexivity|exact H].
    intros s0 ev s1 stop1 HP Hturn. unfold extracted in *.
    pose proof (consume_frame_inv _ _ _ _ _ _ _ Hturn) as (Hraw & _).
    rewrite Hraw, foldM_app, HP. cbn [bind foldM].
    rewrite (consume_frame_extracts _ _ _ _ _ _ _ Hturn). reflexivity.
Qed.

(** The frames of the greeting: two deltas, a line that is not JSON, a
    frame whose usage block is a text, which the rule does not read, and
    the sentinel. *)
Definition greeting_frames : list str :=
  [qlit "{'choices':[{'delta':{'content':'Hi'}}]}";
   lit "not json";
   qlit "{'choices':[{'delta':{'content':' there'}}],'usage':'x'}";
   lit "[DONE]"].

Definition greeting_receipt : receipt :=
  mkReceipt (Some (lit "m")) (Some 1700000000%Z) None None None
            (Some greeting_frames).

Lemma verifier_reconstructs_consumer_text_witness :
  extracted greeting_frames = inr (lit "Hi there", [])
  /\ exists parse_errors parsed_events,
       parse_events greeting_frames 0 [] = inr (parse_errors, parsed_events)
       /\ (forall r,
              fst (mfoldM reconstruct_event parsed_events [] r)
              = inr (lit "Hi there"))
       /\ (forall r,
              exists r' c,
                check_content parsed_events r = (inr tt, r')
                /\ content_chars r' = 8%Z
                /\ checks r' = checks r ++ [c]
                /\ name c = lit "content"
                /\ status c = PASS)
       /\ (forall data path v,
              r_raw_events data = Some greeting_frames ->
              verify_receipt data path = inr v ->
              content_chars v = 8%Z
              /\ status_of (lit "content") (checks v) = Some PASS).
Proof.
  assert (E : extracted greeting_frames = inr (lit "Hi there", []))
    by (vm_compute; reflexivity).
  split; [exact E|].
  exact (proj1 (verifier_reconstructs_consumer_text greeting_frames)
               (lit "Hi there") [] E).
Defined.

(** The loop of [stream_chat] raises on the frame whose usage block is a
    text, after the extraction rule has taken its content. *)
Example usage_text_sample :
  consume ConsumerClaims.sample_world 0 (2000 # 1)
          (fresh_session ConsumerClaims.sample_world) greeting_frames
  = inl AttributeError.
Proof. vm_compute. reflexivity. Qed.

End ReconstructionClaims.

(* ================================================================== *)
(** * The receipt of a session, verified *)
(* ================================================================== *)

Module SessionReceipt.

Import Py Json PyFacts ShaFacts DecoderFacts.
Import Streaming ConsumerFacts TimingFacts SessionFacts WireFormat.
Import VerifyReceipt VerifyFacts ReplayFacts ReportFacts ReportProperties.
Open Scope N_scope.

(** ** The usage block as the two programs read it *)

(** The three reads of check 5 on a parsed frame. *)
Definition usage_step (obj : pyval) : exn + (pyval * pyval) :=
  u <- get obj (lit "usage") PNone ;;
  pt <- get (por u (PDict [])) (lit "prompt_tokens") (PInt 0) ;;
  ct <- get (por u (PDict [])) (lit "completion_tokens") (PInt 0) ;;
  ret (pt, ct).

Lemma usage_scan_cons (obj : pyval) (rest : list pyval) :
  usage_scan (obj :: rest)
  = match obj with
    | PNone => usage_scan rest
    | _ =>
      match usage_step obj with
      | inl e => inl e
      | inr (pt, ct) =>
        if truthy pt || truthy ct then inr (Some (pt, ct)) else usage_scan rest
      end
    end.
Proof.
  cbn [usage_scan]. unfold usage_step, bind, ret.
  destruct obj; try reflexivity;
    (destruct (get _ (lit "usage") PNone) as [e|u]; [reflexivity|];
     destruct (get (por u (PDict [])) (lit "prompt_tokens") (PInt 0)) as [e|pt];
       [reflexivity|];
     destruct (get (por u (PDict [])) (lit "completion_tokens") (PInt 0))
       as [e|ct]; reflexivity).
Qed.

(** A count read with the default 0 and the same count read with the
    default [None] are both false, or the same value. *)
Lemma get_defaults (usage : pyval) (k : str) (v : pyval) :
  get usage k (PInt 0) = inr v ->
  exists v', get usage k PNone = inr v'
             /\ truthy v' = truthy v
             /\ (truthy v = true -> v' = v).
Proof.
  destruct usage; try discriminate. cbn [get ret].
  destruct (dict_get d k) as [x|]; intros H; injection H as <-.
  - exists x. auto.
  - exists PNone. repeat split. discriminate.
Qed.

(** The consumer's observation of a frame is what the usage block of the
    parsed frame holds. *)
Lemma usage_obs_parsed (k : str) (ev : str) :
  usage_obs k ev = usage_value (parsed_frame ev) k.
Proof.
  unfold usage_obs, parsed_frame, is_sentinel.
  change DONE with (lit "[DONE]").
  destruct (str_eqb (strip ev) (lit "[DONE]")); [reflexivity|].
  destruct (loads ev); reflexivity.
Qed.

Lemma usage_step_obs (obj : pyval) (pt ct : pyval) :
  usage_step obj = inr (pt, ct) ->
  truthy (usage_value obj (lit "prompt_tokens")) = truthy pt
  /\ truthy (usage_value obj (lit "completion_tokens")) = truthy ct
  /\ (truthy pt = true -> usage_value obj (lit "prompt_tokens") = pt)
  /\ (truthy ct = true -> usage_value obj (lit "completion_tokens") = ct).
Proof.
  unfold usage_step, usage_value, bind, ret.
  destruct (get obj (lit "usage") PNone) as [e|u]; [discriminate|].
  destruct (get (por u (PDict [])) (lit "prompt_tokens") (PInt 0)) as [e|p] eqn:Ep;
    [discriminate|].
  destruct (get (por u (PDict [])) (lit "completion_tokens") (PInt 0)) as [e|c] eqn:Ec;
    [discriminate|].
  intros H. injection H as <- <-.
  apply get_defaults in Ep as (p' & -> & Hp & Hp').
  apply get_defaults in Ec as (c' & -> & Hc & Hc').
  auto.
Qed.

Definition tokens_of (found : option (pyval * pyval)) : pyval * pyval :=
  match found with Some tokens => tokens | None => (PInt 0, PInt 0) end.

(** Frames in which the two counts are both zero or both not. *)
Definition counts_together (ev : str) : Prop :=
  truthy (usage_obs (lit "prompt_tokens") ev)
  = truthy (usage_obs (lit "completion_tokens") ev).

Lemma usage_scan_last (frames : list str) (found : option (pyval * pyval)) :
  Forall counts_together frames ->
  usage_scan (map parsed_frame frames) = inr found ->
  tokens_of found
  = (or_default (find truthy (map (usage_obs (lit "prompt_tokens")) frames))
                (PInt 0),
     or_default (find truthy (map (usage_obs (lit "completion_tokens")) frames))
                (PInt 0)).
Proof.
  induction frames as [|ev rest IH]; intros Hall H.
  - injection H as <-. reflexivity.
  - apply Forall_cons_iff in Hall as [Hev Hrest].
    cbn [map find]. cbn [map] in H. rewrite usage_scan_cons in H.
    unfold counts_together in Hev. rewrite !usage_obs_parsed in *.
    destruct (parsed_frame ev) eqn:Ep.
    1: { cbn. now apply IH. }
    all: destruct (usage_step _) as [e|[pt ct]] eqn:Es; [discriminate|];
      apply usage_step_obs in Es as (Tp & Tc & Vp & Vc);
      rewrite Tp, Tc in *;
      destruct (truthy pt) eqn:Epp; destruct (truthy ct) eqn:Ecc;
        try discriminate Hev; cbn [orb] in H;
      [injection H as <-; cbn [tokens_of or_default];
       now rewrite Vp, Vc by reflexivity
      |now apply IH].
Qed.

Lemma last_nonzero_find (init : pyval) (f : str -> pyval) (frames : list str) :
  last_nonzero init (map f frames)
  = or_default (find truthy (map f (rev frames))) init.
Proof. unfold last_nonzero. rewrite <- map_rev. reflexivity. Qed.

(** X15. The verifier takes both token counts from the last frame that has
    a count that is not zero, the consumer takes each count from the last
    frame in which that count is not zero. On the frames of a session in
    which the two counts are always both zero or both not, a report of the
    verifier shows the token counts of the session. *)
Theorem report_token_counts_agree
        (w : world) (model : str) (payload : bytes) (thr : Q)
        (save_receipt : bool) (receipt_dir : str) (fs fs' : filesystem)
        (r : StreamResult) (data : receipt) (path : str) (v : VerifyResult) :
  stream_chat w model payload thr save_receipt receipt_dir fs = (inr r, fs') ->
  r_raw_events data = Some (through_sentinel (received w)) ->
  verify_receipt data path = inr v ->
  Forall counts_together (through_sentinel (received w)) ->
  VerifyReceipt.prompt_tokens v = Streaming.prompt_tokens r
  /\ VerifyReceipt.completion_tokens v = Streaming.completion_tokens r.
Proof.
  intros Hrun Hraw Hv Hall.
  apply stream_chat_inv in Hrun as (s & Hreq & _ & Hp & Hc & _).
  destruct (request_counted w thr s Hreq) as [Hlog [Hcp Hcc]].
  apply report_inv in Hv. cbv zeta in Hv.
  destruct Hv as (h & content & found & positive & c3 & c5 & _ & _ & Hscan
                  & Htok & _).
  rewrite Hraw in Hscan. cbn [or_default] in Hscan.
  rewrite <- map_rev in Hscan.
  apply usage_scan_last in Hscan; [|now apply Forall_rev].
  fold (tokens_of found) in Htok. rewrite Hscan in Htok.
  rewrite Hp, Hc, Hcp, Hcc, Hlog, !last_nonzero_find.
  now injection Htok as -> ->.
Qed.


(** A session with one content chunk and one usage chunk. *)
Definition counted_lines : list bytes :=
  [qlit "data: {'choices':[{'delta':{'content':'Hi'}}]}";
   qlit "data: {'choices':[],'usage':{'prompt_tokens':12,'completion_tokens':7}}";
   lit "data: [DONE]"].

Definition counted_world : world :=
  mkWorld (fun n => inject_Z (Z.of_nat n)) 1700000000 (Body counted_lines None).

Definition counted_run : (exn + StreamResult) * filesystem :=
  Eval vm_compute in
    stream_chat counted_world (lit "m") (lit "{}") (2000 # 1) true
                (lit "data/receipts") (mkFs [] []).

Definition counted_result : StreamResult :=
  Eval vm_compute in
    match fst counted_run with inr r => r | inl _ => StreamResult_default end.

Definition counted_receipt : receipt :=
  Eval vm_compute in
    match files (snd counted_run) with
    | (_, rc) :: _ => rc
    | [] => mkReceipt None None None None None None
    end.

Definition counted_report : VerifyResult :=
  Eval vm_compute in
    match verify_receipt counted_receipt (lit "r.json") with
    | inr v => v
    | inl _ => VerifyResult_new []
    end.

Lemma counted_run_eq :
  stream_chat counted_world (lit "m") (lit "{}") (2000 # 1) true
              (lit "data/receipts") (mkFs [] [])
  = (inr counted_result, snd counted_run).
Proof. vm_compute. reflexivity. Qed.

Lemma counted_frames :
  through_sentinel (received counted_world)
  = [qlit "{'choices':[{'delta':{'content':'Hi'}}]}";
     qlit "{'choices':[],'usage':{'prompt_tokens':12,'completion_tokens':7}}";
     lit "[DONE]"].
Proof. vm_compute. reflexivity. Qed.

Lemma report_token_counts_agree_witness :
  VerifyReceipt.prompt_tokens counted_report = PInt 12
  /\ VerifyReceipt.completion_tokens counted_report = PInt 7
  /\ Streaming.prompt_tokens counted_result = PInt 12
  /\ Streaming.completion_tokens counted_result = PInt 7.
Proof.
  destruct (report_token_counts_agree
              counted_world (lit "m") (lit "{}") (2000 # 1) true
              (lit "data/receipts") (mkFs [] []) (snd counted_run)
              counted_result counted_receipt (lit "r.json") counted_report)
    as [Hp Hc].
  - exact counted_run_eq.
  - rewrite counted_frames. reflexivity.
  - vm_compute. reflexivity.
  - rewrite counted_frames.
    repeat (constructor; [vm_compute; reflexivity|]). constructor.
  - rewrite <- Hp, <- Hc. repeat split; reflexivity.
Defined.

(** ** The receipt of a session *)

Lemma write_receipt_inv (w : world) (receipt_dir model : str) (payload : bytes)
      (raw : list str) (fs fs' : filesystem) (p : path) :
  _write_receipt w receipt_dir model payload raw fs = (inr p, fs') ->
  exists m,
    encode (join NEWLINE raw) = inr m
    /\ fs' = mkFs (receipt_dir :: dirs fs)
                  ((p, mkReceipt (Some model) (Some (wall_time w))
                                 (Some (Sha256.hexdigest m))
                                 (Some (Sha256.hexdigest payload))
                                 (Some (Z.of_nat (length raw)))
                                 (Some raw)) :: files fs).
Proof.
  unfold _write_receipt.
  destruct (encode (join NEWLINE raw)) as [e|m] eqn:E; [discriminate|].
  set (name := str_of_int _ ++ _).
  intros H. injection H as <- <-. exists m. split; reflexivity.
Qed.

(** The frames a session logged replay in the verifier to its text, and
    their usage blocks read without raising. *)
Definition usage_reads (ev : str) : Prop :=
  parsed_frame ev = PNone \/ exists tokens, usage_step (parsed_frame ev) = inr tokens.

Lemma update_usage_step (r r' : StreamResult) (obj : pyval) :
  update_usage r obj = inr r' -> exists tokens, usage_step obj = inr tokens.
Proof.
  unfold update_usage, usage_step, bind, ret.
  destruct (get obj (lit "usage") PNone) as [e|u]; [discriminate|].
  destruct (por u (PDict [])); try discriminate.
  intros _. cbn [get ret]. eexists. reflexivity.
Qed.

Lemma consume_frame_usage (w : world) (t_start thr : Q) (s s' : session)
      (ev : str) (stop : bool) :
  consume_frame w t_start thr s ev = inr (s', stop) -> usage_reads ev.
Proof.
  unfold consume_frame, usage_reads, parsed_frame.
  change DONE with (lit "[DONE]").
  destruct (str_eqb (strip ev) (lit "[DONE]")); [now left|].
  destruct (loads ev) as [e|obj]; [now left|].
  unfold bind.
  destruct (_extract_content_parts obj) as [e|[content reasoning']];
    [discriminate|].
  destruct (update_usage _ obj) as [e|r4] eqn:Hu; [discriminate|].
  intros _. right. eapply update_usage_step; eauto.
Qed.

Definition verifiable (s : session) : Prop :=
  foldM event_content (map parsed_frame (raw_events s)) []
  = inr (Streaming.text (result s))
  /\ Forall usage_reads (raw_events s).

Lemma verifiable_turn (w : world) (t_start thr : Q) (s s' : session)
      (ev : str) (stop : bool) :
  verifiable s -> consume_frame w t_start thr s ev = inr (s', stop) ->
  verifiable s'.
Proof.
  intros [Hc Hu] H.
  pose proof (consume_frame_usage _ _ _ _ _ _ _ H) as Hev.
  assert (Hrep : replayed s).
  { exists (Z.of_nat (length (bad_frames (raw_events s)))),
           (map parsed_frame (raw_events s)).
    split; [apply (parse_events_eq (raw_events s) 0 [])|exact Hc]. }
  pose proof (replayed_turn _ _ _ _ _ _ _ Hrep H) as (pe & parsed & Hpe & Hc').
  rewrite (parse_events_eq (raw_events s') 0 []) in Hpe.
  injection Hpe as _ <-. cbn [app] in Hc'.
  apply consume_frame_inv in H as (Hraw & _).
  split; [exact Hc'|]. rewrite Hraw. apply Forall_app. split; [exact Hu|].
  constructor; [exact Hev|constructor].
Qed.

Lemma request_verifiable (w : world) (thr : Q) (s : session) :
  request w thr = inr s -> verifiable s.
Proof.
  apply request_invariant.
  - split; [reflexivity|constructor].
  - intros. eapply verifiable_turn; eauto.
  - intros s0 exc H. exact H.
Qed.

Lemma usage_scan_reads (frames : list str) :
  Forall usage_reads frames ->
  exists found, usage_scan (map parsed_frame frames) = inr found.
Proof.
  induction 1 as [|ev rest Hev _ IH]; [eexists; reflexivity|].
  cbn [map]. rewrite usage_scan_cons.
  destruct Hev as [->|[[pt ct] Hs]]; [exact IH|].
  rewrite Hs. destruct (parsed_frame ev); try exact IH;
    (destruct (truthy pt || truthy ct); [eexists; reflexivity|exact IH]).
Qed.

(** X16. The receipt that [stream_chat] writes for a session, verified.
    It holds the frames the loop reached. Verification of it raises
    nothing but the [TypeError] of a token count that does not compare
    with zero; a report it returns has the event count of the session and
    as many content characters as the text of the session; its two hash
    checks pass; its event parsing check passes exactly when the session
    counted no parse errors and its content check exactly when the session
    has text; and the receipt is verified exactly when both hold. *)
Theorem session_receipt_report
        (w : world) (model : str) (payload : bytes) (thr : Q)
        (receipt_dir : str) (fs fs' : filesystem)
        (r : StreamResult) (p : path) :
  stream_chat w model payload thr true receipt_dir fs = (inr r, fs') ->
  Streaming.receipt_path r = Some p ->
  let seen := through_sentinel (received w) in
  exists rc,
    fs' = mkFs (receipt_dir :: dirs fs) ((p, rc) :: files fs)
    /\ r_raw_events rc = Some seen
    /\ r_model rc = Some model
    /\ (forall path e, verify_receipt rc path = inl e -> e = TypeError)
    /\ forall path v,
         verify_receipt rc path = inr v ->
         event_count v = Z.of_nat (length seen)
         /\ content_chars v = Z.of_nat (length (Streaming.text r))
         /\ status_of (lit "events_hash") (checks v) = Some PASS
         /\ status_of (lit "payload_hash") (checks v) = Some PASS
         /\ status_of (lit "event parsing") (checks v)
            = Some (if (Streaming.parse_errors r =? 0)%Z then PASS else FAIL)
         /\ status_of (lit "content") (checks v)
            = Some (match Streaming.text r with [] => FAIL | _ :: _ => PASS end)
         /\ (verified v = true
             <-> Streaming.parse_errors r = 0%Z /\ Streaming.text r <> []).
Proof.
  intros Hrun Hpath seen.
  apply stream_chat_cases in Hrun as (s & Hreq & Hraw & Hcase).
  destruct (request_accumulated w thr s Hreq) as (_ & _ & Hpe & Hnone & _).
  destruct (request_verifiable w thr s Hreq) as [Hcontent Husage].
  destruct Hcase as [(-> & _)|(p' & -> & _ & _ & Hw)].
  { cbn in Hpath. rewrite Hnone in Hpath. discriminate. }
  cbn [set_receipt_path Streaming.receipt_path] in Hpath.
  injection Hpath as ->.
  apply write_receipt_inv in Hw as (m & Hm & ->).
  rewrite Hraw in *. fold seen in Hm, Hpe, Hcontent, Husage |- *.
  match goal with
  | |- context [(p, ?x) :: files fs] => set (rc := x)
  end.
  exists rc. split; [reflexivity|]. split; [reflexivity|].
  split; [reflexivity|].
  assert (Htext : Streaming.text (set_receipt_path (finished w s) (Some p))
                  = Streaming.text (result s)) by reflexivity.
  assert (Hperr : Streaming.parse_errors (set_receipt_path (finished w s) (Some p))
                  = Streaming.parse_errors (result s)) by reflexivity.
  rewrite Htext, Hperr. clear Htext Hperr.
  assert (Hh : _hash (join NEWLINE (or_default (r_raw_events rc) []))
               = inr (Sha256.hexdigest m)).
  { unfold _hash. cbn [rc r_raw_events or_default]. now rewrite Hm. }
  split.
  - intros path e He. rewrite verify_receipt_report in He.
    unfold report in He. cbv zeta in He. rewrite Hh in He.
    cbn [rc r_raw_events or_default bind] in He.
    rewrite Hcontent in He. cbn [bind] in He.
    destruct (usage_scan_reads (rev seen)) as [found Hf];
      [now apply Forall_rev|].
    rewrite map_rev in Hf. rewrite Hf in He. cbn [bind] in He.
    destruct (match found with Some tokens => tokens | None => _ end) as [pt ct].
    unfold bind in He.
    destruct (gt0 pt) as [e1|q] eqn:E1.
    { injection He as <-. now apply gt0_raises in E1. }
    destruct q; [discriminate|].
    destruct (gt0 ct) as [e2|q] eqn:E2; [|discriminate].
    injection He as <-. now apply gt0_raises in E2.
  - intros path v Hv. apply report_inv in Hv. cbv zeta in Hv.
    destruct Hv as (h & content & found & positive & c3 & c5 & Hh' & Hc & _ & _
                    & _ & _ & _ & Hn & Hchars & _ & Hcs & Hn3 & Hs3 & Hn5 & Hs5).
    rewrite Hh in Hh'. injection Hh' as <-.
    cbn [rc r_raw_events or_default] in Hc, Hn, Hs3.
    rewrite Hcontent in Hc. injection Hc as <-.
    unfold bad_frames in Hs3. fold seen in Hs3. rewrite <- Hpe in Hs3.
    destruct (status_of_five _ _ c3 _ c5
                (events_hash_check_name rc (Sha256.hexdigest m))
                (payload_hash_check_name rc) Hn3
                (content_result_name (content_chars v) (content_deltas v)) Hn5)
      as (S1 & S2 & S3 & S4 & S5).
    cbv zeta in S1, S2, S3, S4, S5. rewrite <- Hcs in S1, S2, S3, S4, S5.
    pose proof (events_hash_check_pass rc m eq_refl) as P1.
    pose proof (payload_hash_check_pass rc payload eq_refl) as P2.
    assert (P4 : status (content_result (content_chars v) (content_deltas v))
                 = match Streaming.text (result s) with
                   | [] => FAIL
                   | _ :: _ => PASS
                   end).
    { rewrite content_result_status, Hchars.
      destruct (Streaming.text (result s)); reflexivity. }
    split; [exact Hn|]. split; [exact Hchars|].
    split; [now rewrite S1, P1|]. split; [now rewrite S2, P2|].
    split; [now rewrite S3, Hs3|]. split; [now rewrite S4, P4|].
    unfold verified. rewrite Hcs. cbn [forallb]. rewrite P1, P2, Hs3, P4, Hs5.
    assert (H5 : negb (status_eqb (if positive then PASS else SKIP) FAIL) = true)
      by now destruct positive.
    rewrite H5. cbn [status_eqb negb andb].
    destruct (Streaming.parse_errors (result s) =? 0)%Z eqn:E0;
      [apply Z.eqb_eq in E0|apply Z.eqb_neq in E0];
      destruct (Streaming.text (result s)) as [|c0 t0];
      cbn [status_eqb negb andb]; split.
    all: try (intros H; discriminate H).
    all: try (intros [H1 H2]; congruence).
    intros _. split; [exact E0|discriminate].
Qed.


Definition counted_path : path :=
  Eval vm_compute in
    match Streaming.receipt_path counted_result with
    | Some p => p
    | None => ([], [])
    end.

Lemma session_receipt_report_witness :
  exists rc,
    snd counted_run
    = mkFs (lit "data/receipts" :: dirs (mkFs [] []))
           ((counted_path, rc) :: files (mkFs [] []))
    /\ r_raw_events rc = Some (through_sentinel (received counted_world))
    /\ r_model rc = Some (lit "m")
    /\ (forall path e, verify_receipt rc path = inl e -> e = TypeError)
    /\ forall path v,
         verify_receipt rc path = inr v ->
         event_count v
         = Z.of_nat (length (through_sentinel (received counted_world)))
         /\ content_chars v = Z.of_nat (length (Streaming.text counted_result))
         /\ status_of (lit "events_hash") (checks v) = Some PASS
         /\ status_of (lit "payload_hash") (checks v) = Some PASS
         /\ status_of (lit "event parsing") (checks v)
            = Some (if (Streaming.parse_errors counted_result =? 0)%Z
                    then PASS else FAIL)
         /\ status_of (lit "content") (checks v)
            = Some (match Streaming.text counted_result with
                    | [] => FAIL
                    | _ :: _ => PASS
                    end)
         /\ (verified v = true
             <-> Streaming.parse_errors counted_result = 0%Z
                 /\ Streaming.text counted_result <> []).
Proof.
  apply (session_receipt_report
           counted_world (lit "m") (lit "{}") (2000 # 1)
           (lit "data/receipts") (mkFs [] []) (snd counted_run)
           counted_result counted_path).
  - exact counted_run_eq.
  - reflexivity.
Defined.

(** ** Receipts of the stream format *)

Definition numeric (v : pyval) : bool :=
  match v with
  | PBool _ | PInt _ | PFloat _ => true
  | _ => false
  end.

(** The count under [k] of a usage block is a number, or absent. *)
Definition numeric_field (d : list (str * pyval)) (k : str) : bool :=
  match dict_get d k with
  | Some v => numeric v
  | None => true
  end.

(** The token counts of the usage block of a chunk, when it has one, are
    numbers. *)
Definition numeric_usage (obj : pyval) : bool :=
  match obj with
  | PDict o =>
    match dict_get o (lit "usage") with
    | Some (PDict d) =>
      numeric_field d (lit "prompt_tokens")
      && numeric_field d (lit "completion_tokens")
    | _ => true
    end
  | _ => true
  end.

(** A frame of a receipt of the stream format. *)
Definition wire_receipt_frame (ev : str) : bool :=
  forallb encodable ev && wire_frame ev && numeric_usage (parsed_frame ev).

Lemma wire_frame_parsed (ev : str) :
  wire_frame ev = true ->
  parsed_frame ev = PNone \/ wire_chunk (parsed_frame ev) = true.
Proof.
  unfold wire_frame, parsed_frame, is_sentinel.
  change DONE with (lit "[DONE]").
  destruct (str_eqb (strip ev) (lit "[DONE]")); [now left|]. cbn [orb].
  intros H. apply andb_true_iff in H as [_ H]. revert H.
  destruct (loads ev); [now left|]. now right.
Qed.

Lemma wire_chunk_content (obj : pyval) (acc : str) :
  wire_chunk obj = true -> exists t, event_content acc obj = inr (acc ++ t).
Proof.
  intros H. destruct (wire_chunk_parts obj H) as [[content reasoning'] Hp].
  exists content. now apply extract_event_content with (reasoning' := reasoning').
Qed.

Lemma wire_frames_content (frames : list str) :
  forallb wire_frame frames = true ->
  forall acc, exists content,
    foldM event_content (map parsed_frame frames) acc = inr content.
Proof.
  induction frames as [|ev rest IH]; intros H acc; [eexists; reflexivity|].
  cbn [forallb] in H. apply andb_true_iff in H as [Hev Hrest].
  cbn [map foldM].
  destruct (wire_frame_parsed ev Hev) as [->|Hw].
  - cbn [event_content bind ret]. apply IH, Hrest.
  - destruct (wire_chunk_content _ acc Hw) as [t ->]. cbn [bind].
    apply IH, Hrest.
Qed.

Lemma numeric_get (d : list (str * pyval)) (k : str) :
  numeric_field d k = true ->
  exists v, get (PDict d) k (PInt 0) = inr v /\ numeric v = true.
Proof.
  unfold numeric_field. cbn [get ret].
  destruct (dict_get d k) as [v|]; intros H; eexists; split;
    try reflexivity; exact H.
Qed.

Lemma wire_chunk_usage_step (obj : pyval) :
  wire_chunk obj = true -> numeric_usage obj = true ->
  exists pt ct,
    usage_step obj = inr (pt, ct) /\ numeric pt = true /\ numeric ct = true.
Proof.
  destruct obj as [| | | | | |o]; try discriminate.
  cbn [wire_chunk numeric_usage]. intros H Hn.
  apply andb_true_iff in H as [_ Hu]. unfold object_field in Hu.
  unfold usage_step. cbn [get ret bind].
  destruct (dict_get o (lit "usage")) as [u|].
  - destruct u as [| | | | | |d]; cbn [is_dict orb negb] in Hu.
    7: { apply andb_true_iff in Hn as [Hp Hc].
         assert (E : por (PDict d) (PDict []) = PDict d)
           by (unfold por; destruct d; reflexivity).
         rewrite E.
         destruct (numeric_get d _ Hp) as (pt & -> & Npt).
         destruct (numeric_get d _ Hc) as (ct & -> & Nct).
         cbn [bind ret]. eauto. }
    all: unfold por; apply negb_true_iff in Hu; rewrite Hu;
      cbn [get dict_get ret bind]; exists (PInt 0), (PInt 0); auto.
  - cbn. exists (PInt 0), (PInt 0). auto.
Qed.

Lemma wire_frames_usage (frames : list str) :
  forallb wire_frame frames = true ->
  forallb (fun ev => numeric_usage (parsed_frame ev)) frames = true ->
  exists found,
    usage_scan (map parsed_frame frames) = inr found
    /\ numeric (fst (tokens_of found)) = true
    /\ numeric (snd (tokens_of found)) = true.
Proof.
  induction frames as [|ev rest IH]; intros H Hn.
  - exists None. repeat split.
  - cbn [forallb] in H, Hn.
    apply andb_true_iff in H as [Hev Hrest].
    apply andb_true_iff in Hn as [Hnev Hnrest].
    specialize (IH Hrest Hnrest).
    cbn [map]. rewrite usage_scan_cons.
    destruct (wire_frame_parsed ev Hev) as [->|Hw]; [exact IH|].
    destruct (wire_chunk_usage_step _ Hw Hnev) as (pt & ct & -> & Np & Nc).
    destruct (parsed_frame ev); try exact IH;
      (destruct (truthy pt || truthy ct); [|exact IH];
       exists (Some (pt, ct)); repeat split; assumption).
Qed.

Lemma numeric_gt0 (v : pyval) : numeric v = true -> exists b, gt0 v = inr b.
Proof. destruct v; try discriminate; intros _; eexists; reflexivity. Qed.

Lemma forallb_rev' {A} (p : A -> bool) (l : list A) :
  forallb p (rev l) = forallb p l.
Proof.
  induction l as [|x l IH]; [reflexivity|]. cbn [rev forallb].
  rewrite forallb_app, IH. cbn. rewrite andb_true_r. apply andb_comm.
Qed.

(** X17. [verify_receipt] returns a report for every receipt of the
    stream format: one whose frames encode as UTF-8 and are each the
    sentinel, or within the limits of the interpreter (at most a hundred
    opening brackets, no run of more than 4300 digits) and a text that is
    not JSON or a chunk (an object with a list of choices that are objects
    with object-or-null deltas and textual content, and with a usage that
    is absent, null or an object) whose token counts, where present, are
    numbers. *)
Theorem verify_receipt_returns_on_wire_frames (data : receipt) (path : str) :
  forallb wire_receipt_frame (or_default (r_raw_events data) []) = true ->
  exists v, verify_receipt data path = inr v.
Proof.
  set (raw := or_default (r_raw_events data) []). intros H.
  assert (Henc : Forall (fun s => forallb encodable s = true) raw
                 /\ forallb wire_frame raw = true
                 /\ forallb (fun ev => numeric_usage (parsed_frame ev)) raw = true).
  { clearbody raw. induction raw as [|ev rest IH]; [repeat constructor|].
    cbn [forallb] in H |- *. unfold wire_receipt_frame at 1 in H.
    apply andb_true_iff in H as [H Hrest].
    apply andb_true_iff in H as [H H3]. apply andb_true_iff in H as [H1 H2].
    destruct (IH Hrest) as (I1 & I2 & I3).
    rewrite H2, H3, I2, I3. repeat split. constructor; assumption. }
  destruct Henc as (Henc & Hw & Hn).
  rewrite verify_receipt_report. unfold report. cbv zeta. fold raw.
  unfold _hash.
  rewrite (encode_ok (join NEWLINE raw)) by (now apply forallb_join).
  cbn [bind ret].
  destruct (wire_frames_content raw Hw []) as [content ->]. cbn [bind].
  destruct (wire_frames_usage (rev raw)) as (found & Hf & Np & Nc);
    [now rewrite forallb_rev'|now rewrite forallb_rev'|].
  rewrite map_rev in Hf. rewrite Hf. cbn [bind].
  unfold tokens_of in Np, Nc.
  destruct (match found with Some tokens => tokens | None => _ end) as [pt ct].
  cbn [fst snd] in Np, Nc.
  destruct (numeric_gt0 pt Np) as [b ->]. cbn [bind].
  destruct b; [eexists; reflexivity|].
  destruct (numeric_gt0 ct Nc) as [b' ->]. cbn [bind]. eexists. reflexivity.
Qed.

Lemma verify_receipt_returns_on_wire_frames_witness :
  exists v, verify_receipt counted_receipt (lit "r.json") = inr v.
Proof.
  apply (verify_receipt_returns_on_wire_frames counted_receipt (lit "r.json")).
  vm_compute. reflexivity.
Defined.

End SessionReceipt.

(* ================================================================== *)
(** * The newest receipt *)
(* ================================================================== *)

Module ReceiptDirFacts.

Import Py ReceiptDir.
Open Scope Q_scope.

Lemma insert_by_mtime_In (x e : entry) (l : list entry) :
  In e (insert_by_mtime x l) <-> e = x \/ In e l.
Proof.
  induction l as [|y l IH]; cbn [insert_by_mtime].
  - cbn. intuition.
  - destruct (Qle_bool (st_mtime x) (st_mtime y)); cbn [In].
    + intuition.
    + rewrite IH. intuition.
Qed.

Lemma sorted_by_mtime_In (e : entry) (l : list entry) :
  In e (sorted_by_mtime l) <-> In e l.
Proof.
  induction l as [|x l IH]; [reflexivity|].
  cbn [sorted_by_mtime fold_right]. fold (sorted_by_mtime l).
  rewrite insert_by_mtime_In, IH. cbn. intuition.
Qed.

(** No entry is newer than one after it. *)
Fixpoint ascending (l : list entry) : Prop :=
  match l with
  | [] => True
  | y :: rest =>
    (forall z, In z rest -> st_mtime y <= st_mtime z) /\ ascending rest
  end.

Lemma insert_by_mtime_ascending (x : entry) (l : list entry) :
  ascending l -> ascending (insert_by_mtime x l).
Proof.
  induction l as [|y l IH]; cbn [insert_by_mtime ascending].
  - intros _. split; [intros z []|exact I].
  - intros [Hy Hl].
    destruct (Qle_bool (st_mtime x) (st_mtime y)) eqn:E.
    + apply Qle_bool_iff in E. cbn [ascending]. split; [|split; assumption].
      intros z [<-|Hz]; [exact E|].
      eapply Qle_trans; [exact E|apply Hy, Hz].
    + assert (Hlt : st_mtime y <= st_mtime x).
      { apply Qnot_lt_le. intros Hc. apply Qlt_le_weak in Hc.
        apply Qle_bool_iff in Hc. congruence. }
      cbn [ascending]. split; [|apply IH, Hl].
      intros z Hz. apply insert_by_mtime_In in Hz as [->|Hz]; auto.
Qed.

Lemma sorted_by_mtime_ascending (l : list entry) : ascending (sorted_by_mtime l).
Proof.
  induction l as [|x l IH]; [exact I|].
  cbn [sorted_by_mtime fold_right]. now apply insert_by_mtime_ascending.
Qed.

Lemma last_In (d : entry) (l : list entry) : l <> [] -> In (last l d) l.
Proof.
  induction l as [|x l IH]; [congruence|]. intros _.
  destruct l as [|y l]; [now left|]. right. apply IH. discriminate.
Qed.

Lemma ascending_last (d : entry) (l : list entry) :
  ascending l -> forall e, In e l -> st_mtime e <= st_mtime (last l d).
Proof.
  induction l as [|x l IH]; intros Ha e He; [destruct He|].
  destruct Ha as [Hx Hl]. destruct l as [|y l].
  - destruct He as [<-|[]]. apply Qle_refl.
  - change (last (x :: y :: l) d) with (last (y :: l) d).
    destruct He as [<-|He].
    + apply Hx. apply last_In. discriminate.
    + now apply IH.
Qed.

(** An entry newer than all of the sorted ones goes last. *)
Lemma insert_by_mtime_newest (x : entry) (l : list entry) :
  (forall e, In e l -> st_mtime e < st_mtime x) ->
  insert_by_mtime x l = l ++ [x].
Proof.
  induction l as [|y l IH]; intros H; [reflexivity|].
  cbn [insert_by_mtime app].
  destruct (Qle_bool (st_mtime x) (st_mtime y)) eqn:E.
  - apply Qle_bool_iff in E. exfalso.
    apply (Qlt_irrefl (st_mtime x)).
    eapply Qle_lt_trans; [exact E|]. apply H. now left.
  - rewrite IH; [reflexivity|]. intros e He. apply H. now right.
Qed.

(** An entry that is not newer than the last of the sorted ones leaves the
    last one last. *)
Lemma insert_by_mtime_last (x d : entry) (l : list entry) :
  l <> [] -> st_mtime x <= st_mtime (last l d) ->
  last (insert_by_mtime x l) d = last l d.
Proof.
  induction l as [|y l IH]; [congruence|]. intros _ H.
  cbn [insert_by_mtime].
  destruct (Qle_bool (st_mtime x) (st_mtime y)) eqn:E; [reflexivity|].
  destruct l as [|z l].
  - cbn [last] in H. apply Qle_bool_iff in H. congruence.
  - change (last (y :: z :: l) d) with (last (z :: l) d) in *.
    assert (Hne : insert_by_mtime x (z :: l) <> []).
    { cbn [insert_by_mtime].
      destruct (Qle_bool (st_mtime x) (st_mtime z)); intros Hc; discriminate Hc. }
    transitivity (last (insert_by_mtime x (z :: l)) d).
    + destruct (insert_by_mtime x (z :: l)); [congruence|reflexivity].
    + apply IH; [discriminate|exact H].
Qed.

Lemma sorted_by_mtime_nonempty (l : list entry) :
  l <> [] -> sorted_by_mtime l <> [].
Proof.
  destruct l as [|x l]; [congruence|]. intros _ H.
  assert (Hin : In x (sorted_by_mtime (x :: l)))
    by (apply sorted_by_mtime_In; now left).
  rewrite H in Hin. destruct Hin.
Qed.

Lemma sorted_last (a b : list entry) (x d : entry) :
  (forall e, In e a -> st_mtime e <= st_mtime x) ->
  (forall e, In e b -> st_mtime e < st_mtime x) ->
  last (sorted_by_mtime (a ++ x :: b)) d = x.
Proof.
  intros Ha Hb. induction a as [|y a IH].
  - cbn [app sorted_by_mtime fold_right]. fold (sorted_by_mtime b).
    rewrite insert_by_mtime_newest.
    + apply last_last.
    + intros e He. apply Hb. now apply sorted_by_mtime_In.
  - cbn [app sorted_by_mtime fold_right]. fold (sorted_by_mtime (a ++ x :: b)).
    assert (IH' : last (sorted_by_mtime (a ++ x :: b)) d = x)
      by (apply IH; intros e He; apply Ha; now right).
    rewrite insert_by_mtime_last.
    + exact IH'.
    + apply sorted_by_mtime_nonempty. destruct a; discriminate.
    + rewrite IH'. apply Ha. now left.
Qed.

(** X18. [_latest_receipt] returns nothing exactly when the directory
    has no receipt. A file it returns is one of the files found and none of
    them is newer; and it returns the file that is at least as new as the
    files found before it and newer than the files found after it: of the
    newest files, the one found last. *)
Theorem latest_receipt_is_newest (found : list entry) :
  (_latest_receipt found = None <-> found = [])
  /\ (forall p,
         _latest_receipt found = Some p ->
         exists t, In (p, t) found
                   /\ forall e, In e found -> st_mtime e <= t)
  /\ (forall a b p t,
         found = a ++ (p, t) :: b ->
         (forall e, In e a -> st_mtime e <= t) ->
         (forall e, In e b -> st_mtime e < t) ->
         _latest_receipt found = Some p).
Proof.
  unfold _latest_receipt. split; [|split].
  - destruct (sorted_by_mtime found) as [|x l] eqn:E.
    + split; [intros _|reflexivity].
      destruct found as [|y f]; [reflexivity|].
      exfalso. revert E. apply sorted_by_mtime_nonempty. discriminate.
    + split; [discriminate|]. intros ->. discriminate.
  - intros p. destruct (sorted_by_mtime found) as [|x l] eqn:E; [discriminate|].
    intros H. injection H as <-.
    pose proof (sorted_by_mtime_ascending found) as Ha. rewrite E in Ha.
    assert (Hin : In (last (x :: l) x) (x :: l)) by (apply last_In; discriminate).
    exists (snd (last (x :: l) x)). split.
    + rewrite <- surjective_pairing. apply sorted_by_mtime_In.
      rewrite E. exact Hin.
    + intros e He. apply (ascending_last x (x :: l) Ha).
      rewrite <- E. now apply sorted_by_mtime_In.
  - intros a b p t -> Ha Hb.
    destruct (sorted_by_mtime (a ++ (p, t) :: b)) as [|x l] eqn:E.
    + exfalso. revert E. apply sorted_by_mtime_nonempty. destruct a; discriminate.
    + rewrite <- E.
      exact (f_equal (fun e : entry => Some (fst e))
                     (sorted_last a b (p, t) x Ha Hb)).
Qed.

End ReceiptDirFacts.

(* ================================================================== *)
(** * The statistics of the benchmark *)
(* ================================================================== *)

Module BenchmarkFacts.

Import Py Json PyFacts DecoderFacts.
Import ConsumerFacts TimingFacts SessionFacts.
Import Benchmark.
Open Scope Z_scope.

(** The values a list of results adds to a list of optional times. *)
Definition present {A} (f : Streaming.StreamResult -> option A)
           (results : list Streaming.StreamResult) : list A :=
  flat_map (fun r => match f r with Some a => [a] | None => [] end) results.

(** The runs that count as succeeded. *)
Definition succeeded (results : list Streaming.StreamResult)
  : list Streaming.StreamResult :=
  filter (fun r => negb (has_error r)) results.

Definition sumZ (l : list Z) : Z := fold_right Z.add 0 l.

(** The statistics after adding [results] to [stats]. *)
Definition totals (stats : ProviderStats) (results : list Streaming.StreamResult)
  : ProviderStats :=
  let ok := succeeded results in
  mkProviderStats (name stats) (model stats)
    (ttfb_ms stats ++ present Streaming.ttfb_ms ok)
    (ttc_ms stats ++ present Streaming.ttc_ms ok)
    (prompt_tokens stats ++ map Streaming.prompt_tokens ok)
    (completion_tokens stats ++ map Streaming.completion_tokens ok)
    (stalls stats + sumZ (map Streaming.stall_count ok))
    (errors stats + Z.of_nat (length results - length ok))
    (runs stats + Z.of_nat (length results)).

Lemma succeeded_length (results : list Streaming.StreamResult) :
  (length (succeeded results) <= length results)%nat.
Proof. apply filter_length_le. Qed.

Lemma fold_add (results : list Streaming.StreamResult) :
  forall stats, fold_left add results stats = totals stats results.
Proof.
  induction results as [|r results IH]; intros stats.
  - destruct stats. unfold totals. cbn.
    now rewrite !app_nil_r, !Z.add_0_r.
  - cbn [fold_left]. rewrite IH. unfold totals, succeeded, add.
    cbn [filter]. fold (succeeded results).
    pose proof (succeeded_length results) as Hle.
    destruct (has_error r); cbn [negb name model ttfb_ms ttc_ms prompt_tokens
                                 completion_tokens stalls errors runs].
    + f_equal; cbn [length]; lia.
    + cbn [map present flat_map sumZ fold_right length].
      fold (present Streaming.ttfb_ms (succeeded results)).
      fold (present Streaming.ttc_ms (succeeded results)).
      fold (sumZ (map Streaming.stall_count (succeeded results))).
      f_equal; rewrite <- ?app_assoc; cbn [app]; try lia; try reflexivity.
      * destruct (Streaming.ttfb_ms r); cbn [append_some app];
          rewrite <- ?app_assoc; reflexivity.
      * destruct (Streaming.ttc_ms r); cbn [append_some app];
          rewrite <- ?app_assoc; reflexivity.
Qed.

(** X19. The statistics of a provider after any runs have been added:
    [runs] is the number of runs, [errors] the number of those with an
    error that is not empty, the two token lists hold the counts of the
    other runs in order, [stalls] is the sum of their stall counts, and the
    two lists of times hold the times of those of them that have one; so
    the runs are the errors and the entries of a token list together. *)
Theorem provider_stats_totals
        (name model : str) (results : list Streaming.StreamResult) :
  let stats := fold_left add results (ProviderStats_new name model) in
  let ok := succeeded results in
  runs stats = Z.of_nat (length results)
  /\ errors stats = Z.of_nat (length results - length ok)
  /\ prompt_tokens stats = map Streaming.prompt_tokens ok
  /\ completion_tokens stats = map Streaming.completion_tokens ok
  /\ stalls stats = sumZ (map Streaming.stall_count ok)
  /\ ttfb_ms stats = present Streaming.ttfb_ms ok
  /\ ttc_ms stats = present Streaming.ttc_ms ok
  /\ runs stats = errors stats + Z.of_nat (length (prompt_tokens stats))
  /\ (length (ttfb_ms stats) <= length (prompt_tokens stats))%nat
  /\ (length (ttc_ms stats) <= length (completion_tokens stats))%nat.
Proof.
  cbv zeta. rewrite fold_add. unfold totals, ProviderStats_new.
  cbn [Benchmark.name Benchmark.model ttfb_ms ttc_ms prompt_tokens
       completion_tokens stalls errors runs app].
  pose proof (succeeded_length results) as Hle.
  assert (Hp : forall A (f : Streaming.StreamResult -> option A) l,
             (length (present f l) <= length l)%nat).
  { intros A f l. induction l as [|r l IH]; [reflexivity|].
    unfold present in *. cbn [flat_map]. rewrite length_app.
    destruct (f r); cbn [length]; lia. }
  repeat split; rewrite ?length_map; try apply Hp; lia.
Qed.

(** ** The loop of [main] *)

Definition call (w : Streaming.world) (model : str) (payload : bytes)
  : exn + Streaming.StreamResult :=
  fst (Streaming.stream_chat w model payload (2000 # 1) false
         (lit "data/receipts") (Streaming.mkFs [] [])).

(** A result that [main] prints without raising. *)
Definition printable (r : Streaming.StreamResult) : Prop :=
  has_error r = true
  \/ (Streaming.ttfb_ms r <> None /\ Streaming.ttc_ms r <> None).

Lemma print_run_inv (r : Streaming.StreamResult) :
  print_run r = inr tt -> printable r.
Proof.
  unfold print_run, printable. destruct (has_error r); [now left|].
  destruct (Streaming.ttfb_ms r), (Streaming.ttc_ms r); try discriminate.
  intros _. right. split; discriminate.
Qed.

(** The results of the runs that are timed, when the first of them is
    run [i]: those of the runs from [warmup] on. *)
Fixpoint timed (warmup i : Z) (results : list Streaming.StreamResult)
  : list Streaming.StreamResult :=
  match results with
  | [] => []
  | r :: rest =>
    if warmup <=? i then r :: timed warmup (i + 1) rest
    else timed warmup (i + 1) rest
  end.

Lemma timed_skipn (warmup : Z) (results : list Streaming.StreamResult) :
  forall i, 0 <= i <= warmup ->
       timed warmup i results = skipn (Z.to_nat (warmup - i)) results.
Proof.
  induction results as [|r results IH]; intros i Hi.
  - now rewrite skipn_nil.
  - cbn [timed]. destruct (warmup <=? i) eqn:E.
    + apply Z.leb_le in E. replace (warmup - i) with 0 by lia. cbn [Z.to_nat skipn].
      f_equal. clear IH.
      assert (Hall : forall l j, warmup <= j -> timed warmup j l = l).
      { induction l as [|x l IHl]; intros j Hj; [reflexivity|].
        cbn [timed]. replace (warmup <=? j) with true
          by (symmetry; apply Z.leb_le; lia).
        f_equal. apply IHl. lia. }
      apply Hall. lia.
    + apply Z.leb_gt in E. rewrite IH by lia.
      replace (Z.to_nat (warmup - i)) with (S (Z.to_nat (warmup - (i + 1))))
        by lia.
      reflexivity.
Qed.

(** A loop that ends without raising made every call, could print every
    result, and added the results of the timed runs. *)
Lemma run_loop_inv (warmup : Z) (model : str) (payload : bytes) :
  forall calls i stats stats',
    run_loop warmup model payload i calls stats = inr stats' ->
    exists results,
      Forall2 (fun w r => call w model payload = inr r) calls results
      /\ Forall printable results
      /\ stats' = fold_left add (timed warmup i results) stats.
Proof.
  induction calls as [|w rest IH]; intros i stats stats' H.
  - injection H as <-. exists []. repeat constructor.
  - cbn [run_loop] in H. unfold bind in H. fold (call w model payload) in H.
    destruct (call w model payload) as [e|r] eqn:Ec; [discriminate|].
    destruct (print_run r) as [e|[]] eqn:Ep; [discriminate|].
    apply IH in H as (results & Hcalls & Hprint & ->).
    exists (r :: results). split; [constructor; assumption|].
    split; [constructor; [now apply print_run_inv|assumption]|].
    cbn [timed]. destruct (warmup <=? i); reflexivity.
Qed.

(** The result of a call has a time to completion. *)
Lemma call_ttc (w : Streaming.world) (model : str) (payload : bytes)
      (r : Streaming.StreamResult) :
  call w model payload = inr r -> Streaming.ttc_ms r <> None.
Proof.
  unfold call.
  destruct (Streaming.stream_chat _ _ _ _ _ _ _) as [[e|r'] fs'] eqn:E;
    [discriminate|].
  cbn [fst]. intros H. injection H as ->.
  apply stream_chat_inv in E as (s & _ & _ & _ & _ & _ & _ & _ & Hc).
  rewrite Hc. discriminate.
Qed.

Lemma Forall2_In_r {A B} (P : A -> B -> Prop) (la : list A) (lb : list B) (b : B) :
  Forall2 P la lb -> In b lb -> exists a, In a la /\ P a b.
Proof.
  induction 1 as [|x y la lb Hxy _ IH]; intros Hin; [destruct Hin|].
  destruct Hin as [<-|Hin].
  - exists x. split; [now left|exact Hxy].
  - destruct (IH Hin) as (a & Ha & HP). exists a. split; [now right|exact HP].
Qed.

Lemma present_all {A} (f : Streaming.StreamResult -> option A)
      (l : list Streaming.StreamResult) :
  Forall (fun r => f r <> None) l -> length (present f l) = length l.
Proof.
  induction 1 as [|r l Hr _ IH]; [reflexivity|].
  unfold present in *. cbn [flat_map]. rewrite length_app, IH.
  destruct (f r); [reflexivity|congruence].
Qed.

(** X20. The runs of a provider in [main], when none of them raises,
    for counts of warmup runs and of timed runs that are not negative: the
    statistics count the timed runs and leave the warmup runs out; their
    errors are between zero and the number of timed runs; and for each
    timed run without error they hold one time to first byte, one time to
    completion and the two token counts. *)
Theorem benchmark_counts_timed_runs
        (warmup runs : Z) (name model : str) (payload : bytes)
        (world_of : nat -> Streaming.world) (stats : ProviderStats) :
  0 <= warmup -> 0 <= runs ->
  provider_runs warmup runs name model payload world_of = inr stats ->
  Benchmark.runs stats = runs
  /\ 0 <= errors stats <= runs
  /\ Z.of_nat (length (prompt_tokens stats)) = runs - errors stats
  /\ length (completion_tokens stats) = length (prompt_tokens stats)
  /\ length (ttfb_ms stats) = length (prompt_tokens stats)
  /\ length (ttc_ms stats) = length (prompt_tokens stats)
  /\ Benchmark.name stats = name
  /\ Benchmark.model stats = model.
Proof.
  intros Hw Hr H. unfold provider_runs in H. cbv zeta in H.
  apply run_loop_inv in H as (results & Hcalls & Hprint & ->).
  assert (Hlen : length results = Z.to_nat (warmup + runs)).
  { apply Forall2_length in Hcalls. now rewrite length_map, length_seq in Hcalls. }
  rewrite timed_skipn by lia. rewrite Z.sub_0_r.
  set (kept := skipn (Z.to_nat warmup) results).
  assert (Hkept : length kept = Z.to_nat runs)
    by (subst kept; rewrite length_skipn; lia).
  assert (Hin : forall r, In r kept -> In r results).
  { intros r Hr'. subst kept.
    rewrite <- (firstn_skipn (Z.to_nat warmup) results).
    apply in_or_app. now right. }
  assert (Httc : Forall (fun r => Streaming.ttc_ms r <> None) (succeeded kept)).
  { apply Forall_forall. intros r Hr'. apply filter_In in Hr' as [Hr' _].
    apply Hin in Hr'.
    destruct (Forall2_In_r _ _ _ r Hcalls Hr') as (w & _ & Hc).
    eapply call_ttc; eauto. }
  assert (Httfb : Forall (fun r => Streaming.ttfb_ms r <> None) (succeeded kept)).
  { apply Forall_forall. intros r Hr'. apply filter_In in Hr' as [Hr' Hne].
    apply Hin in Hr'. rewrite Forall_forall in Hprint.
    destruct (Hprint r Hr') as [He|[Hf _]]; [|exact Hf].
    rewrite He in Hne. discriminate. }
  rewrite fold_add. unfold totals, ProviderStats_new.
  cbn [Benchmark.name Benchmark.model ttfb_ms ttc_ms prompt_tokens
       completion_tokens stalls errors Benchmark.runs app].
  pose proof (succeeded_length kept) as Hle.
  rewrite !length_map, (present_all _ _ Httfb), (present_all _ _ Httc).
  repeat split; lia.
Qed.

(** ** A run without frames *)

(** The transport reports nothing, or an error whose text is empty. *)
Definition quiet (w : Streaming.world) : bool :=
  match Streaming.server w with
  | Streaming.Refused exc
  | Streaming.Body _ (Some exc) => match exc with [] => true | _ :: _ => false end
  | Streaming.Body _ None => true
  end.

Lemma frameless_call (w : Streaming.world) (model : str) (payload : bytes) :
  Streaming.through_sentinel (Streaming.received w) = [] ->
  quiet w = true ->
  exists r, call w model payload = inr r
            /\ has_error r = false /\ Streaming.ttfb_ms r = None.
Proof.
  unfold call, quiet, Streaming.received, Streaming.stream_chat,
    Streaming.request, has_error.
  destruct (Streaming.server w) as [exc|lines failure].
  - intros _ Hq. destruct exc; [|discriminate].
    eexists. split; [reflexivity|]. split; reflexivity.
  - intros Hf Hq.
    destruct (Streaming._iter_sse_data (map Streaming.LBytes lines)) as [|ev l].
    + cbn [Streaming.consume bind ret].
      destruct failure as [[|c exc]|]; try discriminate;
        eexists; (split; [reflexivity|]); split; reflexivity.
    + exfalso. revert Hf. apply through_sentinel_nonempty. discriminate.
Qed.

(** X21. A run of the benchmark whose stream carries no frame and whose
    transport reports no error text makes [main] raise a [TypeError] when
    it prints the run, during warmup as well: the result has no error and
    no time to first byte, and the line printed formats that time. *)
Theorem frameless_run_raises
        (warmup : Z) (model : str) (payload : bytes) (i : Z)
        (w : Streaming.world) (rest : list Streaming.world)
        (stats : ProviderStats) :
  Streaming.through_sentinel (Streaming.received w) = [] ->
  quiet w = true ->
  run_loop warmup model payload i (w :: rest) stats = inl TypeError.
Proof.
  intros Hf Hq.
  destruct (frameless_call w model payload Hf Hq) as (r & Hc & He & Ht).
  cbn [run_loop]. fold (call w model payload). rewrite Hc. cbn [bind].
  unfold print_run. rewrite He, Ht. reflexivity.
Qed.

Lemma frameless_run_raises_witness :
  run_loop 1 (lit "m") (lit "{}") 0
           [ConsumerClaims.silent_world; ConsumerClaims.sample_world]
           (ProviderStats_new (lit "ambient") (lit "m"))
  = inl TypeError.
Proof.
  apply (frameless_run_raises
           1 (lit "m") (lit "{}") 0 ConsumerClaims.silent_world
           [ConsumerClaims.sample_world]
           (ProviderStats_new (lit "ambient") (lit "m"))).
  - vm_compute. reflexivity.
  - reflexivity.
Defined.

(** One warmup run and two timed runs of the session of
    [ConsumerClaims.sample_world]. *)
Definition three_runs : ProviderStats :=
  Eval vm_compute in
    match provider_runs 1 2 (lit "ambient") (lit "m") (lit "{}")
                        (fun _ => ConsumerClaims.sample_world) with
    | inr stats => stats
    | inl _ => ProviderStats_new [] []
    end.

Lemma benchmark_counts_timed_runs_witness :
  Benchmark.runs three_runs = 2
  /\ 0 <= errors three_runs <= 2
  /\ Z.of_nat (length (prompt_tokens three_runs)) = 2 - errors three_runs
  /\ length (completion_tokens three_runs) = length (prompt_tokens three_runs)
  /\ length (ttfb_ms three_runs) = length (prompt_tokens three_runs)
  /\ length (ttc_ms three_runs) = length (prompt_tokens three_runs)
  /\ Benchmark.name three_runs = lit "ambient"
  /\ Benchmark.model three_runs = lit "m".
Proof.
  apply (benchmark_counts_timed_runs
           1 2 (lit "ambient") (lit "m") (lit "{}")
           (fun _ => ConsumerClaims.sample_world) three_runs).
  - lia.
  - lia.
  - vm_compute. reflexivity.
Defined.

End BenchmarkFacts.

(* ================================================================== *)
(** * The run specs *)
(* ================================================================== *)

Module BenchFacts.

Import Py Bench.
Open Scope Z_scope.

Lemma range_length (n : Z) : length (range n) = Z.to_nat n.
Proof. unfold range. now rewrite length_map, length_seq. Qed.

Lemma seq_shifted (k len : nat) :
  forall start,
    map Z.of_nat (seq (k + start) len)
    = map (fun i => Z.of_nat k + i) (map Z.of_nat (seq start len)).
Proof.
  induction len as [|len IH]; intros start; [reflexivity|].
  cbn [seq map]. f_equal; [lia|].
  replace (S (k + start)) with (k + S start)%nat by lia. apply IH.
Qed.

Lemma range_app (a b : Z) :
  0 <= a -> 0 <= b ->
  range (a + b) = range a ++ map (fun i => a + i) (range b).
Proof.
  intros Ha Hb. unfold range.
  rewrite Z2Nat.inj_add, seq_app, map_app by lia. f_equal.
  replace (0 + Z.to_nat a)%nat with (Z.to_nat a + 0)%nat by lia.
  rewrite seq_shifted. rewrite Z2Nat.id by lia. reflexivity.
Qed.

(** X22. The run specs of an enabled benchmark, for counts of warmup runs
    and of timed runs that are not negative: there is one spec for each run,
    the specs are numbered from zero in the order of the list, each holds
    the total number of runs, the warmup runs come first and are marked as
    such, and the specs that [run] records are as many as the timed runs. *)
Theorem run_specs_enumerate (warmup_runs bench_runs : Z) :
  0 <= warmup_runs -> 0 <= bench_runs ->
  let specs := iter_run_specs true warmup_runs bench_runs in
  Z.of_nat (length specs) = warmup_runs + bench_runs
  /\ map index specs = range (warmup_runs + bench_runs)
  /\ Forall (fun spec => total spec = Z.of_nat (length specs)) specs
  /\ map warmup specs
     = repeat true (Z.to_nat warmup_runs) ++ repeat false (Z.to_nat bench_runs)
  /\ Forall (fun spec => warmup spec = (index spec <? warmup_runs)) specs
  /\ Z.of_nat (length (recorded specs)) = bench_runs.
Proof.
  intros Hw Hb specs. subst specs. unfold iter_run_specs. cbn [negb].
  set (warm := map _ (range warmup_runs)).
  set (timed := map _ (range bench_runs)).
  assert (Hlw : length warm = Z.to_nat warmup_runs)
    by (subst warm; now rewrite length_map, range_length).
  assert (Hlt : length timed = Z.to_nat bench_runs)
    by (subst timed; now rewrite length_map, range_length).
  assert (Hlen : Z.of_nat (length (warm ++ timed)) = warmup_runs + bench_runs)
    by (rewrite length_app; lia).
  assert (Hrange : forall n i, In i (range n) -> 0 <= i < n).
  { intros n i Hi. unfold range in Hi. apply in_map_iff in Hi as (k & <- & Hk).
    apply in_seq in Hk. lia. }
  split; [exact Hlen|]. split; [|split; [|split; [|split]]].
  - rewrite map_app, range_app by assumption. subst warm timed.
    rewrite !map_map. cbn [index]. now rewrite map_id.
  - rewrite Hlen. apply Forall_app. subst warm timed.
    split; apply Forall_map, Forall_forall; intros i _; reflexivity.
  - rewrite map_app. subst warm timed. rewrite !map_map. cbn [warmup].
    rewrite !map_const, !range_length. reflexivity.
  - apply Forall_app. subst warm timed.
    split; apply Forall_map, Forall_forall; intros i Hi; cbn [warmup index];
      apply Hrange in Hi; symmetry.
    + apply Z.ltb_lt. lia.
    + apply Z.ltb_ge. lia.
  - unfold recorded. rewrite filter_app, length_app.
    assert (H1 : filter (fun spec => negb (warmup spec)) warm = []).
    { subst warm. generalize (range warmup_runs). intros l.
      induction l as [|i l IH]; [reflexivity|]. cbn [map filter warmup negb].
      exact IH. }
    assert (H2 : filter (fun spec => negb (warmup spec)) timed = timed).
    { subst timed. generalize (range bench_runs). intros l.
      induction l as [|i l IH]; [reflexivity|]. cbn [map filter warmup negb].
      now rewrite IH. }
    rewrite H1, H2. cbn [length]. lia.
Qed.

Lemma run_specs_enumerate_witness :
  Z.of_nat (length (iter_run_specs true 1 3)) = 1 + 3
  /\ map index (iter_run_specs true 1 3) = range (1 + 3)
  /\ Forall (fun spec => total spec
                         = Z.of_nat (length (iter_run_specs true 1 3)))
            (iter_run_specs true 1 3)
  /\ map warmup (iter_run_specs true 1 3)
     = repeat true (Z.to_nat 1) ++ repeat false (Z.to_nat 3)
  /\ Forall (fun spec => warmup spec = (index spec <? 1))
            (iter_run_specs true 1 3)
  /\ Z.of_nat (length (recorded (iter_run_specs true 1 3))) = 3.
Proof.
  apply (run_specs_enumerate 1 3); lia.
Defined.

End BenchFacts.

(* ================================================================== *)
(** * The models of a provider *)
(* ================================================================== *)

Module ProviderUtilsFacts.

Import Py PyFacts DecoderFacts TextFacts ProviderUtils.
Open Scope N_scope.

(** A character of a model name: not a comma and not a line boundary. *)
Definition name_char (c : N) : bool := negb (c =? 0x2C) && negb (is_linebreak c).

Lemma forallb_rev_eq {A} (p : A -> bool) (l : list A) :
  forallb p (rev l) = forallb p l.
Proof.
  induction l as [|x l IH]; [reflexivity|]. cbn [rev forallb].
  rewrite forallb_app, IH. cbn. rewrite andb_true_r. apply andb_comm.
Qed.

(** The lines of a text hold only characters of the text. *)
Lemma splitlines_from_chars (p : N -> bool) (n : nat) :
  forall s line,
    (length s <= n)%nat ->
    forallb p s = true -> forallb p line = true ->
    Forall (fun l => forallb p l = true) (splitlines_from line s).
Proof.
  induction n as [|n IH]; intros s line Hn Hs Hl.
  - destruct s; [|cbn in Hn; lia]. cbn [splitlines_from].
    destruct line; [constructor|].
    constructor; [now rewrite forallb_rev_eq|constructor].
  - destruct s as [|c s].
    { cbn [splitlines_from]. destruct line; [constructor|].
      constructor; [now rewrite forallb_rev_eq|constructor]. }
    cbn [length] in Hn. cbn [forallb] in Hs.
    apply andb_true_iff in Hs as [Hc Hs].
    cbn [splitlines_from]. destruct (is_linebreak c).
    + constructor; [now rewrite forallb_rev_eq|].
      destruct s as [|d s'].
      * apply IH; [cbn; lia|reflexivity|reflexivity].
      * cbn [forallb] in Hs. pose proof Hs as Hs0.
        apply andb_true_iff in Hs as [Hd Hs'].
        cbn [length] in Hn.
        destruct ((c =? 0x0D) && (d =? 0x0A)); apply IH;
          try reflexivity; try assumption; cbn [length]; lia.
    + apply IH; [lia|exact Hs|]. cbn [forallb]. now rewrite Hc, Hl.
Qed.

(** A line holds no line boundary. *)
Lemma splitlines_from_unbroken (n : nat) :
  forall s line,
    (length s <= n)%nat ->
    forallb (fun c => negb (is_linebreak c)) line = true ->
    Forall (fun l => forallb (fun c => negb (is_linebreak c)) l = true)
           (splitlines_from line s).
Proof.
  induction n as [|n IH]; intros s line Hn Hl.
  - destruct s; [|cbn in Hn; lia]. cbn [splitlines_from].
    destruct line; [constructor|].
    constructor; [now rewrite forallb_rev_eq|constructor].
  - destruct s as [|c s].
    { cbn [splitlines_from]. destruct line; [constructor|].
      constructor; [now rewrite forallb_rev_eq|constructor]. }
    cbn [length] in Hn.
    cbn [splitlines_from]. destruct (is_linebreak c) eqn:Ec.
    + constructor; [now rewrite forallb_rev_eq|].
      destruct s as [|d s'].
      * apply IH; [cbn; lia|reflexivity].
      * cbn [length] in Hn.
        destruct ((c =? 0x0D) && (d =? 0x0A)); apply IH;
          try reflexivity; cbn [length]; lia.
    + apply IH; [lia|]. cbn [forallb]. now rewrite Ec, Hl.
Qed.

Lemma forallb_and {A} (p q : A -> bool) (l : list A) :
  forallb p l = true -> forallb q l = true ->
  forallb (fun x => p x && q x) l = true.
Proof.
  induction l as [|x l IH]; [reflexivity|]. cbn [forallb].
  intros Hp Hq. apply andb_true_iff in Hp as [-> Hp].
  apply andb_true_iff in Hq as [-> Hq]. cbn. auto.
Qed.

Lemma lines_name_chars (raw : str) :
  Forall (fun l => forallb name_char l = true)
         (splitlines (replace_char 0x2C 0x0A raw)).
Proof.
  unfold splitlines. set (s := replace_char 0x2C 0x0A raw).
  assert (H1 : Forall (fun l => forallb (fun c => negb (c =? 0x2C)) l = true)
                      (splitlines_from [] s)).
  { apply (splitlines_from_chars _ (length s)); [lia| |reflexivity].
    subst s. unfold replace_char. induction raw as [|c raw IH]; [reflexivity|].
    cbn [map forallb]. rewrite IH, andb_true_r.
    destruct (c =? 0x2C) eqn:E; [reflexivity|]. now rewrite E. }
  assert (H2 : Forall (fun l => forallb (fun c => negb (is_linebreak c)) l = true)
                      (splitlines_from [] s))
    by (apply (splitlines_from_unbroken (length s)); [lia|reflexivity]).
  rewrite Forall_forall in *. intros l Hl.
  apply forallb_and; auto.
Qed.

(** Stripping keeps the characters of a text. *)
Lemma lstrip_chars (p : N -> bool) (s : str) :
  forallb p s = true -> forallb p (lstrip s) = true.
Proof.
  induction s as [|c s IH]; [reflexivity|]. cbn [forallb lstrip].
  intros H. destruct (isspace c); [|exact H].
  apply andb_true_iff in H as [_ H]. auto.
Qed.

Lemma strip_chars (p : N -> bool) (s : str) :
  forallb p s = true -> forallb p (strip s) = true.
Proof.
  intros H. unfold strip, rstrip.
  rewrite forallb_rev_eq. apply lstrip_chars.
  rewrite forallb_rev_eq. now apply lstrip_chars.
Qed.

Lemma mem_In (m : str) (seen : list str) : mem m seen = true <-> In m seen.
Proof.
  unfold mem. rewrite existsb_exists. split.
  - intros (x & Hin & Hx). apply str_eqb_eq in Hx. now subst.
  - intros H. exists m. split; [exact H|apply str_eqb_refl].
Qed.

(** A model as [parse_models] lists it. *)
Definition model_name (m : str) : Prop :=
  m <> [] /\ strip m = m /\ forallb name_char m = true.

Lemma collect_models_inv (lines : list str) :
  Forall (fun l => forallb name_char l = true) lines ->
  forall seen result,
    (forall m, In m seen <-> In m result) ->
    NoDup result -> Forall model_name result ->
    NoDup (collect_models lines seen result)
    /\ Forall model_name (collect_models lines seen result)
    /\ (forall m, In m (collect_models lines seen result)
                  <-> In m result
                      \/ (m <> [] /\ exists l, In l lines /\ strip l = m)).
Proof.
  induction 1 as [|l lines Hl _ IH]; intros seen result Hsame Hnd Hok.
  - cbn [collect_models]. split; [exact Hnd|]. split; [exact Hok|].
    intros m. split; [now left|]. intros [H|(_ & x & [] & _)]. exact H.
  - cbn [collect_models].
    destruct (strip l) as [|c t] eqn:Es; cbn [negb andb].
    + destruct (IH seen result Hsame Hnd Hok) as (I1 & I2 & I3).
      split; [exact I1|]. split; [exact I2|].
      intros m. rewrite I3. split; intros [H|(Hne & x & Hx & Hs)]; auto.
      * right. split; [exact Hne|]. exists x. split; [now right|exact Hs].
      * destruct Hx as [<-|Hx]; [congruence|].
        right. split; [exact Hne|]. eauto.
    + destruct (mem (c :: t) seen) eqn:Em; cbn [negb].
      * destruct (IH seen result Hsame Hnd Hok) as (I1 & I2 & I3).
        split; [exact I1|]. split; [exact I2|].
        intros m. rewrite I3. split; intros [H|(Hne & x & Hx & Hs)]; auto.
        -- right. split; [exact Hne|]. exists x. split; [now right|exact Hs].
        -- destruct Hx as [<-|Hx].
           ++ left. apply Hsame, mem_In. congruence.
           ++ right. split; [exact Hne|]. eauto.
      * assert (Hnew : ~ In (c :: t) result).
        { intros Hin. apply Hsame, mem_In in Hin. congruence. }
        destruct (IH ((c :: t) :: seen) (result ++ [c :: t])) as (I1 & I2 & I3).
        -- intros m. cbn [In]. rewrite in_app_iff, Hsame. cbn [In]. tauto.
        -- apply NoDup_app; [exact Hnd|repeat constructor; intros []|].
           intros x Hx [<-|[]]. contradiction.
        -- apply Forall_app. split; [exact Hok|]. constructor; [|constructor].
           split; [discriminate|]. split.
           ++ rewrite <- Es. apply strip_idem.
           ++ rewrite <- Es. now apply strip_chars.
        -- split; [exact I1|]. split; [exact I2|].
           intros m. rewrite I3, in_app_iff. cbn [In].
           split.
           ++ intros [[H|[<-|[]]]|(Hne & x & Hx & Hs)]; auto.
              ** right. split; [discriminate|]. exists l. split; [now left|exact Es].
              ** right. split; [exact Hne|]. exists x. split; [now right|exact Hs].
           ++ intros [H|(Hne & x & [<-|Hx] & Hs)]; auto.
              ** left. right. left. congruence.
              ** right. split; [exact Hne|]. eauto.
Qed.

(** X23. The models [parse_models] lists are all different; each is a
    non-empty text without white space at its ends, without a comma and
    without a line boundary; and a text is listed exactly when it is what
    is left, after stripping, of one of the parts of the raw text between
    commas and line boundaries, and is not empty. *)
Theorem parse_models_distinct_names (raw : str) :
  NoDup (parse_models raw)
  /\ Forall model_name (parse_models raw)
  /\ forall m,
       In m (parse_models raw)
       <-> m <> []
           /\ exists part,
                In part (splitlines (replace_char 0x2C 0x0A raw))
                /\ strip part = m.
Proof.
  unfold parse_models.
  destruct (collect_models_inv _ (lines_name_chars raw) [] [])
    as (H1 & H2 & H3); [reflexivity|constructor|constructor|].
  split; [exact H1|]. split; [exact H2|].
  intros m. rewrite H3. cbn [In]. tauto.
Qed.

Example parse_models_sample :
  parse_models (lit "gpt-4o, zai-org/GLM-4.6 ,,gpt-4o")
  = [lit "gpt-4o"; lit "zai-org/GLM-4.6"].
Proof. vm_compute. reflexivity. Qed.

End ProviderUtilsFacts.

Module TableFacts.

Import Py Benchmark.
Open Scope nat_scope.

(** The text [s] fits a column of width [w], with a space on either side. *)
Definition fits (s : str) (w : nat) : Prop := length s + 2 <= w.

Lemma cell_length (s : str) (w : nat) : fits s w -> length (cell s w) = w.
Proof.
  unfold fits, cell, ljust. intros H. cbn [length].
  rewrite length_app, repeat_length. lia.
Qed.

Lemma col_width_fits (values : list str) (header : str) :
  fits header (_col_width values header)
  /\ forall s, In s values -> fits s (_col_width values header).
Proof.
  unfold fits, _col_width. split; [lia|].
  intros s Hs.
  assert (H : length s <= fold_right Nat.max 0 (map (@length N) values)).
  { induction values as [|v values IH]; [destruct Hs|].
    cbn [map fold_right]. destruct Hs as [<-|Hs]; [lia|].
    specialize (IH Hs). lia. }
  lia.
Qed.

Lemma column_inv (i : nat) (rows : list (list str)) (values : list str) :
  column i rows = Some values ->
  forall r, In r rows -> exists s, nth_error r i = Some s /\ In s values.
Proof.
  revert values. induction rows as [|r0 rows IH]; intros values H r Hr;
    [destruct Hr|].
  cbn [column] in H.
  destruct (nth_error r0 i) as [s0|] eqn:E0; [|discriminate].
  destruct (column i rows) as [l|]; [|discriminate].
  injection H as <-. destruct Hr as [<-|Hr].
  - exists s0. split; [exact E0|now left].
  - destruct (IH l eq_refl r Hr) as (s & Hs & Hin).
    exists s. split; [exact Hs|now right].
Qed.

Lemma column_total (i : nat) (rows : list (list str)) :
  Forall (fun r => i < length r) rows -> exists values, column i rows = Some values.
Proof.
  induction 1 as [|r rows Hr _ [l IH]]; [eexists; reflexivity|].
  cbn [column]. rewrite IH.
  destruct (nth_error r i) eqn:E; [eexists; reflexivity|].
  apply nth_error_None in E. lia.
Qed.

Lemma skipn_nth (r : list str) (i : nat) (s : str) :
  nth_error r i = Some s -> skipn i r = s :: skipn (S i) r.
Proof.
  revert i. induction r as [|x r IH]; intros [|i] H; try discriminate.
  - now injection H as ->.
  - cbn [nth_error] in H. cbn [skipn]. rewrite (IH i H). reflexivity.
Qed.

(** The widths are wide enough for the headers and for the cells of every
    row. *)
Lemma col_widths_fit (rows : list (list str)) (headers : list str) :
  forall i widths,
    col_widths_from i rows headers = Some widths ->
    Forall2 fits headers widths
    /\ forall r, In r rows ->
                 Forall2 fits (firstn (length headers) (skipn i r)) widths.
Proof.
  induction headers as [|h headers IH]; intros i widths H.
  - injection H as <-. split; [constructor|]. intros r _. constructor.
  - cbn [col_widths_from] in H.
    destruct (column i rows) as [values|] eqn:Ec; [|discriminate].
    destruct (col_widths_from (S i) rows headers) as [ws|] eqn:Ew; [|discriminate].
    injection H as <-.
    destruct (IH (S i) ws Ew) as [Hh Hr].
    destruct (col_width_fits values h) as [Fh Fv].
    split; [constructor; assumption|].
    intros r Hin.
    destruct (column_inv i rows values Ec r Hin) as (s & Hs & Hsv).
    rewrite (skipn_nth r i s Hs). cbn [length firstn].
    constructor; [now apply Fv|now apply Hr].
Qed.

Lemma col_widths_total (rows : list (list str)) (headers : list str) :
  forall i,
    Forall (fun r => i + length headers <= length r) rows ->
    exists widths, col_widths_from i rows headers = Some widths.
Proof.
  induction headers as [|h headers IH]; intros i H; [eexists; reflexivity|].
  cbn [col_widths_from]. cbn [length] in H.
  destruct (column_total i rows) as [values ->].
  { eapply Forall_impl; [|exact H]. cbn. intros r Hr. lia. }
  destruct (IH (S i)) as [ws ->]; [|eexists; reflexivity].
  eapply Forall_impl; [|exact H]. cbn. intros r Hr. lia.
Qed.

Lemma cells_fit (widths : list nat) :
  forall row,
    Forall2 fits (firstn (length widths) row) widths ->
    exists cs, cells row widths = Some cs /\ map (@length N) cs = widths.
Proof.
  induction widths as [|w widths IH]; intros row H;
    [exists []; split; [destruct row; reflexivity|reflexivity]|].
  destruct row as [|s row]; [inversion H|].
  cbn [length firstn] in H. inversion H as [|? ? ? ? Hs Hrest]; subst.
  destruct (IH row Hrest) as (cs & Hc & Hl).
  exists (cell s w :: cs). cbn [cells]. rewrite Hc. split; [reflexivity|].
  cbn [map]. now rewrite cell_length, Hl.
Qed.

Definition total_width (widths : list nat) : nat :=
  list_sum widths + pred (length widths) + 2.

Lemma join_length (sep : N) (parts : list str) :
  length (join [sep] parts) = list_sum (map (@length N) parts) + pred (length parts).
Proof.
  induction parts as [|x [|y parts] IH]; [reflexivity|cbn; lia|].
  change (join [sep] (x :: y :: parts)) with (x ++ [sep] ++ join [sep] (y :: parts)).
  rewrite !length_app, IH. cbn [map list_sum length pred]. cbn. lia.
Qed.

Lemma rule_length (l m r : N) (widths : list nat) :
  length (rule l m r widths) = total_width widths.
Proof.
  unfold rule, total_width. cbn [length].
  rewrite length_app, join_length, map_map, length_map. cbn [length].
  replace (map (fun w => length (repeat HORIZONTAL w)) widths) with widths.
  - lia.
  - induction widths as [|w widths IH]; [reflexivity|].
    cbn [map]. now rewrite repeat_length, <- IH.
Qed.

Lemma table_line_length (cs : list str) (widths : list nat) :
  map (@length N) cs = widths -> length (table_line cs) = total_width widths.
Proof.
  intros <-. unfold table_line, total_width. cbn [length].
  rewrite length_app, join_length, length_map. cbn [length].
  unfold str. lia.
Qed.

Lemma row_lines_fit (widths : list nat) (rows : list (list str)) :
  (forall r, In r rows -> Forall2 fits (firstn (length widths) r) widths) ->
  exists body,
    row_lines rows widths = Some body
    /\ length body = length rows
    /\ Forall (fun l => length l = total_width widths) body.
Proof.
  induction rows as [|r rows IH]; intros H.
  - exists []. repeat split. constructor.
  - destruct (cells_fit widths r) as (cs & Hc & Hl); [apply H; now left|].
    destruct IH as (body & Hb & Hn & Hall); [intros r' Hr'; apply H; now right|].
    exists (table_line cs :: body). cbn [row_lines]. rewrite Hc, Hb.
    split; [reflexivity|]. split; [cbn; now rewrite Hn|].
    constructor; [now apply table_line_length|exact Hall].
Qed.

(** X24. The table of the benchmark is a rectangle. [_print_table] prints,
    without raising, exactly when every row has a cell for every header;
    it then prints the three rules, the header line and one line for each
    row, and all of these lines have the same length: every column is as
    wide as its longest cell or header and two more, so that no cell runs
    over the width of its column. *)
Theorem printed_table_is_rectangular
        (rows : list (list str)) (headers : list str) :
  (_print_table rows headers <> None
   <-> Forall (fun r => length headers <= length r) rows)
  /\ forall lines,
       _print_table rows headers = Some lines ->
       length lines = length rows + 4
       /\ exists width, Forall (fun l => length l = width) lines.
Proof.
  assert (Hrun : forall widths,
             col_widths_from 0 rows headers = Some widths ->
             exists header_row body,
               length widths = length headers
               /\ cells headers widths = Some header_row
               /\ map (@length N) header_row = widths
               /\ row_lines rows widths = Some body
               /\ length body = length rows
               /\ Forall (fun l => length l = total_width widths) body).
  { intros widths Hw.
    destruct (col_widths_fit rows headers 0 widths Hw) as [Hh Hr].
    pose proof (Forall2_length Hh) as Hlen.
    destruct (cells_fit widths headers) as (hr & Hc & Hl).
    { rewrite <- Hlen, firstn_all. exact Hh. }
    destruct (row_lines_fit widths rows) as (body & Hb & Hn & Hall).
    { intros r Hin. rewrite <- Hlen. apply (Hr r Hin). }
    exists hr, body. repeat split; auto. }
  split; [split|].
  - intros H. unfold _print_table in H.
    destruct (col_widths_from 0 rows headers) as [widths|] eqn:Ew; [|congruence].
    destruct (col_widths_fit rows headers 0 widths Ew) as [_ Hr].
    apply Forall_forall. intros r Hin. specialize (Hr r Hin).
    apply Forall2_length in Hr. cbn [skipn] in Hr.
    destruct (col_widths_fit rows headers 0 widths Ew) as [Hh _].
    apply Forall2_length in Hh. rewrite <- Hh in Hr.
    rewrite length_firstn in Hr. lia.
  - intros H. unfold _print_table.
    destruct (col_widths_total rows headers 0) as [widths Hw].
    { eapply Forall_impl; [|exact H]. cbn. intros r Hr. lia. }
    rewrite Hw.
    destruct (Hrun widths Hw) as (hr & body & _ & -> & _ & -> & _).
    discriminate.
  - intros lines H. unfold _print_table in H.
    destruct (col_widths_from 0 rows headers) as [widths|] eqn:Ew; [|discriminate].
    destruct (Hrun widths eq_refl) as (hr & body & _ & Hc & Hl & Hb & Hn & Hall).
    rewrite Hc, Hb in H. injection H as <-.
    split.
    + cbn [app length]. rewrite length_app, Hn. cbn [length]. lia.
    + exists (total_width widths).
      repeat (constructor; [first [apply rule_length|now apply table_line_length]|]).
      apply Forall_app. split; [exact Hall|].
      constructor; [apply rule_length|constructor].
Qed.

Example printed_table_sample :
  option_map (map (@length N))
    (_print_table [[lit "Avg TTFB"; lit "412 ms"]; [lit "Errors"; lit "0 / 3"]]
                  [lit "Metric"; lit "ambient / zai-org/GLM-4.6"])
  = Some [40; 40; 40; 40; 40; 40].
Proof. vm_compute. reflexivity. Qed.

End TableFacts.

(* ================================================================== *)
(** * The receipts of the first call *)
(* ================================================================== *)

Module FirstInferenceFacts.

Import Py Json PyFacts ShaFacts DecoderFacts.
Import Streaming.
Import VerifyReceipt VerifyFacts ReplayFacts ReportFacts ReportProperties.
Import WireFormat (get_raises, iter_raises, str_iadd_raises, loads_raises,
                   within_limits).
Import ConsumerFacts TimingFacts.
Import SessionReceipt (request_verifiable).
Import FirstInference.
Open Scope N_scope.

Lemma decode_strict_ok (b : bytes) (s : str) :
  decode_strict b = Some s -> text_ok s.
Proof.
  unfold decode_strict. intros H. apply all_some_replace in H. subst s.
  apply (decode_replace_ok b).
Qed.

Lemma decode_strict_line (b : bytes) (s : str) :
  decode_strict b = Some s -> decode_line (LBytes b) = s.
Proof. intros H. cbn [decode_line]. now rewrite H. Qed.

Lemma skipn_length_app {A} (l t : list A) : skipn (length l) (l ++ t) = t.
Proof. induction l as [|x l IH]; [reflexivity|exact IH]. Qed.

(** On a choice the loop of [call_ambient] does what the loop of check 4
    does, and then echoes what the choice added: it raises where check 4
    raises, and on an addition that does not encode. *)
Lemma add_choice_spec (text : str) (choice : pyval) :
  add_choice text choice
  = match choice_content text choice with
    | inl e => inl e
    | inr text' =>
      if forallb encodable (skipn (length text) text') then inr text'
      else inl UnicodeEncodeError
    end.
Proof.
  destruct choice as [| | | | | |o]; try reflexivity.
  unfold add_choice, choice_content, bind. cbn [get ret].
  match goal with
  | |- context [por ?d (PDict [])] => generalize (por d (PDict []))
  end.
  intros delta.
  destruct delta as [| | | | | |d]; try reflexivity. cbn [get ret].
  match goal with
  | |- context [por ?x (PStr [])] => generalize x
  end.
  intros c. unfold por. destruct (truthy c) eqn:Ec.
  - rewrite Ec. destruct c as [| | | |t| |]; try reflexivity.
    cbn [str_iadd ret print]. rewrite skipn_length_app.
    unfold encode, bind. now destruct (forallb encodable t).
  - cbn [truthy str_iadd ret]. rewrite skipn_length_app.
    cbn [forallb]. now rewrite app_nil_r.
Qed.

Lemma add_choice_content (text text' : str) (choice : pyval) :
  add_choice text choice = inr text' -> choice_content text choice = inr text'.
Proof.
  rewrite add_choice_spec.
  destruct (choice_content text choice) as [e|t]; [discriminate|].
  destruct (forallb encodable _); [intros H; exact H|discriminate].
Qed.

(** The exceptions of a frame that is JSON: those of a chunk of another
    shape than the loop expects, and that of the echo. *)
Definition frame_error (e : exn) : Prop :=
  e = AttributeError \/ e = TypeError \/ e = UnicodeEncodeError.

Lemma add_choice_raises (text : str) (choice : pyval) (e : exn) :
  add_choice text choice = inl e -> frame_error e.
Proof.
  rewrite add_choice_spec. unfold frame_error.
  destruct (choice_content text choice) as [e0|t] eqn:E.
  - intros H. injection H as <-.
    apply choice_content_raises in E as [->| ->]; auto.
  - destruct (forallb encodable _); [discriminate|].
    intros H. injection H as <-. auto.
Qed.

(** Where the text that check 4 reconstructs encodes, the echo of each
    addition to it goes through. *)
Lemma choice_content_add (text text' : str) (choice : pyval) :
  choice_content text choice = inr text' -> text_ok text' ->
  add_choice text choice = inr text'.
Proof.
  intros H Hok. rewrite add_choice_spec, H.
  apply choice_content_app in H as (t & -> & _).
  rewrite skipn_length_app. unfold text_ok in Hok.
  rewrite forallb_app in Hok. apply andb_true_iff in Hok as [_ ->].
  reflexivity.
Qed.

Lemma add_choices_content (items : list pyval) :
  forall text text',
    foldM add_choice items text = inr text' ->
    foldM choice_content items text = inr text'.
Proof.
  induction items as [|c items IH]; intros text text' H; [exact H|].
  cbn [foldM] in H |- *. unfold bind in H |- *.
  destruct (add_choice text c) as [e|t1] eqn:E; [discriminate|].
  rewrite (add_choice_content _ _ _ E). now apply IH.
Qed.

Lemma choices_content_add (items : list pyval) :
  forall text text',
    foldM choice_content items text = inr text' -> text_ok text' ->
    foldM add_choice items text = inr text'.
Proof.
  induction items as [|c items IH]; intros text text' H Hok; [exact H|].
  cbn [foldM] in H |- *. unfold bind in H |- *.
  destruct (choice_content text c) as [e|t1] eqn:E; [discriminate|].
  assert (Hok1 : text_ok t1).
  { apply choices_content_app in H as (t & -> & _). unfold text_ok in *.
    rewrite forallb_app in Hok. now apply andb_true_iff in Hok as [-> _]. }
  rewrite (choice_content_add _ _ _ E Hok1). now apply IH.
Qed.

Lemma read_choices_content (text text' : str) (obj : pyval) :
  (choices <- get obj (lit "choices") (PList []) ;;
   items <- iter choices ;;
   foldM add_choice items text) = inr text' ->
  (choices <- get obj (lit "choices") (PList []) ;;
   items <- iter choices ;;
   foldM choice_content items text) = inr text'.
Proof.
  unfold bind. destruct (get obj _ _) as [e|choices]; [discriminate|].
  destruct (iter choices) as [e|items]; [discriminate|].
  apply add_choices_content.
Qed.

Lemma read_choices_add (text text' : str) (obj : pyval) :
  (choices <- get obj (lit "choices") (PList []) ;;
   items <- iter choices ;;
   foldM choice_content items text) = inr text' ->
  text_ok text' ->
  (choices <- get obj (lit "choices") (PList []) ;;
   items <- iter choices ;;
   foldM add_choice items text) = inr text'.
Proof.
  unfold bind. destruct (get obj _ _) as [e|choices]; [discriminate|].
  destruct (iter choices) as [e|items]; [discriminate|].
  apply choices_content_add.
Qed.

(** A frame [call_ambient] got through adds to the text what check 4
    adds to the content. *)
Lemma read_event_content (text data text' : str) :
  strip data = data -> str_eqb data DONE = false ->
  read_event text data = inr text' ->
  event_content text (parsed_frame data) = inr text'.
Proof.
  intros Hs Hd. unfold read_event, parsed_frame. rewrite Hs.
  change (lit "[DONE]") with DONE. rewrite Hd.
  destruct (loads data) as [e|obj] eqn:El.
  - apply loads_raises in El as ->. intros H. exact H.
  - intros H. pose proof (read_choices_content _ _ _ H) as H'.
    destruct obj; try exact H'.
    discriminate.
Qed.

Lemma read_event_raises (text data : str) (e : exn) :
  read_event text data = inl e -> frame_error e.
Proof.
  unfold read_event, frame_error.
  destruct (loads data) as [e0|obj] eqn:El.
  - apply loads_raises in El as ->. discriminate.
  - unfold bind.
    destruct (get obj _ _) as [e1|choices] eqn:E1;
      [intros H; injection H as <-; apply get_raises in E1; auto|].
    destruct (iter choices) as [e2|items] eqn:E2;
      [intros H; injection H as <-; apply iter_raises in E2; auto|].
    intros H. eapply (foldM_raises frame_error); [|exact H].
    intros b a e0. apply add_choice_raises.
Qed.

Lemma stripped_frame (s : str) : strip (strip (skipn 5 (strip s))) = strip (skipn 5 (strip s)).
Proof. apply TextFacts.strip_idem. Qed.

(** What the loop of [call_ambient] leaves when it ends without an
    exception: the frames the streaming client would reach, each of them
    encodable, and the text check 4 reconstructs from them. *)
Lemma read_lines_inv (lines : list bytes) :
  forall text0 raw0 text raw stop,
    read_lines lines text0 raw0 = inr (text, raw, stop) ->
    Forall text_ok raw0 ->
    foldM event_content (map parsed_frame raw0) [] = inr text0 ->
    raw = raw0 ++ through_sentinel (_iter_sse_data (map LBytes lines))
    /\ Forall text_ok raw
    /\ foldM event_content (map parsed_frame raw) [] = inr text.
Proof.
  induction lines as [|l rest IH]; intros text0 raw0 text raw stop H Hok Hc.
  - injection H as <- <- _. cbn. rewrite app_nil_r. auto.
  - cbn [read_lines] in H. cbn [map _iter_sse_data].
    destruct (decode_strict l) as [s|] eqn:Ed; [|discriminate].
    rewrite (decode_strict_line l s Ed).
    destruct (startswith (strip s) DATA_PREFIX); cbn [negb] in H;
      [|now apply (IH _ _ _ _ _ H)].
    set (data := strip (skipn 5 (strip s))) in *.
    assert (Hdata : text_ok data).
    { apply strip_ok, skipn_ok, strip_ok, (decode_strict_ok l s Ed). }
    assert (Hstrip : strip data = data) by apply stripped_frame.
    assert (Hok' : Forall text_ok (raw0 ++ [data])).
    { apply Forall_app. split; [exact Hok|]. constructor; [exact Hdata|constructor]. }
    cbn [through_sentinel]. unfold is_sentinel. rewrite Hstrip.
    destruct (str_eqb data DONE) eqn:Hd.
    + injection H as <- <- _. split; [reflexivity|]. split; [exact Hok'|].
      rewrite map_app, foldM_app, Hc. cbn [bind map foldM].
      unfold parsed_frame. rewrite Hstrip. change (lit "[DONE]") with DONE.
      rewrite Hd. reflexivity.
    + destruct (read_event text0 data) as [e|text1] eqn:Er; [discriminate|].
      destruct (IH _ _ _ _ _ H Hok') as (Hraw & Hall & Hcontent).
      { rewrite map_app, foldM_app, Hc. cbn [bind map foldM].
        rewrite (read_event_content _ _ _ Hstrip Hd Er). reflexivity. }
      split; [|split; assumption].
      rewrite Hraw, <- app_assoc. reflexivity.
Qed.

Lemma read_lines_raises (lines : list bytes) :
  forall text0 raw0 e,
    read_lines lines text0 raw0 = inl e ->
    e = UnicodeDecodeError \/ e = Exn AttributeError \/ e = Exn TypeError
    \/ e = Exn UnicodeEncodeError.
Proof.
  induction lines as [|l rest IH]; intros text0 raw0 e H; [discriminate|].
  cbn [read_lines] in H.
  destruct (decode_strict l) as [s|]; [|injection H as <-; auto].
  destruct (startswith (strip s) DATA_PREFIX); cbn [negb] in H;
    [|now apply (IH _ _ _ H)].
  destruct (str_eqb _ DONE); [discriminate|].
  destruct (read_event text0 _) as [e1|text1] eqn:Er.
  - injection H as <-. apply read_event_raises in Er as [->|[->| ->]]; auto.
  - now apply (IH _ _ _ H).
Qed.

Lemma call_ambient_inv (w : world) (text : str) (raw : list str) :
  call_ambient w = inr (text, raw) ->
  raw = through_sentinel (received w)
  /\ Forall text_ok raw
  /\ foldM event_content (map parsed_frame raw) [] = inr text.
Proof.
  unfold call_ambient, received.
  destruct (server w) as [exc|lines failure]; [discriminate|].
  destruct (read_lines lines [] []) as [e|[[text1 raw1] stop]] eqn:Hr;
    [discriminate|].
  intros H.
  assert (E : text1 = text /\ raw1 = raw).
  { destruct stop; [|destruct failure; [discriminate|]];
      injection H as <- <-; auto. }
  destruct E as [-> ->].
  apply (read_lines_inv lines [] [] text raw stop Hr); [constructor|reflexivity].
Qed.

Lemma save_receipt_inv (w : world) (prompt_doc : bytes) (raw : list str)
      (fs : filesystem) :
  Forall text_ok raw ->
  exists p,
    save_receipt w prompt_doc raw fs
    = (inr p,
       mkFs (RECEIPT_DIR :: dirs fs)
            ((p, mkReceipt (Some MODEL) (Some (wall_time w))
                           (Some (Sha256.hexdigest (octets (join NEWLINE raw))))
                           (Some (Sha256.hexdigest prompt_doc))
                           (Some (Z.of_nat (length raw)))
                           (Some raw)) :: files fs)).
Proof.
  intros Hok. unfold save_receipt.
  rewrite (encode_ok (join NEWLINE raw)) by (now apply forallb_join).
  eexists. reflexivity.
Qed.

(** X25. The receipt that [first_inference.py] saves, verified. [main]
    saves a receipt only for a call that returned a text that is not
    empty; the receipt holds the frames the streaming client would reach
    on the same response. Verification of it raises nothing but the
    [AttributeError] or [TypeError] of a usage block it cannot read,
    which the call never looks at; a report it returns counts as many
    content characters as the text has, its two hash checks and its
    content check pass, and the receipt is verified exactly when every
    frame is the sentinel or JSON. *)
Theorem saved_receipt_report
        (w : world) (prompt_doc : bytes) (fs fs' : filesystem) (p : path) :
  main w prompt_doc fs = (inr (Some p), fs') ->
  let seen := through_sentinel (received w) in
  exists text rc,
    call_ambient w = inr (text, seen)
    /\ text <> []
    /\ fs' = mkFs (RECEIPT_DIR :: dirs fs) ((p, rc) :: files fs)
    /\ r_raw_events rc = Some seen
    /\ r_model rc = Some MODEL
    /\ (forall path e,
          verify_receipt rc path = inl e -> e = AttributeError \/ e = TypeError)
    /\ forall path v,
         verify_receipt rc path = inr v ->
         event_count v = Z.of_nat (length seen)
         /\ content_chars v = Z.of_nat (length text)
         /\ status_of (lit "events_hash") (checks v) = Some PASS
         /\ status_of (lit "payload_hash") (checks v) = Some PASS
         /\ status_of (lit "content") (checks v) = Some PASS
         /\ (verified v = true <-> bad_frames seen = []).
Proof.
  intros Hrun seen. unfold main in Hrun.
  destruct (call_ambient w) as [e|[text raw]] eqn:Hcall; [discriminate|].
  destruct (call_ambient_inv w text raw Hcall) as (Hraw & Hok & Hcontent).
  fold seen in Hraw. subst raw.
  destruct text as [|c0 t0]; [discriminate|].
  destruct (save_receipt_inv w prompt_doc seen fs Hok) as [p' Hsave].
  rewrite Hsave in Hrun. injection Hrun as <- <-.
  set (text := c0 :: t0) in *.
  set (m := octets (join NEWLINE seen)) in *.
  match goal with
  | |- context [(p', ?x) :: files fs] => set (rc := x)
  end.
  exists text, rc.
  split; [reflexivity|]. split; [discriminate|]. split; [reflexivity|].
  split; [reflexivity|]. split; [reflexivity|].
  assert (Hh : _hash (join NEWLINE (or_default (r_raw_events rc) []))
               = inr (Sha256.hexdigest m)).
  { unfold _hash. cbn [rc r_raw_events or_default].
    rewrite (encode_ok (join NEWLINE seen)) by (now apply forallb_join).
    reflexivity. }
  split.
  - intros path e He. rewrite verify_receipt_report in He.
    unfold report in He. cbv zeta in He. rewrite Hh in He.
    cbn [rc r_raw_events or_default bind] in He.
    rewrite Hcontent in He. cbn [bind] in He.
    destruct (usage_scan (rev (map parsed_frame seen))) as [e3|found] eqn:E3.
    { injection He as <-. left. now apply usage_scan_raises in E3. }
    cbn [bind] in He.
    destruct (match found with Some tokens => tokens | None => _ end) as [pt ct].
    unfold bind in He. right.
    destruct (gt0 pt) as [e1|q] eqn:E1.
    { injection He as <-. now apply gt0_raises in E1. }
    destruct q; [discriminate|].
    destruct (gt0 ct) as [e2|q] eqn:E2; [|discriminate].
    injection He as <-. now apply gt0_raises in E2.
  - intros path v Hv. apply report_inv in Hv. cbv zeta in Hv.
    destruct Hv as (h & content & found & positive & c3 & c5 & Hh' & Hc & _ & _
                    & _ & _ & _ & Hn & Hchars & _ & Hcs & Hn3 & Hs3 & Hn5 & Hs5).
    rewrite Hh in Hh'. injection Hh' as <-.
    cbn [rc r_raw_events or_default] in Hc, Hn, Hs3.
    rewrite Hcontent in Hc. injection Hc as <-.
    destruct (status_of_five _ _ c3 _ c5
                (events_hash_check_name rc (Sha256.hexdigest m))
                (payload_hash_check_name rc) Hn3
                (content_result_name (content_chars v) (content_deltas v)) Hn5)
      as (S1 & S2 & S3 & S4 & S5).
    cbv zeta in S1, S2, S3, S4, S5. rewrite <- Hcs in S1, S2, S3, S4, S5.
    pose proof (events_hash_check_pass rc m eq_refl) as P1.
    pose proof (payload_hash_check_pass rc prompt_doc eq_refl) as P2.
    assert (P4 : status (content_result (content_chars v) (content_deltas v))
                 = PASS).
    { rewrite content_result_status, Hchars. reflexivity. }
    split; [exact Hn|]. split; [exact Hchars|].
    split; [now rewrite S1, P1|]. split; [now rewrite S2, P2|].
    split; [now rewrite S4, P4|].
    unfold verified. rewrite Hcs. cbn [forallb]. rewrite P1, P2, Hs3, P4, Hs5.
    assert (H5 : negb (status_eqb (if positive then PASS else SKIP) FAIL) = true)
      by now destruct positive.
    rewrite H5. cbn [status_eqb negb andb].
    destruct (bad_frames seen) as [|b bs]; cbn; split; congruence.
Qed.

(** A response of three frames and the sentinel, with a blank line and a
    line after the sentinel. *)
Definition hello_lines : list bytes :=
  [qlit "data: {'choices': [{'delta': {'content': 'Hel'}}]}";
   [];
   qlit "data: {'choices': [{'delta': {'content': 'lo'}, 'finish_reason': 'stop'}]}";
   qlit "data: {'choices': [], 'usage': {'prompt_tokens': 3, 'completion_tokens': 2}}";
   lit "data: [DONE]";
   lit "data: late"].

Definition hello_world : world :=
  mkWorld (fun _ => 0%Q) 1700000000 (Body hello_lines None).

Definition hello_doc : bytes :=
  qlit "{'model': 'zai-org/GLM-4.6', 'prompt': 'Hi'}".

Definition hello_run : (raised + option path) * filesystem :=
  Eval vm_compute in main hello_world hello_doc (mkFs [] []).

Definition hello_path : path :=
  Eval vm_compute in
    match fst hello_run with
    | inr (Some p) => p
    | _ => ([], [])
    end.

Lemma hello_run_eq :
  main hello_world hello_doc (mkFs [] []) = (inr (Some hello_path), snd hello_run).
Proof. vm_compute. reflexivity. Qed.

Lemma saved_receipt_report_witness :
  exists text rc,
    call_ambient hello_world = inr (text, (through_sentinel (received hello_world)))
    /\ text <> []
    /\ snd hello_run
       = mkFs (RECEIPT_DIR :: dirs (mkFs [] []))
              ((hello_path, rc) :: files (mkFs [] []))
    /\ r_raw_events rc = Some (through_sentinel (received hello_world))
    /\ r_model rc = Some MODEL
    /\ (forall path e,
          verify_receipt rc path = inl e -> e = AttributeError \/ e = TypeError)
    /\ forall path v,
         verify_receipt rc path = inr v ->
         event_count v = Z.of_nat (length (through_sentinel (received hello_world)))
         /\ content_chars v = Z.of_nat (length text)
         /\ status_of (lit "events_hash") (checks v) = Some PASS
         /\ status_of (lit "payload_hash") (checks v) = Some PASS
         /\ status_of (lit "content") (checks v) = Some PASS
         /\ (verified v = true <-> bad_frames (through_sentinel (received hello_world)) = []).
Proof.
  apply (saved_receipt_report hello_world hello_doc (mkFs [] []) (snd hello_run)
                              hello_path).
  exact hello_run_eq.
Defined.

(** The run above: the text, the name of the file, and the verdict. *)
Example hello_run_sample :
  call_ambient hello_world
  = inr (lit "Hello", through_sentinel (received hello_world))
  /\ length (through_sentinel (received hello_world)) = 4%nat
  /\ hello_path
     = (lit "data/receipts",
        lit "1700000000_zai-org_GLM-4.6_"
        ++ firstn 16 (Sha256.hexdigest
                        (octets (join NEWLINE
                                   (through_sentinel (received hello_world)))))
        ++ lit ".json")
  /\ match files (snd hello_run) with
     | [(_, rc)] =>
       option_map verified
         (match verify_receipt rc (lit "r.json") with
          | inr v => Some v
          | inl _ => None
          end) = Some true
     | _ => False
     end.
Proof. vm_compute. repeat split; reflexivity. Qed.

(** A usage block that is a number: the call does not read it and saves
    the receipt, and the verifier raises on it. *)
Example unreadable_usage_sample :
  let w := mkWorld (fun _ => 0%Q) 1700000000
             (Body [qlit "data: {'choices': [{'delta': {'content': 'Hi'}}], 'usage': 5}"]
                   None) in
  match main w hello_doc (mkFs [] []) with
  | (inr (Some _), fs') =>
    match files fs' with
    | [(_, rc)] => verify_receipt rc (lit "r.json") = inl AttributeError
    | _ => False
    end
  | _ => False
  end.
Proof. vm_compute. reflexivity. Qed.

Lemma call_ambient_raises (w : world) (e : raised) :
  call_ambient w = inl e ->
  e = UnicodeDecodeError \/ e = Exn AttributeError \/ e = Exn TypeError
  \/ e = Exn UnicodeEncodeError
  \/ exists msg,
       e = Exn (RequestException msg)
       /\ (server w = Refused msg
           \/ exists lines, server w = Body lines (Some msg)).
Proof.
  unfold call_ambient.
  destruct (server w) as [exc|lines failure].
  - intros H. injection H as <-. do 4 right. exists exc. auto.
  - destruct (read_lines lines [] []) as [e1|[[text raw] stop]] eqn:Hr.
    + intros H. injection H as <-.
      apply read_lines_raises in Hr as [->|[->|[->| ->]]]; auto.
    + destruct stop; [discriminate|]. destruct failure as [exc|]; [|discriminate].
      intros H. injection H as <-. do 4 right. exists exc. split; [reflexivity|].
      right. exists lines. reflexivity.
Qed.

(** X26. On a response whose frames are within the limits of the
    interpreter, the exceptions that leave [main] of [first_inference.py],
    from its call of [call_ambient] on, are those of the call: the
    [UnicodeDecodeError] of a line that is not UTF-8, the [AttributeError]
    or [TypeError] of a frame that is JSON but not a chunk, the
    [UnicodeEncodeError] of the echo of a content with a surrogate, and
    the [RequestException] of a request refused or a stream that failed
    before the sentinel. A frame that is not JSON raises nothing, saving
    the receipt never raises, and a run that raises leaves the receipt
    directory as it was. Within the limits [json.loads] raises what
    [loads] raises, a [JSONDecodeError], which the call catches. *)
Theorem main_raises
        (w : world) (prompt_doc : bytes) (fs fs' : filesystem) (e : raised) :
  forallb within_limits (through_sentinel (received w)) = true ->
  main w prompt_doc fs = (inl e, fs') ->
  fs' = fs
  /\ call_ambient w = inl e
  /\ (e = UnicodeDecodeError \/ e = Exn AttributeError \/ e = Exn TypeError
      \/ e = Exn UnicodeEncodeError
      \/ exists msg,
           e = Exn (RequestException msg)
           /\ (server w = Refused msg
               \/ exists lines, server w = Body lines (Some msg))).
Proof.
  intros _. unfold main.
  destruct (call_ambient w) as [e1|[text raw]] eqn:Hcall.
  - intros H. injection H as <- <-. split; [reflexivity|]. split; [reflexivity|].
    now apply call_ambient_raises.
  - destruct text as [|c0 t0]; [discriminate|].
    destruct (call_ambient_inv w _ raw Hcall) as (_ & Hok & _).
    destruct (save_receipt_inv w prompt_doc raw fs Hok) as [p ->].
    discriminate.
Qed.

(** A line that is not UTF-8 after a frame. *)
Definition broken_world : world :=
  mkWorld (fun _ => 0%Q) 1700000000
          (Body [qlit "data: {'choices': [{'delta': {'content': 'Hi'}}]}";
                 [0x64; 0x61; 0x74; 0x61; 0x3A; 0xFF]]
                None).

Lemma main_raises_witness :
  mkFs [] [] = mkFs [] []
  /\ call_ambient broken_world = inl UnicodeDecodeError
  /\ (UnicodeDecodeError = UnicodeDecodeError
      \/ UnicodeDecodeError = Exn AttributeError
      \/ UnicodeDecodeError = Exn TypeError
      \/ UnicodeDecodeError = Exn UnicodeEncodeError
      \/ exists msg,
           UnicodeDecodeError = Exn (RequestException msg)
           /\ (server broken_world = Refused msg
               \/ exists lines, server broken_world = Body lines (Some msg))).
Proof.
  apply (main_raises broken_world hello_doc (mkFs [] []) (mkFs [] [])
                     UnicodeDecodeError).
  - vm_compute. reflexivity.
  - vm_compute. reflexivity.
Defined.

(** A content that is a surrogate, escaped in a frame of ASCII text: the
    echo raises, and the run writes nothing. *)
Definition surrogate_world : world :=
  mkWorld (fun _ => 0%Q) 1700000000
          (Body [qlit "data: {'choices': [{'delta': {'content': '\ud800'}}]}";
                 lit "data: [DONE]"]
                None).

Example surrogate_sample :
  main surrogate_world hello_doc (mkFs [] [])
  = (inl (Exn UnicodeEncodeError), mkFs [] []).
Proof. vm_compute. reflexivity. Qed.

(** ** The first call and the streaming client *)

(** The line decodes as UTF-8. *)
Definition utf8 (l : bytes) : bool := is_some (decode_strict l).

(** Every line of the response decodes as UTF-8. *)
Definition utf8_response (w : world) : bool :=
  match server w with
  | Refused _ => true
  | Body lines _ => forallb utf8 lines
  end.

Lemma read_lines_stop (lines : list bytes) :
  forall text0 raw0 text raw stop,
    read_lines lines text0 raw0 = inr (text, raw, stop) ->
    stop = existsb is_sentinel (_iter_sse_data (map LBytes lines)).
Proof.
  induction lines as [|l rest IH]; intros text0 raw0 text raw stop H.
  - now injection H as _ _ <-.
  - cbn [read_lines] in H. cbn [map _iter_sse_data].
    destruct (decode_strict l) as [s|] eqn:Ed; [|discriminate].
    rewrite (decode_strict_line l s Ed).
    destruct (startswith (strip s) DATA_PREFIX); cbn [negb] in H;
      [|now apply (IH _ _ _ _ _ H)].
    cbn [existsb]. unfold is_sentinel at 1. rewrite stripped_frame.
    destruct (str_eqb _ DONE); [now injection H as _ _ <-|].
    destruct (read_event text0 _) as [e|text1]; [discriminate|].
    now apply (IH _ _ _ _ _ H).
Qed.

(** A turn of the loop of [stream_chat] that does not raise, as a turn of
    the loop of [call_ambient]. *)
Lemma consume_frame_read (w : world) (t_start thr : Q) (s s1 : session)
      (ev : str) (stop1 : bool) :
  strip ev = ev ->
  text_ok (text (result s1)) ->
  consume_frame w t_start thr s ev = inr (s1, stop1) ->
  raw_events s1 = raw_events s ++ [ev]
  /\ if str_eqb ev DONE
     then stop1 = true /\ text (result s1) = text (result s)
     else stop1 = false
          /\ read_event (text (result s)) ev = inr (text (result s1)).
Proof.
  intros Hs Hok H.
  apply consume_frame_inv in H as (Hraw & _ & _ & _ & Hturn).
  split; [exact Hraw|].
  destruct Hturn as [Hsent Ht _ _ _|Hsent Hl Ht _ _ _
                     |obj content reasoning' Hsent Hl Hx Ht _ _ _];
    unfold is_sentinel in Hsent; rewrite Hs in Hsent; rewrite Hsent.
  - auto.
  - split; [reflexivity|]. unfold read_event. rewrite Hl, Ht. reflexivity.
  - split; [reflexivity|]. unfold read_event. rewrite Hl.
    rewrite Ht in Hok |- *. apply read_choices_add; [|exact Hok].
    pose proof (extract_event_content obj content reasoning' Hx
                                      (text (result s))) as He.
    destruct obj; try (cbn in Hx; discriminate Hx). exact He.
Qed.

(** The loop of [stream_chat] only adds to the text. *)
Lemma consume_text (w : world) (t_start thr : Q) :
  forall frames s s' stop,
    consume w t_start thr s frames = inr (s', stop) ->
    exists t, text (result s') = text (result s) ++ t.
Proof.
  induction frames as [|ev rest IH]; intros s s' stop H.
  - injection H as <- _. exists []. now rewrite app_nil_r.
  - cbn [consume] in H. unfold bind in H.
    destruct (consume_frame w t_start thr s ev) as [e|[s1 stop1]] eqn:E;
      [discriminate|].
    apply SessionFacts.consume_frame_parts in E as (Ht & _).
    destruct stop1.
    + injection H as <- _. eauto.
    + apply IH in H as [t H]. rewrite H, Ht, <- app_assoc. eauto.
Qed.

Lemma consume_read_lines (w : world) (t_start thr : Q) (lines : list bytes) :
  forallb utf8 lines = true ->
  forall s s' stop,
    consume w t_start thr s (_iter_sse_data (map LBytes lines)) = inr (s', stop) ->
    text_ok (text (result s')) ->
    read_lines lines (text (result s)) (raw_events s)
    = inr (text (result s'), raw_events s', stop).
Proof.
  induction lines as [|l rest IH]; intros Hu s s' stop H Hok.
  - now injection H as <- <-.
  - cbn [forallb] in Hu. apply andb_true_iff in Hu as [Hl Hrest].
    unfold utf8 in Hl.
    destruct (decode_strict l) as [s0|] eqn:Ed; [|discriminate].
    cbn [map _iter_sse_data] in H. rewrite (decode_strict_line l s0 Ed) in H.
    cbn [read_lines]. rewrite Ed.
    destruct (startswith (strip s0) DATA_PREFIX); cbn [negb];
      [|now apply IH].
    cbn [consume] in H. unfold bind in H.
    destruct (consume_frame w t_start thr s _) as [e|[s1 stop1]] eqn:E;
      [discriminate|].
    assert (Hok1 : text_ok (text (result s1))).
    { destruct stop1; [now injection H as <- _|].
      apply consume_text in H as [t Ht]. unfold text_ok in *.
      rewrite Ht, forallb_app in Hok.
      now apply andb_true_iff in Hok as [-> _]. }
    apply consume_frame_read in E as (Hraw & Hcase);
      [|apply stripped_frame|exact Hok1].
    destruct (str_eqb _ DONE).
    + destruct Hcase as [-> Ht]. injection H as <- <-.
      now rewrite Hraw, Ht.
    + destruct Hcase as [-> Hr]. rewrite Hr, <- Hraw. now apply IH.
Qed.

(** X27. The two clients agree. For a response on which [stream_chat]
    returns a result: when every line is UTF-8, the result records no
    error and its text encodes as UTF-8, so that the echo of
    [call_ambient] goes through, [call_ambient] returns on the same
    response, with the text of the result and with the frames that
    [stream_chat] logs; and whenever [call_ambient] returns, it returns
    that text and those frames, and the result records no error. *)
Theorem clients_agree
        (w : world) (model : str) (payload : bytes) (thr : Q) (save : bool)
        (receipt_dir : str) (fs fs' : filesystem) (r : StreamResult) :
  stream_chat w model payload thr save receipt_dir fs = (inr r, fs') ->
  (utf8_response w = true -> error r = None -> text_ok (text r) ->
   call_ambient w = inr (text r, through_sentinel (received w)))
  /\ forall t raw,
       call_ambient w = inr (t, raw) ->
       t = text r /\ raw = through_sentinel (received w) /\ error r = None.
Proof.
  intros Hrun.
  apply stream_chat_cases in Hrun as (s & Hreq & Hraw & Hcase).
  assert (Hr : text r = text (result s) /\ error r = error (result s))
    by (destruct Hcase as [(-> & _)|(p & -> & _)]; split; reflexivity).
  destruct Hr as [Ht He]. rewrite Ht, He. clear Hcase Ht He r.
  destruct (request_verifiable w thr s Hreq) as [Hcontent _].
  rewrite Hraw in Hcontent.
  unfold request in Hreq. unfold utf8_response, call_ambient.
  destruct (server w) as [exc|lines failure] eqn:Hserver.
  { split; [|discriminate]. injection Hreq as <-. discriminate. }
  unfold bind in Hreq.
  destruct (consume _ _ _ _ _) as [e|[s1 stop]] eqn:Hloop; [discriminate|].
  pose proof (consume_log _ _ _ _ _ _ _ Hloop) as (_ & _ & Herr & Hstop).
  change (error (result (fresh_session w))) with (@None str) in Herr.
  split.
  - intros Hu Hnone Hok.
    assert (E : s = s1 /\ (stop = true \/ failure = None)).
    { destruct stop; [injection Hreq as <-; auto|].
      destruct failure as [exc|]; injection Hreq as <-; [discriminate|auto]. }
    destruct E as [-> E].
    rewrite (consume_read_lines _ _ _ lines Hu _ _ _ Hloop Hok
             : read_lines lines [] [] = _).
    rewrite Hraw.
    destruct E as [->| ->]; [reflexivity|]. now destruct stop.
  - intros t raw Hcall.
    destruct (read_lines lines [] []) as [e|[[t1 raw1] stop']] eqn:Hread;
      [discriminate|].
    apply read_lines_stop in Hread as Hstop'. rewrite <- Hstop in Hstop'.
    subst stop'.
    apply (read_lines_inv lines [] [] t1 raw1 stop) in Hread as (Hraw1 & _ & Hc1);
      [|constructor|reflexivity].
    cbn [app] in Hraw1. unfold received in Hcontent, Hraw |- *.
    rewrite Hserver in Hcontent, Hraw |- *.
    assert (E : s = s1 /\ t1 = t /\ raw1 = raw).
    { destruct stop; [injection Hreq as <-; injection Hcall as <- <-; auto|].
      destruct failure as [exc|]; [discriminate|].
      injection Hreq as <-; injection Hcall as <- <-; auto. }
    destruct E as (-> & -> & ->). subst raw.
    rewrite Hc1 in Hcontent. injection Hcontent as ->.
    repeat split. exact Herr.
Qed.

Definition hello_session : (exn + StreamResult) * filesystem :=
  Eval vm_compute in
    stream_chat hello_world (lit "m") (lit "{}") (2000 # 1) false
                (lit "data/receipts") (mkFs [] []).

Definition hello_result : StreamResult :=
  Eval vm_compute in
    match fst hello_session with
    | inr r => r
    | inl _ => StreamResult_default
    end.

Lemma hello_session_eq :
  stream_chat hello_world (lit "m") (lit "{}") (2000 # 1) false
              (lit "data/receipts") (mkFs [] [])
  = (inr hello_result, snd hello_session).
Proof. vm_compute. reflexivity. Qed.

Lemma clients_agree_witness :
  (utf8_response hello_world = true -> error hello_result = None ->
   text_ok (text hello_result) ->
   call_ambient hello_world
   = inr (text hello_result, through_sentinel (received hello_world)))
  /\ forall t raw,
       call_ambient hello_world = inr (t, raw) ->
       t = text hello_result
       /\ raw = through_sentinel (received hello_world)
       /\ error hello_result = None.
Proof.
  apply (clients_agree hello_world (lit "m") (lit "{}") (2000 # 1) false
                       (lit "data/receipts") (mkFs [] []) (snd hello_session)
                       hello_result).
  exact hello_session_eq.
Defined.

(** The three hypotheses of the first part hold on the sample, and the
    text is the one the call returns. *)
Example clients_agree_sample :
  utf8_response hello_world = true
  /\ error hello_result = None
  /\ text_ok (text hello_result)
  /\ text hello_result = lit "Hello".
Proof. vm_compute. repeat split; reflexivity. Qed.

(** On the response whose content is a surrogate the clients part:
    [stream_chat] returns the surrogate as its text, without an error,
    and the echo of [call_ambient] raises. *)
Example clients_part_sample :
  match stream_chat surrogate_world (lit "m") (lit "{}") (2000 # 1) false
                    (lit "data/receipts") (mkFs [] []) with
  | (inr r, _) => text r = [0xD800] /\ error r = None
  | _ => False
  end
  /\ utf8_response surrogate_world = true
  /\ call_ambient surrogate_world = inl (Exn UnicodeEncodeError).
Proof. vm_compute. repeat split; reflexivity. Qed.

End FirstInferenceFacts.

(* ================================================================== *)
(** * The chat completions URL *)
(* ================================================================== *)

Module UrlFacts.

Import Py PyFacts TextFacts ProviderUtils.
Import DecoderProperties (startswith_app).
Open Scope N_scope.

Definition SLASH : N := 0x2F.

Lemma startswith_split (s p : str) :
  startswith s p = true -> exists t, s = p ++ t.
Proof.
  revert s. induction p as [|x p IH]; intros s H; [now exists s|].
  destruct s as [|y s]; [discriminate|]. cbn [startswith] in H.
  apply andb_true_iff in H as [Hxy H]. apply N.eqb_eq in Hxy as ->.
  destruct (IH s H) as [t ->]. now exists t.
Qed.

Lemma endswith_app (y suffix : str) : endswith (y ++ suffix) suffix = true.
Proof. unfold endswith. rewrite rev_app_distr. apply startswith_app. Qed.

Lemma endswith_split (s suffix : str) :
  endswith s suffix = true -> exists y, s = y ++ suffix.
Proof.
  unfold endswith. intros H. apply startswith_split in H as [t Ht].
  exists (rev t). rewrite <- (rev_involutive s), Ht, rev_app_distr.
  now rewrite rev_involutive.
Qed.

(** What [lstrip("/")] removes is a run of slashes, and what it leaves
    does not start with one. *)
Lemma lstrip_of_slash (s : str) :
  exists n, s = repeat SLASH n ++ lstrip_of (lit "/") s
            /\ forall c t, lstrip_of (lit "/") s = c :: t -> c <> SLASH.
Proof.
  induction s as [|c s (n & Hn & Hhead)].
  - exists 0%nat. split; [reflexivity|discriminate].
  - cbn [lstrip_of]. change (char_in c (lit "/")) with ((c =? SLASH) || false).
    rewrite orb_false_r. destruct (c =? SLASH) eqn:E.
    + apply N.eqb_eq in E as ->. exists (S n). split; [|exact Hhead].
      cbn [repeat app]. f_equal. exact Hn.
    + exists 0%nat. split; [reflexivity|].
      intros c' t H. injection H as <- _. now apply N.eqb_neq.
Qed.

Lemma rev_repeat (c : N) (n : nat) : rev (repeat c n) = repeat c n.
Proof.
  induction n as [|n IH]; [reflexivity|]. cbn [repeat rev]. rewrite IH.
  clear IH. induction n as [|n IH]; [reflexivity|]. cbn [repeat app].
  now rewrite IH.
Qed.

Lemma rstrip_of_slash (s : str) :
  exists n, s = rstrip_of (lit "/") s ++ repeat SLASH n.
Proof.
  unfold rstrip_of. destruct (lstrip_of_slash (rev s)) as (n & Hn & _).
  exists n. rewrite <- (rev_involutive s) at 1. rewrite Hn at 1.
  now rewrite rev_app_distr, rev_repeat.
Qed.

(** A text whose last character is not a slash is left as it is. *)
Lemma rstrip_of_fixed (y : str) (c : N) :
  c <> SLASH -> rstrip_of (lit "/") (y ++ [c]) = y ++ [c].
Proof.
  intros Hc. unfold rstrip_of. rewrite rev_app_distr. cbn [rev app lstrip_of].
  change (char_in c (lit "/")) with ((c =? SLASH) || false).
  apply N.eqb_neq in Hc. rewrite Hc. cbn [orb].
  change (c :: rev y) with ([c] ++ rev y).
  now rewrite rev_app_distr, rev_involutive.
Qed.

Lemma core_prefix_lstrip (m y q : str) :
  core m -> m = y ++ q -> y = [] \/ lstrip y = y.
Proof.
  intros (_ & Hl & _) ->. destruct y as [|c y]; [now left|]. right.
  apply lstrip_head in Hl. cbn [lstrip]. now rewrite Hl.
Qed.

Lemma core_strip (s : str) : strip s <> [] -> core (strip s).
Proof.
  intros H. split; [exact H|]. apply strip_ends.
Qed.

(** A URL made of the start of a stripped text and the suffix is stripped
    itself. *)
Lemma core_url (y : str) :
  y = [] \/ lstrip y = y -> core (y ++ CHAT_COMPLETIONS).
Proof.
  intros Hy. split; [|split].
  - destruct y; discriminate.
  - destruct Hy as [->|Hy]; [reflexivity|].
    destruct y as [|c y]; [reflexivity|].
    rewrite lstrip_keep by (rewrite Hy; discriminate). now rewrite Hy.
  - rewrite rev_app_distr. rewrite lstrip_keep by discriminate. reflexivity.
Qed.

Lemma core_fixed (m : str) : core m -> strip m = m.
Proof.
  intros H. rewrite <- (app_nil_r m) at 1.
  apply (strip_parts [] m [] eq_refl eq_refl H).
Qed.

(** What the base URL branch returns. *)
Lemma base_url_shape (base url : str) :
  core base ->
  url = (if negb (endswith (rstrip_of (lit "/") base) CHAT_COMPLETIONS)
         then rstrip_of (lit "/") base ++ CHAT_COMPLETIONS
         else rstrip_of (lit "/") base) ->
  exists y n,
    url = y ++ CHAT_COMPLETIONS
    /\ (y = [] \/ lstrip y = y)
    /\ (base = y ++ repeat SLASH n
        \/ base = y ++ CHAT_COMPLETIONS ++ repeat SLASH n).
Proof.
  intros Hcore ->. destruct (rstrip_of_slash base) as [n Hn].
  set (stem := rstrip_of (lit "/") base) in *.
  destruct (endswith stem CHAT_COMPLETIONS) eqn:E; cbn [negb].
  - apply endswith_split in E as [y Hy]. exists y, n.
    split; [exact Hy|]. rewrite Hy, <- app_assoc in Hn.
    split; [apply (core_prefix_lstrip base y _ Hcore Hn)|now right].
  - exists stem, n. split; [reflexivity|].
    split; [apply (core_prefix_lstrip base stem _ Hcore Hn)|now left].
Qed.

(** X28. The URL built from a base URL. When the variable of the full URL
    is unset or blank and the variable of the base URL is not, the URL
    returned is the stripped base URL without the slashes at its end, with
    [/chat/completions] added unless it ends with it already: it ends with
    [/chat/completions] and has no white space at its ends, and it is a
    fixed point, so that setting the base URL to it gives the same URL
    again. *)
Theorem base_url_normal_form
        (env : environ) (api_url_env base_url_env default_url : str) :
  strip (getenv env api_url_env []) = [] ->
  strip (getenv env base_url_env []) <> [] ->
  let base := strip (getenv env base_url_env []) in
  let url := build_chat_completions_url env api_url_env base_url_env default_url in
  (exists y n,
      url = y ++ CHAT_COMPLETIONS
      /\ (base = y ++ repeat SLASH n
          \/ base = y ++ CHAT_COMPLETIONS ++ repeat SLASH n))
  /\ endswith url CHAT_COMPLETIONS = true
  /\ strip url = url
  /\ forall env' default_url',
       strip (getenv env' api_url_env []) = [] ->
       getenv env' base_url_env [] = url ->
       build_chat_completions_url env' api_url_env base_url_env default_url'
       = url.
Proof.
  intros Hexplicit Hbase base url.
  pose proof (core_strip _ Hbase) as Hcore. fold base in Hcore, Hbase.
  assert (Hurl : url = if negb (endswith (rstrip_of (lit "/") base) CHAT_COMPLETIONS)
                       then rstrip_of (lit "/") base ++ CHAT_COMPLETIONS
                       else rstrip_of (lit "/") base).
  { subst url. unfold build_chat_completions_url. rewrite Hexplicit. fold base.
    destruct base; [congruence|reflexivity]. }
  destruct (base_url_shape base url Hcore Hurl) as (y & n & Hy & Hlead & Hshape).
  clear Hurl.
  pose proof (core_url y Hlead) as Hc. rewrite <- Hy in Hc.
  split; [exists y, n; auto|].
  split; [rewrite Hy; apply endswith_app|].
  split; [now apply core_fixed|].
  intros env' d' Hexplicit' Hbase'.
  unfold build_chat_completions_url. rewrite Hexplicit', Hbase'.
  rewrite (core_fixed url Hc).
  destruct url as [|c0 u0] eqn:Eu; [destruct y; discriminate|].
  rewrite <- Eu in *. clear Eu c0 u0.
  assert (Hfix : rstrip_of (lit "/") url = url).
  { rewrite Hy. change CHAT_COMPLETIONS with (lit "/chat/completion" ++ [0x73]).
    rewrite app_assoc. apply rstrip_of_fixed. discriminate. }
  rewrite Hfix, Hy, endswith_app. reflexivity.
Qed.

Definition sample_env : environ :=
  [(lit "AMBIENT_API_URL", lit "  ");
   (lit "AMBIENT_BASE_URL", lit " https://api.ambient.xyz/v1// ")].

Definition sample_base : str :=
  strip (getenv sample_env (lit "AMBIENT_BASE_URL") []).

Definition sample_url : str :=
  build_chat_completions_url
    sample_env (lit "AMBIENT_API_URL") (lit "AMBIENT_BASE_URL")
    (lit "https://api.ambient.xyz/v1/chat/completions").

Lemma base_url_normal_form_witness :
  (exists y n,
      sample_url = y ++ CHAT_COMPLETIONS
      /\ (sample_base = y ++ repeat SLASH n
          \/ sample_base = y ++ CHAT_COMPLETIONS ++ repeat SLASH n))
  /\ endswith sample_url CHAT_COMPLETIONS = true
  /\ strip sample_url = sample_url
  /\ forall env' default_url',
       strip (getenv env' (lit "AMBIENT_API_URL") []) = [] ->
       getenv env' (lit "AMBIENT_BASE_URL") [] = sample_url ->
       build_chat_completions_url env' (lit "AMBIENT_API_URL")
                                  (lit "AMBIENT_BASE_URL") default_url'
       = sample_url.
Proof.
  apply (base_url_normal_form
           sample_env (lit "AMBIENT_API_URL") (lit "AMBIENT_BASE_URL")
           (lit "https://api.ambient.xyz/v1/chat/completions")).
  - vm_compute. reflexivity.
  - vm_compute. discriminate.
Defined.

(** The three branches on samples: the full URL wins, the base URL is
    completed, and the default is the last resort. *)
Example build_chat_completions_url_sample :
  build_chat_completions_url sample_env (lit "AMBIENT_API_URL")
                             (lit "AMBIENT_BASE_URL") (lit "d")
  = lit "https://api.ambient.xyz/v1/chat/completions"
  /\ build_chat_completions_url [(lit "U", lit " http://h/x ")]
                                (lit "U") (lit "B") (lit "d")
     = lit "http://h/x"
  /\ build_chat_completions_url [(lit "B", lit "///")]
                                (lit "U") (lit "B") (lit "d")
     = lit "/chat/completions"
  /\ build_chat_completions_url [(lit "B", lit "http://h/chat/completions/")]
                                (lit "U") (lit "B") (lit "d")
     = lit "http://h/chat/completions"
  /\ build_chat_completions_url [] (lit "U") (lit "B") (lit "d") = lit "d".
Proof. vm_compute. repeat split; reflexivity. Qed.

End UrlFacts.

(* ================================================================== *)
(** * Loading a [.env] file *)
(* ================================================================== *)

Module EnvLoaderFacts.

Import Py PyFacts TextFacts.
Import ProviderUtils (environ, getenv, splitlines, lstrip_of, rstrip_of).
Import ProviderUtilsFacts (strip_chars).
Import EnvLoader.
Open Scope N_scope.

(** ** Inline comments *)

(** Where the loop returns early: [line[:i]] at the first number sign
    that is outside quotes and at the start or after white space. *)
Fixpoint find_comment (in_quote : option N) (seen rest : str) : option str :=
  match rest with
  | [] => None
  | ch :: rest' =>
    if (ch =? QUOTE) || (ch =? APOSTROPHE) then
      match in_quote with
      | None => find_comment (Some ch) (ch :: seen) rest'
      | Some q =>
        if q =? ch then find_comment None (ch :: seen) rest'
        else find_comment in_quote (ch :: seen) rest'
      end
    else if (ch =? HASH) && (match in_quote with None => true | Some _ => false end)
    then
      if match seen with [] => true | p :: _ => isspace p end
      then Some (rev seen)
      else find_comment in_quote (ch :: seen) rest'
    else find_comment in_quote (ch :: seen) rest'
  end.

Lemma scan_comment_find (rest : str) :
  forall in_quote seen line,
    scan_comment in_quote seen rest line
    = match find_comment in_quote seen rest with
      | Some before => rstrip before
      | None => line
      end.
Proof.
  induction rest as [|ch rest IH]; intros q seen line; [reflexivity|].
  cbn [scan_comment find_comment].
  destruct ((ch =? QUOTE) || (ch =? APOSTROPHE)).
  - destruct q as [q|]; [destruct (q =? ch)|]; apply IH.
  - destruct ((ch =? HASH) && _); [|apply IH].
    destruct (match seen with [] => true | p :: _ => isspace p end);
      [reflexivity|apply IH].
Qed.

(** The text before the comment ends where the number sign stands. *)
Lemma find_comment_split (rest : str) :
  forall in_quote seen before,
    find_comment in_quote seen rest = Some before ->
    exists a b, rest = a ++ HASH :: b /\ before = rev seen ++ a.
Proof.
  induction rest as [|ch rest IH]; intros q seen before H; [discriminate|].
  cbn [find_comment] in H.
  assert (Hstep : forall q',
             find_comment q' (ch :: seen) rest = Some before ->
             exists a b, ch :: rest = a ++ HASH :: b /\ before = rev seen ++ a).
  { intros q' H'. destruct (IH _ _ _ H') as (a & b & -> & ->).
    exists (ch :: a), b. split; [reflexivity|].
    cbn [rev]. now rewrite <- app_assoc. }
  destruct ((ch =? QUOTE) || (ch =? APOSTROPHE)).
  - destruct q as [q|]; [destruct (q =? ch)|]; eapply Hstep; eauto.
  - destruct ((ch =? HASH) && _) eqn:E; [|eapply Hstep; eauto].
    destruct (match seen with [] => true | p :: _ => isspace p end);
      [|eapply Hstep; eauto].
    injection H as <-. apply andb_true_iff in E as [E _].
    apply N.eqb_eq in E as ->.
    exists [], rest. split; [reflexivity|now rewrite app_nil_r].
Qed.

(** A text cut before the place where the loop returns has no such
    place. *)
Lemma find_comment_cut (a : str) :
  forall b in_quote seen before,
    find_comment in_quote seen (a ++ b) = Some before ->
    (length seen + length a <= length before)%nat ->
    find_comment in_quote seen a = None.
Proof.
  induction a as [|ch a IH]; intros b q seen before H Hlen; [reflexivity|].
  cbn [app find_comment] in H |- *. cbn [length] in Hlen.
  assert (Hstep : forall q',
             find_comment q' (ch :: seen) (a ++ b) = Some before ->
             find_comment q' (ch :: seen) a = None).
  { intros q' H'. apply (IH b q' (ch :: seen) before H'). cbn [length]. lia. }
  destruct ((ch =? QUOTE) || (ch =? APOSTROPHE)).
  - destruct q as [q|]; [destruct (q =? ch)|]; now apply Hstep.
  - destruct ((ch =? HASH) && _); [|now apply Hstep].
    destruct (match seen with [] => true | p :: _ => isspace p end);
      [|now apply Hstep].
    injection H as <-. rewrite length_rev in Hlen. lia.
Qed.

Lemma find_comment_none (rest : str) :
  existsb (N.eqb HASH) rest = false ->
  forall in_quote seen, find_comment in_quote seen rest = None.
Proof.
  induction rest as [|ch rest IH]; intros H q seen; [reflexivity|].
  cbn [existsb] in H. apply orb_false_iff in H as [Hch H].
  cbn [find_comment]. rewrite N.eqb_sym in Hch. rewrite Hch. cbn [andb].
  destruct ((ch =? QUOTE) || (ch =? APOSTROPHE)); [|now apply IH].
  destruct q as [q|]; [destruct (q =? ch)|]; now apply IH.
Qed.

(** What [rstrip] removes is white space. *)
Lemma rstrip_split (s : str) :
  exists ws, s = rstrip s ++ ws /\ forallb isspace ws = true.
Proof.
  unfold rstrip. destruct (lstrip_split (rev s)) as (p & Hp & Hsp).
  exists (rev p). split; [|now rewrite forallb_rev].
  rewrite <- (rev_involutive s) at 1. rewrite Hp at 1.
  now rewrite rev_app_distr.
Qed.

(** X29. [_strip_inline_comment] cuts a line before a number sign and
    the white space in front of it, and nowhere else: the result is the
    line itself, or the line is the result, white space, a number sign and
    the rest. A line without a number sign is returned as it is, and the
    result has no comment left to strip: stripping it again changes
    nothing. *)
Theorem strip_inline_comment_cut (line : str) :
  (_strip_inline_comment line = line
   \/ exists ws rest,
        line = _strip_inline_comment line ++ ws ++ HASH :: rest
        /\ forallb isspace ws = true)
  /\ (existsb (N.eqb HASH) line = false -> _strip_inline_comment line = line)
  /\ _strip_inline_comment (_strip_inline_comment line)
     = _strip_inline_comment line.
Proof.
  assert (Hk : _strip_inline_comment line
               = match find_comment None [] line with
                 | Some before => rstrip before
                 | None => line
                 end) by apply scan_comment_find.
  rewrite Hk. clear Hk.
  destruct (find_comment None [] line) as [before|] eqn:Hf.
  - destruct (find_comment_split line None [] before Hf) as (a & b & Hline & Hb).
    cbn [rev app] in Hb. subst a.
    destruct (rstrip_split before) as (ws & Hws & Hsp).
    split; [|split].
    + right. exists ws, b. split; [|exact Hsp].
      rewrite app_assoc, <- Hws. exact Hline.
    + intros Hno. rewrite (find_comment_none line Hno) in Hf. discriminate.
    + unfold _strip_inline_comment. rewrite scan_comment_find.
      rewrite (find_comment_cut (rstrip before) (ws ++ HASH :: b) None []
                                before); [reflexivity| |].
      * rewrite app_assoc, <- Hws, <- Hline. exact Hf.
      * cbn [length]. rewrite Hws at 2. rewrite length_app. lia.
  - split; [now left|]. split; [reflexivity|].
    unfold _strip_inline_comment. now rewrite scan_comment_find, Hf.
Qed.

(** A quoted number sign stays, one after white space starts a comment,
    and one inside a word does not. *)
Example strip_inline_comment_sample :
  _strip_inline_comment (qlit "KEY='a # b' # note") = qlit "KEY='a # b'"
  /\ _strip_inline_comment (lit "URL=http://h/#top") = lit "URL=http://h/#top"
  /\ _strip_inline_comment (lit "A=1   #x #y") = lit "A=1"
  /\ _strip_inline_comment (lit "it's # kept") = lit "it's # kept".
Proof. vm_compute. repeat split; reflexivity. Qed.

(** ** The variables loaded *)

Lemma is_set_app (env added : environ) (key : str) :
  is_set (env ++ added) key = is_set env key || is_set added key.
Proof. unfold is_set. apply existsb_app. Qed.

Lemma is_set_In (env : environ) (key : str) :
  is_set env key = true <-> In key (map fst env).
Proof.
  unfold is_set. rewrite existsb_exists, in_map_iff. split.
  - intros ([k v] & Hin & Hk). apply str_eqb_eq in Hk. cbn in Hk. subst.
    now exists (key, v).
  - intros ([k v] & Hk & Hin). cbn in Hk. subst.
    exists (key, v). split; [exact Hin|apply str_eqb_refl].
Qed.

Lemma getenv_app (env added : environ) (key default : str) :
  is_set env key = true ->
  getenv (env ++ added) key default = getenv env key default.
Proof.
  induction env as [|[k v] env IH]; [discriminate|].
  cbn [is_set existsb fst app getenv]. fold (is_set env key).
  destruct (str_eqb k key); [reflexivity|exact IH].
Qed.

Lemma partition_equals_key (s key value : str) :
  partition_equals s = Some (key, value) ->
  forallb (fun c => negb (c =? EQUALS)) key = true /\ s = key ++ EQUALS :: value.
Proof.
  revert key. induction s as [|c s IH]; intros key H; [discriminate|].
  cbn [partition_equals] in H. destruct (c =? EQUALS) eqn:E.
  - injection H as <- <-. apply N.eqb_eq in E as ->. split; reflexivity.
  - destruct (partition_equals s) as [[k v]|]; [|discriminate].
    injection H as <- <-. destruct (IH k eq_refl) as [Hk ->].
    cbn [forallb]. rewrite E, Hk. split; reflexivity.
Qed.

(** A name the loop sets. *)
Definition variable_name (key : str) : Prop :=
  key <> [] /\ strip key = key
  /\ forallb (fun c => negb (c =? EQUALS)) key = true
  /\ has_nul key = false.

Lemma assignment_key (raw key value : str) :
  assignment raw = Some (key, value) ->
  strip key = key /\ forallb (fun c => negb (c =? EQUALS)) key = true.
Proof.
  unfold assignment. destruct (_ || _); [discriminate|].
  destruct (partition_equals _) as [[k v]|] eqn:E; [|discriminate].
  intros H. injection H as <- _.
  apply partition_equals_key in E as [Hk _].
  split; [apply strip_idem|now apply strip_chars].
Qed.

Lemma load_lines_inv (lines : list str) :
  forall env,
  exists added,
    snd (load_lines lines env) = env ++ added
    /\ Forall (fun kv => variable_name (fst kv) /\ has_nul (snd kv) = false
                         /\ is_set env (fst kv) = false) added
    /\ NoDup (map fst added).
Proof.
  induction lines as [|raw rest IH]; intros env.
  { exists []. rewrite app_nil_r. repeat split; constructor. }
  cbn [load_lines].
  destruct (assignment raw) as [[key value]|] eqn:Ea; [|apply IH].
  destruct (match key with [] => false | _ :: _ => true end
            && negb (is_set env key)) eqn:Eg; [|apply IH].
  apply andb_true_iff in Eg as [Hne Hset]. apply negb_true_iff in Hset.
  destruct (has_nul key || has_nul value) eqn:En.
  { exists []. rewrite app_nil_r. repeat split; constructor. }
  apply orb_false_iff in En as [Hnk Hnv].
  destruct (IH (env ++ [(key, value)])) as (added & Henv & Hall & Hdup).
  exists ((key, value) :: added). rewrite Henv, <- app_assoc.
  split; [reflexivity|].
  destruct (assignment_key _ _ _ Ea) as [Hs He].
  assert (Hfresh : ~ In key (map fst added)).
  { intros Hin. apply in_map_iff in Hin as ([k v] & Hk & Hin). cbn in Hk. subst k.
    rewrite Forall_forall in Hall. destruct (Hall _ Hin) as (_ & _ & Hset').
    cbn [fst] in Hset'. rewrite is_set_app in Hset'.
    apply orb_false_iff in Hset' as [_ Hset'].
    cbn in Hset'. now rewrite str_eqb_refl in Hset'. }
  split; [|cbn [map fst]; now constructor].
  constructor.
  - cbn [fst snd]. split; [|auto]. split; [now destruct key|auto].
  - eapply Forall_impl; [|exact Hall]. intros [k v] (Hn & Hv & Hset').
    cbn [fst snd] in *. rewrite is_set_app in Hset'.
    apply orb_false_iff in Hset' as [Hset' _]. auto.
Qed.

(** X30. [load_env] does not overwrite. Whatever the file holds and
    however the call ends, [os.environ] afterwards is [os.environ] before
    with variables added: each added name was not set before, is set once,
    is not empty, has no white space at its ends, no equals sign and no
    NUL character, and every variable that was set keeps its value. *)
Theorem load_env_keeps (file : option bytes) (env : environ) :
  exists added,
    snd (load_env file env) = env ++ added
    /\ Forall (fun kv => variable_name (fst kv) /\ has_nul (snd kv) = false
                         /\ is_set env (fst kv) = false) added
    /\ NoDup (map fst added)
    /\ forall key default,
         is_set env key = true ->
         getenv (snd (load_env file env)) key default = getenv env key default.
Proof.
  assert (H : exists added,
             snd (load_env file env) = env ++ added
             /\ Forall (fun kv => variable_name (fst kv)
                                  /\ has_nul (snd kv) = false
                                  /\ is_set env (fst kv) = false) added
             /\ NoDup (map fst added)).
  { unfold load_env. destruct file as [data|].
    - destruct (decode_strict data) as [text|]; [apply load_lines_inv|].
      exists []. rewrite app_nil_r. repeat split; constructor.
    - exists []. rewrite app_nil_r. repeat split; constructor. }
  destruct H as (added & Henv & Hall & Hdup).
  exists added. repeat split; try assumption.
  intros key default Hset. rewrite Henv. now apply getenv_app.
Qed.

(** A file with a comment, an [export], quotes, an inline comment, a
    name that is set already and a name given twice. *)
Example load_env_sample :
  load_env
    (Some (lit "# keys" ++ [0x0D; 0x0A]
           ++ qlit "export AMBIENT_API_KEY='abc' # mine" ++ [0x0A]
           ++ lit "HOME=/tmp" ++ [0x0A]
           ++ lit "not an assignment" ++ [0x0A]
           ++ lit " MODEL = glm # big" ++ [0x0D]
           ++ lit "MODEL=other"))
    [(lit "HOME", lit "/root")]
  = (None,
     [(lit "HOME", lit "/root");
      (lit "AMBIENT_API_KEY", lit "abc");
      (lit "MODEL", lit "glm")]).
Proof. vm_compute. reflexivity. Qed.

(** A NUL character in a value ends the loading with [ValueError], after
    the lines before it have taken effect. *)
Example load_env_nul_sample :
  load_env (Some (lit "A=1" ++ [0x0A] ++ lit "B=" ++ [0x00] ++ [0x0A]
                  ++ lit "C=3")) []
  = (Some ValueError, [(lit "A", lit "1")]).
Proof. vm_compute. reflexivity. Qed.

End EnvLoaderFacts.
